(* ===== verification/_CoqProject ===== *)
-Q . S2P
Prelude.v
Testing.v
CMemory.v
RtosHost.v
Fifo.v
Spsc.v
RingBuffer.v
SpscConc.v
SpscWorkload.v
Scheduler.v
DmaPool.v
DmaConc.v
DmaProgress.v
StateMachine.v
Latency.v
RtosTypes.v
RtosFfi.v
RtosFfiTyped.v
RtosObjects.v
RtosFfiRun.v
RtosClient.v
Spinlock.v
CryptoHost.v
Facade.v
Primitives.v
ToyCrypto.v
MixCrypto.v
Aead.v
Kdf.v
AuthEncoding.v
Session.v
Handshake.v
AuthSession.v
AuthFuzz.v
SessionLife.v
EntropyQueue.v
EntropyPool.v
EntropyConc.v
CryptoTypes.v
CryptoFfi.v
CryptoFfiArgs.v
CryptoObjects.v
CryptoFfiRun.v
CryptoClient.v
CryptoHandshake.v
CryptoFrame.v
AeadFuzz.v
ReplayFuzz.v
ReplayRun.v
ReplayLoop.v
RtosFuzz.v
RtosTests.v
RtosFfiTests.v
CryptoTests.v
CryptoFfiTests.v
UnitTests.v
