(* ===== verification/Prelude.v ===== *)
(** ShawnCore: a verification library for the synchronisation and session code.

    * The program

    The repository holds two [no_std] Rust crates and a C facade over them.
    shawncore-rtos-sync has the lock-free queues, the scheduler, the DMA pool, the
    life-cycle state machine, the latency tracker and the interrupt-safe spinlock;
    shawncore-pq-crypto has the hybrid post-quantum session: entropy, key exchange,
    key derivation, packet protection and an authenticated handshake. Everything
    hardware-dependent (cache maintenance, interrupts, clock, watchdog, panic) is a
    callback the host registers; without it the code calls the panic hook and spins.

    * How it is modelled

    Code is a function in the state monad [M] of this file. A run ends in [Done], in
    [Halted] (it never returns: a missing callback, or a lock that is never freed) or
    in [Undefined] (an index panic, or a read of memory that is unmapped or was never
    written), so "is [Done]" in a theorem says the code returns and is defined.
    Machine integers are [Z] kept in their width by the operations of this file; a
    C-side address is a [Z]; [&mut] output buffers are arguments and results. A weak
    compare-exchange takes a list of booleans that says which attempts fail without
    reason; the fuel of its retry loop is one more than that list, which is always
    enough when the caller runs alone. Concurrency is an explicit step relation that
    cuts each call at its shared accesses, under sequential consistency; SpscConc.v
    relates the cut program to the sequential definition. Its cache callbacks are not
    steps of the cut program: they touch no state of the queue, and the sequential
    definition records them.

    Third-party crates (SHA-2, HMAC, HKDF, ChaCha20, subtle, ml-kem, ml-dsa,
    x25519-dalek) are the operations of the class [CryptoOps]; [CryptoLaws] lists the
    documented functional behaviour the results use (lengths, decapsulation of an
    honest ciphertext, verification of an own signature, commutativity of the
    exchange, the stream cipher undoing itself). No hardness is assumed: results
    about forgeries say what the code accepts. The law for decapsulation is ideal: ML-KEM
    fails on an honest ciphertext with negligible probability, taken as zero.
    ToyCrypto.v and MixCrypto.v are concrete instances, so the laws are consistent and
    concrete runs evaluate; on the second every output depends on every input byte.

    * Files

    - Prelude.v: results, the effect monad, machine integers, bytes, tactics.
      Testing.v: assertions of translated tests.
    - RtosHost.v: rtos error.rs, ffi_error.rs, ffi_callbacks.rs.
    - CMemory.v: the memory behind the C interfaces: allocations of the host, typed
      objects, bytes; class [CType] of the types that have a layout.
    - Fifo.v: the queue interface (class [Fifo]) and its abstract specification.
    - Spsc.v: spsc_queue.rs. init, push and pop; the queue is an instance of [Fifo]
      for every capacity the constructor admits, with 64-bit indices that wrap.
    - RingBuffer.v (Module RB): ring_buffer.rs, the same contract plus peek.
    - SpscConc.v (Module Conc): one producer and one consumer, interleaved. No lost,
      duplicated or reordered item, no data race on a payload, wait-freedom.
    - SpscWorkload.v (Module Workload): the two threads of the host validation tool
      tsan-host-validation.rs on that machine; the workload ends under every schedule
      that keeps running both threads.
    - Scheduler.v (Module Sched): tcb.rs and bitmap_scheduler.rs, with tasks that write
      arbitrary values to mapped memory. Well-formedness, priority selection, faults
      that fail closed, transparent preemption, and the watchdog: a pet needs a check-in
      of every critical task since the pet before it.
    - DmaPool.v (Module Dma): static_dma_pool.rs down to the bytes of the region.
      Refinement of an abstract pool, exclusivity, erasure, stale tokens.
    - DmaConc.v (Module DConc): any number of callers of the pool, interleaved, within
      the 2^32 head mutations the module documents as its operating bound.
      DmaProgress.v (Module DProgress): lock-freedom, as a bound on the accesses that
      can happen between two completed operations.
    - StateMachine.v (Module SM), Latency.v (Module Lat), Spinlock.v (Module Spin):
      state_machine.rs, latency_tracker.rs and interrupt_spinlock.rs (whose lock
      entropy_pool.rs repeats). The spinlock is run by any number of cores; the trace of
      their events is checked against an automaton of the locking protocol per core and
      one of the hand-over between cores.
    - RtosTypes.v: telemetry_queue.rs and the types of the rtos ffi.rs with their
      layouts. RtosFfi.v (Module RtosC): every entry point of that file. RtosFfiTyped.v,
      RtosObjects.v, RtosFfiRun.v (Modules RtosTyped, RtosObj, RtosRun): typed memory and
      the results a successful call leaves in it, the objects and the contract, the run
      of each call. Storage before its initialisation has arbitrary contents.
      RtosClient.v (Module RtosClient): programs that use queues and pools through C.
      RtosFuzz.v (Module Fuzz): the fuzz target rtos_stateful_fuzz.rs.
    - CryptoHost.v: crypto error.rs, ffi_error.rs, ffi_callbacks.rs, zeroize.rs. A
      cache flush is recorded with the bytes that were flushed.
    - Facade.v (Module Facade): the panic handler of shawncore-ffi, alone and with any
      number of callers, interleaved.
    - Primitives.v: the external crates and the wrappers ml_kem_wrapper.rs,
      ml_dsa_wrapper.rs, x25519_wrapper.rs. ToyCrypto.v, MixCrypto.v: sample instances.
    - Aead.v: aead_wrapper.rs. Kdf.v: hybrid_kdf.rs. AuthEncoding.v: auth_handshake.rs.
    - Session.v (Module Sess): session_manager.rs, state, nonces, replay window,
      packets, key integrity, zeroization.
    - Handshake.v (Module Hs) and AuthSession.v (Module Auth): its handshakes.
      AuthFuzz.v (Module AuthFuzz): the fuzz target auth_handshake_fuzz.rs.
    - SessionLife.v (Module Life): every operation of the session manager as an edge
      of a four-phase machine; the invariant that relates state and phase.
    - EntropyQueue.v (Module EQ) and EntropyPool.v (Module Pool): entropy_queue.rs and
      entropy_pool.rs. EntropyConc.v (Module EConc): any number of callers of any number
      of pools and the host producer, cut at every access to a gate, an index, a slot, a
      lock or a pool, and interleaved.
    - CryptoTypes.v: the handle types of the crypto ffi.rs and the machine behind it.
      CryptoFfi.v (Module CryptoC): every entry point of that file. CryptoFfiArgs.v
      (Module CryptoArgs): which arguments are admissible, stated per operand, and that
      the checks decide exactly this. CryptoObjects.v and CryptoFfiRun.v (Modules
      CryptoObj, CryptoRun): typed memory, the contract, the run of each call.
      CryptoClient.v (Module CryptoClient): wire encoding, packets and destruction
      between programs that use the C interface. CryptoHandshake.v (Module
      CryptoHandshake): the authenticated handshake between two such programs.
    - CryptoFrame.v (Module CFrame): the local variables of a program that calls the
      C interface, as cells that lie apart, with what each call does to them.
      AeadFuzz.v (Module AeadFuzz): the fuzz target ffi_aead_fuzz.rs. ReplayFuzz.v
      (Module Replay): session_replay_fuzz.rs; ReplayRun.v and ReplayLoop.v (Modules
      ReplayRun, ReplayLoop): the run of each of its functions, and its loop.
    - RtosTests.v, RtosFfiTests.v, CryptoTests.v, CryptoFfiTests.v (Modules of the same
      names): the unit tests of both crates as programs over the models, under the names
      the source gives them. UnitTests.v (Module UnitTests): that all of them pass.

    * What the theorems show

    Queues: refinement of a bounded first-in first-out list in sequential runs, and
    safety and progress under every interleaving. Memory: the pool hands out each slot
    at most once, frees only with a live token and erases before reuse, also with
    concurrent callers. Scheduling: only valid stack pointers leave a tick. Session:
    both handshakes end with mirrored keys and working traffic; nonces are never
    reused, packets never accepted twice, forgeries never change state; nothing is
    sent or received before the peer is confirmed; keys are wiped before they are flushed,
    and a destroyed session is wiped before its storage is released.
    Entropy: the output stream, bounded mixing, and balanced interrupt masking; under
    every interleaving the calls on a pool are serialisable, each chunk is mixed at most
    once and in order, and every call ends within a fixed number of its own accesses.
    Panics: the host's hooks are called once, whoever panics and whenever.
    C interfaces: bad arguments are refused before memory is touched, and which those are
    is stated exactly (an operand of fixed size that runs past the end of the address
    space is not one of them, unless it is compared with another); a host that keeps
    the documented contract sees no undefined behaviour and no halt; a call changes only
    what it is given to write, a successful one leaves its handle and its results in
    place together, and a failing one leaves its outputs as they were, except for a
    plaintext or a derived key that the code zeroes; the queues, the pool and the
    packets keep their contracts, and the authenticated handshake ends with working
    traffic, when they are used through C.
    Progress: a queue call ends in a fixed number of accesses, pool callers are
    lock-free, and the two-thread workload completes. The stateful fuzz target of the
    rtos crate never fails, whatever its input; the one of the handshake fails exactly
    when a corrupted message is a forgery that the external verification accepts; those
    of packets and sessions fail only when two authentication tags coincide. The unit
    tests of both crates hold of the models, the refusing ones for every choice of
    primitives.

    The contract of a C call is a hypothesis on the host: an operand that passes the
    checks is an object of its type, initialised bytes, or storage to write. Buffers the
    code reborrows as [&mut [u8]] are therefore initialised. Nothing is asked of an
    operand the checks refuse. The sizes of the third-party key types and of the
    session, which the compiler lays out, are the class [CryptoLayout].

    * Not modelled

    Memory orderings weaker than sequential consistency; timing, including the
    constant-time comparison; the wiping of locals that nothing can read afterwards; what
    a call that halts has already written to the caller's buffers; concurrent calls on one
    C handle, which the contract excludes for sessions; what the third-party keys leave
    behind when they are dropped; the re-exports of shawncore-ffi; the benchmarks, which
    only measure. Five unit tests are not translated: one needs the real primitives, one
    tells cache flushes apart by address, two have a callback that acts in the middle of
    the call under test, and one uses a session after its destruction, which the
    documented contract excludes. *)


From stdpp Require Export base tactics decidable list list_numbers numbers relations option strings.
From Stdlib Require Export ZArith Lia Strings.Byte.

#[global] Set Default Goal Selector "!".

Local Open Scope Z_scope.

(** Keep arithmetic folded under [simpl] and [cbn]. *)
#[global] Arguments Z.eqb : simpl never.
#[global] Arguments Z.leb : simpl never.
#[global] Arguments Z.ltb : simpl never.
#[global] Arguments Z.land : simpl never.
#[global] Arguments Z.lor : simpl never.
#[global] Arguments Z.lxor : simpl never.
#[global] Arguments Z.shiftl : simpl never.
#[global] Arguments Z.shiftr : simpl never.
#[global] Arguments Z.testbit : simpl never.

(** * Results and effects *)

(** Rust's [Result]. *)
Inductive result (A E : Type) : Type :=
| Ok (a : A)
| Err (e : E).
Arguments Ok {A E} a.
Arguments Err {A E} e.

#[export] Instance result_eq_dec {A E} `{EqDecision A, EqDecision E} : EqDecision (result A E).
Proof. solve_decision. Defined.

Definition is_ok {A E} (r : result A E) : bool :=
  match r with Ok _ => true | Err _ => false end.

Definition is_err {A E} (r : result A E) : bool := negb (is_ok r).

(** What running a piece of code on a state can lead to: a value and the
    next state; a halt, when a host callback is not registered and the code
    calls the panic hook and spins for ever; or undefined behaviour (a read
    of memory that is unmapped or was never written). *)
Inductive outcome (S A : Type) : Type :=
| Done (a : A) (s : S)
| Halted (s : S)
| Undefined.
Arguments Done {S A} a s.
Arguments Halted {S A} s.
Arguments Undefined {S A}.

Definition M (S A : Type) : Type := S -> outcome S A.

#[export] Instance M_ret {S} : MRet (M S) := fun A a s => Done a s.
#[export] Instance M_bind {S} : MBind (M S) := fun A B f m s =>
  match m s with
  | Done a s' => f a s'
  | Halted s' => Halted s'
  | Undefined => Undefined
  end.

Definition get {S} : M S S := fun s => Done s s.
Definition put {S} (s' : S) : M S unit := fun _ => Done tt s'.
Definition gets {S A} (f : S -> A) : M S A := fun s => Done (f s) s.
Definition modify {S} (f : S -> S) : M S unit := fun s => Done tt (f s).
Definition halt {S A} : M S A := fun s => Halted s.
Definition undefined {S A} : M S A := fun _ => Undefined.

(** Run a computation on a component of a larger state. *)
Definition zoom {S T A} (get_part : S -> T) (set_part : T -> S -> S) (m : M T A) : M S A :=
  fun s =>
    match m (get_part s) with
    | Done a t => Done a (set_part t s)
    | Halted t => Halted (set_part t s)
    | Undefined => Undefined
    end.

Definition return_or_ub {S A} (o : option A) : M S A :=
  match o with Some a => mret a | None => undefined end.

Fixpoint for_range {T} (start count : nat) (body : nat -> M T unit) : M T unit :=
  match count with
  | O => mret tt
  | S c => body start ;; for_range (S start) c body
  end.

(** * Machine integers

    A [w]-bit unsigned integer is a [Z] in [0, 2^w); the operations write
    out what the Rust operation of the same name does at that width. *)

Definition in_width (w x : Z) : Prop := 0 <= x < 2 ^ w.

Definition u8_max : Z := 2 ^ 8 - 1.
Definition u16_max : Z := 2 ^ 16 - 1.
Definition u32_max : Z := 2 ^ 32 - 1.
Definition u64_max : Z := 2 ^ 64 - 1.

(** [usize] is 64 bits wide: both crates refuse to compile elsewhere. *)
Definition usize_max : Z := u64_max.

Definition wrapping_add (w a b : Z) : Z := (a + b) mod 2 ^ w.
Definition wrapping_sub (w a b : Z) : Z := (a - b) mod 2 ^ w.

Definition checked_add (w a b : Z) : option Z :=
  if a + b <? 2 ^ w then Some (a + b) else None.
Definition checked_mul (w a b : Z) : option Z :=
  if a * b <? 2 ^ w then Some (a * b) else None.

Definition saturating_add (w a b : Z) : Z := Z.min (a + b) (2 ^ w - 1).

(** [a << k] at width [w]: bits shifted past the top are lost. *)
Definition shl (w a k : Z) : Z := Z.shiftl a k mod 2 ^ w.

(** [!a] at width [w]. *)
Definition bnot (w a : Z) : Z := 2 ^ w - 1 - a.

Definition rotate_left (w a k : Z) : Z :=
  Z.lor (shl w a k) (Z.shiftr a (w - k)).

(** [u32::try_from] and friends: [None] when the value does not fit. *)
Definition try_from (w a : Z) : option Z := if a <? 2 ^ w then Some a else None.

(** [as] casts to a narrower width truncate. *)
Definition cast (w a : Z) : Z := a mod 2 ^ w.

Definition is_multiple_of (a b : Z) : bool :=
  if b =? 0 then a =? 0 else a mod b =? 0.

Definition div_ceil (a b : Z) : Z := (a + b - 1) / b.

Definition align_up (a b : Z) : Z := div_ceil a b * b.

Fixpoint pos_trailing_zeros (p : positive) : Z :=
  match p with
  | xO q => 1 + pos_trailing_zeros q
  | _ => 0
  end.

(** [trailing_zeros] of a [w]-bit value; it is [w] for zero. *)
Definition trailing_zeros (w a : Z) : Z :=
  match a with
  | Zpos p => pos_trailing_zeros p
  | _ => w
  end.

(** * Bytes *)

Definition bval (b : byte) : Z := Z.of_N (Byte.to_N b).

Definition byte_of_Z (z : Z) : byte :=
  match Byte.of_N (Z.to_N (z mod 256)) with
  | Some b => b
  | None => x00
  end.

#[export] Instance byte_eq_decision : EqDecision byte := Byte.byte_eq_dec.

Fixpoint le_bytes (n : nat) (z : Z) : list byte :=
  match n with
  | O => []
  | S n' => byte_of_Z z :: le_bytes n' (z / 256)
  end.

Fixpoint le_val (l : list byte) : Z :=
  match l with
  | [] => 0
  | b :: l' => bval b + 256 * le_val l'
  end.

(** [to_be_bytes] *)
Definition be_bytes (n : nat) (z : Z) : list byte := reverse (le_bytes n z).

Definition zeros (n : nat) : list byte := replicate n x00.

Definition all_eq (v : byte) (l : list byte) : bool := forallb (Byte.eqb v) l.

(** [&l[i..j]] for in-range bounds. *)
Definition slice {A} (i j : nat) (l : list A) : list A := take (j - i) (drop i l).

(** ASCII byte-string literals ([b"..."]). *)
Definition bstr (s : String.string) : list byte := String.list_byte_of_string s.

(** Length of a slice as a [usize]. *)
Definition zlen {A} (l : list A) : Z := Z.of_nat (length l).

(** * Automation *)

Create HintDb mach.
Create Rewrite HintDb bytes.

(** Unfold the effect combinators and reduce. *)
Ltac msimpl :=
  unfold mbind, M_bind, mret, M_ret, gets, modify, get, put, halt, undefined, return_or_ub in *;
  cbn beta iota zeta in *.

(** Turn the boolean comparisons of the code into propositions for [lia]. *)
Ltac boolify :=
  repeat match goal with
  | H : context [?a <? ?b] |- _ => destruct (Z.ltb_spec a b)
  | H : context [?a <=? ?b] |- _ => destruct (Z.leb_spec a b)
  | H : context [?a =? ?b] |- _ => destruct (Z.eqb_spec a b)
  | |- context [?a <? ?b] => destruct (Z.ltb_spec a b)
  | |- context [?a <=? ?b] => destruct (Z.leb_spec a b)
  | |- context [?a =? ?b] => destruct (Z.eqb_spec a b)
  end.

(** Case analysis on the innermost [match] or [if] of the goal or a hypothesis. *)
Ltac dmatch :=
  match goal with
  | |- context [match ?x with _ => _ end] =>
      lazymatch x with context [match _ with _ => _ end] => fail | _ => destruct x eqn:? end
  end.
Ltac dmatch_in H :=
  match type of H with
  | context [match ?x with _ => _ end] =>
      lazymatch x with context [match _ with _ => _ end] => fail | _ => destruct x eqn:? end
  end.

(** * Machine-integer lemmas *)

Lemma pow2_pos (w : Z) : 0 <= w -> 0 < 2 ^ w.
Proof. intros; apply Z.pow_pos_nonneg; lia. Qed.
#[export] Hint Resolve pow2_pos : mach.

Lemma mod_mod_divide (a m n : Z) : 0 < n -> 0 < m -> (n | m) -> (a mod m) mod n = a mod n.
Proof. intros. by apply Z.mod_mod_divide. Qed.

Lemma wrapping_add_range (w a b : Z) : 0 <= w -> in_width w (wrapping_add w a b).
Proof. intros. apply Z.mod_pos_bound, pow2_pos; lia. Qed.

Lemma wrapping_sub_range (w a b : Z) : 0 <= w -> in_width w (wrapping_sub w a b).
Proof. intros. apply Z.mod_pos_bound, pow2_pos; lia. Qed.

Lemma shl_range (w a b : Z) : 0 <= w -> in_width w (shl w a b).
Proof. intros. apply Z.mod_pos_bound, pow2_pos; lia. Qed.
#[export] Hint Resolve wrapping_add_range wrapping_sub_range shl_range : mach.

(** Counters kept modulo [2^w] subtract like the unbounded counters they
    stand for as long as the difference fits. *)
Lemma wrapping_sub_counters (w h t : Z) :
  0 <= w -> 0 <= h - t < 2 ^ w ->
  wrapping_sub w (h mod 2 ^ w) (t mod 2 ^ w) = h - t.
Proof.
  intros Hw Hd. unfold wrapping_sub.
  rewrite <- Zminus_mod. by apply Z.mod_small.
Qed.

Lemma wrapping_add_counter (w h k : Z) :
  0 <= w -> wrapping_add w (h mod 2 ^ w) k = (h + k) mod 2 ^ w.
Proof. intros. unfold wrapping_add. by rewrite Zplus_mod_idemp_l. Qed.

(** Distinct counters less than the modulus apart stay distinct. *)
Lemma mod_eq_close (m a b : Z) : 0 <= a - b < m -> a mod m = b mod m -> a = b.
Proof.
  intros Hd E. assert (P : (a - b) mod m = 0).
  { rewrite Zminus_mod, E, Z.sub_diag. by apply Z.mod_0_l; lia. }
  rewrite Z.mod_small in P by done. lia.
Qed.

Lemma checked_add_Some (w a b s : Z) :
  checked_add w a b = Some s <-> s = a + b /\ a + b < 2 ^ w.
Proof. unfold checked_add. boolify; intuition (congruence || lia). Qed.

Lemma checked_add_None (w a b : Z) : checked_add w a b = None <-> 2 ^ w <= a + b.
Proof. unfold checked_add. boolify; intuition (congruence || lia). Qed.

Lemma checked_mul_Some (w a b s : Z) :
  checked_mul w a b = Some s <-> s = a * b /\ a * b < 2 ^ w.
Proof. unfold checked_mul. boolify; intuition (congruence || lia). Qed.

(** ** Bits *)

Lemma testbit_high (w a i : Z) : in_width w a -> w <= i -> Z.testbit a i = false.
Proof.
  intros [H1 H2] Hi. destruct (Z.eq_dec a 0) as [->|Hne]; [apply Z.testbit_0_l|].
  apply Z.bits_above_log2; [lia|].
  assert (Z.log2 a < w); [|lia]. apply Z.log2_lt_pow2; lia.
Qed.

Lemma in_width_bits (w a : Z) :
  0 <= w -> 0 <= a -> (forall i, w <= i -> Z.testbit a i = false) -> in_width w a.
Proof.
  intros Hw Ha Hbits. split; [done|].
  destruct (Z.eq_dec a 0) as [->|Hne]; [by apply pow2_pos|].
  apply Z.log2_lt_pow2; [lia|].
  destruct (Z_lt_le_dec (Z.log2 a) w) as [|Hge]; [done|].
  specialize (Hbits _ Hge). rewrite Z.bit_log2 in Hbits by lia. done.
Qed.

Lemma lor_width (w a b : Z) : 0 <= w -> in_width w a -> in_width w b -> in_width w (Z.lor a b).
Proof.
  intros Hw Ha Hb. apply in_width_bits; [done| |].
  - apply Z.lor_nonneg; unfold in_width in *; lia.
  - intros i Hi. rewrite Z.lor_spec, !(testbit_high w) by done. done.
Qed.

Lemma land_width (w a b : Z) : 0 <= w -> in_width w a -> in_width w (Z.land a b).
Proof.
  intros Hw Ha. apply in_width_bits; [done| |].
  - apply Z.land_nonneg. unfold in_width in *; lia.
  - intros i Hi. rewrite Z.land_spec, (testbit_high w) by done. done.
Qed.

Lemma lxor_width (w a b : Z) : 0 <= w -> in_width w a -> in_width w b -> in_width w (Z.lxor a b).
Proof.
  intros Hw Ha Hb. apply in_width_bits; [done| |].
  - apply Z.lxor_nonneg; unfold in_width in *; lia.
  - intros i Hi. rewrite Z.lxor_spec, !(testbit_high w) by done. done.
Qed.
#[export] Hint Resolve lor_width land_width lxor_width : mach.

Lemma shl_testbit (w a k i : Z) :
  0 <= w -> 0 <= k -> 0 <= i ->
  Z.testbit (shl w a k) i = (i <? w) && (k <=? i) && Z.testbit a (i - k).
Proof.
  intros Hw Hk Hi. unfold shl. destruct (Z.ltb_spec i w).
  - rewrite Z.mod_pow2_bits_low by lia. rewrite Z.shiftl_spec by lia.
    destruct (Z.leb_spec k i); [done|]. by rewrite Z.testbit_neg_r by lia.
  - by rewrite Z.mod_pow2_bits_high by lia.
Qed.

Lemma shl_one_testbit (w k i : Z) :
  0 <= k < w -> 0 <= i -> Z.testbit (shl w 1 k) i = (i =? k).
Proof.
  intros Hk Hi. unfold shl. rewrite Z.shiftl_1_l.
  rewrite Z.mod_small by (split; [apply Z.pow_nonneg; lia | apply Z.pow_lt_mono_r; lia]).
  rewrite Z.pow2_bits_eqb by lia. apply Z.eqb_sym.
Qed.

Lemma shl_one (w k : Z) : 0 <= k < w -> shl w 1 k = 2 ^ k.
Proof.
  intros Hk. unfold shl. rewrite Z.shiftl_1_l.
  rewrite Z.mod_small; [done|].
  split; [apply Z.pow_nonneg; lia | apply Z.pow_lt_mono_r; lia].
Qed.

Lemma bnot_lnot (w a : Z) : in_width w a -> bnot w a = Z.lnot a mod 2 ^ w.
Proof.
  intros Ha. unfold bnot, in_width in *.
  replace (Z.lnot a) with (- a - 1) by (pose proof (Z.add_lnot_diag a); lia).
  apply (Z.mod_unique_pos _ _ (-1)); lia.
Qed.

Lemma bnot_width (w a : Z) : in_width w a -> in_width w (bnot w a).
Proof. unfold bnot, in_width. lia. Qed.
#[export] Hint Resolve bnot_width : mach.

Lemma bnot_testbit (w a i : Z) :
  in_width w a -> 0 <= i < w -> Z.testbit (bnot w a) i = negb (Z.testbit a i).
Proof.
  intros Ha Hi.
  rewrite bnot_lnot by (done || lia).
  rewrite Z.mod_pow2_bits_low by lia. by rewrite Z.lnot_spec by lia.
Qed.

(** Joining a high part and a low part that do not overlap. *)
Lemma lor_high_low (k a b : Z) :
  0 <= k -> in_width k a -> Z.lor (Z.shiftl b k) a = b * 2 ^ k + a.
Proof.
  intros Hk Ha. rewrite Z.shiftl_mul_pow2 by done. rewrite <- Z.add_lor_land.
  replace (Z.land (b * 2 ^ k) a) with 0; [lia|]. symmetry. apply Z.bits_inj'. intros i Hi.
  rewrite Z.land_spec, Z.testbit_0_l. destruct (Z_lt_le_dec i k).
  - by rewrite Z.mul_pow2_bits_low by lia.
  - by rewrite (testbit_high k a i), andb_false_r.
Qed.

Lemma lxor_cancel_r (a b c : Z) : Z.lxor a c = Z.lxor b c -> a = b.
Proof.
  intros E. apply (f_equal (fun z => Z.lxor z c)) in E.
  by rewrite !Z.lxor_assoc, Z.lxor_nilpotent, !Z.lxor_0_r in E.
Qed.

Lemma rotate_left_width (w a k : Z) : 0 <= k <= w -> in_width w a -> in_width w (rotate_left w a k).
Proof.
  intros Hk Ha. unfold rotate_left. apply lor_width; [lia|apply shl_range; lia|].
  unfold in_width in *. rewrite Z.shiftr_div_pow2 by lia.
  pose proof (pow2_pos (w - k) ltac:(lia)).
  split; [apply Z.div_pos; lia|]. apply Z.div_lt_upper_bound; nia.
Qed.

(** A rotation is undone by reading its bits in the rotated order. *)
Lemma rotate_left_bit (w a k j : Z) :
  0 <= k <= w -> in_width w a -> 0 <= j < w ->
  Z.testbit a j = Z.testbit (rotate_left w a k) (if j <? w - k then j + k else j - (w - k)).
Proof.
  intros Hk Ha Hj. unfold rotate_left. rewrite Z.lor_spec.
  destruct (Z.ltb_spec j (w - k)).
  - rewrite shl_testbit, Z.shiftr_spec by lia.
    rewrite (proj2 (Z.ltb_lt _ _)), (proj2 (Z.leb_le _ _)) by lia. cbn [andb].
    rewrite (testbit_high w a (j + k + (w - k))) by (done || lia).
    rewrite orb_false_r. f_equal. lia.
  - rewrite shl_testbit, Z.shiftr_spec by lia.
    rewrite (proj2 (Z.leb_gt _ _)) by lia. rewrite andb_false_r. cbn [andb orb]. f_equal. lia.
Qed.

Lemma rotate_left_inj (w a b k : Z) :
  0 <= k <= w -> in_width w a -> in_width w b ->
  rotate_left w a k = rotate_left w b k -> a = b.
Proof.
  intros Hk Ha Hb E. apply Z.bits_inj'. intros j Hj. destruct (Z_lt_le_dec j w).
  - rewrite (rotate_left_bit w a k j), (rotate_left_bit w b k j), E by (done || lia). done.
  - by rewrite !(testbit_high w).
Qed.

(** ** Trailing zeros *)

Lemma pos_trailing_zeros_nonneg (p : positive) : 0 <= pos_trailing_zeros p.
Proof. induction p; cbn [pos_trailing_zeros]; lia. Qed.

Lemma pos_trailing_zeros_bit (p : positive) :
  Z.testbit (Zpos p) (pos_trailing_zeros p) = true.
Proof.
  induction p as [p IH|p IH|]; cbn [pos_trailing_zeros]; [done| |done].
  pose proof (pos_trailing_zeros_nonneg p).
  rewrite Pos2Z.pos_xO, Z.add_1_l, Z.double_bits_succ by lia. done.
Qed.

Lemma pos_trailing_zeros_below (p : positive) (i : Z) :
  i < pos_trailing_zeros p -> Z.testbit (Zpos p) i = false.
Proof.
  revert i. induction p as [p IH|p IH|]; cbn [pos_trailing_zeros]; intros i Hi;
    try (apply Z.testbit_neg_r; lia).
  rewrite Pos2Z.pos_xO, Z.double_bits. apply IH. lia.
Qed.

Lemma trailing_zeros_zero (w : Z) : trailing_zeros w 0 = w.
Proof. done. Qed.

(** The result is the index of the lowest set bit. *)
Lemma trailing_zeros_spec (w a : Z) :
  0 < a < 2 ^ w ->
  0 <= trailing_zeros w a < w /\
  Z.testbit a (trailing_zeros w a) = true /\
  (forall i, i < trailing_zeros w a -> Z.testbit a i = false).
Proof.
  intros Ha. destruct a as [|p|p]; [lia| |lia]. cbn [trailing_zeros].
  split_and!.
  - apply pos_trailing_zeros_nonneg.
  - destruct (Z_lt_le_dec (pos_trailing_zeros p) w) as [|Hge]; [done|].
    assert (Z.testbit (Zpos p) (pos_trailing_zeros p) = false).
    { apply (testbit_high w); [unfold in_width; lia|done]. }
    by rewrite pos_trailing_zeros_bit in *.
  - apply pos_trailing_zeros_bit.
  - apply pos_trailing_zeros_below.
Qed.

(** * Byte lemmas *)

Lemma bval_range (b : byte) : 0 <= bval b < 256.
Proof.
  unfold bval. pose proof (Byte.to_N_bounded b). lia.
Qed.

Lemma bval_inj (a b : byte) : bval a = bval b -> a = b.
Proof.
  unfold bval. intros H%N2Z.inj.
  pose proof (Byte.of_to_N a) as Ha. pose proof (Byte.of_to_N b) as Hb.
  rewrite H in Ha. congruence.
Qed.

Lemma bval_of_Z (z : Z) : bval (byte_of_Z z) = z mod 256.
Proof.
  unfold byte_of_Z, bval.
  pose proof (Z.mod_pos_bound z 256 ltac:(lia)) as Hr.
  destruct (Byte.of_N _) as [b|] eqn:E.
  - apply Byte.to_of_N in E. rewrite E. lia.
  - apply Byte.of_N_None_iff in E. lia.
Qed.

Lemma byte_of_Z_bval (b : byte) : byte_of_Z (bval b) = b.
Proof.
  apply bval_inj. rewrite bval_of_Z. apply Z.mod_small, bval_range.
Qed.
#[export] Hint Rewrite bval_of_Z byte_of_Z_bval : bytes.

Lemma length_le_bytes (n : nat) (z : Z) : length (le_bytes n z) = n.
Proof. revert z. induction n; intros; simpl; [done|]. by rewrite IHn. Qed.

Lemma length_be_bytes (n : nat) (z : Z) : length (be_bytes n z) = n.
Proof. unfold be_bytes. by rewrite length_reverse, length_le_bytes. Qed.
#[export] Hint Rewrite length_le_bytes length_be_bytes : bytes.

Lemma le_val_le_bytes (n : nat) (z : Z) : le_val (le_bytes n z) = z mod 256 ^ Z.of_nat n.
Proof.
  revert z. induction n as [|n IH]; intros z; cbn [le_bytes le_val].
  - by rewrite Z.mod_1_r.
  - rewrite IH, bval_of_Z.
    rewrite Nat2Z.inj_succ, Z.pow_succ_r by lia.
    rewrite Z.rem_mul_r; [lia|lia|].
    apply Z.pow_pos_nonneg; lia.
Qed.

Lemma le_val_range (l : list byte) : 0 <= le_val l < 256 ^ zlen l.
Proof.
  unfold zlen. induction l as [|b l IH]; cbn [le_val length]; [done|].
  pose proof (bval_range b). rewrite Nat2Z.inj_succ, Z.pow_succ_r by lia. nia.
Qed.

Lemma le_bytes_le_val (l : list byte) : le_bytes (length l) (le_val l) = l.
Proof.
  induction l as [|b l IH]; cbn [le_bytes le_val length]; [done|].
  pose proof (bval_range b).
  f_equal.
  - apply bval_inj. rewrite bval_of_Z.
    rewrite Z.mul_comm, Z_mod_plus_full. apply Z.mod_small. lia.
  - rewrite Z.mul_comm, Z_div_plus_full by lia.
    by rewrite (Z.div_small (bval b)), Z.add_0_l.
Qed.

Lemma le_val_small (n : nat) (z : Z) :
  0 <= z < 256 ^ Z.of_nat n -> le_val (le_bytes n z) = z.
Proof. intros. rewrite le_val_le_bytes. by apply Z.mod_small. Qed.

Lemma le_bytes_inj (n : nat) (a b : Z) :
  0 <= a < 256 ^ Z.of_nat n -> 0 <= b < 256 ^ Z.of_nat n ->
  le_bytes n a = le_bytes n b -> a = b.
Proof.
  intros Ha Hb E. apply (f_equal le_val) in E. by rewrite !le_val_small in E.
Qed.

Lemma be_bytes_inj (n : nat) (a b : Z) :
  0 <= a < 256 ^ Z.of_nat n -> 0 <= b < 256 ^ Z.of_nat n ->
  be_bytes n a = be_bytes n b -> a = b.
Proof.
  intros Ha Hb E. apply (f_equal reverse) in E. unfold be_bytes in E.
  rewrite !reverse_involutive in E. by eapply le_bytes_inj.
Qed.

Lemma all_eq_spec (v : byte) (l : list byte) :
  all_eq v l = true <-> l = replicate (length l) v.
Proof.
  unfold all_eq. induction l as [|b l IH]; simpl; [done|].
  rewrite andb_true_iff, IH.
  split.
  - intros [E ->]. apply Byte.byte_dec_bl in E. subst b.
    by rewrite length_replicate.
  - intros [= -> E]. split; [by apply Byte.byte_dec_lb | done].
Qed.

Lemma length_zeros (n : nat) : length (zeros n) = n.
Proof. apply length_replicate. Qed.
#[export] Hint Rewrite length_zeros : bytes.

Lemma length_slice {A} (i j : nat) (l : list A) :
  (i <= j <= length l)%nat -> length (slice i j l) = (j - i)%nat.
Proof. intros. unfold slice. rewrite length_take, length_drop. lia. Qed.

(** Splitting a concatenation at a known length. *)
Lemma app_inj_length {A} (a b c d : list A) :
  length a = length b -> a ++ c = b ++ d -> a = b /\ c = d.
Proof. intros. by apply app_inj_1. Qed.

(** Pairs of list elements, each taken once. *)
Lemma ForallOrdPairs_cons_iff {A} (R : A -> A -> Prop) (x : A) (l : list A) :
  ForallOrdPairs R (x :: l) <-> Forall (R x) l /\ ForallOrdPairs R l.
Proof. split; [inversion 1; done|]. intros []. by constructor. Qed.

#[export] Instance ForallOrdPairs_dec {A} (R : A -> A -> Prop) `{!RelDecision R} (l : list A) :
  Decision (ForallOrdPairs R l).
Proof.
  induction l as [|x l IH]; [left; constructor|].
  destruct (decide (Forall (R x) l)) as [Hx|Hx], IH as [Hl|Hl];
    [left; by constructor|right; inversion 1; done..].
Defined.

(** Rounding up does not round down. *)
Lemma align_up_ge (a b : Z) : 0 < b -> a <= align_up a b.
Proof.
  intros. unfold align_up, div_ceil. pose proof (Z.div_mod (a + b - 1) b).
  pose proof (Z.mod_pos_bound (a + b - 1) b). nia.
Qed.

(** * Effect lemmas *)

Lemma mbind_done {T A B} (m : M T A) (f : A -> M T B) (s s' : T) (a : A) :
  m s = Done a s' -> (m ≫= f) s = f a s'.
Proof. intros E. unfold mbind, M_bind. by rewrite E. Qed.

Lemma mbind_halted {T A B} (m : M T A) (f : A -> M T B) (s s' : T) :
  m s = Halted s' -> (m ≫= f) s = Halted s'.
Proof. intros E. unfold mbind, M_bind. by rewrite E. Qed.

Lemma for_range_inv {T} (I : nat -> T -> Prop) (body : nat -> M T unit) (start count : nat) (s : T) :
  (forall i s, (start <= i < start + count)%nat -> I i s ->
     exists s', body i s = Done tt s' /\ I (S i) s') ->
  I start s ->
  exists s', for_range start count body s = Done tt s' /\ I (start + count)%nat s'.
Proof.
  revert start s. induction count as [|c IH]; intros start s Hb HI; cbn [for_range].
  - exists s. by rewrite Nat.add_0_r.
  - destruct (Hb start s) as (s1 & E1 & I1); [lia|done|].
    msimpl. rewrite E1.
    destruct (IH (S start) s1) as (s2 & E2 & I2); [|done|].
    + intros i s' Hi HI'. apply Hb; [lia|done].
    + exists s2. split; [done|]. by rewrite Nat.add_succ_r.
Qed.

(** * Invariants of effectful code *)

(** [m] keeps [P] whenever it ends in a state. *)
Definition keeps {S A} (P : S -> Prop) (m : M S A) : Prop :=
  forall s, P s ->
    match m s with Done _ s' => P s' | Halted s' => P s' | Undefined => True end.

Lemma keeps_ret {S A} (P : S -> Prop) (a : A) : keeps P (mret a).
Proof. by intros s Hs. Qed.

Lemma keeps_bind {S A B} (P : S -> Prop) (m : M S A) (f : A -> M S B) :
  keeps P m -> (forall a, keeps P (f a)) -> keeps P (m ≫= f).
Proof.
  intros Hm Hf s Hs. unfold mbind, M_bind. specialize (Hm s Hs).
  destruct (m s); [by apply Hf|done|done].
Qed.

Lemma keeps_if {S A} (P : S -> Prop) (b : bool) (m1 m2 : M S A) :
  (b = true -> keeps P m1) -> (b = false -> keeps P m2) -> keeps P (if b then m1 else m2).
Proof. destruct b; auto. Qed.

Lemma keeps_get {S A} (P : S -> Prop) (f : S -> M S A) :
  (forall s, P s -> keeps P (f s)) -> keeps P (get ≫= f).
Proof. intros H s Hs. by apply H. Qed.

Lemma keeps_put {S} (P : S -> Prop) (s : S) : P s -> keeps P (put s).
Proof. by intros H s' _. Qed.

Lemma keeps_modify {S} (P : S -> Prop) (f : S -> S) :
  (forall s, P s -> P (f s)) -> keeps P (modify f).
Proof. intros H s Hs. by apply H. Qed.

Lemma keeps_halt {S A} (P : S -> Prop) : keeps P (halt (A := A)).
Proof. by intros s Hs. Qed.

Lemma keeps_undefined {S A} (P : S -> Prop) : keeps P (undefined (A := A)).
Proof. by intros s Hs. Qed.

Lemma keeps_return_or_ub {S A} (P : S -> Prop) (o : option A) : keeps P (return_or_ub o).
Proof. destruct o; [apply keeps_ret|apply keeps_undefined]. Qed.

Lemma keeps_zoom {S T A} (P : S -> Prop) (Q : T -> Prop) (view : S -> T) (back : T -> S -> S) (m : M T A) :
  keeps Q m -> (forall s, P s -> Q (view s)) -> (forall s t, P s -> Q t -> P (back t s)) ->
  keeps P (zoom view back m).
Proof.
  intros Hm Hv Hb s Hs. unfold zoom. specialize (Hm _ (Hv s Hs)).
  destruct (m (view s)); [by apply Hb..|done].
Qed.

Lemma keeps_for_range {S} (P : S -> Prop) (start count : nat) (body : nat -> M S unit) :
  (forall i, keeps P (body i)) -> keeps P (for_range start count body).
Proof.
  intros Hb. revert start. induction count as [|c IH]; intros start; cbn [for_range];
    [apply keeps_ret|]. apply keeps_bind; [apply Hb|intros _; apply IH].
Qed.

(** * Answers of effectful code *)

(** Whatever [m] answers satisfies [Q]. *)
Definition answers {S A} (Q : A -> Prop) (m : M S A) : Prop :=
  forall s, match m s with Done a _ => Q a | _ => True end.

Lemma answers_ret {S A} (Q : A -> Prop) (a : A) : Q a -> answers (S := S) Q (mret a).
Proof. by intros H s. Qed.

Lemma answers_bind {S A B} (P : A -> Prop) (Q : B -> Prop) (m : M S A) (f : A -> M S B) :
  answers P m -> (forall a, P a -> answers Q (f a)) -> answers Q (m ≫= f).
Proof.
  intros Hm Hf s. unfold mbind, M_bind. specialize (Hm s). destruct (m s); [by apply Hf|done|done].
Qed.

Lemma answers_any {S A B} (Q : B -> Prop) (m : M S A) (f : A -> M S B) :
  (forall a, answers Q (f a)) -> answers Q (m ≫= f).
Proof. intros Hf. apply (answers_bind (fun _ => True)); [|by intros a _]. intros s. by destruct (m s). Qed.

Lemma answers_zoom {S T A} (Q : A -> Prop) (view : S -> T) (back : T -> S -> S) (m : M T A) :
  answers Q m -> answers Q (zoom view back m).
Proof. intros Hm s. unfold zoom. specialize (Hm (view s)). by destruct (m (view s)). Qed.

Lemma answers_done {S A} (Q : A -> Prop) (m : M S A) (s s' : S) (a : A) :
  answers Q m -> m s = Done a s' -> Q a.
Proof. intros Hm E. specialize (Hm s). by rewrite E in Hm. Qed.

(** Look at what the code decides on next. *)
Ltac answering :=
  repeat match goal with
  | |- answers _ (match ?x with _ => _ end) => destruct x eqn:?
  | |- answers _ (mret _) => apply answers_ret
  | |- answers _ (_ ≫= _) => apply answers_any; intros ?
  end.

Create HintDb keep.
#[export] Hint Resolve keeps_ret keeps_put keeps_halt keeps_undefined keeps_return_or_ub : keep.
