(* ===== verification/Testing.v ===== *)
(** What the translated unit tests share: a test is a program over the models, a failed
    assertion or [unwrap] of an error is [halt], and a test passes when it is [Done]. *)

From S2P Require Import Prelude.

Definition assert {S} (b : bool) : M S unit := if b then mret tt else halt.
Definition unwrap {S A E} (m : M S (result A E)) : M S A :=
  r ← m; match r with Ok a => mret a | Err _ => halt end.
(** [assert!(m.is_err())] *)
Definition assert_err {S A E} (m : M S (result A E)) : M S unit :=
  r ← m; match r with Ok _ => halt | Err _ => mret tt end.
(** [assert_eq!(m, expected)] and [assert_ne!] *)
Definition assert_eq {S A} `{EqDecision A} (m : M S A) (expected : A) : M S unit :=
  r ← m; assert (bool_decide (r = expected)).
Definition assert_ne {S A} `{EqDecision A} (m : M S A) (other : A) : M S unit :=
  r ← m; assert (negb (bool_decide (r = other))).

Lemma assert_eq_done {S A} `{EqDecision A} (m : M S A) (e : A) (s s' : S) :
  m s = Done e s' -> assert_eq m e s = Done tt s'.
Proof. intros E. unfold assert_eq. erewrite mbind_done by exact E. by rewrite bool_decide_true. Qed.

Lemma assert_ne_done {S A} `{EqDecision A} (m : M S A) (e r : A) (s s' : S) :
  m s = Done r s' -> r <> e -> assert_ne m e s = Done tt s'.
Proof. intros E Hr. unfold assert_ne. erewrite mbind_done by exact E. by rewrite bool_decide_false. Qed.


Definition passes {S A} (m : M S A) (s : S) : bool := match m s with Done _ _ => true | _ => false end.
(** Every test of a list, each from the same state. *)
Definition pass_from {S} (s : S) (tests : list (M S unit)) : bool := forallb (fun t => passes t s) tests.
