(* ===== verification/CMemory.v ===== *)
(** The caller's memory as the C entry points of both crates see it.

    The host owns [storage], a list of allocations. Typed values that Rust code has
    placed there are [objects] at their base address, each with the extent and
    alignment its layout fixes; plain data is kept byte by byte in [bytes]. A typed
    read of an address that holds no such object and any access outside [storage] are
    undefined behaviour. [core::ptr::write] replaces whatever it overlaps, so two
    writes through aliasing pointers do not both survive: the entry points' overlap
    checks matter. [drop_in_place] ends the object's life and leaves raw storage. *)

From stdpp Require Import gmap.
From S2P Require Import Prelude.
Local Open Scope Z_scope.

(** * Layout *)

(** [repr(C)]: fields in order, each rounded up to its alignment, the whole rounded up
    to the alignment of the struct. *)
Fixpoint fields_end (off : Z) (fields : list (Z * Z)) : Z :=
  match fields with
  | [] => off
  | (size, align) :: fs => fields_end (align_up off align + size) fs
  end.

Definition repr_C (align : Z) (fields : list (Z * Z)) : Z := align_up (fields_end 0 fields) align.

(** The values a crate places in the host's memory. *)
Class Universe (U : Type) : Type := {
  extent : U -> Z;
  alignment : U -> Z
}.

(** A C-visible type of that universe: [size_of::<T>()], [align_of::<T>()]. *)
Class CType (U T : Type) `{Universe U} : Type := {
  wrap : T -> U;
  unwrap : U -> option T;
  csize : Z;
  calign : Z;
  unwrap_wrap : forall x, unwrap (wrap x) = Some x;
  unwrap_Some : forall u x, unwrap u = Some x -> u = wrap x;
  wrap_extent : forall x, extent (wrap x) = csize;
  wrap_alignment : forall x, alignment (wrap x) = calign
}.
Arguments csize {U} T {_ _}.
Arguments calign {U} T {_ _}.

(** * Memory *)

Record cmem (U : Type) : Type := MkMem {
  storage : list (Z * Z);
  objects : gmap Z U;
  bytes : gmap Z byte
}.
Arguments MkMem {U} storage objects bytes.
Arguments storage {U}.
Arguments objects {U}.
Arguments bytes {U}.

(** [a] is one of the [n] addresses from [p]. *)
Definition within (p n a : Z) : Prop := p <= a < p + n.

(** Two address ranges have an address in common. *)
Definition meets (p n q k : Z) : Prop := exists a, within p n a /\ within q k a.

#[export] Instance within_dec p n a : Decision (within p n a).
Proof. apply _. Defined.

(** For ranges that are not empty, the usual comparison. *)
Lemma meets_iff (p n q k : Z) : 0 < n -> 0 < k -> meets p n q k <-> p < q + k /\ q < p + n.
Proof.
  intros Hn Hk. unfold meets, within. split; [intros [a ?]; lia|].
  intros. exists (Z.max p q). lia.
Qed.

#[export] Instance meets_dec p n q k : Decision (meets p n q k).
Proof.
  refine (cast_if (decide (0 < n /\ 0 < k /\ p < q + k /\ q < p + n)));
    unfold meets, within in *.
  - abstract (exists (Z.max p q); lia).
  - abstract (intros [a ?]; lia).
Defined.

Lemma meets_sym (p n q k : Z) : meets p n q k <-> meets q k p n.
Proof. unfold meets. naive_solver. Qed.

Section memory.
Context {U : Type} `{Universe U}.

Definition mapped (p n : Z) (m : cmem U) : bool :=
  existsb (fun '(b, l) => (b <=? p) && (p + n <=? b + l)) (storage m).

(** What survives a write to the [n] addresses from [p]. *)
Definition clobber (p n : Z) (m : cmem U) : cmem U :=
  MkMem (storage m)
        (filter (fun au => ~ meets p n au.1 (extent au.2)) (objects m))
        (filter (fun ab => ~ within p n ab.1) (bytes m)).

Definition put_object (p : Z) (u : U) (m : cmem U) : cmem U :=
  MkMem (storage m) (<[p := u]> (objects m)) (bytes m).

Definition place (p : Z) (u : U) (m : cmem U) : cmem U :=
  put_object p u (clobber p (extent u) m).

Definition remove (p : Z) (m : cmem U) : cmem U :=
  MkMem (storage m) (delete p (objects m)) (bytes m).

(** ** Typed access *)

Definition object_at {T} `{CType U T} (p : Z) (m : cmem U) : option T := objects m !! p ≫= unwrap.

(** [&*p], [*p] *)
Definition ptr_read {T} `{CType U T} (p : Z) : M (cmem U) T :=
  m ← get; return_or_ub (object_at p m).

(** [core::ptr::write] *)
Definition ptr_write {T} `{CType U T} (p : Z) (x : T) : M (cmem U) unit :=
  m ← get; if mapped p (csize T) m then put (place p (wrap x) m) else undefined.

(** A store through the [&mut] reference to an object that is there. *)
Definition ptr_update {T} `{CType U T} (p : Z) (x : T) : M (cmem U) unit :=
  modify (put_object p (wrap x)).

(** [core::ptr::drop_in_place] of a type without a destructor. *)
Definition ptr_drop {T} `{CType U T} (p : Z) : M (cmem U) unit :=
  (ptr_read p : M (cmem U) T) ;; modify (remove p).

(** ** Plain data *)

Definition bytes_at (p : Z) (n : nat) (m : cmem U) : option (list byte) :=
  mapM (fun a => bytes m !! a) (seqZ p (Z.of_nat n)).

Definition put_bytes (p : Z) (l : list byte) (m : cmem U) : cmem U :=
  MkMem (storage m) (objects m) (map_seqZ p l ∪ bytes m).

Definition place_bytes (p : Z) (l : list byte) (m : cmem U) : cmem U :=
  put_bytes p l (clobber p (zlen l) m).

Definition read_bytes (p : Z) (n : nat) : M (cmem U) (list byte) :=
  m ← get; return_or_ub (bytes_at p n m).

Definition write_bytes (p : Z) (l : list byte) : M (cmem U) unit :=
  m ← get;
  if (zlen l =? 0) || mapped p (zlen l) m then put (place_bytes p l m) else undefined.

End memory.

(** * Well-formed memory *)

Section wf.
Context {U : Type} `{Universe U}.

(** Every object lies in the host's storage at a non-null address its alignment
    divides, and neither objects nor plain data share an address. *)
Record mem_wf (m : cmem U) : Prop := {
  mw_object : forall p u, objects m !! p = Some u ->
    0 < p /\ 0 < extent u /\ mapped p (extent u) m = true /\ is_multiple_of p (alignment u) = true;
  mw_disjoint : forall p u q v, objects m !! p = Some u -> objects m !! q = Some v -> p <> q ->
    ~ meets p (extent u) q (extent v);
  mw_bytes : forall p u a b, objects m !! p = Some u -> bytes m !! a = Some b ->
    ~ within p (extent u) a
}.

Lemma clobber_lookup (p n q : Z) (u : U) (m : cmem U) :
  objects (clobber p n m) !! q = Some u <->
  objects m !! q = Some u /\ ~ meets p n q (extent u).
Proof. unfold clobber. cbn. by rewrite map_lookup_filter_Some. Qed.

Lemma clobber_byte (p n a : Z) (b : byte) (m : cmem U) :
  bytes (clobber p n m) !! a = Some b <-> bytes m !! a = Some b /\ ~ within p n a.
Proof. unfold clobber. cbn. by rewrite map_lookup_filter_Some. Qed.

Lemma place_lookup (p : Z) (u : U) (m : cmem U) : objects (place p u m) !! p = Some u.
Proof. unfold place, put_object. cbn. apply lookup_insert_eq. Qed.

Lemma place_lookup_ne (p q : Z) (u v : U) (m : cmem U) :
  q <> p ->
  objects (place p u m) !! q = Some v <->
  objects m !! q = Some v /\ ~ meets p (extent u) q (extent v).
Proof.
  intros Hne. unfold place, put_object. cbn [objects].
  rewrite lookup_insert_ne by done. apply clobber_lookup.
Qed.

Lemma mem_wf_place (p : Z) (u : U) (m : cmem U) :
  mem_wf m -> 0 < p -> 0 < extent u -> mapped p (extent u) m = true ->
  is_multiple_of p (alignment u) = true -> mem_wf (place p u m).
Proof.
  intros [Ho Hd Hb] Hp Hn Hm Ha. split.
  - intros q v. destruct (decide (q = p)) as [->|Hne].
    + rewrite place_lookup. intros [= ->]. done.
    + rewrite place_lookup_ne by done. intros [? _]. by apply Ho.
  - intros q v r v' Hq Hr Hne.
    destruct (decide (q = p)) as [->|Hq'], (decide (r = p)) as [->|Hr']; [done|..].
    + rewrite place_lookup in Hq. injection Hq as <-. by apply place_lookup_ne in Hr as [_ ?].
    + rewrite place_lookup in Hr. injection Hr as <-. apply place_lookup_ne in Hq as [_ ?]; [|done].
      by rewrite meets_sym.
    + apply place_lookup_ne in Hq as [? _], Hr as [? _]; [eauto|done..].
  - intros q v a b Hq. change (bytes (place p u m)) with (bytes (clobber p (extent u) m)).
    rewrite clobber_byte. intros [Hab Hout]. destruct (decide (q = p)) as [->|Hne].
    + rewrite place_lookup in Hq. by injection Hq as <-.
    + apply place_lookup_ne in Hq as [? _]; [|done]. eauto.
Qed.

(** Replacing an object by one of the same layout. *)
Lemma mem_wf_put (p : Z) (u v : U) (m : cmem U) :
  mem_wf m -> objects m !! p = Some u -> extent v = extent u -> alignment v = alignment u ->
  mem_wf (put_object p v m).
Proof.
  intros [Ho Hd Hb] Hp He Ha.
  assert (G : forall q w, objects (put_object p v m) !! q = Some w ->
    exists w', objects m !! q = Some w' /\ extent w = extent w' /\ alignment w = alignment w').
  { intros q w. cbn. destruct (decide (q = p)) as [->|Hne].
    - rewrite lookup_insert_eq. intros [= <-]. eauto.
    - rewrite lookup_insert_ne by done. eauto. }
  split.
  - intros q w Hq. destruct (G _ _ Hq) as (w' & ? & -> & ->). by apply Ho.
  - intros q w r w' Hq Hr Hne. destruct (G _ _ Hq) as (? & ? & -> & _), (G _ _ Hr) as (? & ? & -> & _).
    eauto.
  - intros q w a b Hq. destruct (G _ _ Hq) as (? & ? & -> & _). cbn. eauto.
Qed.

Lemma mem_wf_remove (p : Z) (m : cmem U) : mem_wf m -> mem_wf (remove p m).
Proof.
  intros [Ho Hd Hb]. split; cbn; setoid_rewrite lookup_delete_Some; naive_solver.
Qed.

Lemma place_bytes_byte (p a : Z) (l : list byte) (b : byte) (m : cmem U) :
  bytes (place_bytes p l m) !! a = Some b ->
  within p (zlen l) a \/ bytes m !! a = Some b /\ ~ within p (zlen l) a.
Proof.
  unfold place_bytes, put_bytes. cbn [bytes]. rewrite lookup_union_Some_raw.
  intros [E|[_ E]].
  - left. apply lookup_map_seqZ_Some in E as [? E]. apply lookup_lt_Some in E.
    unfold within, zlen. lia.
  - right. by apply clobber_byte.
Qed.

Lemma mem_wf_place_bytes (p : Z) (l : list byte) (m : cmem U) :
  mem_wf m -> mem_wf (place_bytes p l m).
Proof.
  intros [Ho Hd Hb].
  assert (G : forall q u, objects (place_bytes p l m) !! q = Some u ->
    objects m !! q = Some u /\ ~ meets p (zlen l) q (extent u)).
  { intros q u. apply clobber_lookup. }
  split.
  - intros q u [Hq _]%G. by apply Ho.
  - intros q u r v [Hq _]%G [Hr _]%G. eauto.
  - intros q u a b [Hq Hm]%G. intros [Hw|[? _]]%place_bytes_byte; [|eauto].
    intros Hin. apply Hm. by exists a.
Qed.

End wf.

(** * Frames *)

Section frames.
Context {U : Type} `{Universe U}.

(** [m'] differs from [m] at most in the ranges [W]: every object and every byte that
    lies outside of them is in both or in neither. *)
Record untouched (W : list (Z * Z)) (m m' : cmem U) : Prop := {
  un_storage : storage m' = storage m;
  un_objects : forall p u, Forall (fun r => ~ meets r.1 r.2 p (extent u)) W ->
    objects m' !! p = Some u <-> objects m !! p = Some u;
  un_bytes : forall a, Forall (fun r => ~ within r.1 r.2 a) W -> bytes m' !! a = bytes m !! a
}.

#[global] Instance untouched_preorder (W : list (Z * Z)) : PreOrder (untouched W).
Proof.
  split; [by split|]. intros m1 m2 m3 [Hs1 Ho1 Hb1] [Hs2 Ho2 Hb2]. split.
  - by rewrite Hs2.
  - intros p u Hp. by rewrite Ho2, Ho1.
  - intros a Ha. by rewrite Hb2, Hb1.
Qed.

Lemma untouched_weaken (W W' : list (Z * Z)) (m m' : cmem U) :
  W ⊆ W' -> untouched W m m' -> untouched W' m m'.
Proof.
  intros Hw [Hs Ho Hb].
  assert (G : forall P : Z * Z -> Prop, Forall P W' -> Forall P W).
  { intros P. rewrite !Forall_forall. auto. }
  split; [done| |]; eauto.
Qed.

Lemma mapped_untouched (W : list (Z * Z)) (m m' : cmem U) (p n : Z) :
  untouched W m m' -> mapped p n m' = mapped p n m.
Proof. intros [Hs _ _]. unfold mapped. by rewrite Hs. Qed.

Lemma untouched_place (p : Z) (u : U) (m : cmem U) :
  (forall v, 0 < extent v) -> untouched [(p, extent u)] m (place p u m).
Proof.
  intros Hpos. split; [done| |].
  - intros q v Hq. inversion_clear Hq as [|? ? Hm _]. cbn in Hm. destruct (decide (q = p)) as [->|Hne].
    + destruct Hm. apply meets_iff; [done|done|]. pose proof (Hpos u). pose proof (Hpos v). lia.
    + rewrite place_lookup_ne by done. naive_solver.
  - intros a Ha. inversion_clear Ha as [|? ? Hw _]. cbn in Hw.
    change (bytes (place p u m)) with (bytes (clobber p (extent u) m)).
    apply option_eq. intros b. rewrite clobber_byte. naive_solver.
Qed.

Lemma untouched_put (p : Z) (u : U) (m : cmem U) :
  (forall v, 0 < extent v) -> untouched [(p, extent u)] m (put_object p u m).
Proof.
  intros Hpos. split; [done| |done].
  intros q v Hq. inversion_clear Hq as [|? ? Hm _]. cbn in Hm. cbn [put_object objects].
  destruct (decide (q = p)) as [->|Hne]; [|by rewrite lookup_insert_ne].
  destruct Hm. apply meets_iff; [done|done|]. pose proof (Hpos u). pose proof (Hpos v). lia.
Qed.

Lemma untouched_remove (p n : Z) (m : cmem U) :
  0 < n -> (forall v, 0 < extent v) -> untouched [(p, n)] m (remove p m).
Proof.
  intros Hn Hpos. split; [done| |done].
  intros q v Hq. inversion_clear Hq as [|? ? Hm _]. cbn in Hm. cbn [remove objects].
  destruct (decide (q = p)) as [->|Hne]; [|by rewrite lookup_delete_ne].
  destruct Hm. apply meets_iff; [done|done|]. pose proof (Hpos v). lia.
Qed.

(** ** Plain data *)

Lemma put_bytes_lookup (p a : Z) (l : list byte) (m : cmem U) :
  bytes (put_bytes p l m) !! a =
    if decide (within p (zlen l) a) then l !! Z.to_nat (a - p) else bytes m !! a.
Proof.
  unfold put_bytes. cbn [bytes]. rewrite lookup_union. destruct (decide _) as [Hw|Hw]; unfold within, zlen in Hw.
  - destruct (lookup_lt_is_Some_2 l (Z.to_nat (a - p))) as [b Hb]; [lia|].
    rewrite Hb, (proj2 (lookup_map_seqZ_Some p l a b)) by (split; [lia|done]). by destruct (bytes m !! a).
  - rewrite (proj2 (lookup_map_seqZ_None p l a)) by (unfold zlen in *; lia). by destruct (bytes m !! a).
Qed.

Lemma bytes_at_Some (p : Z) (n : nat) (m : cmem U) (l : list byte) :
  bytes_at p n m = Some l <->
  length l = n /\ forall i b, l !! i = Some b -> bytes m !! (p + Z.of_nat i) = Some b.
Proof.
  unfold bytes_at. rewrite mapM_Some. split.
  - intros HF. pose proof (Forall2_length _ _ _ HF) as Hl. rewrite length_seqZ in Hl.
    split; [lia|]. intros i b Hb.
    destruct (Forall2_lookup_r _ _ _ _ _ HF Hb) as (a & Ha & E).
    apply lookup_seqZ in Ha as [-> _]. done.
  - intros [Hl Hb]. apply Forall2_same_length_lookup. split; [rewrite length_seqZ; lia|].
    intros i a b Ha Hlb. apply lookup_seqZ in Ha as [-> _]. by apply Hb.
Qed.

Lemma bytes_at_length (p : Z) (n : nat) (m : cmem U) (l : list byte) :
  bytes_at p n m = Some l -> length l = n.
Proof. by intros [? _]%bytes_at_Some. Qed.

(** Reading depends only on what is read. *)
Lemma bytes_at_ext (p : Z) (n : nat) (m m' : cmem U) :
  (forall a, within p (Z.of_nat n) a -> bytes m' !! a = bytes m !! a) -> bytes_at p n m' = bytes_at p n m.
Proof.
  intros Hb. apply option_eq. intros l. rewrite !bytes_at_Some.
  split; intros [Hl Hi]; split; try done; intros i b E; specialize (Hi i b E);
    apply lookup_lt_Some in E; rewrite <- Hi; [symmetry|]; apply Hb; unfold within; lia.
Qed.

Lemma bytes_at_put (p : Z) (l : list byte) (m : cmem U) : bytes_at p (length l) (put_bytes p l m) = Some l.
Proof.
  apply bytes_at_Some. split; [done|]. intros i b Hb. pose proof (lookup_lt_Some _ _ _ Hb).
  rewrite put_bytes_lookup, decide_True by (unfold within, zlen; lia).
  by replace (Z.to_nat (p + Z.of_nat i - p)) with i by lia.
Qed.

(** Writing back what is there changes nothing. *)
Lemma put_bytes_same (p : Z) (l : list byte) (m : cmem U) :
  bytes_at p (length l) m = Some l -> put_bytes p l m = m.
Proof.
  intros [_ Hb]%bytes_at_Some. destruct m as [st ob bs]. unfold put_bytes. cbn. f_equal. apply map_eq. intros a.
  pose proof (put_bytes_lookup p a l (MkMem st ob bs)) as E. cbn in E, Hb. etrans; [exact E|].
  destruct (decide _) as [[H1 H2]|]; [|done].
  destruct (lookup_lt_is_Some_2 l (Z.to_nat (a - p))) as [x Hx]; [unfold zlen in H2; lia|].
  rewrite Hx. specialize (Hb _ _ Hx). rewrite <- Hb. f_equal. lia.
Qed.

Lemma bytes_at_put_ne (p q : Z) (n : nat) (l : list byte) (m : cmem U) :
  ~ meets p (zlen l) q (Z.of_nat n) -> bytes_at q n (put_bytes p l m) = bytes_at q n m.
Proof.
  intros Hm. apply bytes_at_ext. intros a Ha. rewrite put_bytes_lookup. apply decide_False.
  intros Hw. apply Hm. by exists a.
Qed.

Lemma untouched_put_bytes (p : Z) (l : list byte) (m : cmem U) : untouched [(p, zlen l)] m (put_bytes p l m).
Proof.
  split; [done|done|]. intros a Ha. inversion_clear Ha as [|? ? Hw _]. cbn in Hw.
  by rewrite put_bytes_lookup, decide_False.
Qed.

Lemma untouched_place_bytes (p : Z) (l : list byte) (m : cmem U) :
  untouched [(p, zlen l)] m (place_bytes p l m).
Proof.
  unfold place_bytes. split; [done| |].
  - intros q u Hq. inversion_clear Hq as [|? ? Hm _]. cbn in Hm. cbn [put_bytes objects].
    rewrite clobber_lookup. naive_solver.
  - intros a Ha. inversion_clear Ha as [|? ? Hw _]. cbn in Hw. rewrite put_bytes_lookup, decide_False by done.
    apply option_eq. intros b. rewrite clobber_byte. naive_solver.
Qed.

(** Bytes that are there stay there. *)
Lemma put_bytes_present (p q : Z) (n : nat) (l : list byte) (m : cmem U) :
  is_Some (bytes_at q n m) -> is_Some (bytes_at q n (put_bytes p l m)).
Proof.
  intros [k Hk]. unfold bytes_at. apply mapM_is_Some. apply bytes_at_Some in Hk as [Hl Hb].
  apply Forall_forall. intros a Ha. apply elem_of_seqZ in Ha.
  change (is_Some (bytes (put_bytes p l m) !! a)). rewrite put_bytes_lookup.
  destruct (decide _) as [Hw|_]; unfold within, zlen in *; [apply lookup_lt_is_Some_2; lia|].
  destruct (lookup_lt_is_Some_2 k (Z.to_nat (a - q))) as [b E]; [lia|].
  exists b. apply Hb in E. by replace (q + Z.of_nat (Z.to_nat (a - q))) with a in E by lia.
Qed.

Lemma mem_wf_put_bytes (p : Z) (l : list byte) (m : cmem U) :
  mem_wf m -> is_Some (bytes_at p (length l) m) -> mem_wf (put_bytes p l m).
Proof.
  intros [Ho Hd Hb] [k Hk]. apply bytes_at_Some in Hk as [Hl Hk]. split; [done|done|].
  intros q u a b Hq. rewrite put_bytes_lookup. destruct (decide _) as [Hw|Hw]; [|by apply Hb].
  unfold within, zlen in Hw. destruct (lookup_lt_is_Some_2 k (Z.to_nat (a - p))) as [b' E]; [lia|].
  intros _. apply (Hb q u a b' Hq). apply Hk in E.
  by replace (p + Z.of_nat (Z.to_nat (a - p))) with a in E by lia.
Qed.

(** The storage of an object that is gone, overwritten with plain data. *)
Lemma mem_wf_release (p : Z) (u : U) (l : list byte) (m : cmem U) :
  mem_wf m -> objects m !! p = Some u -> zlen l <= extent u -> mem_wf (put_bytes p l (remove p m)).
Proof.
  intros Hm Hp Hl. destruct (mem_wf_remove p m Hm) as [Ho Hd Hb]. split; [done|done|].
  intros q v a b Hq. rewrite put_bytes_lookup. destruct (decide _) as [Hw|Hw]; [|by apply Hb].
  intros _ Hin. cbn in Hq. apply lookup_delete_Some in Hq as [Hne Hq].
  apply (mw_disjoint m Hm p u q v Hp Hq Hne). exists a. unfold within in *. split; [lia|done].
Qed.

End frames.
