(* ===== verification/RtosHost.v ===== *)
(** The platform boundary of shawncore-rtos-sync: the error types of error.rs and
    ffi_error.rs, the callback registry of ffi_callbacks.rs and the panic hook.

    The registry is a record of optional function addresses, [None] where the
    source stores a null pointer. Every call that reaches a registered callback
    appends an event to [trace]; a call through an empty slot invokes the panic
    hook and never returns ([Halted]). What the two value-returning callbacks
    answer belongs to the host, so it is a parameter ([HostAnswers]). *)

From S2P Require Import Prelude.
Local Open Scope Z_scope.

(** * Errors *)

Inductive AllocatorError : Type :=
| AllocOutOfMemory
| AllocAddressOutOfBounds
| AllocInvalidAlignment
| AllocLockContention
| AllocDoubleFree
| AllocNotInitialized
| AllocAlreadyInitialized.

Inductive IpcError : Type :=
| IpcQueueFull
| IpcNotInitialized
| IpcAlreadyInitialized
| IpcInvalidMemory.

Inductive SchedulerError : Type :=
| TaskFault.

Inductive ShawncoreRtosErr : Type :=
| RtosSuccess
| RtosOutOfMemory
| RtosAddressOutOfBounds
| RtosInvalidAlignment
| RtosLockContention
| RtosDoubleFree
| RtosNotInitialized
| RtosAlreadyInitialized
| RtosQueueFull
| RtosInvalidMemory
| RtosQueueEmpty
| RtosTaskFault
| RtosInvalidState
| RtosPanic.

(** The C discriminants of the enumeration. *)
Definition rtos_code (e : ShawncoreRtosErr) : Z :=
  match e with
  | RtosSuccess => 0
  | RtosOutOfMemory => 1
  | RtosAddressOutOfBounds => 2
  | RtosInvalidAlignment => 3
  | RtosLockContention => 4
  | RtosDoubleFree => 5
  | RtosNotInitialized => 6
  | RtosAlreadyInitialized => 7
  | RtosQueueFull => 8
  | RtosInvalidMemory => 9
  | RtosQueueEmpty => 12
  | RtosTaskFault => 10
  | RtosInvalidState => 11
  | RtosPanic => 99
  end.

Definition rtos_of_allocator (err : AllocatorError) : ShawncoreRtosErr :=
  match err with
  | AllocOutOfMemory => RtosOutOfMemory
  | AllocAddressOutOfBounds => RtosAddressOutOfBounds
  | AllocInvalidAlignment => RtosInvalidAlignment
  | AllocLockContention => RtosLockContention
  | AllocDoubleFree => RtosDoubleFree
  | AllocNotInitialized => RtosNotInitialized
  | AllocAlreadyInitialized => RtosAlreadyInitialized
  end.

Definition rtos_of_ipc (err : IpcError) : ShawncoreRtosErr :=
  match err with
  | IpcQueueFull => RtosQueueFull
  | IpcNotInitialized => RtosNotInitialized
  | IpcAlreadyInitialized => RtosAlreadyInitialized
  | IpcInvalidMemory => RtosInvalidMemory
  end.

Definition rtos_of_scheduler (err : SchedulerError) : ShawncoreRtosErr :=
  match err with TaskFault => RtosTaskFault end.

#[export] Instance AllocatorError_eq_dec : EqDecision AllocatorError.
Proof. solve_decision. Defined.
#[export] Instance IpcError_eq_dec : EqDecision IpcError.
Proof. solve_decision. Defined.
#[export] Instance ShawncoreRtosErr_eq_dec : EqDecision ShawncoreRtosErr.
Proof. solve_decision. Defined.

(** * Callback registry *)

Definition FnPtr : Type := Z.

Inductive event : Type :=
| EvPanicHook (cb : FnPtr)
| EvDisableInterrupts (cb : FnPtr) (flags : Z)
| EvRestoreInterrupts (cb : FnPtr) (flags : Z)
| EvReadClock (cb : FnPtr) (now : Z)
| EvCacheInvalidate (cb : FnPtr) (ptr len : Z)
| EvCacheFlush (cb : FnPtr) (ptr len : Z)
| EvPetWatchdog (cb : FnPtr).

Record Host : Type := MkHost {
  PANIC_CALLBACK : option FnPtr;
  DISABLE_INTERRUPTS_CB : option FnPtr;
  RESTORE_INTERRUPTS_CB : option FnPtr;
  READ_MONOTONIC_CLOCK_CB : option FnPtr;
  CACHE_INVALIDATE_CB : option FnPtr;
  CACHE_FLUSH_CB : option FnPtr;
  PET_WATCHDOG_CB : option FnPtr;
  trace : list event
}.

(** What the host answers, as a function of the callback and of what happened
    before. *)
Class HostAnswers : Type := {
  interrupt_flags : FnPtr -> list event -> Z;
  clock_reading : FnPtr -> list event -> Z
}.

(** No callback is registered at program start. *)
Definition host_boot : Host := MkHost None None None None None None None [].

Definition log (e : event) (h : Host) : Host :=
  MkHost (PANIC_CALLBACK h) (DISABLE_INTERRUPTS_CB h) (RESTORE_INTERRUPTS_CB h)
         (READ_MONOTONIC_CLOCK_CB h) (CACHE_INVALIDATE_CB h) (CACHE_FLUSH_CB h)
         (PET_WATCHDOG_CB h) (trace h ++ [e]).

Definition register_panic_hook (cb : option FnPtr) (h : Host) : Host :=
  MkHost cb (DISABLE_INTERRUPTS_CB h) (RESTORE_INTERRUPTS_CB h)
         (READ_MONOTONIC_CLOCK_CB h) (CACHE_INVALIDATE_CB h) (CACHE_FLUSH_CB h)
         (PET_WATCHDOG_CB h) (trace h).

Definition register_disable_interrupts (cb : option FnPtr) (h : Host) : Host :=
  MkHost (PANIC_CALLBACK h) cb (RESTORE_INTERRUPTS_CB h)
         (READ_MONOTONIC_CLOCK_CB h) (CACHE_INVALIDATE_CB h) (CACHE_FLUSH_CB h)
         (PET_WATCHDOG_CB h) (trace h).

Definition register_restore_interrupts (cb : option FnPtr) (h : Host) : Host :=
  MkHost (PANIC_CALLBACK h) (DISABLE_INTERRUPTS_CB h) cb
         (READ_MONOTONIC_CLOCK_CB h) (CACHE_INVALIDATE_CB h) (CACHE_FLUSH_CB h)
         (PET_WATCHDOG_CB h) (trace h).

Definition register_read_monotonic_clock (cb : option FnPtr) (h : Host) : Host :=
  MkHost (PANIC_CALLBACK h) (DISABLE_INTERRUPTS_CB h) (RESTORE_INTERRUPTS_CB h)
         cb (CACHE_INVALIDATE_CB h) (CACHE_FLUSH_CB h)
         (PET_WATCHDOG_CB h) (trace h).

Definition register_cache_invalidate (cb : option FnPtr) (h : Host) : Host :=
  MkHost (PANIC_CALLBACK h) (DISABLE_INTERRUPTS_CB h) (RESTORE_INTERRUPTS_CB h)
         (READ_MONOTONIC_CLOCK_CB h) cb (CACHE_FLUSH_CB h)
         (PET_WATCHDOG_CB h) (trace h).

Definition register_cache_flush (cb : option FnPtr) (h : Host) : Host :=
  MkHost (PANIC_CALLBACK h) (DISABLE_INTERRUPTS_CB h) (RESTORE_INTERRUPTS_CB h)
         (READ_MONOTONIC_CLOCK_CB h) (CACHE_INVALIDATE_CB h) cb
         (PET_WATCHDOG_CB h) (trace h).

Definition register_pet_watchdog (cb : option FnPtr) (h : Host) : Host :=
  MkHost (PANIC_CALLBACK h) (DISABLE_INTERRUPTS_CB h) (RESTORE_INTERRUPTS_CB h)
         (READ_MONOTONIC_CLOCK_CB h) (CACHE_INVALIDATE_CB h) (CACHE_FLUSH_CB h)
         cb (trace h).

Definition invoke_panic_hook : M Host unit :=
  fun h =>
    match PANIC_CALLBACK h with
    | Some cb => Done tt (log (EvPanicHook cb) h)
    | None => Done tt h
    end.

(** The shape every host call shares: load the slot; when it is null invoke
    the panic hook and spin for ever; otherwise call through the pointer. *)
Definition call_host {A} (slot : Host -> option FnPtr) (call : FnPtr -> M Host A) : M Host A :=
  fun h =>
    match slot h with
    | None => (invoke_panic_hook ;; halt) h
    | Some cb => call cb h
    end.

Section host_calls.
Context `{HostAnswers}.

Definition disable_and_save : M Host Z :=
  call_host DISABLE_INTERRUPTS_CB (fun cb h =>
    let flags := interrupt_flags cb (trace h) in
    Done flags (log (EvDisableInterrupts cb flags) h)).

Definition host_read_monotonic_clock : M Host Z :=
  call_host READ_MONOTONIC_CLOCK_CB (fun cb h =>
    let now := clock_reading cb (trace h) in
    Done now (log (EvReadClock cb now) h)).

End host_calls.

Definition restore (flags : Z) : M Host unit :=
  call_host RESTORE_INTERRUPTS_CB (fun cb h => Done tt (log (EvRestoreInterrupts cb flags) h)).

Definition host_cache_invalidate (ptr len : Z) : M Host unit :=
  call_host CACHE_INVALIDATE_CB (fun cb h => Done tt (log (EvCacheInvalidate cb ptr len) h)).

Definition host_cache_flush (ptr len : Z) : M Host unit :=
  call_host CACHE_FLUSH_CB (fun cb h => Done tt (log (EvCacheFlush cb ptr len) h)).

Definition host_pet_watchdog : M Host unit :=
  call_host PET_WATCHDOG_CB (fun cb h => Done tt (log (EvPetWatchdog cb) h)).

(** * Lemmas *)

(** A host whose registry agrees with [h]: the calls only extend the trace. *)
Definition same_registry (h h' : Host) : Prop :=
  PANIC_CALLBACK h' = PANIC_CALLBACK h /\
  DISABLE_INTERRUPTS_CB h' = DISABLE_INTERRUPTS_CB h /\
  RESTORE_INTERRUPTS_CB h' = RESTORE_INTERRUPTS_CB h /\
  READ_MONOTONIC_CLOCK_CB h' = READ_MONOTONIC_CLOCK_CB h /\
  CACHE_INVALIDATE_CB h' = CACHE_INVALIDATE_CB h /\
  CACHE_FLUSH_CB h' = CACHE_FLUSH_CB h /\
  PET_WATCHDOG_CB h' = PET_WATCHDOG_CB h.

#[export] Instance same_registry_equiv : Equivalence same_registry.
Proof.
  split.
  - by intros h.
  - unfold same_registry. intros h h' H. by destruct_and!.
  - unfold same_registry. intros h1 h2 h3 H1 H2. destruct_and!. split_and!; congruence.
Qed.

Lemma log_same_registry (e : event) (h : Host) : same_registry h (log e h).
Proof. by destruct h. Qed.

Lemma trace_log (e : event) (h : Host) : trace (log e h) = trace h ++ [e].
Proof. done. Qed.

Lemma call_host_null {A} (slot : Host -> option FnPtr) (call : FnPtr -> M Host A) (h : Host) :
  slot h = None -> exists h', call_host slot call h = Halted h'.
Proof.
  intros E. unfold call_host. rewrite E. msimpl. unfold invoke_panic_hook.
  destruct (PANIC_CALLBACK h); eauto.
Qed.

Lemma host_cache_flush_ok (cb ptr len : Z) (h : Host) :
  CACHE_FLUSH_CB h = Some cb ->
  host_cache_flush ptr len h = Done tt (log (EvCacheFlush cb ptr len) h).
Proof. intros E. unfold host_cache_flush, call_host. by rewrite E. Qed.

Lemma host_cache_invalidate_ok (cb ptr len : Z) (h : Host) :
  CACHE_INVALIDATE_CB h = Some cb ->
  host_cache_invalidate ptr len h = Done tt (log (EvCacheInvalidate cb ptr len) h).
Proof. intros E. unfold host_cache_invalidate, call_host. by rewrite E. Qed.

Lemma host_pet_watchdog_ok (cb : Z) (h : Host) :
  PET_WATCHDOG_CB h = Some cb ->
  host_pet_watchdog h = Done tt (log (EvPetWatchdog cb) h).
Proof. intros E. unfold host_pet_watchdog, call_host. by rewrite E. Qed.

(** A host with every callback registered, for concrete runs. *)
Definition sample_host : Host :=
  MkHost (Some 1) (Some 2) (Some 3) (Some 4) (Some 5) (Some 6) (Some 7) [].
