(* ===== verification/Fifo.v ===== *)
(** The contract the bounded queues of both crates promise their clients: a
    first-in first-out list of at most [fifo_cap] items, a refusal when it is
    full, and nothing when it is empty. SpscQueue, RingBuffer and EntropyQueue
    discharge the interface; a client reasons about the abstract list only. *)

From S2P Require Import Prelude.

(** * Abstract queue *)

Inductive fifo_op (A : Type) : Type :=
| OpPush (x : A)
| OpPop.
Arguments OpPush {A} x.
Arguments OpPop {A}.

Inductive fifo_ret (A E : Type) : Type :=
| RetPush (r : result unit E)
| RetPop (o : option A).
Arguments RetPush {A E} r.
Arguments RetPop {A E} o.

Definition spec_step {A E} (cap : nat) (full : E) (op : fifo_op A) (l : list A)
  : fifo_ret A E * list A :=
  match op with
  | OpPush x =>
      if decide (length l < cap)%nat then (RetPush (Ok tt), l ++ [x])
      else (RetPush (Err full), l)
  | OpPop =>
      match l with
      | [] => (RetPop None, [])
      | x :: l' => (RetPop (Some x), l')
      end
  end.

Fixpoint spec_run {A E} (cap : nat) (full : E) (ops : list (fifo_op A)) (l : list A)
  : list (fifo_ret A E) * list A :=
  match ops with
  | [] => ([], l)
  | op :: ops' =>
      let '(r, l1) := spec_step cap full op l in
      let '(rs, l2) := spec_run cap full ops' l1 in
      (r :: rs, l2)
  end.

(** * Interface *)

(** [fifo_repr w l]: the concrete world [w] holds the items [l], oldest first.
    The laws say what each call answers and that it keeps the relation. *)
Class Fifo (W A E : Type) : Type := {
  fifo_repr : W -> list A -> Prop;
  fifo_cap : nat;
  fifo_full : E;
  fifo_push : A -> M W (result unit E);
  fifo_pop : M W (option A);
  fifo_cap_bound : forall w l, fifo_repr w l -> (length l <= fifo_cap)%nat;
  fifo_push_room : forall w l x, fifo_repr w l -> (length l < fifo_cap)%nat ->
    exists w', fifo_push x w = Done (Ok tt) w' /\ fifo_repr w' (l ++ [x]);
  fifo_push_full : forall w l x, fifo_repr w l -> length l = fifo_cap ->
    fifo_push x w = Done (Err fifo_full) w;
  fifo_pop_empty : forall w, fifo_repr w [] -> fifo_pop w = Done None w;
  fifo_pop_item : forall w x l, fifo_repr w (x :: l) ->
    exists w', fifo_pop w = Done (Some x) w' /\ fifo_repr w' l
}.

Section client.
Context {W A E : Type} `{F : Fifo W A E}.

Definition fifo_step (op : fifo_op A) : M W (fifo_ret A E) :=
  match op with
  | OpPush x => r ← fifo_push x; mret (RetPush r)
  | OpPop => o ← fifo_pop; mret (RetPop o)
  end.

Fixpoint fifo_run (ops : list (fifo_op A)) : M W (list (fifo_ret A E)) :=
  match ops with
  | [] => mret []
  | op :: ops' => r ← fifo_step op; rs ← fifo_run ops'; mret (r :: rs)
  end.

(** * Refinement *)

Lemma fifo_step_refines (op : fifo_op A) (w : W) (l : list A) :
  fifo_repr w l ->
  exists w', fifo_step op w = Done (spec_step fifo_cap fifo_full op l).1 w'
             /\ fifo_repr w' (spec_step (E := E) fifo_cap fifo_full op l).2.
Proof.
  intros R. pose proof (fifo_cap_bound w l R) as Hb.
  destruct op as [x|]; cbn [fifo_step spec_step]; msimpl.
  - case_decide.
    + destruct (fifo_push_room w l x R) as (w' & -> & R'); [done|]. by exists w'.
    + rewrite (fifo_push_full w l x R) by lia. by exists w.
  - destruct l as [|x l].
    + rewrite (fifo_pop_empty w R). by exists w.
    + destruct (fifo_pop_item w x l R) as (w' & -> & R'). by exists w'.
Qed.

Lemma fifo_run_refines (ops : list (fifo_op A)) (w : W) (l : list A) :
  fifo_repr w l ->
  exists w', fifo_run ops w = Done (spec_run fifo_cap fifo_full ops l).1 w'
             /\ fifo_repr w' (spec_run (E := E) fifo_cap fifo_full ops l).2.
Proof.
  revert w l. induction ops as [|op ops IH]; intros w l R; cbn [fifo_run spec_run].
  - by exists w.
  - destruct (fifo_step_refines op w l R) as (w1 & E1 & R1). msimpl. rewrite E1.
    destruct (spec_step fifo_cap fifo_full op l) as [r l1].
    destruct (IH w1 l1 R1) as (w2 & E2 & R2). rewrite E2.
    destruct (spec_run fifo_cap fifo_full ops l1) as [rs l2]. by exists w2.
Qed.

End client.
