(* ===== verification/Spsc.v ===== *)
(** spsc_queue.rs: the lock-free single-producer single-consumer queue.

    [SpscQueue] holds the queue object, [world] the object together with the
    host-provided backing slots and the platform. The payload of a slot is a
    [cell]: never written, raw zero bytes, or a value; reading anything but a
    value is undefined behaviour, so the safety results below include that a
    pop never reads storage no push has filled. This file runs each operation
    to completion; SpscConc.v interleaves the accesses of one producer and one
    consumer. *)

From S2P Require Import Prelude RtosHost Fifo.
Local Open Scope Z_scope.

(** * Data *)

(** The layout and default value of the element type ([T: Copy + Default]). *)
Class Elem (T : Type) : Type := {
  elem_default : T;
  elem_size : Z;
  elem_align : Z
}.

Inductive cell (T : Type) : Type :=
| Uninit
| Zeroed
| Value (v : T).
Arguments Uninit {T}.
Arguments Zeroed {T}.
Arguments Value {T} v.

Record CacheAlignedSlot (T : Type) : Type := MkSlot {
  data : cell T;
  sequence_counter : Z
}.
Arguments MkSlot {T} data sequence_counter.
Arguments data {T}.
Arguments sequence_counter {T}.

Record SpscQueue : Type := MkQueue {
  buffer : Z;
  head : Z;
  tail : Z;
  is_initialized : bool;
  is_initializing : bool
}.

Record world (T : Type) : Type := MkWorld {
  queue : SpscQueue;
  slots : list (CacheAlignedSlot T);
  host : Host
}.
Arguments MkWorld {T} queue slots host.
Arguments queue {T}.
Arguments slots {T}.
Arguments host {T}.

Definition is_power_of_two (n : Z) : bool := (0 <? n) && (Z.land n (n - 1) =? 0).

(** The compile-time assertions of [SpscQueue::new]. *)
Definition valid_capacity (n : Z) : bool := is_power_of_two n && (n <=? usize_max / 2).

Definition new : SpscQueue := MkQueue 0 0 0 false false.

Definition set_queue {T} (q : SpscQueue) (w : world T) : world T := MkWorld q (slots w) (host w).
Definition set_slots {T} (s : list (CacheAlignedSlot T)) (w : world T) : world T :=
  MkWorld (queue w) s (host w).
Definition set_host {T} (h : Host) (w : world T) : world T := MkWorld (queue w) (slots w) h.

Definition store_head (v : Z) (q : SpscQueue) : SpscQueue :=
  MkQueue (buffer q) v (tail q) (is_initialized q) (is_initializing q).
Definition store_tail (v : Z) (q : SpscQueue) : SpscQueue :=
  MkQueue (buffer q) (head q) v (is_initialized q) (is_initializing q).
Definition store_buffer (v : Z) (q : SpscQueue) : SpscQueue :=
  MkQueue v (head q) (tail q) (is_initialized q) (is_initializing q).
Definition store_initialized (v : bool) (q : SpscQueue) : SpscQueue :=
  MkQueue (buffer q) (head q) (tail q) v (is_initializing q).
Definition store_initializing (v : bool) (q : SpscQueue) : SpscQueue :=
  MkQueue (buffer q) (head q) (tail q) (is_initialized q) v.

(** * Operations *)

Section ops.
Context {T : Type} `{Elem T}.
Variable N : Z.

(** [repr(C, align(64))] layout of [CacheAlignedSlot<T>]: the payload, then an
    8-byte counter, rounded up to the alignment. *)
Definition slot_align : Z := Z.max 64 elem_align.
Definition slot_size : Z := align_up (align_up elem_size 8 + 8) slot_align.

Definition on_host {A} (m : M Host A) : M (world T) A := zoom host set_host m.

Definition load_slot (i : nat) : M (world T) (CacheAlignedSlot T) :=
  w ← get; return_or_ub (slots w !! i).

Definition store_sequence (i : nat) (v : Z) : M (world T) unit :=
  s ← load_slot i; modify (fun w => set_slots (<[i := MkSlot (data s) v]> (slots w)) w).

Definition store_data (i : nat) (c : cell T) : M (world T) unit :=
  s ← load_slot i;
  modify (fun w => set_slots (<[i := MkSlot c (sequence_counter s)]> (slots w)) w).

Definition read_data (i : nat) : M (world T) T :=
  s ← load_slot i;
  match data s with Value v => mret v | _ => undefined end.

Definition init (base_ptr size_in_bytes : Z) : M (world T) (result unit IpcError) :=
  if base_ptr =? 0 then mret (Err IpcInvalidMemory) else
  match checked_mul 64 N slot_size with
  | None => mret (Err IpcInvalidMemory)
  | Some required_size =>
    if size_in_bytes <? required_size then mret (Err IpcInvalidMemory) else
    let required_alignment := slot_align in
    if negb (is_multiple_of base_ptr 4096) || negb (is_multiple_of base_ptr required_alignment)
    then mret (Err IpcInvalidMemory) else
    w ← get;
    if is_initialized (queue w) || is_initializing (queue w)
    then mret (Err IpcAlreadyInitialized) else
    modify (fun w => set_queue (store_initializing true (queue w)) w) ;;
    w ← get;
    if is_initialized (queue w) then
      modify (fun w => set_queue (store_initializing false (queue w)) w) ;;
      mret (Err IpcAlreadyInitialized)
    else
      for_range 0 (Z.to_nat N) (fun index => store_sequence index 0) ;;
      modify (fun w => set_queue (store_buffer base_ptr (queue w)) w) ;;
      modify (fun w => set_queue (store_initialized true (queue w)) w) ;;
      modify (fun w => set_queue (store_initializing false (queue w)) w) ;;
      mret (Ok tt)
  end.

Definition push (item : T) : M (world T) (result unit IpcError) :=
  w ← get;
  if negb (is_initialized (queue w)) then mret (Err IpcNotInitialized) else
  let head := head (queue w) in
  let tail := tail (queue w) in
  if N <=? wrapping_sub 64 head tail then mret (Err IpcQueueFull) else
  let index := head mod N in
  let base_ptr := buffer (queue w) in
  let slot_ptr := base_ptr + index * slot_size in
  let i := Z.to_nat index in
  slot ← load_slot i;
  let sequence := sequence_counter slot in
  store_sequence i (Z.lor (wrapping_add 64 sequence 1) 1) ;;
  store_data i (Value item) ;;
  on_host (host_cache_flush slot_ptr elem_size) ;;
  store_sequence i (Z.land (wrapping_add 64 sequence 2) (bnot 64 1)) ;;
  modify (fun w => set_queue (store_head (wrapping_add 64 head 1) (queue w)) w) ;;
  mret (Ok tt).

Definition pop : M (world T) (option T) :=
  w ← get;
  if negb (is_initialized (queue w)) then mret None else
  let tail := tail (queue w) in
  let head := head (queue w) in
  if head =? tail then mret None else
  let index := tail mod N in
  let base_ptr := buffer (queue w) in
  let slot_ptr := base_ptr + index * slot_size in
  let i := Z.to_nat index in
  slot ← load_slot i;
  let first_sequence := sequence_counter slot in
  if negb (Z.land first_sequence 1 =? 0) then mret None else
  on_host (host_cache_invalidate slot_ptr elem_size) ;;
  item ← read_data i;
  slot ← load_slot i;
  let second_sequence := sequence_counter slot in
  if negb (first_sequence =? second_sequence) || negb (Z.land second_sequence 1 =? 0)
  then mret None else
  store_data i Zeroed ;;
  store_data i (Value elem_default) ;;
  modify (fun w => set_queue (store_tail (wrapping_add 64 tail 1) (queue w)) w) ;;
  mret (Some item).

End ops.

(** * Running the operations *)

Lemma is_power_of_two_spec (n : Z) :
  is_power_of_two n = true -> exists k, 0 <= k /\ n = 2 ^ k.
Proof.
  unfold is_power_of_two. rewrite andb_true_iff, Z.ltb_lt, Z.eqb_eq. intros [Hn Hl].
  pose proof (Z.log2_spec n Hn) as [Hlo Hhi]. pose proof (Z.log2_nonneg n).
  exists (Z.log2 n). split; [done|].
  destruct (Z.eq_dec n (2 ^ Z.log2 n)) as [|Hne]; [done|]. exfalso.
  assert (Hlog : Z.log2 (n - 1) = Z.log2 n) by (apply Z.log2_unique; lia).
  apply (f_equal (fun z => Z.testbit z (Z.log2 n))) in Hl.
  rewrite Z.land_spec, Z.bit_log2 in Hl by lia.
  rewrite <- Hlog, Z.bit_log2, Z.testbit_0_l in Hl by lia. done.
Qed.

Section run.
Context {T : Type} `{Elem T}.

Lemma on_host_done {A} (m : M Host A) (w : world T) (a : A) (h : Host) :
  m (host w) = Done a h -> on_host m w = Done a (set_host h w).
Proof. intros E. unfold on_host, zoom. by rewrite E. Qed.

Lemma push_run (N : Z) (w : world T) (item : T) (s : CacheAlignedSlot T) (cb : Z) :
  let index := head (queue w) mod N in
  is_initialized (queue w) = true ->
  wrapping_sub 64 (head (queue w)) (tail (queue w)) < N ->
  slots w !! Z.to_nat index = Some s ->
  CACHE_FLUSH_CB (host w) = Some cb ->
  push N item w =
    Done (Ok tt)
      (MkWorld (store_head (wrapping_add 64 (head (queue w)) 1) (queue w))
         (<[Z.to_nat index :=
              MkSlot (Value item)
                (Z.land (wrapping_add 64 (sequence_counter s) 2) (bnot 64 1))]> (slots w))
         (log (EvCacheFlush cb (buffer (queue w) + index * slot_size) elem_size) (host w))).
Proof.
  intros index Hi Hroom Hs Hcb. unfold push. msimpl. rewrite Hi. cbn [negb].
  destruct (Z.leb_spec N (wrapping_sub 64 (head (queue w)) (tail (queue w)))); [lia|].
  fold index. unfold load_slot, store_sequence, store_data, load_slot. msimpl.
  assert (Hlen : (Z.to_nat index < length (slots w))%nat) by by eapply lookup_lt_Some.
  rewrite Hs. cbn. rewrite Hs. cbn.
  rewrite list_lookup_insert_eq by done. cbn.
  rewrite list_insert_insert_eq.
  unfold on_host, zoom. cbn. rewrite (host_cache_flush_ok cb) by done. cbn.
  rewrite list_lookup_insert_eq by done. cbn.
  by rewrite list_insert_insert_eq.
Qed.

Lemma pop_run (N : Z) (w : world T) (v : T) (sq cb : Z) :
  let index := tail (queue w) mod N in
  is_initialized (queue w) = true ->
  head (queue w) <> tail (queue w) ->
  slots w !! Z.to_nat index = Some (MkSlot (Value v) sq) ->
  Z.land sq 1 = 0 ->
  CACHE_INVALIDATE_CB (host w) = Some cb ->
  pop N w =
    Done (Some v)
      (MkWorld (store_tail (wrapping_add 64 (tail (queue w)) 1) (queue w))
         (<[Z.to_nat index := MkSlot (Value elem_default) sq]> (slots w))
         (log (EvCacheInvalidate cb (buffer (queue w) + index * slot_size) elem_size) (host w))).
Proof.
  intros index Hi Hne Hs Hev Hcb. unfold pop. msimpl. rewrite Hi. cbn [negb].
  destruct (Z.eqb_spec (head (queue w)) (tail (queue w))); [done|].
  fold index. unfold read_data, load_slot, store_data, load_slot. msimpl.
  assert (Hlen : (Z.to_nat index < length (slots w))%nat) by by eapply lookup_lt_Some.
  rewrite Hs. cbn. rewrite Hev, Z.eqb_refl. cbn.
  unfold on_host, zoom. cbn. rewrite (host_cache_invalidate_ok cb) by done. cbn.
  rewrite Hs. cbn.
  rewrite Hs. cbn. rewrite Hev, !Z.eqb_refl. cbn. rewrite Hs. cbn.
  rewrite list_lookup_insert_eq by done. cbn. by rewrite list_insert_insert_eq.
Qed.

End run.

(** * Representation invariant and refinement *)

(** A usable capacity: a power of two that fits a [usize]. The constructors of
    both queues assert it at compile time (see [valid_capacity_usable]). *)
Class Capacity (N : Z) : Prop := capacity_ok : is_power_of_two N = true /\ N <= usize_max.

Lemma valid_capacity_usable (N : Z) : valid_capacity N = true -> Capacity N.
Proof.
  unfold valid_capacity. rewrite andb_true_iff, Z.leb_le. intros [Hp Hb].
  split; [done|]. change (usize_max / 2) with (2 ^ 63 - 1) in Hb. unfold usize_max, u64_max. lia.
Qed.

Section refinement.
Context {T : Type} `{Elem T}.
Variable N : Z.
Context `{HN : !Capacity N}.

Definition slot_index (c : Z) : nat := Z.to_nat (c mod N).

Definition stable (s : CacheAlignedSlot T) : Prop := Z.land (sequence_counter s) 1 = 0.

(** [w] holds [items], oldest first: the indices are counters modulo 2^64 that
    are [length items] apart, slot [t + i] holds item [i], and no slot is marked
    as being written. *)
Record spsc_repr (w : world T) (items : list T) : Prop := {
  repr_init : is_initialized (queue w) = true;
  repr_slots : length (slots w) = Z.to_nat N;
  repr_items : exists t,
    0 <= t /\
    tail (queue w) = t mod 2 ^ 64 /\
    head (queue w) = (t + zlen items) mod 2 ^ 64 /\
    zlen items <= N /\
    (forall i x, items !! i = Some x ->
       exists sq, slots w !! slot_index (t + Z.of_nat i) = Some (MkSlot (Value x) sq));
  repr_stable : Forall stable (slots w);
  repr_flush : is_Some (CACHE_FLUSH_CB (host w));
  repr_invalidate : is_Some (CACHE_INVALIDATE_CB (host w))
}.

Lemma capacity_pow2 : exists k, 0 <= k < 64 /\ N = 2 ^ k.
Proof.
  destruct HN as [Hp Hb]. destruct (is_power_of_two_spec N Hp) as (k & Hk & ->).
  exists k. split; [|done]. split; [done|].
  apply (Z.pow_lt_mono_r_iff 2); [lia|lia|]. unfold usize_max, u64_max in Hb. lia.
Qed.

Lemma capacity_range : 0 < N < 2 ^ 64.
Proof.
  destruct capacity_pow2 as (k & Hk & ->). split; [apply pow2_pos; lia|].
  apply Z.pow_lt_mono_r; lia.
Qed.

Lemma counter_index (c : Z) : (c mod 2 ^ 64) mod N = c mod N.
Proof.
  pose proof capacity_range. apply mod_mod_divide; [lia|lia|].
  destruct capacity_pow2 as (k & Hk & ->).
  exists (2 ^ (64 - k)). rewrite <- Z.pow_add_r by lia. f_equal. lia.
Qed.

Lemma slot_index_lt (c : Z) : (slot_index c < Z.to_nat N)%nat.
Proof.
  pose proof capacity_range. pose proof (Z.mod_pos_bound c N). unfold slot_index. lia.
Qed.

Lemma slot_index_close (a b : Z) : 0 <= a - b < N -> slot_index a = slot_index b -> a = b.
Proof.
  pose proof capacity_range. intros Hd E. apply (mod_eq_close N); [done|].
  pose proof (Z.mod_pos_bound a N). pose proof (Z.mod_pos_bound b N).
  unfold slot_index in E. lia.
Qed.

Lemma even_after_push (s : Z) : Z.land (Z.land s (bnot 64 1)) 1 = 0.
Proof. rewrite <- Z.land_assoc. change (Z.land (bnot 64 1) 1) with 0. apply Z.land_0_r. Qed.

Lemma spsc_push_logs (w : world T) (items : list T) (x : T) :
  spsc_repr w items -> (length items < Z.to_nat N)%nat ->
  exists w' cf p, push N x w = Done (Ok tt) w' /\ spsc_repr w' (items ++ [x]) /\
    CACHE_FLUSH_CB (host w) = Some cf /\ host w' = log (EvCacheFlush cf p elem_size) (host w).
Proof.
  intros [Hi Hlen (t & Ht & Etl & Ehd & Hn & Hits) Hst [cf Hcf] Hci] Hroom.
  pose proof capacity_range as HR. unfold zlen in *.
  destruct (lookup_lt_is_Some_2 (slots w) (slot_index (t + Z.of_nat (length items)))) as [s Hs].
  { rewrite Hlen. apply slot_index_lt. }
  rewrite (push_run N w x s cf); [|done| | |done].
  - eexists _, cf, _. split; [done|]. split; [|by split]. split; cbn; [done|by rewrite length_insert| | |done|done].
    + exists t. split_and!; [done|done| | |].
      * rewrite Ehd, wrapping_add_counter by lia. unfold zlen. rewrite length_app. cbn. f_equal; lia.
      * unfold zlen. rewrite length_app. cbn. lia.
      * rewrite Ehd, counter_index. fold (slot_index (t + Z.of_nat (length items))).
        intros i y [Hy|[Hy1 Hy2]]%lookup_app_Some.
        -- destruct (Hits i y Hy) as [sq Hsq]. exists sq.
           apply lookup_lt_Some in Hy.
           rewrite list_lookup_insert_ne; [done|]. intros E.
           apply slot_index_close in E; lia.
        -- apply list_lookup_singleton_Some in Hy2 as [Hy2 ->].
           replace i with (length items) by lia.
           eexists. apply list_lookup_insert_eq. rewrite Hlen. apply slot_index_lt.
    + apply Forall_insert; [done|]. unfold stable. cbn. apply even_after_push.
  - rewrite Etl, Ehd, wrapping_sub_counters; lia.
  - rewrite Ehd, counter_index. done.
Qed.

Lemma spsc_push_room (w : world T) (items : list T) (x : T) :
  spsc_repr w items -> (length items < Z.to_nat N)%nat ->
  exists w', push N x w = Done (Ok tt) w' /\ spsc_repr w' (items ++ [x]).
Proof. intros R Hl. destruct (spsc_push_logs w items x R Hl) as (w' & cf & p & E & R' & _). by exists w'. Qed.

Lemma spsc_push_full (w : world T) (items : list T) (x : T) :
  spsc_repr w items -> length items = Z.to_nat N -> push N x w = Done (Err IpcQueueFull) w.
Proof.
  intros [Hi Hlen (t & Ht & Etl & Ehd & Hn & Hits) Hst Hcf Hci] Hfull.
  pose proof capacity_range as HR. unfold zlen in *.
  unfold push. msimpl. rewrite Hi. cbn [negb].
  rewrite Etl, Ehd, wrapping_sub_counters by lia.
  destruct (Z.leb_spec N (t + Z.of_nat (length items) - t)); [done|lia].
Qed.

Lemma spsc_pop_empty (w : world T) : spsc_repr w [] -> pop N w = Done None w.
Proof.
  intros [Hi Hlen (t & Ht & Etl & Ehd & Hn & Hits) Hst Hcf Hci].
  unfold pop. msimpl. rewrite Hi, Etl, Ehd. cbn.
  rewrite Z.add_0_r, Z.eqb_refl. done.
Qed.

Lemma spsc_pop_logs (w : world T) (x : T) (items : list T) :
  spsc_repr w (x :: items) ->
  exists w' e, pop N w = Done (Some x) w' /\ spsc_repr w' items /\ host w' = log e (host w).
Proof.
  intros [Hi Hlen (t & Ht & Etl & Ehd & Hn & Hits) Hst Hcf [ci Hci]].
  pose proof capacity_range as HR. unfold zlen in *. cbn [length] in *.
  destruct (Hits 0%nat x eq_refl) as [sq Hsq]. rewrite Nat2Z.inj_0, Z.add_0_r in Hsq.
  assert (Hev : Z.land sq 1 = 0) by exact (Forall_lookup_1 _ _ _ _ Hst Hsq).
  rewrite (pop_run N w x sq ci); [|done| | |done|done].
  - eexists _, _. split; [done|]. split; [|done]. split; cbn; [done|by rewrite length_insert| | |done|done].
    + exists (t + 1). split_and!; [lia| | |unfold zlen; lia|].
      * rewrite Etl, wrapping_add_counter by lia. done.
      * rewrite Ehd. unfold zlen. f_equal. lia.
      * rewrite Etl, counter_index. fold (slot_index t).
        intros i y Hy. destruct (Hits (S i) y Hy) as [sq' Hsq']. exists sq'.
        replace (t + 1 + Z.of_nat i) with (t + Z.of_nat (S i)) by lia.
        apply lookup_lt_Some in Hy.
        rewrite list_lookup_insert_ne; [done|]. intros E.
        symmetry in E. apply slot_index_close in E; lia.
    + by apply Forall_insert.
  - rewrite Etl, Ehd. intros E. apply mod_eq_close in E; lia.
  - by rewrite Etl, counter_index.
Qed.

Lemma spsc_pop_item (w : world T) (x : T) (items : list T) :
  spsc_repr w (x :: items) ->
  exists w', pop N w = Done (Some x) w' /\ spsc_repr w' items.
Proof. intros R. destruct (spsc_pop_logs w x items R) as (w' & e & E & R' & _). by exists w'. Qed.

#[export] Instance spsc_fifo : Fifo (world T) T IpcError.
Proof.
  refine {| fifo_repr := spsc_repr; fifo_cap := Z.to_nat N; fifo_full := IpcQueueFull;
            fifo_push := push N; fifo_pop := pop N |}.
  - intros w l [_ _ (t & _ & _ & _ & Hn & _) _ _ _]. unfold zlen in Hn. lia.
  - apply spsc_push_room.
  - apply spsc_push_full.
  - apply spsc_pop_empty.
  - apply spsc_pop_item.
Defined.

End refinement.

(** * Initialisation *)

Section initialisation.
Context {T : Type} `{Elem T}.
Variable N : Z.
Context `{HN : !Capacity N}.

(** The memory region [init] accepts. *)
Definition region_ok (base_ptr size_in_bytes : Z) : Prop :=
  base_ptr <> 0 /\ N * slot_size < 2 ^ 64 /\ N * slot_size <= size_in_bytes /\
  base_ptr mod 4096 = 0 /\ base_ptr mod slot_align = 0.

Lemma slot_align_pos : 0 < slot_align.
Proof. unfold slot_align. lia. Qed.

(** The loop that clears the sequence counters, run to its end. *)
Lemma clear_sequences_run (w : world T) :
  length (slots w) = Z.to_nat N ->
  exists s',
    for_range 0 (Z.to_nat N) (fun index => store_sequence index 0) w =
      Done tt (set_slots s' w) /\
    length s' = length (slots w) /\
    Forall (fun s => sequence_counter s = 0) s' /\
    data <$> s' = data <$> slots w.
Proof.
  intros Hlen.
  destruct (for_range_inv
    (fun n (w' : world T) =>
       exists s', w' = set_slots s' w /\ length s' = length (slots w) /\
         (forall i s, (i < n)%nat -> s' !! i = Some s -> sequence_counter s = 0) /\
         data <$> s' = data <$> slots w)
    (fun index => store_sequence index 0) 0 (Z.to_nat N) w) as (w' & E & s' & -> & Hl & Hz & Hd).
  - intros i w1 Hi (s' & -> & Hl & Hz & Hd). unfold store_sequence, load_slot. msimpl. cbn.
    destruct (lookup_lt_is_Some_2 s' i) as [s Hs]; [lia|]. rewrite Hs. cbn.
    eexists. split; [done|]. exists (<[i:=MkSlot (data s) 0]> s'). split_and!; [done| | |].
    + by rewrite length_insert.
    + intros j s1 Hj. destruct (decide (i = j)) as [->|Hne].
      * rewrite list_lookup_insert_eq by lia. by intros [= <-].
      * rewrite list_lookup_insert_ne by done. apply Hz. lia.
    + rewrite list_fmap_insert. rewrite list_insert_id; [done|].
      rewrite list_lookup_fmap, Hs. done.
  - exists (slots w). split_and!; [by destruct w|done|lia|done].
  - exists s'. split_and!; [done|done| |done].
    apply Forall_lookup_2. intros i s Hs. apply (Hz i s); [|done].
    apply lookup_lt_Some in Hs. lia.
Qed.

Lemma init_rejects (base_ptr size_in_bytes : Z) (w : world T) :
  ~ region_ok base_ptr size_in_bytes ->
  init N base_ptr size_in_bytes w = Done (Err IpcInvalidMemory) w.
Proof.
  intros Hbad. pose proof slot_align_pos.
  unfold init, is_multiple_of, checked_mul. boolify; try (msimpl; done).
  exfalso. apply Hbad. by unfold region_ok.
Qed.

Lemma init_run (base_ptr size_in_bytes : Z) (w : world T) :
  region_ok base_ptr size_in_bytes ->
  init N base_ptr size_in_bytes w =
    (if is_initialized (queue w) || is_initializing (queue w)
     then Done (Err IpcAlreadyInitialized) w
     else
       (for_range 0 (Z.to_nat N) (fun index => store_sequence index 0) ;;
        modify (fun w => set_queue (MkQueue base_ptr (head (queue w)) (tail (queue w)) true false) w) ;;
        mret (Ok tt))
       (set_queue (store_initializing true (queue w)) w)).
Proof.
  intros (H1 & H2 & H3 & H4 & H5). pose proof slot_align_pos.
  unfold init, is_multiple_of, checked_mul. boolify; try lia. cbn [negb orb].
  msimpl. destruct (is_initialized (queue w)) eqn:Ei, (is_initializing (queue w)); cbn [orb]; try done.
  cbn. rewrite Ei. cbn.
  by destruct (for_range _ _ _ _).
Qed.

(** [init] decides exactly: a region that is null, too small, not page
    aligned or not slot aligned is refused with [InvalidMemory]; a queue that is
    initialised (or being initialised) is refused with [AlreadyInitialized];
    both leave the world as it was. Otherwise it succeeds, and a fresh queue then
    represents the empty sequence with every payload byte of the host region
    still untouched. *)
Theorem spsc_init_exact (base_ptr size_in_bytes : Z) (w : world T) :
  length (slots w) = Z.to_nat N ->
  head (queue w) = tail (queue w) -> in_width 64 (tail (queue w)) ->
  is_Some (CACHE_FLUSH_CB (host w)) -> is_Some (CACHE_INVALIDATE_CB (host w)) ->
  (~ region_ok base_ptr size_in_bytes ->
     init N base_ptr size_in_bytes w = Done (Err IpcInvalidMemory) w) /\
  (region_ok base_ptr size_in_bytes ->
     is_initialized (queue w) || is_initializing (queue w) = true ->
     init N base_ptr size_in_bytes w = Done (Err IpcAlreadyInitialized) w) /\
  (region_ok base_ptr size_in_bytes ->
     is_initialized (queue w) || is_initializing (queue w) = false ->
     exists w', init N base_ptr size_in_bytes w = Done (Ok tt) w' /\
                spsc_repr N w' [] /\ buffer (queue w') = base_ptr /\
                data <$> slots w' = data <$> slots w /\ host w' = host w).
Proof.
  intros Hlen Heq Htl Hcf Hci. split_and!.
  - apply init_rejects.
  - intros Hok Hinit. by rewrite init_run, Hinit.
  - intros Hok Hinit. rewrite init_run, Hinit by done.
    destruct (clear_sequences_run (set_queue (store_initializing true (queue w)) w) Hlen)
      as (s' & E & Hl & Hz & Hd).
    erewrite mbind_done by exact E. msimpl. eexists. split; [done|].
    split; [|done]. pose proof (capacity_range N) as HR.
    split; cbn; [done|cbn in Hl; congruence| | |done|done].
    + exists (tail (queue w)). unfold in_width in Htl.
      rewrite Z.mod_small by lia. unfold zlen. cbn. rewrite Z.add_0_r, Z.mod_small by lia.
      split_and!; [lia|done|done|lia|]. intros i x Hx. by rewrite lookup_nil in Hx.
    + eapply Forall_impl; [exact Hz|]. intros s Hs. unfold stable. cbn in Hs. by rewrite Hs.
Qed.

End initialisation.

(** * Concrete instance

    A four-slot queue of 64-bit integers over storage that was never written. *)

#[export] Instance Z_elem : Elem Z := {| elem_default := 0; elem_size := 8; elem_align := 8 |}.

Definition sample_world : world Z :=
  MkWorld new (replicate 4 (MkSlot Uninit 0)) sample_host.

(** Initialised at address 8192, with both indices about to wrap. *)
Definition sample_ready : world Z :=
  MkWorld (MkQueue 8192 (2 ^ 64 - 1) (2 ^ 64 - 1) true false)
    (replicate 4 (MkSlot Uninit 0)) sample_host.

#[export] Instance four_capacity : Capacity 4.
Proof. apply valid_capacity_usable. vm_compute. done. Qed.

Lemma sample_ready_repr : spsc_repr 4 sample_ready [].
Proof.
  split; [done|done| | |done|done].
  - exists (2 ^ 64 - 1). split_and!; [done|done|done|done|]. intros i x Hx. by rewrite lookup_nil in Hx.
  - by repeat constructor.
Qed.

(** * Claims *)

(** C2: for every capacity the constructor admits and every sequence of pushes
    and pops run from a world that represents [items], the answers are those of
    the bounded first-in first-out list: no item is lost, duplicated or
    reordered, a full queue refuses without overwriting, and no run reaches
    undefined behaviour or halts. The indices are 64-bit and may wrap. *)
Theorem spsc_refines_fifo {T : Type} `{Elem T} (N : Z) `{!Capacity N}
    (ops : list (fifo_op T)) (w : world T) (items : list T) :
  spsc_repr N w items ->
  exists w',
    fifo_run (F := spsc_fifo N) ops w =
      Done (spec_run (Z.to_nat N) IpcQueueFull ops items).1 w' /\
    spsc_repr N w' (spec_run (E := IpcError) (Z.to_nat N) IpcQueueFull ops items).2.
Proof. intros R. exact (fifo_run_refines (F := spsc_fifo N) ops w items R). Qed.

Lemma spsc_refines_fifo_witness :
  exists w',
    fifo_run (F := spsc_fifo 4)
      [OpPush 10; OpPush 20; OpPop; OpPush 30; OpPush 40; OpPush 50; OpPush 60; OpPop] sample_ready =
      Done [RetPush (Ok tt); RetPush (Ok tt); RetPop (Some 10); RetPush (Ok tt); RetPush (Ok tt);
            RetPush (Ok tt); RetPush (Err IpcQueueFull); RetPop (Some 20)] w' /\
    spsc_repr 4 w' [30; 40; 50].
Proof.
  exact (spsc_refines_fifo 4
    [OpPush 10; OpPush 20; OpPop; OpPush 30; OpPush 40; OpPush 50; OpPush 60; OpPop]
    sample_ready [] sample_ready_repr).
Defined.

Lemma spsc_init_exact_witness :
  exists w', init 4 8192 256 sample_world = Done (Ok tt) w' /\
             spsc_repr 4 w' [] /\ buffer (queue w') = 8192 /\
             data <$> slots w' = data <$> slots sample_world /\ host w' = host sample_world.
Proof.
  refine (proj2 (proj2 (spsc_init_exact 4 8192 256 sample_world eq_refl eq_refl _ _ _)) _ eq_refl).
  - done.
  - by exists 6.
  - by exists 5.
  - by vm_compute.
Defined.

(** Without a registered cache-flush callback a push that finds room never
    returns: it invokes the panic hook and spins, and it does so before the new
    head is published, so the consumer's view of the queue is unchanged. *)
Theorem spsc_push_fails_closed {T : Type} `{Elem T} (N : Z) `{!Capacity N} (w : world T) (x : T) :
  is_initialized (queue w) = true ->
  wrapping_sub 64 (head (queue w)) (tail (queue w)) < N ->
  length (slots w) = Z.to_nat N ->
  CACHE_FLUSH_CB (host w) = None ->
  exists w', push N x w = Halted w' /\ queue w' = queue w /\
    (forall j, j <> slot_index N (head (queue w)) -> slots w' !! j = slots w !! j) /\
    trace (host w') =
      trace (host w) ++ match PANIC_CALLBACK (host w) with
                        | Some cb => [EvPanicHook cb] | None => [] end.
Proof.
  intros Hi Hroom Hlen Hcb. unfold push. msimpl. rewrite Hi. cbn [negb].
  destruct (Z.leb_spec N (wrapping_sub 64 (head (queue w)) (tail (queue w)))); [lia|].
  pose proof (slot_index_lt N (head (queue w))) as Hlt. unfold slot_index in Hlt |- *.
  destruct (lookup_lt_is_Some_2 (slots w) (Z.to_nat (head (queue w) mod N))) as [s Hs]; [lia|].
  unfold load_slot, store_sequence, store_data, load_slot. msimpl.
  rewrite Hs. cbn. rewrite Hs. cbn. rewrite list_lookup_insert_eq by lia. cbn.
  unfold on_host, zoom, host_cache_flush, call_host. cbn. rewrite Hcb. msimpl.
  unfold invoke_panic_hook.
  destruct (PANIC_CALLBACK (host w)); cbn; eexists; (split; [done|]); cbn;
    (split_and!; [done| |try done; by rewrite app_nil_r]);
    intros j Hj; by rewrite !list_lookup_insert_ne by done.
Qed.

Lemma spsc_push_fails_closed_witness :
  exists w', push 4 77 (set_host (register_cache_flush None sample_host) sample_ready) = Halted w' /\
    queue w' = queue sample_ready /\
    (forall j, j <> 3%nat -> slots w' !! j = slots sample_ready !! j) /\
    trace (host w') = [EvPanicHook 1].
Proof.
  apply (spsc_push_fails_closed 4 (set_host (register_cache_flush None sample_host) sample_ready) 77);
    by vm_compute.
Defined.
