(* ===== verification/RingBuffer.v ===== *)
(** ring_buffer.rs: the ring buffer with non-destructive peek.

    The object has the same fields as the queue of spsc_queue.rs and shares its
    slot type, so the state is [Spsc.world]. The bodies of [init], [push] and
    [pop] are written out here from ring_buffer.rs and proved equal to those of
    spsc_queue.rs, which transfers the refinement; [peek] is new. The constructor
    asserts a power of two only, so 2^63 is admitted here and not there. *)

From S2P Require Import Prelude RtosHost Fifo Spsc.
Local Open Scope Z_scope.

Module RB.

(** The object: [buffer], [head], [tail], [is_initialized], [is_initializing]. *)
Definition RingBuffer : Type := SpscQueue.

(** The compile-time assertion of [RingBuffer::new]. *)
Definition valid_capacity (n : Z) : bool := is_power_of_two n.

Definition new : RingBuffer := MkQueue 0 0 0 false false.

Section ops.
Context {T : Type} `{Elem T}.
Variable N : Z.

Definition init (base_ptr size_in_bytes : Z) : M (world T) (result unit IpcError) :=
  if base_ptr =? 0 then mret (Err IpcInvalidMemory) else
  match checked_mul 64 N slot_size with
  | None => mret (Err IpcInvalidMemory)
  | Some required_size =>
    if size_in_bytes <? required_size then mret (Err IpcInvalidMemory) else
    if negb (is_multiple_of base_ptr 4096) || negb (is_multiple_of base_ptr slot_align)
    then mret (Err IpcInvalidMemory) else
    w ← get;
    if is_initialized (queue w) || is_initializing (queue w)
    then mret (Err IpcAlreadyInitialized) else
    modify (fun w => set_queue (store_initializing true (queue w)) w) ;;
    w ← get;
    if is_initialized (queue w) then
      modify (fun w => set_queue (store_initializing false (queue w)) w) ;;
      mret (Err IpcAlreadyInitialized)
    else
      for_range 0 (Z.to_nat N) (fun index => store_sequence index 0) ;;
      modify (fun w => set_queue (store_buffer base_ptr (queue w)) w) ;;
      modify (fun w => set_queue (store_initialized true (queue w)) w) ;;
      modify (fun w => set_queue (store_initializing false (queue w)) w) ;;
      mret (Ok tt)
  end.

Definition push (item : T) : M (world T) (result unit IpcError) :=
  w ← get;
  if negb (is_initialized (queue w)) then mret (Err IpcNotInitialized) else
  let head := head (queue w) in
  let tail := tail (queue w) in
  if N <=? wrapping_sub 64 head tail then mret (Err IpcQueueFull) else
  let idx := head mod N in
  let base_ptr := buffer (queue w) in
  let slot_ptr := base_ptr + idx * slot_size in
  let i := Z.to_nat idx in
  slot ← load_slot i;
  let sequence := sequence_counter slot in
  store_sequence i (Z.lor (wrapping_add 64 sequence 1) 1) ;;
  store_data i (Value item) ;;
  on_host (host_cache_flush slot_ptr elem_size) ;;
  store_sequence i (Z.land (wrapping_add 64 sequence 2) (bnot 64 1)) ;;
  modify (fun w => set_queue (store_head (wrapping_add 64 head 1) (queue w)) w) ;;
  mret (Ok tt).

Definition pop : M (world T) (option T) :=
  w ← get;
  if negb (is_initialized (queue w)) then mret None else
  let tail := tail (queue w) in
  let head := head (queue w) in
  if head =? tail then mret None else
  let idx := tail mod N in
  let base_ptr := buffer (queue w) in
  let slot_ptr := base_ptr + idx * slot_size in
  let i := Z.to_nat idx in
  slot ← load_slot i;
  let first_sequence := sequence_counter slot in
  if negb (Z.land first_sequence 1 =? 0) then mret None else
  on_host (host_cache_invalidate slot_ptr elem_size) ;;
  item ← read_data i;
  slot ← load_slot i;
  let second_sequence := sequence_counter slot in
  if negb (first_sequence =? second_sequence) || negb (Z.land second_sequence 1 =? 0)
  then mret None else
  store_data i Zeroed ;;
  store_data i (Value elem_default) ;;
  modify (fun w => set_queue (store_tail (wrapping_add 64 tail 1) (queue w)) w) ;;
  mret (Some item).

Definition peek : M (world T) (option T) :=
  w ← get;
  if negb (is_initialized (queue w)) then mret None else
  let tail := tail (queue w) in
  let head := head (queue w) in
  if head =? tail then mret None else
  let idx := tail mod N in
  let base_ptr := buffer (queue w) in
  let slot_ptr := base_ptr + idx * slot_size in
  let i := Z.to_nat idx in
  slot ← load_slot i;
  let first_sequence := sequence_counter slot in
  if negb (Z.land first_sequence 1 =? 0) then mret None else
  on_host (host_cache_invalidate slot_ptr elem_size) ;;
  item ← read_data i;
  slot ← load_slot i;
  let second_sequence := sequence_counter slot in
  if negb (first_sequence =? second_sequence) || negb (Z.land second_sequence 1 =? 0)
  then mret None else
  mret (Some item).

End ops.

(** * The bodies agree with spsc_queue.rs *)

Section transfer.
Context {T : Type} `{Elem T}.
Variable N : Z.

Lemma init_same (base_ptr size_in_bytes : Z) (w : world T) :
  init N base_ptr size_in_bytes w = Spsc.init N base_ptr size_in_bytes w.
Proof. reflexivity. Qed.

Lemma push_same (x : T) (w : world T) : push N x w = Spsc.push N x w.
Proof. reflexivity. Qed.

Lemma pop_same (w : world T) : pop N w = Spsc.pop N w.
Proof. reflexivity. Qed.

Context `{HN : !Capacity N}.

#[export] Instance ring_fifo : Fifo (world T) T IpcError.
Proof.
  refine {| fifo_repr := spsc_repr N; fifo_cap := Z.to_nat N; fifo_full := IpcQueueFull;
            fifo_push := push N; fifo_pop := pop N |}.
  - exact (fifo_cap_bound (Fifo := spsc_fifo N)).
  - exact (fifo_push_room (Fifo := spsc_fifo N)).
  - exact (fifo_push_full (Fifo := spsc_fifo N)).
  - exact (fifo_pop_empty (Fifo := spsc_fifo N)).
  - exact (fifo_pop_item (Fifo := spsc_fifo N)).
Defined.

(** * Peek *)

Lemma peek_empty (w : world T) : spsc_repr N w [] -> peek N w = Done None w.
Proof.
  intros [Hi Hlen (t & Ht & Etl & Ehd & Hn & Hits) Hst Hcf Hci].
  unfold peek. msimpl. rewrite Hi, Etl, Ehd. cbn.
  rewrite Z.add_0_r, Z.eqb_refl. done.
Qed.

Lemma peek_item (w : world T) (x : T) (items : list T) :
  spsc_repr N w (x :: items) ->
  exists e, peek N w = Done (Some x) (set_host (log e (host w)) w).
Proof.
  intros [Hi Hlen (t & Ht & Etl & Ehd & Hn & Hits) Hst Hcf [ci Hci]].
  pose proof (capacity_range N) as HR. unfold zlen in *. cbn [length] in *.
  destruct (Hits 0%nat x eq_refl) as [sq Hsq]. rewrite Nat2Z.inj_0, Z.add_0_r in Hsq.
  assert (Hev : Z.land sq 1 = 0) by exact (Forall_lookup_1 _ _ _ _ Hst Hsq).
  unfold peek. msimpl. rewrite Hi, Etl, Ehd. cbn [negb].
  destruct (Z.eqb_spec ((t + Z.of_nat (S (length items))) mod 2 ^ 64) (t mod 2 ^ 64)) as [E|_].
  { apply mod_eq_close in E; lia. }
  rewrite (counter_index N). fold (slot_index N t).
  unfold read_data, load_slot. msimpl. rewrite Hsq. cbn. rewrite Hev, Z.eqb_refl. cbn.
  unfold on_host, zoom. cbn. rewrite (host_cache_invalidate_ok ci) by done. cbn.
  rewrite Hsq. cbn. rewrite Hsq. cbn. rewrite Hev, !Z.eqb_refl. cbn. by eexists.
Qed.

End transfer.

(** * Claims *)

(** Peek-allocate-pop: a peek answers the oldest item without removing it.
    On an empty ring it answers nothing; otherwise it changes only the host's
    record of calls, the ring still represents the same items, and the next pop
    returns exactly the peeked item. *)
Theorem ring_peek_then_pop {T : Type} `{Elem T} (N : Z) `{!Capacity N}
    (w : world T) (items : list T) :
  spsc_repr N w items ->
  exists w1, peek N w = Done (list.head items) w1 /\
    queue w1 = queue w /\ slots w1 = slots w /\ spsc_repr N w1 items /\
    exists w2, pop N w1 = Done (list.head items) w2 /\ spsc_repr N w2 (list.tail items).
Proof.
  intros R. destruct items as [|x items].
  - exists w. rewrite (peek_empty N w R). split_and!; [done..|].
    exists w. split; [|done]. apply (fifo_pop_empty (Fifo := ring_fifo N)). done.
  - destruct (peek_item N w x items R) as [e E]. rewrite E.
    exists (set_host (log e (host w)) w).
    assert (R1 : spsc_repr N (set_host (log e (host w)) w) (x :: items)) by by destruct R.
    split_and!; [done..|].
    apply (fifo_pop_item (Fifo := ring_fifo N)). done.
Qed.

Lemma ring_peek_then_pop_witness :
  exists w0 w1, push 4 10 sample_ready = Done (Ok tt) w0 /\
    peek 4 w0 = Done (Some 10) w1 /\
    queue w1 = queue w0 /\ slots w1 = slots w0 /\ spsc_repr 4 w1 [10] /\
    exists w2, pop 4 w1 = Done (Some 10) w2 /\ spsc_repr 4 w2 [].
Proof.
  destruct (spsc_push_room 4 sample_ready [] 10 sample_ready_repr) as (w0 & E & R).
  { cbn. lia. }
  exists w0. destruct (ring_peek_then_pop 4 w0 [10] R) as (w1 & Hw1).
  exists w1. split; [exact E | exact Hw1].
Defined.

(** The ring buffer refines the same bounded first-in first-out contract as
    the queue, for every power of two a [usize] can hold. *)
Theorem ring_refines_fifo {T : Type} `{Elem T} (N : Z)
    (Hcap : valid_capacity N = true) (Hbits : N <= usize_max)
    (ops : list (fifo_op T)) (w : world T) (items : list T) :
  spsc_repr N w items ->
  exists w',
    fifo_run (F := ring_fifo N (HN := conj Hcap Hbits)) ops w =
      Done (spec_run (Z.to_nat N) IpcQueueFull ops items).1 w' /\
    spsc_repr N w' (spec_run (E := IpcError) (Z.to_nat N) IpcQueueFull ops items).2.
Proof. intros R. exact (fifo_run_refines (F := ring_fifo N (HN := conj Hcap Hbits)) ops w items R). Qed.

Lemma ring_refines_fifo_witness :
  exists (Hc : valid_capacity 4 = true) (Hb : 4 <= usize_max) w',
    fifo_run (F := ring_fifo 4 (HN := conj Hc Hb)) [OpPop; OpPush 1; OpPush 2; OpPop] sample_ready =
      Done [RetPop None; RetPush (Ok tt); RetPush (Ok tt); RetPop (Some 1)] w' /\
    spsc_repr 4 w' [2].
Proof.
  assert (Hc : valid_capacity 4 = true) by reflexivity.
  assert (Hb : 4 <= usize_max) by (vm_compute; discriminate).
  exists Hc, Hb.
  exact (ring_refines_fifo 4 Hc Hb [OpPop; OpPush 1; OpPush 2; OpPop] sample_ready [] sample_ready_repr).
Defined.

End RB.
