(* ===== verification/SpscConc.v ===== *)
(** spsc_queue.rs under interleaving: one producer and one consumer.

    [push] and [pop] are cut at every access to a shared location (the two
    indices, a slot's sequence counter, a slot's payload); the program counter
    of each side keeps the values it has read so far. [step] interleaves the two
    sides one access at a time. The initialisation flag is set throughout, and
    interleaving is sequentially consistent: the Acquire/Release pairs of the
    source are what licenses reading the publication order off program order.
    The calls of the cache callbacks ([host_cache_flush] before the publication of
    the head, [host_cache_invalidate] before the read of a payload) are no steps of
    this machine: they touch none of the shared locations, and memory is coherent
    here. Spsc.v has them in sequence.
    The queue's counters are 64-bit and wrap; the two ghost lists record what was
    published and what was consumed, and their lengths are the unbounded
    counters the indices stand for. *)

From S2P Require Import Prelude RtosHost Fifo Spsc.
Local Open Scope Z_scope.

Module Conc.

Section machine.
Context {T : Type} `{Elem T}.
Variable N : Z.

(** * State *)

(** Where the producer is in [push]: the names say which access comes next. *)
Inductive prod_pc : Type :=
| PIdle
| PLoadHead (item : T)
| PLoadTail (item : T) (head : Z)
| PLoadSeq (item : T) (head : Z)
| PMarkOdd (item : T) (head sequence : Z)
| PWrite (item : T) (head sequence : Z)
| PMarkEven (item : T) (head sequence : Z)
| PPublish (item : T) (head : Z).

(** Where the consumer is in [pop]. *)
Inductive cons_pc : Type :=
| CIdle
| CLoadTail
| CLoadHead (tail : Z)
| CLoadSeq (tail : Z)
| CRead (tail first_sequence : Z)
| CRecheck (tail first_sequence : Z) (item : T)
| CZero (tail : Z) (item : T)
| CDefault (tail : Z) (item : T)
| CPublish (tail : Z) (item : T).

Record conc : Type := MkConc {
  c_head : Z;
  c_tail : Z;
  c_slots : list (CacheAlignedSlot T);
  prod : prod_pc;
  cons : cons_pc;
  pushed : list T;      (** ghost: items whose push published the head *)
  popped : list T;      (** ghost: items whose pop published the tail *)
  refused : nat;        (** ghost: pushes answered [QueueFull] *)
  torn : nat            (** ghost: pops answered [None] by a sequence check *)
}.

Definition set_prod (pc : prod_pc) (s : conc) : conc :=
  MkConc (c_head s) (c_tail s) (c_slots s) pc (cons s) (pushed s) (popped s) (refused s) (torn s).
Definition set_cons (pc : cons_pc) (s : conc) : conc :=
  MkConc (c_head s) (c_tail s) (c_slots s) (prod s) pc (pushed s) (popped s) (refused s) (torn s).
Definition set_mem (m : list (CacheAlignedSlot T)) (s : conc) : conc :=
  MkConc (c_head s) (c_tail s) m (prod s) (cons s) (pushed s) (popped s) (refused s) (torn s).
Definition note_refused (s : conc) : conc :=
  MkConc (c_head s) (c_tail s) (c_slots s) (prod s) (cons s) (pushed s) (popped s) (S (refused s)) (torn s).
Definition note_torn (s : conc) : conc :=
  MkConc (c_head s) (c_tail s) (c_slots s) (prod s) (cons s) (pushed s) (popped s) (refused s) (S (torn s)).
Definition publish_head (v : Z) (x : T) (s : conc) : conc :=
  MkConc v (c_tail s) (c_slots s) (prod s) (cons s) (pushed s ++ [x]) (popped s) (refused s) (torn s).
Definition publish_tail (v : Z) (x : T) (s : conc) : conc :=
  MkConc (c_head s) v (c_slots s) (prod s) (cons s) (pushed s) (popped s ++ [x]) (refused s) (torn s).

Abbreviation idx := (slot_index N).

Definition seq_at (c : Z) (s : conc) : option Z := sequence_counter <$> (c_slots s !! idx c).
Definition put_seq (c v : Z) (s : conc) : conc :=
  set_mem (alter (fun sl => MkSlot (data sl) v) (idx c) (c_slots s)) s.
Definition put_data (c : Z) (d : cell T) (s : conc) : conc :=
  set_mem (alter (fun sl => MkSlot d (sequence_counter sl)) (idx c) (c_slots s)) s.

(** * Steps *)

(** The producer's next access; [None] when it is between calls. *)
Definition prod_next (s : conc) : option conc :=
  match prod s with
  | PIdle => None
  | PLoadHead item => Some (set_prod (PLoadTail item (c_head s)) s)
  | PLoadTail item head =>
      if N <=? wrapping_sub 64 head (c_tail s)
      then Some (note_refused (set_prod PIdle s))
      else Some (set_prod (PLoadSeq item head) s)
  | PLoadSeq item head =>
      sequence ← seq_at head s; Some (set_prod (PMarkOdd item head sequence) s)
  | PMarkOdd item head sequence =>
      Some (set_prod (PWrite item head sequence)
              (put_seq head (Z.lor (wrapping_add 64 sequence 1) 1) s))
  | PWrite item head sequence =>
      Some (set_prod (PMarkEven item head sequence) (put_data head (Value item) s))
  | PMarkEven item head sequence =>
      Some (set_prod (PPublish item head)
              (put_seq head (Z.land (wrapping_add 64 sequence 2) (bnot 64 1)) s))
  | PPublish item head =>
      Some (set_prod PIdle (publish_head (wrapping_add 64 head 1) item s))
  end.

(** The consumer's next access; [None] also when it would read a payload that
    holds no value. *)
Definition cons_next (s : conc) : option conc :=
  match cons s with
  | CIdle => None
  | CLoadTail => Some (set_cons (CLoadHead (c_tail s)) s)
  | CLoadHead tail =>
      if c_head s =? tail then Some (set_cons CIdle s)
      else Some (set_cons (CLoadSeq tail) s)
  | CLoadSeq tail =>
      first_sequence ← seq_at tail s;
      if negb (Z.land first_sequence 1 =? 0) then Some (note_torn (set_cons CIdle s))
      else Some (set_cons (CRead tail first_sequence) s)
  | CRead tail first_sequence =>
      slot ← c_slots s !! idx tail;
      match data slot with
      | Value item => Some (set_cons (CRecheck tail first_sequence item) s)
      | _ => None
      end
  | CRecheck tail first_sequence item =>
      second_sequence ← seq_at tail s;
      if negb (first_sequence =? second_sequence) || negb (Z.land second_sequence 1 =? 0)
      then Some (note_torn (set_cons CIdle s))
      else Some (set_cons (CZero tail item) s)
  | CZero tail item => Some (set_cons (CDefault tail item) (put_data tail Zeroed s))
  | CDefault tail item =>
      Some (set_cons (CPublish tail item) (put_data tail (Value elem_default) s))
  | CPublish tail item =>
      Some (set_cons CIdle (publish_tail (wrapping_add 64 tail 1) item s))
  end.

(** A side that is between calls may start one; otherwise it makes its next
    access. *)
Inductive step : conc -> conc -> Prop :=
| step_call_push s item : prod s = PIdle -> step s (set_prod (PLoadHead item) s)
| step_call_pop s : cons s = CIdle -> step s (set_cons CLoadTail s)
| step_producer s s' : prod_next s = Some s' -> step s s'
| step_consumer s s' : cons_next s = Some s' -> step s s'.

Definition start (mem : list (CacheAlignedSlot T)) : conc :=
  MkConc 0 0 mem PIdle CIdle [] [] 0 0.

(** * Conflicts *)

(** The slot whose payload the next access of a side touches. *)
Definition prod_touches (s : conc) : option nat :=
  match prod s with PWrite _ head _ => Some (idx head) | _ => None end.

Definition cons_touches (s : conc) : option nat :=
  match cons s with
  | CRead tail _ | CZero tail _ | CDefault tail _ => Some (idx tail)
  | _ => None
  end.

(** The slot a side is working on, from the check that grants it to the store
    that gives it up. *)
Definition prod_owns (s : conc) : option Z :=
  match prod s with
  | PLoadSeq _ h | PMarkOdd _ h _ | PWrite _ h _ | PMarkEven _ h _ | PPublish _ h => Some h
  | _ => None
  end.

Definition cons_owns (s : conc) : option Z :=
  match cons s with
  | CLoadSeq t | CRead t _ | CRecheck t _ _ | CZero t _ | CDefault t _ | CPublish t _ => Some t
  | _ => None
  end.

Definition race (s : conc) : Prop :=
  exists i, prod_touches s = Some i /\ cons_touches s = Some i.

(** The consumer is about to read a payload that holds no value. *)
Definition reads_garbage (s : conc) : Prop :=
  exists tail first_sequence, cons s = CRead tail first_sequence /\
    forall sl v, c_slots s !! idx tail = Some sl -> data sl <> Value v.

(** Own steps a call still has to make. *)
Definition prod_left (s : conc) : nat :=
  match prod s with
  | PIdle => 0 | PLoadHead _ => 7 | PLoadTail _ _ => 6 | PLoadSeq _ _ => 5
  | PMarkOdd _ _ _ => 4 | PWrite _ _ _ => 3 | PMarkEven _ _ _ => 2 | PPublish _ _ => 1
  end.

Definition cons_left (s : conc) : nat :=
  match cons s with
  | CIdle => 0 | CLoadTail => 8 | CLoadHead _ => 7 | CLoadSeq _ => 6 | CRead _ _ => 5
  | CRecheck _ _ _ => 4 | CZero _ _ => 3 | CDefault _ _ => 2 | CPublish _ _ => 1
  end.

End machine.

Arguments MkConc {T}.
Arguments c_head {T}.
Arguments c_tail {T}.
Arguments c_slots {T}.
Arguments prod {T}.
Arguments cons {T}.
Arguments pushed {T}.
Arguments popped {T}.
Arguments refused {T}.
Arguments torn {T}.


(** * Invariant *)

Section invariant.
Context {T : Type} `{Elem T}.
Variable N : Z.
Context `{HN : !Capacity N}.

Abbreviation idx := (slot_index N).
Abbreviation mem := (list (CacheAlignedSlot T)).

(** Every item from position [lo] on sits in its slot. *)
Definition mem_items (lo : Z) (items : list T) (m : mem) : Prop :=
  forall i x, lo <= Z.of_nat i -> items !! i = Some x ->
    exists sq, m !! idx (Z.of_nat i) = Some (MkSlot (Value x) sq).

(** Every slot but the marked one has an even counter. *)
Definition mem_even (mark : option nat) (m : mem) : Prop :=
  forall j sl, m !! j = Some sl -> mark <> Some j -> stable sl.

Definition marked (s : conc (T := T)) : option nat :=
  match prod s with PWrite _ h _ | PMarkEven _ h _ => Some (idx h) | _ => None end.

(** What the producer's program counter promises, [h] and [t] being the
    unbounded counters. *)
Definition prod_ok (h t : Z) (m : mem) (pc : prod_pc (T := T)) : Prop :=
  match pc with
  | PIdle | PLoadHead _ => True
  | PLoadTail _ hd => hd = h mod 2 ^ 64
  | PLoadSeq _ hd | PMarkOdd _ hd _ | PWrite _ hd _ => hd = h mod 2 ^ 64 /\ h - t < N
  | PMarkEven x hd _ | PPublish x hd =>
      hd = h mod 2 ^ 64 /\ h - t < N /\ exists sq, m !! idx h = Some (MkSlot (Value x) sq)
  end.

Definition cons_ok (h t : Z) (items : list T) (m : mem) (pc : cons_pc (T := T)) : Prop :=
  match pc with
  | CIdle | CLoadTail => True
  | CLoadHead tl => tl = t mod 2 ^ 64
  | CLoadSeq tl => tl = t mod 2 ^ 64 /\ t < h
  | CRead tl f =>
      tl = t mod 2 ^ 64 /\ t < h /\ exists d, m !! idx t = Some (MkSlot d f)
  | CRecheck tl f x =>
      tl = t mod 2 ^ 64 /\ t < h /\ (exists d, m !! idx t = Some (MkSlot d f)) /\
      items !! Z.to_nat t = Some x
  | CZero tl x | CDefault tl x | CPublish tl x =>
      tl = t mod 2 ^ 64 /\ t < h /\ items !! Z.to_nat t = Some x
  end.

(** The first position whose payload is still in place: the consumer erases
    position [t] just before it gives it up. *)
Definition live_from (s : conc (T := T)) : Z :=
  match cons s with
  | CDefault _ _ | CPublish _ _ => zlen (popped s) + 1
  | _ => zlen (popped s)
  end.

Record inv (s : conc (T := T)) : Prop := {
  inv_len : length (c_slots s) = Z.to_nat N;
  inv_head : c_head s = zlen (pushed s) mod 2 ^ 64;
  inv_tail : c_tail s = zlen (popped s) mod 2 ^ 64;
  inv_gap : zlen (popped s) <= zlen (pushed s) <= zlen (popped s) + N;
  inv_prefix : popped s `prefix_of` pushed s;
  inv_prod : prod_ok (zlen (pushed s)) (zlen (popped s)) (c_slots s) (prod s);
  inv_cons : cons_ok (zlen (pushed s)) (zlen (popped s)) (pushed s) (c_slots s) (cons s);
  inv_items : mem_items (live_from s) (pushed s) (c_slots s);
  inv_even : mem_even (marked s) (c_slots s);
  inv_torn : torn s = 0%nat
}.

(** ** Memory lemmas *)

Lemma idx_wrap (c : Z) : idx (c mod 2 ^ 64) = idx c.
Proof. unfold slot_index. by rewrite (counter_index N). Qed.

Lemma items_put_seq (lo : Z) (items : list T) (m : mem) (j : nat) (v : Z) :
  mem_items lo items m ->
  mem_items lo items (alter (fun sl => MkSlot (data sl) v) j m).
Proof.
  intros Hm i x Hi Hx. destruct (Hm i x Hi Hx) as [sq Hsq].
  destruct (decide (j = idx (Z.of_nat i))) as [->|Hne].
  - exists v. by rewrite list_lookup_alter_eq, Hsq.
  - exists sq. by rewrite list_lookup_alter_ne.
Qed.

Lemma items_put_data (lo c : Z) (items : list T) (m : mem) (d : cell T) :
  (forall i, lo <= i < zlen items -> idx i <> idx c) ->
  mem_items lo items m ->
  mem_items lo items (alter (fun sl => MkSlot d (sequence_counter sl)) (idx c) m).
Proof.
  intros Hc Hm i x Hi Hx. destruct (Hm i x Hi Hx) as [sq Hsq]. exists sq.
  rewrite list_lookup_alter_ne; [done|]. apply not_eq_sym, Hc.
  apply lookup_lt_Some in Hx. unfold zlen. lia.
Qed.

Lemma items_weaken (lo lo' : Z) (items : list T) (m : mem) :
  lo <= lo' -> mem_items lo items m -> mem_items lo' items m.
Proof. intros Hlo Hm i x Hi. apply Hm. lia. Qed.

Lemma items_snoc (lo : Z) (items : list T) (m : mem) (x : T) (sq : Z) :
  m !! idx (zlen items) = Some (MkSlot (Value x) sq) ->
  mem_items lo items m -> mem_items lo (items ++ [x]) m.
Proof.
  intros Hx Hm i y Hi [Hy|[Hy1 Hy2]]%lookup_app_Some; [by apply Hm|].
  apply list_lookup_singleton_Some in Hy2 as [Hy2 ->].
  exists sq. by replace i with (length items) by lia.
Qed.

Lemma even_put_data (mark : option nat) (m : mem) (j : nat) (d : cell T) :
  mem_even mark m -> mem_even mark (alter (fun sl => MkSlot d (sequence_counter sl)) j m).
Proof.
  intros Hm i sl Hsl Hne. destruct (decide (j = i)) as [->|Hji].
  - rewrite list_lookup_alter_eq in Hsl. apply fmap_Some in Hsl as (sl0 & E & ->).
    exact (Hm _ _ E Hne).
  - rewrite list_lookup_alter_ne in Hsl by done. exact (Hm _ _ Hsl Hne).
Qed.

Lemma even_mark (m : mem) (j : nat) (v : Z) :
  mem_even None m -> mem_even (Some j) (alter (fun sl => MkSlot (data sl) v) j m).
Proof.
  intros Hm i sl Hsl Hne. rewrite list_lookup_alter_ne in Hsl by congruence.
  by apply (Hm i).
Qed.

Lemma even_unmark (m : mem) (j : nat) (v : Z) :
  Z.land v 1 = 0 -> mem_even (Some j) m ->
  mem_even None (alter (fun sl => MkSlot (data sl) v) j m).
Proof.
  intros Hv Hm i sl Hsl _. destruct (decide (j = i)) as [->|Hji].
  - rewrite list_lookup_alter_eq in Hsl. by apply fmap_Some in Hsl as (sl0 & E & ->).
  - rewrite list_lookup_alter_ne in Hsl by done. apply (Hm _ _ Hsl). congruence.
Qed.

(** The two sides never work on the same slot. *)
Lemma idx_apart (h t : Z) : t < h -> h - t < N -> idx h <> idx t.
Proof. intros H1 H2 E. apply (slot_index_close N) in E; lia. Qed.

(** A change of the producer's slot is invisible to the consumer. *)
Lemma cons_ok_frame (h t : Z) (items : list T) (m : mem) (f : CacheAlignedSlot T -> CacheAlignedSlot T)
    (pc : cons_pc) :
  h - t < N -> cons_ok h t items m pc -> cons_ok h t items (alter f (idx h) m) pc.
Proof.
  intros Hgap. destruct pc; cbn [cons_ok]; intros Hc; destruct_and?; split_and?; try done;
    rewrite list_lookup_alter_ne by (by apply idx_apart); eauto.
Qed.

(** Publishing one more item keeps the consumer's promises. *)
Lemma cons_ok_publish (h t : Z) (items : list T) (m : mem) (x : T) (pc : cons_pc) :
  cons_ok h t items m pc -> cons_ok (h + 1) t (items ++ [x]) m pc.
Proof.
  destruct pc; cbn [cons_ok]; intros Hc; destruct_and?; split_and?; try done; try lia;
    by apply lookup_app_l_Some.
Qed.

(** A change of the consumer's slot is invisible to the producer. *)
Lemma prod_ok_frame (h t : Z) (m : mem) (f : CacheAlignedSlot T -> CacheAlignedSlot T) (pc : prod_pc) :
  t < h -> prod_ok h t m pc -> prod_ok h t (alter f (idx t) m) pc.
Proof.
  intros Hlt. destruct pc; cbn [prod_ok]; intros Hp; destruct_and?; split_and?; try done;
    rewrite list_lookup_alter_ne by (apply not_eq_sym, idx_apart; lia); eauto.
Qed.

Lemma prod_ok_publish (h t : Z) (m : mem) (pc : prod_pc) :
  prod_ok h t m pc -> prod_ok h (t + 1) m pc.
Proof. destruct pc; cbn [prod_ok]; intros Hp; destruct_and?; split_and?; try done; lia. Qed.

(** ** Preservation *)

Lemma live_from_le (s : conc) : inv s -> zlen (popped s) <= live_from s <= zlen (pushed s).
Proof.
  intros [_ _ _ Hg _ _ Hc _ _ _]. unfold live_from.
  destruct (cons s); cbn in Hc; destruct_and?; lia.
Qed.

Lemma live_apart (s : conc) (i : Z) :
  inv s -> zlen (pushed s) - zlen (popped s) < N ->
  live_from s <= i < zlen (pushed s) -> idx i <> idx (zlen (pushed s)).
Proof.
  intros Hinv Hroom Hi E. pose proof (live_from_le s Hinv).
  symmetry in E. apply (slot_index_close N) in E; lia.
Qed.

Lemma inv_publish_head (s : conc) (item : T) (hd : Z) :
  inv s -> prod s = PPublish item hd -> inv (set_prod PIdle (publish_head (wrapping_add 64 hd 1) item s)).
Proof.
  intros [Hl Hh Ht Hg Hpre Hp Hc Hi He Hto] Epc. rewrite Epc in Hp. pose proof (capacity_range N) as HR.
  destruct Hp as (-> & Hroom & sq & Hsq).
  assert (Hz : zlen (pushed s ++ [item]) = zlen (pushed s) + 1).
  { unfold zlen. rewrite length_app. cbn. lia. }
  split; cbn; try done; rewrite ?Hz; try done.
  - by rewrite wrapping_add_counter by lia.
  - lia.
  - by apply prefix_app_r.
  - by apply cons_ok_publish.
  - by eapply items_snoc.
  - unfold marked in *. by rewrite Epc in He.
Qed.

(** A producer access that writes its slot keeps the parts it does not own. *)
Lemma inv_prod_next (s s' : conc) : inv s -> prod_next N s = Some s' -> inv s'.
Proof.
  intros Hinv. pose proof (live_apart s) as Hapart. pose proof (capacity_range N) as HR.
  destruct Hinv as [Hl Hh Ht Hg Hpre Hp Hc Hi He Hto] eqn:Hinv0. clear Hinv0.
  unfold prod_next. destruct (prod s) eqn:Epc; cbn [prod_ok] in Hp; intros Hs.
  - done.
  - simplify_eq. split; cbn; try done. unfold mem_even, marked in *. by rewrite Epc in He.
  - rewrite Hp, Ht, wrapping_sub_counters in Hs by lia.
    destruct (Z.leb_spec N (zlen (pushed s) - zlen (popped s))); simplify_eq;
      split; cbn; try done; try (unfold mem_even, marked in *; by rewrite Epc in He).
  - destruct Hp as [-> Hroom]. unfold seq_at in Hs. rewrite idx_wrap in Hs.
    destruct (c_slots s !! idx (zlen (pushed s))) as [sl|] eqn:Esl; [|done]. cbn in Hs. simplify_eq.
    split; cbn; try done. unfold mem_even, marked in *. by rewrite Epc in He.
  - destruct Hp as [-> Hroom]. simplify_eq. unfold put_seq. rewrite idx_wrap.
    split; cbn; try done.
    + by rewrite length_alter.
    + by apply cons_ok_frame.
    + by apply items_put_seq.
    + unfold marked in *. cbn. rewrite Epc in He. rewrite idx_wrap. by apply even_mark.
  - destruct Hp as [-> Hroom]. simplify_eq. unfold put_data. rewrite idx_wrap.
    split; cbn; try done.
    + by rewrite length_alter.
    + split_and!; [done|done|].
      destruct (lookup_lt_is_Some_2 (c_slots s) (idx (zlen (pushed s)))) as [sl Hsl].
      { rewrite Hl. apply slot_index_lt, _. }
      exists (sequence_counter sl). by rewrite list_lookup_alter_eq, Hsl.
    + by apply cons_ok_frame.
    + apply items_put_data; [|done]. intros i Hir. by apply Hapart.
    + unfold marked in *. cbn. rewrite Epc in He. by apply even_put_data.
  - destruct Hp as (-> & Hroom & sq & Hsq). simplify_eq. unfold put_seq. rewrite idx_wrap.
    split; cbn; try done.
    + by rewrite length_alter.
    + split_and!; [done|done|]. eexists. by rewrite list_lookup_alter_eq, Hsq.
    + by apply cons_ok_frame.
    + by apply items_put_seq.
    + unfold marked in *. cbn. rewrite Epc, idx_wrap in He. apply even_unmark; [|done].
      apply even_after_push.
  - simplify_eq. by apply inv_publish_head.
Qed.

(** The slot the consumer is about to read is not being written. *)
Lemma tail_stable (s : conc) (sl : CacheAlignedSlot T) :
  inv s -> zlen (popped s) < zlen (pushed s) -> c_slots s !! idx (zlen (popped s)) = Some sl -> stable sl.
Proof.
  intros [Hl Hh Ht Hg Hpre Hp Hc Hi He Hto] Hlt Esl. apply (He _ _ Esl). unfold marked.
  destruct (prod s); cbn in Hp; try done; destruct_and!; simplify_eq; intros [= E]; rewrite idx_wrap in E;
    apply (idx_apart (zlen (pushed s)) (zlen (popped s))) in E; done.
Qed.

(** Both erasing writes of a pop: the slot at the tail is no longer a live item. *)
Lemma inv_erase (s : conc) (tl : Z) (item : T) (d : cell T) (pc : cons_pc) :
  inv s -> cons s = CZero tl item \/ cons s = CDefault tl item ->
  pc = CDefault tl item \/ pc = CPublish tl item -> inv (set_cons pc (put_data N tl d s)).
Proof.
  intros [Hl Hh Ht Hg Hpre Hp Hc Hi He Hto] Epc Epc'. pose proof (capacity_range N) as HR.
  assert (Hc' : tl = zlen (popped s) mod 2 ^ 64 /\ zlen (popped s) < zlen (pushed s) /\
                pushed s !! Z.to_nat (zlen (popped s)) = Some item).
  { destruct Epc as [E|E]; by rewrite E in Hc. }
  destruct Hc' as (-> & Hlt & Hx). unfold put_data. rewrite idx_wrap.
  assert (Hlf : live_from (set_cons pc s) = zlen (popped s) + 1).
  { by destruct Epc' as [->| ->]. }
  split; cbn; try done.
  - by rewrite length_alter.
  - by apply prod_ok_frame.
  - destruct Epc' as [->| ->]; done.
  - change (live_from _) with (live_from (set_cons pc s)). rewrite Hlf. apply items_put_data.
    + intros i Hir E. apply (slot_index_close N) in E; cbn in *; lia.
    + eapply items_weaken; [|exact Hi]. unfold live_from. destruct Epc as [-> | ->]; lia.
  - unfold marked in *. by apply even_put_data.
Qed.

Lemma inv_publish_tail (s : conc) (tl : Z) (item : T) :
  inv s -> cons s = CPublish tl item -> inv (set_cons CIdle (publish_tail (wrapping_add 64 tl 1) item s)).
Proof.
  intros [Hl Hh Ht Hg Hpre Hp Hc Hi He Hto] Epc. rewrite Epc in Hc. pose proof (capacity_range N) as HR.
  destruct Hc as (-> & Hlt & Hx). unfold live_from in Hi. rewrite Epc in Hi.
  assert (Hz : zlen (popped s ++ [item]) = zlen (popped s) + 1).
  { unfold zlen. rewrite length_app. cbn. lia. }
  split; cbn; try done; rewrite ?Hz; try done.
  - by rewrite wrapping_add_counter by lia.
  - lia.
  - destruct Hpre as [k Hk]. unfold zlen in Hx. rewrite Hk in Hx |- *.
    rewrite Nat2Z.id, lookup_app_r, Nat.sub_diag in Hx by done.
    destruct k as [|y k]; [done|]. cbn in Hx. simplify_eq. exists k. by rewrite <- app_assoc.
  - by apply prod_ok_publish.
Qed.

Lemma inv_cons_next (s s' : conc) : inv s -> cons_next N s = Some s' -> inv s'.
Proof.
  intros Hinv. pose proof (capacity_range N) as HR.
  pose proof Hinv as [Hl Hh Ht Hg Hpre Hp Hc Hi He Hto].
  unfold cons_next. destruct (cons s) eqn:Epc; cbn [cons_ok] in Hc; intros Hs;
    unfold live_from in Hi; rewrite Epc in Hi.
  - done.
  - simplify_eq. split; cbn; done.
  - rewrite Hc, Hh in Hs.
    destruct (Z.eqb_spec (zlen (pushed s) mod 2 ^ 64) (zlen (popped s) mod 2 ^ 64)) as [E|Hne];
      simplify_eq; split; cbn; try done.
    split; [done|]. destruct (Z.eq_dec (zlen (pushed s)) (zlen (popped s))) as [E|]; [|lia].
    by rewrite E in Hne.
  - destruct Hc as [-> Hlt]. unfold seq_at in Hs. rewrite idx_wrap in Hs.
    destruct (c_slots s !! idx (zlen (popped s))) as [sl|] eqn:Esl; [|done]. cbn in Hs.
    pose proof (tail_stable s sl Hinv Hlt Esl) as Hev.
    rewrite Hev, Z.eqb_refl in Hs. cbn in Hs. simplify_eq. split; cbn; try done.
    destruct sl; cbn in *. eauto.
  - destruct Hc as (-> & Hlt & d & Hd). rewrite idx_wrap, Hd in Hs. cbn in Hs.
    destruct (lookup_lt_is_Some_2 (pushed s) (length (popped s))) as [x Hx].
    { unfold zlen in *. lia. }
    destruct (Hi (length (popped s)) x) as [sq Hsq]; [done|done|].
    unfold zlen in Hd. rewrite Hd in Hsq. simplify_eq.
    split; cbn; try done. split_and!; [done|done| |].
    + eexists. exact Hd.
    + unfold zlen. by rewrite Nat2Z.id.
  - destruct Hc as (-> & Hlt & (d & Hd) & Hx). unfold seq_at in Hs. rewrite idx_wrap, Hd in Hs.
    cbn in Hs.
    pose proof (tail_stable s _ Hinv Hlt Hd) as Hev. unfold stable in Hev. cbn in Hev.
    rewrite Hev, !Z.eqb_refl in Hs. cbn in Hs. simplify_eq. split; cbn; done.
  - simplify_eq. eapply inv_erase; [done|by left|by left].
  - simplify_eq. eapply inv_erase; [done|by right|by right].
  - simplify_eq. by apply inv_publish_tail.
Qed.

Lemma spsc_inv_step (s s' : conc) : inv s -> step N s s' -> inv s'.
Proof.
  intros Hinv Hst. destruct Hst as [s item Epc|s Epc|s s1 E|s s1 E].
  - destruct Hinv as [Hl Hh Ht Hg Hpre Hp Hc Hi He Hto]. split; cbn; try done.
    unfold marked in *. by rewrite Epc in He.
  - destruct Hinv as [Hl Hh Ht Hg Hpre Hp Hc Hi He Hto]. split; cbn; try done.
    unfold live_from in *. by rewrite Epc in Hi.
  - by eapply inv_prod_next.
  - by eapply inv_cons_next.
Qed.

Lemma spsc_inv_start (m : mem) :
  length m = Z.to_nat N -> Forall stable m -> inv (start m).
Proof.
  intros Hl He. pose proof (capacity_range N). split; cbn; try done.
  - unfold zlen. cbn. lia.
  - intros j sl Hsl _. exact (Forall_lookup_1 _ _ _ _ He Hsl).
Qed.

Lemma spsc_inv_reachable (m : mem) (s : conc) :
  length m = Z.to_nat N -> Forall stable m -> rtc (step N) (start m) s -> inv s.
Proof.
  intros Hl He. apply (rtc_ind_r (fun s => inv s)); [by apply spsc_inv_start|].
  intros s1 s2 _ Hst Hinv. by eapply spsc_inv_step.
Qed.

(** Neither side can be stuck inside a call. *)
Lemma prod_progress (s : conc) : inv s -> prod s <> PIdle -> is_Some (prod_next N s).
Proof.
  intros [Hl Hh Ht Hg Hpre Hp Hc Hi He Hto] Hne. unfold prod_next.
  destruct (prod s); cbn in Hp; try done; try (case_match; eauto; done).
  destruct Hp as [-> _]. unfold seq_at. rewrite idx_wrap.
  destruct (lookup_lt_is_Some_2 (c_slots s) (idx (zlen (pushed s)))) as [sl ->]; [|done].
  rewrite Hl. apply slot_index_lt, _.
Qed.

Lemma cons_progress (s : conc) : inv s -> cons s <> CIdle -> is_Some (cons_next N s).
Proof.
  intros [Hl Hh Ht Hg Hpre Hp Hc Hi He Hto] Hne. unfold cons_next.
  assert (Hslot : is_Some (c_slots s !! idx (zlen (popped s)))).
  { apply lookup_lt_is_Some_2. rewrite Hl. apply slot_index_lt, _. }
  destruct (cons s) eqn:Epc; cbn in Hc; destruct_and?; subst; try done;
    unfold seq_at; rewrite ?idx_wrap; try (case_match; eauto; done);
    destruct Hslot as [sl Hsl]; rewrite Hsl; cbn; try (case_match; eauto; done).
  destruct (lookup_lt_is_Some_2 (pushed s) (length (popped s))) as [x Hx].
  { unfold zlen in *. lia. }
  destruct (Hi (length (popped s)) x) as [sq Hsq]; [|done|].
  { unfold live_from. by rewrite Epc. }
  unfold zlen in Hsl. rewrite Hsl in Hsq. simplify_eq. cbn. eauto.
Qed.

End invariant.

(** * Agreement with the sequential operations *)

Section agreement.
Context {T : Type} `{Elem T}.
Variable N : Z.

Abbreviation idx := (slot_index N).

(** Let one side run alone until its call ends. *)
Fixpoint solo (next : conc (T := T) -> option conc) (fuel : nat) (s : conc) : conc :=
  match fuel with
  | O => s
  | S fuel' => match next s with Some s' => solo next fuel' s' | None => s end
  end.

(** The interleaving state that corresponds to a world between calls. *)
Definition of_world (w : world T) : conc :=
  MkConc (head (queue w)) (tail (queue w)) (slots w) PIdle CIdle [] [] 0 0.

Definition same_memory (s : conc) (w : world T) : Prop :=
  c_head s = head (queue w) /\ c_tail s = tail (queue w) /\ c_slots s = slots w.

Lemma alter_insert {A} (f : A -> A) (i : nat) (l : list A) (x : A) :
  l !! i = Some x -> alter f i l = <[i := f x]> l.
Proof.
  revert i. induction l as [|y l IH]; intros [|i] E; simplify_eq/=; [done|].
  f_equal. by apply IH.
Qed.

Lemma solo_push_full (w : world T) (x : T) :
  is_initialized (queue w) = true ->
  N <= wrapping_sub 64 (head (queue w)) (tail (queue w)) ->
  push N x w = Done (Err IpcQueueFull) w /\
  solo (prod_next N) 7 (set_prod (PLoadHead x) (of_world w)) = note_refused (of_world w).
Proof.
  intros Hi Hfull. split.
  - unfold push. msimpl. rewrite Hi. cbn [negb].
    by destruct (Z.leb_spec N (wrapping_sub 64 (head (queue w)) (tail (queue w)))); [|lia].
  - unfold solo, prod_next. cbn [prod set_prod c_tail of_world c_head].
    by destruct (Z.leb_spec N (wrapping_sub 64 (head (queue w)) (tail (queue w)))); [|lia].
Qed.

Lemma solo_step (next : conc -> option conc) (n : nat) (s s1 : conc) :
  next s = Some s1 -> solo next (S n) s = solo next n s1.
Proof. intros E. cbn. by rewrite E. Qed.

Ltac step_solo lems :=
  erewrite solo_step by
    (unfold prod_next, cons_next, seq_at, put_seq, put_data, set_mem; cbn; lems; cbn; reflexivity).

Lemma solo_push_room (w : world T) (x : T) (sl : CacheAlignedSlot T) :
  wrapping_sub 64 (head (queue w)) (tail (queue w)) < N ->
  slots w !! idx (head (queue w)) = Some sl ->
  solo (prod_next N) 7 (set_prod (PLoadHead x) (of_world w)) =
    MkConc (wrapping_add 64 (head (queue w)) 1) (tail (queue w))
      (<[idx (head (queue w)) :=
          MkSlot (Value x) (Z.land (wrapping_add 64 (sequence_counter sl) 2) (bnot 64 1))]> (slots w))
      PIdle CIdle [x] [] 0 0.
Proof.
  intros Hroom%Z.leb_gt Hsl. assert (Hlen : (idx (head (queue w)) < length (slots w))%nat)
    by by eapply lookup_lt_Some.
  step_solo idtac. step_solo ltac:(rewrite Hroom). step_solo ltac:(rewrite Hsl).
  step_solo ltac:(rewrite (alter_insert _ _ (slots w) sl Hsl)).
  step_solo ltac:(erewrite alter_insert by (by apply list_lookup_insert_eq);
                  rewrite list_insert_insert_eq).
  step_solo ltac:(erewrite alter_insert by (by apply list_lookup_insert_eq);
                  rewrite list_insert_insert_eq).
  by step_solo idtac.
Qed.

Lemma solo_pop_item (w : world T) (v : T) (sq : Z) :
  head (queue w) <> tail (queue w) ->
  slots w !! idx (tail (queue w)) = Some (MkSlot (Value v) sq) ->
  Z.land sq 1 = 0 ->
  solo (cons_next N) 8 (set_cons CLoadTail (of_world w)) =
    MkConc (head (queue w)) (wrapping_add 64 (tail (queue w)) 1)
      (<[idx (tail (queue w)) := MkSlot (Value elem_default) sq]> (slots w))
      PIdle CIdle [] [v] 0 0.
Proof.
  intros Hne%Z.eqb_neq Hsl Hev. assert (Hlen : (idx (tail (queue w)) < length (slots w))%nat)
    by by eapply lookup_lt_Some.
  step_solo idtac. step_solo ltac:(rewrite Hne).
  step_solo ltac:(rewrite Hsl; cbn; rewrite Hev, Z.eqb_refl).
  step_solo ltac:(rewrite Hsl).
  step_solo ltac:(rewrite Hsl; cbn; rewrite Hev, !Z.eqb_refl).
  step_solo ltac:(rewrite (alter_insert _ _ (slots w) _ Hsl)).
  step_solo ltac:(erewrite alter_insert by (by apply list_lookup_insert_eq);
                  rewrite list_insert_insert_eq).
  by step_solo idtac.
Qed.

Lemma solo_pop_empty (w : world T) :
  head (queue w) = tail (queue w) ->
  solo (cons_next N) 8 (set_cons CLoadTail (of_world w)) = of_world w.
Proof. intros E. step_solo idtac. by step_solo ltac:(rewrite E, Z.eqb_refl). Qed.

End agreement.

(** * Claims *)

(** C1: under every interleaving of one producer and one consumer, from storage
    whose payloads may never have been written: what has been consumed is a
    prefix of what has been published, at most [N] items are outstanding, the
    two sides never touch the payload of the same slot at the same time, the
    consumer never reads a payload that holds no value, and the defensive
    sequence check never fails (ring_buffer.rs calls that path unreachable). *)
Theorem spsc_interleaved_safe {T : Type} `{Elem T} (N : Z) `{!Capacity N}
    (m : list (CacheAlignedSlot T)) (s : conc) :
  length m = Z.to_nat N -> Forall stable m -> rtc (step N) (start m) s ->
  popped s `prefix_of` pushed s /\
  zlen (pushed s) <= zlen (popped s) + N /\
  ~ race N s /\ ~ reads_garbage N s /\ torn s = 0%nat.
Proof.
  intros Hl He Hr. pose proof (spsc_inv_reachable N m s Hl He Hr) as Hinv.
  pose proof (cons_progress N s Hinv) as Hprog.
  destruct Hinv as [Hlen Hh Ht Hg Hpre Hp Hc Hi Hev Hto]. split_and!; [done|lia| | |done].
  - intros (i & E1 & E2). unfold prod_touches, cons_touches in *.
    destruct (prod s); try done. cbn in Hp. destruct Hp as [-> Hroom]. simplify_eq.
    destruct (cons s); try done; cbn in Hc; destruct_and!; subst; simplify_eq;
      rewrite !(idx_wrap N) in E2; symmetry in E2; by apply (idx_apart N) in E2.
  - intros (tl & f & E & Hno). destruct Hprog as [s' Hs']; [by rewrite E|].
    unfold cons_next in Hs'. rewrite E in Hs'.
    destruct (c_slots s !! slot_index N tl) as [sl|] eqn:Esl; [|done]. cbn in Hs'.
    destruct (data sl) as [| |v] eqn:Ed; [done|done|]. by apply (Hno sl v).
Qed.

(** Both calls are wait-free: inside a call a side can always make its next
    access, each of its own accesses brings it strictly closer to returning, and
    nothing the other side does sets it back. A push returns within seven own
    accesses and a pop within eight. *)
Theorem spsc_wait_free {T : Type} `{Elem T} (N : Z) `{!Capacity N}
    (m : list (CacheAlignedSlot T)) (s : conc) :
  length m = Z.to_nat N -> Forall stable m -> rtc (step N) (start m) s ->
  (prod_left s <= 7)%nat /\ (cons_left s <= 8)%nat /\
  (prod s <> PIdle -> exists s', prod_next N s = Some s' /\
     (prod_left s' < prod_left s)%nat /\ cons_left s' = cons_left s) /\
  (cons s <> CIdle -> exists s', cons_next N s = Some s' /\
     (cons_left s' < cons_left s)%nat /\ prod_left s' = prod_left s).
Proof.
  intros Hl He Hr. pose proof (spsc_inv_reachable N m s Hl He Hr) as Hinv.
  split_and!.
  - unfold prod_left. case_match; lia.
  - unfold cons_left. case_match; lia.
  - intros Hne. destruct (prod_progress N s Hinv Hne) as [s' Hs']. exists s'. split; [done|].
    unfold prod_next in Hs'. unfold prod_left at 2.
    destruct (prod s); try done; repeat case_match; simplify_eq; cbn; try (split; [lia|done]).
    destruct (seq_at N head s); cbn in Hs'; simplify_eq; cbn. split; [lia|done].
  - intros Hne. destruct (cons_progress N s Hinv Hne) as [s' Hs']. exists s'. split; [done|].
    unfold cons_next in Hs'. unfold cons_left at 2.
    destruct (cons s) eqn:Ec; try done; repeat case_match; simplify_eq; cbn; try (split; [lia|done]).
    + destruct (seq_at N tail s); cbn in Hs'; [|done]. case_match; simplify_eq; cbn; split; (lia || done).
    + destruct (c_slots s !! slot_index N tail) as [sl|]; cbn in Hs'; [|done].
      case_match; simplify_eq; cbn. split; (lia || done).
    + destruct (seq_at N tail s); cbn in Hs'; [|done]. case_match; simplify_eq; cbn; split; (lia || done).
Qed.

(** The interleaving machine is the program: run alone to its end, a side
    leaves in memory exactly what the sequential [push] or [pop] leaves, and is
    back between calls. *)
Theorem spsc_solo_agrees {T : Type} `{Elem T} (N : Z) `{!Capacity N}
    (w : world T) (items : list T) (x : T) :
  spsc_repr N w items ->
  (exists r w', push N x w = Done r w' /\
     let s' := solo (prod_next N) 7 (set_prod (PLoadHead x) (of_world w)) in
     same_memory s' w' /\ prod s' = PIdle /\ refused s' = (if is_ok r then 0 else 1)%nat) /\
  (exists o w', pop N w = Done o w' /\
     let s' := solo (cons_next N) 8 (set_cons CLoadTail (of_world w)) in
     same_memory s' w' /\ cons s' = CIdle /\ popped s' = option_list o).
Proof.
  intros R. pose proof R as [Hi Hlen (t & Ht & Etl & Ehd & Hn & Hits) Hst [cf Hcf] [ci Hci]]. split.
  - destruct (Z_lt_le_dec (wrapping_sub 64 (head (queue w)) (tail (queue w))) N) as [Hroom|Hfull].
    + destruct (lookup_lt_is_Some_2 (slots w) (slot_index N (head (queue w)))) as [sl Hsl].
      { rewrite Hlen. apply slot_index_lt, _. }
      eexists _, _. split; [by eapply push_run|]. rewrite (solo_push_room N w x sl) by done. done.
    + destruct (solo_push_full N w x Hi Hfull) as [-> ->]. by eexists _, _.
  - destruct items as [|y items].
    + eexists _, _. split; [by apply spsc_pop_empty|].
      unfold zlen in Ehd. cbn in Ehd. rewrite Z.add_0_r in Ehd.
      by rewrite solo_pop_empty by congruence.
    + destruct (Hits 0%nat y eq_refl) as [sq Hsq]. rewrite Nat2Z.inj_0, Z.add_0_r in Hsq.
      assert (Hev : Z.land sq 1 = 0) by exact (Forall_lookup_1 _ _ _ _ Hst Hsq).
      assert (Hne : head (queue w) <> tail (queue w)).
      { pose proof (capacity_range N). unfold zlen in *. cbn [length] in *.
        rewrite Etl, Ehd. intros E. apply mod_eq_close in E; lia. }
      assert (Hsl : slots w !! slot_index N (tail (queue w)) = Some (MkSlot (Value y) sq)).
      { by rewrite Etl, idx_wrap by done. }
      eexists _, _. split; [by eapply pop_run|]. by rewrite (solo_pop_item N w y sq).
Qed.

(** ** Witnesses *)

Definition sample_mem : list (CacheAlignedSlot Z) := replicate 4 (MkSlot Uninit 0).

(** A push of 9 runs alone, then the consumer gets as far as its read while the
    producer writes a second item. *)
Definition sample_mid : conc :=
  let s1 := solo (prod_next 4) 7 (set_prod (PLoadHead 9) (start sample_mem)) in
  let s2 := solo (prod_next 4) 4 (set_prod (PLoadHead 8) s1) in
  solo (cons_next 4) 3 (set_cons CLoadTail s2).

Lemma solo_prod_steps {T} `{Elem T} (N : Z) (n : nat) (s : conc) :
  rtc (step N) s (solo (prod_next N) n s).
Proof.
  revert s. induction n as [|n IH]; intros s; cbn; [done|].
  destruct (prod_next N s) as [s'|] eqn:E; [|done].
  eapply rtc_l; [by apply step_producer|apply IH].
Qed.

Lemma solo_cons_steps {T} `{Elem T} (N : Z) (n : nat) (s : conc) :
  rtc (step N) s (solo (cons_next N) n s).
Proof.
  revert s. induction n as [|n IH]; intros s; cbn; [done|].
  destruct (cons_next N s) as [s'|] eqn:E; [|done].
  eapply rtc_l; [by apply step_consumer|apply IH].
Qed.

Lemma sample_mid_reachable : rtc (step 4) (start sample_mem) sample_mid.
Proof.
  unfold sample_mid; cbv zeta.
  eapply rtc_l; [by apply (step_call_push 4 _ 9)|].
  etrans; [apply (solo_prod_steps 4 7)|].
  eapply rtc_l; [by apply (step_call_push 4 _ 8)|].
  etrans; [apply (solo_prod_steps 4 4)|].
  eapply rtc_l; [by apply (step_call_pop 4)|].
  apply (solo_cons_steps 4 3).
Qed.

Lemma spsc_interleaved_safe_witness :
  prod_touches 4 sample_mid = Some 1%nat /\ cons_touches 4 sample_mid = Some 0%nat /\
  popped sample_mid `prefix_of` pushed sample_mid /\
  zlen (pushed sample_mid) <= zlen (popped sample_mid) + 4 /\
  ~ race 4 sample_mid /\ ~ reads_garbage 4 sample_mid /\ torn sample_mid = 0%nat.
Proof.
  split; [reflexivity|]. split; [reflexivity|].
  apply (spsc_interleaved_safe 4 sample_mem sample_mid);
    [reflexivity | by repeat constructor | exact sample_mid_reachable].
Defined.

Lemma spsc_wait_free_witness :
  exists s', cons_next 4 sample_mid = Some s' /\
    (cons_left s' < cons_left sample_mid)%nat /\ prod_left s' = prod_left sample_mid.
Proof.
  refine (proj2 (proj2 (proj2 (spsc_wait_free 4 sample_mem sample_mid _ _ sample_mid_reachable))) _);
    [reflexivity | by repeat constructor | discriminate].
Defined.

Lemma spsc_solo_agrees_witness :
  exists r w', push 4 5 sample_ready = Done r w' /\
     let s' := solo (prod_next 4) 7 (set_prod (PLoadHead 5) (of_world sample_ready)) in
     same_memory s' w' /\ prod s' = PIdle /\ refused s' = (if is_ok r then 0 else 1)%nat.
Proof. exact (proj1 (spsc_solo_agrees 4 sample_ready [] 5 sample_ready_repr)). Defined.

End Conc.
