(* ===== verification/SpscWorkload.v ===== *)
(** tsan-host-validation.rs: a producer thread pushes 0, 1, 2, ... into a queue of
    64 slots, retrying while the queue is full, and a consumer thread pops them,
    retrying while it is empty, and asserts that they arrive in order.

    The threads run on the interleaving machine of SpscConc.v: a schedule says, for
    every step, which thread makes its next access. [thread::yield_now] has no
    effect of its own. A failed assertion, an index out of range or a read of a slot
    that holds no value is the end of a thread in [PPanicked] or [CPanicked]. The
    ring buffer's [init], [push] and [pop] have the bodies of the queue's, so its round
    runs the same machine. *)

From S2P Require Import Prelude RtosHost Fifo Spsc RingBuffer SpscConc.
Import Conc.
Local Open Scope Z_scope.

Module Workload.

#[local] Instance u32_elem : Elem Z := {| elem_default := 0; elem_size := 4; elem_align := 4 |}.

Definition QUEUE_CAPACITY : Z := 64.
Definition TRANSFERS_PER_ROUND : Z := 100000.
Definition ROUNDS : nat := 3.

#[export] Instance sixty_four_capacity : Capacity QUEUE_CAPACITY.
Proof. by split; vm_compute. Qed.

(** * Threads *)

Inductive producer : Type :=
| PLoop (value : Z)     (** before [push(value)] *)
| PCall (value : Z)     (** inside it *)
| PJoined
| PPanicked.

Inductive consumer : Type :=
| CLoop (expected : Z)
| CCall (expected : Z)
| CReturned (expected : Z)
| CPanicked.

Record state : Type := MkState {
  q : conc (T := Z);
  prod_thread : producer;
  cons_thread : consumer
}.

Inductive side : Type := Producer | Consumer.

#[export] Instance side_eq_dec : EqDecision side.
Proof. solve_decision. Defined.

Section threads.
Variables N total : Z.

(** Is the access the one that makes [push] answer [Ok(())]? *)
Definition push_returns_ok (s : conc (T := Z)) : bool :=
  match prod s with PPublish _ _ => true | _ => false end.
(** What [pop] answers if this access is its last. *)
Definition pop_returns (s : conc (T := Z)) : option Z :=
  match cons s with CPublish _ item => Some item | _ => None end.

Definition producer_step (st : state) : state :=
  match prod_thread st with
  | PLoop value =>
      if value <? total then MkState (set_prod (PLoadHead value) (q st)) (PCall value) (cons_thread st)
      else MkState (q st) PJoined (cons_thread st)
  | PCall value =>
      match prod_next N (q st) with
      | Some s' =>
          MkState s'
            match prod s' with
            | PIdle => if push_returns_ok (q st) then PLoop (value + 1) else PLoop value
            | _ => PCall value
            end (cons_thread st)
      | None => MkState (q st) PPanicked (cons_thread st)
      end
  | PJoined | PPanicked => st
  end.

Definition consumer_step (st : state) : state :=
  match cons_thread st with
  | CLoop expected =>
      if expected <? total then MkState (set_cons CLoadTail (q st)) (prod_thread st) (CCall expected)
      else MkState (q st) (prod_thread st) (CReturned expected)
  | CCall expected =>
      match cons_next N (q st) with
      | Some s' =>
          MkState s' (prod_thread st)
            match cons s' with
            | CIdle =>
                match pop_returns (q st) with
                | Some actual => if actual =? expected then CLoop (expected + 1) else CPanicked
                | None => CLoop expected
                end
            | _ => CCall expected
            end
      | None => MkState (q st) (prod_thread st) CPanicked
      end
  | CReturned _ | CPanicked => st
  end.

Definition thread_step (who : side) (st : state) : state :=
  match who with Producer => producer_step st | Consumer => consumer_step st end.

(** The state after [i] steps of the schedule. *)
Fixpoint exec (sched : nat -> side) (st : state) (i : nat) : state :=
  match i with
  | O => st
  | S j => thread_step (sched j) (exec sched st j)
  end.

End threads.

(** * A round *)

(** [queue.init], then both threads; the round ends when both are joined and answers
    how much was consumed. [None] while it runs and for ever after a panic. *)
Definition run_round (init : M (world Z) (result unit IpcError)) (sched : nat -> side) (i : nat) (w : world Z)
  : option Z :=
  match init w with
  | Done (Ok tt) w' =>
      match exec QUEUE_CAPACITY TRANSFERS_PER_ROUND sched (MkState (of_world w') (PLoop 0) (CLoop 0)) i with
      | {| prod_thread := PJoined; cons_thread := CReturned consumed |} =>
          if consumed =? TRANSFERS_PER_ROUND then Some consumed else None
      | _ => None
      end
  | _ => None
  end.

Definition run_spsc_round (ptr : Z) : (nat -> side) -> nat -> world Z -> option Z :=
  run_round (init QUEUE_CAPACITY ptr (QUEUE_CAPACITY * slot_size)).
Definition run_ring_round (ptr : Z) : (nat -> side) -> nat -> world Z -> option Z :=
  run_round (RB.init QUEUE_CAPACITY ptr (QUEUE_CAPACITY * slot_size)).

Definition install_cache_callbacks (callback : FnPtr) (h : Host) : Host :=
  register_cache_invalidate (Some callback) (register_cache_flush (Some callback) h).

(** [main]: three rounds of each kind, every round on a new queue over storage of its
    own. [rounds] gives each its storage and its schedule; all run for [i] steps. *)
Record workload : Type := MkWorkload {
  storage : Z;
  content : list (CacheAlignedSlot Z);
  schedule : nat -> side
}.

Definition finished (run : Z -> (nat -> side) -> nat -> world Z -> option Z) (h : Host) (i : nat) (l : workload) : bool :=
  bool_decide (run (storage l) (schedule l) i (MkWorld Spsc.new (content l) h) = Some TRANSFERS_PER_ROUND).

Definition main (callback : FnPtr) (spsc ring : nat -> workload) (i : nat) (h : Host) : bool :=
  let h := install_cache_callbacks callback h in
  forallb (fun round => finished run_spsc_round h i (spsc round) && finished run_ring_round h i (ring round))
    (seq 0 ROUNDS).

(** * The threads' invariant *)

Section proofs.
Context (N : Z) `{HN : !Capacity N}.
Variable total : Z.
Hypothesis total_pos : 0 <= total.

Definition item_of (p : prod_pc (T := Z)) : option Z :=
  match p with
  | PIdle => None
  | PLoadHead x | PLoadTail x _ | PLoadSeq x _ | PMarkOdd x _ _ | PWrite x _ _ | PMarkEven x _ _
  | PPublish x _ => Some x
  end.

Definition prod_at (st : state) : Prop :=
  match prod_thread st with
  | PLoop v => prod (q st) = PIdle /\ pushed (q st) = seqZ 0 v /\ 0 <= v <= total
  | PCall v => item_of (prod (q st)) = Some v /\ pushed (q st) = seqZ 0 v /\ 0 <= v < total
  | PJoined => prod (q st) = PIdle /\ pushed (q st) = seqZ 0 total
  | PPanicked => False
  end.

Definition cons_at (st : state) : Prop :=
  match cons_thread st with
  | CLoop e => cons (q st) = CIdle /\ popped (q st) = seqZ 0 e /\ 0 <= e <= total
  | CCall e => cons (q st) <> CIdle /\ popped (q st) = seqZ 0 e /\ 0 <= e < total
  | CReturned e => cons (q st) = CIdle /\ popped (q st) = seqZ 0 e /\ e = total
  | CPanicked => False
  end.

Record round_ok (st : state) : Prop := {
  ro_queue : inv N (q st);
  ro_prod : prod_at st;
  ro_cons : cons_at st
}.

(** Own steps to the next item, while there is room or something to take. *)
Definition prod_need (st : state) : nat :=
  match prod_thread st with PLoop _ => 8 | PCall _ => prod_left (q st) | _ => 0 end.
Definition cons_need (st : state) : nat :=
  match cons_thread st with CLoop _ => 9 | CCall _ => cons_left (q st) | _ => 0 end.

(** ** One access of each side *)

Lemma prod_access (s s' : conc) :
  inv N s -> prod_next N s = Some s' ->
  cons s' = cons s /\ popped s' = popped s /\
  if push_returns_ok s
  then prod s' = PIdle /\ exists v, item_of (prod s) = Some v /\ pushed s' = pushed s ++ [v]
  else pushed s' = pushed s /\
    (prod s' = PIdle /\ N <= zlen (pushed s) - zlen (popped s) \/
     item_of (prod s') = item_of (prod s) /\ prod s' <> PIdle /\ (prod_left s' < prod_left s)%nat).
Proof.
  intros Hinv. pose proof Hinv as [_ _ Ht Hg _ Hp _ _ _ _]. pose proof (capacity_range N) as HR.
  unfold prod_next, push_returns_ok, prod_left at 2. destruct (prod s) eqn:Ep; intros E; [done|..].
  2: { cbn in Hp. rewrite Hp, Ht, wrapping_sub_counters in E by lia.
       destruct (Z.leb_spec N (zlen (pushed s) - zlen (popped s))); simplify_eq; cbn; split_and!; try done; [by left|].
       right. split_and!; [done|done|lia]. }
  2: destruct (seq_at N head s); [cbn in E|done].
  all: simplify_eq; cbn; split_and!; try done; try (right; split_and!; (done || lia)). by eexists.
Qed.

Lemma cons_access (s s' : conc) :
  inv N s -> cons_next N s = Some s' ->
  prod s' = prod s /\ pushed s' = pushed s /\
  match pop_returns s with
  | Some v => cons s' = CIdle /\ popped s' = popped s ++ [v]
  | None => popped s' = popped s /\
      (cons s' = CIdle /\ zlen (pushed s) = zlen (popped s) \/
       cons s' <> CIdle /\ (cons_left s' < cons_left s)%nat)
  end.
Proof.
  intros Hinv E. pose proof (inv_torn N s' (inv_cons_next N s s' Hinv E)) as Hto'.
  pose proof Hinv as [_ Hh _ Hg _ _ Hc _ _ Hto]. pose proof (capacity_range N) as HR.
  revert E. unfold cons_next, pop_returns, cons_left at 2. destruct (cons s) eqn:Ec; intros E; [done|..].
  - simplify_eq. cbn. split_and!; try done. right. split; [done|lia].
  - cbn in Hc. rewrite Hc, Hh in E.
    destruct (Z.eqb_spec (zlen (pushed s) mod 2 ^ 64) (zlen (popped s) mod 2 ^ 64)) as [Em|]; simplify_eq; cbn; split_and!; try done.
    + left. split; [done|]. apply mod_eq_close in Em; lia.
    + right. split; [done|lia].
  - destruct (seq_at N tail s); [cbn in E|done]. case_match; simplify_eq; cbn in *.
    split_and!; try done. right. split; [done|lia].
  - destruct (c_slots s !! _); [cbn in E|done]. case_match; simplify_eq; cbn.
    split_and!; try done. right. split; [done|lia].
  - destruct (seq_at N tail s); [cbn in E|done]. case_match; simplify_eq; cbn in *.
    split_and!; try done. right. split; [done|lia].
  - simplify_eq. cbn. split_and!; try done. right. split; [done|lia].
  - simplify_eq. cbn. split_and!; try done. right. split; [done|lia].
  - by simplify_eq.
Qed.

(** ** One step of each thread *)

Lemma seqZ_snoc (v : Z) : 0 <= v -> seqZ 0 v ++ [v] = seqZ 0 (v + 1).
Proof. intros Hv. rewrite seqZ_app by lia. done. Qed.

Lemma zlen_seqZ (v : Z) : 0 <= v -> zlen (seqZ 0 v) = v.
Proof. intros Hv. unfold zlen. rewrite length_seqZ. lia. Qed.

Definition sent (st : state) : Z := zlen (pushed (q st)).
Definition received (st : state) : Z := zlen (popped (q st)).

(** Room for one more item that is still to come. *)
Definition may_send (st : state) : Prop := sent st < total /\ sent st - received st < N.
Definition may_receive (st : state) : Prop := received st < sent st.

Lemma producer_step_ok (st : state) :
  round_ok st ->
  let st' := producer_step N total st in
  round_ok st' /\ cons_thread st' = cons_thread st /\ cons (q st') = cons (q st) /\ received st' = received st /\
  (sent st' = sent st + 1 \/ sent st' = sent st /\ (may_send st -> (prod_need st' < prod_need st)%nat)).
Proof.
  intros [Hq Hp Hc]. unfold producer_step, prod_at, may_send, sent, received in *.
  destruct (prod_thread st) as [v|v| |] eqn:Et.
  - destruct Hp as (Ep & Es & Hv). destruct (Z.ltb_spec v total); cbn.
    + split_and!; try done; [|right; split; [done|unfold prod_need; rewrite Et; cbn; lia]].
      split; cbn; [|unfold prod_at; cbn; split_and!; (done || lia)|done]. eapply spsc_inv_step; [done|exact Hq|].
      by apply step_call_push.
    + replace v with total in * by lia. split; [by split|]. split_and!; try done. right. split; [done|].
      rewrite Es, zlen_seqZ by lia. lia.
  - destruct Hp as (Ei & Es & Hv). destruct (prod_next N (q st)) as [s'|] eqn:E.
    2: { destruct (prod_progress N (q st) Hq) as [? ?]; [by intros Ep; rewrite Ep in Ei|congruence]. }
    destruct (prod_access _ _ Hq E) as (Ec & Epo & Hacc). pose proof (inv_prod_next N _ _ Hq E) as Hq'. cbn.
    assert (Hc' : forall p, cons_at (MkState s' p (cons_thread st))) by (intros p; unfold cons_at in *; cbn; by rewrite Ec, Epo).
    rewrite Epo. destruct (push_returns_ok (q st)).
    + destruct Hacc as [Eid (x & Ex & Epu)]. rewrite Ei in Ex. injection Ex as <-. rewrite Eid.
      split_and!; try done; [|left; rewrite Epu; unfold zlen; rewrite length_app; cbn; lia].
      split; [done| |done]. unfold prod_at. cbn. rewrite Epu, Es, seqZ_snoc by lia. split_and!; (done || lia).
    + destruct Hacc as [Epu Hacc]. rewrite Epu. destruct Hacc as [[Eid Hfull]|(Ei' & Hne & Hless)].
      * rewrite Eid. split; [split; [done|unfold prod_at; cbn|done]|]; [rewrite Epu; split_and!; (done || lia)|].
        split_and!; try done. right. split; [done|lia].
      * assert (Epc : forall A (a b : A), match prod s' with PIdle => a | _ => b end = b) by by destruct (prod s').
        rewrite Epc. split; [split; [done|unfold prod_at; cbn|done]|]; [rewrite Ei', Epu; split_and!; (done || lia)|].
        split_and!; try done. right. split; [done|]. intros _. unfold prod_need. by rewrite Et.
  - split; [by split; [done|unfold prod_at; rewrite Et|done]|]. split_and!; try done. right. split; [done|].
    rewrite (proj2 Hp), zlen_seqZ by lia. lia.
  - done.
Qed.

Lemma sent_in_order (st : state) : prod_at st -> pushed (q st) = seqZ 0 (sent st) /\ 0 <= sent st <= total.
Proof.
  unfold prod_at, sent. destruct (prod_thread st) as [v|v| |]; [..|done];
    [intros (_ & -> & Hv)|intros (_ & -> & Hv)|intros (_ & ->)]; rewrite zlen_seqZ by lia; split; (done || lia).
Qed.

(** What comes out next is what is expected. *)
Lemma next_in_order (s : conc) (n v x : Z) :
  inv N s -> pushed s = seqZ 0 n -> popped s = seqZ 0 v ++ [x] -> 0 <= v -> x = v.
Proof.
  intros Hq Es Ep Hv. pose proof (inv_prefix N s Hq) as [l Hl]. rewrite Es, Ep, <- (assoc_L (++)) in Hl.
  assert (Hx : seqZ 0 n !! Z.to_nat v = Some x).
  { rewrite Hl. rewrite lookup_app_r by (rewrite length_seqZ; lia). rewrite length_seqZ.
    replace (Z.to_nat v - Z.to_nat (v - 0))%nat with 0%nat by lia. by rewrite ?Z.sub_0_r, Nat.sub_diag. }
  apply lookup_seqZ in Hx. lia.
Qed.

Lemma consumer_step_ok (st : state) :
  round_ok st ->
  let st' := consumer_step N total st in
  round_ok st' /\ prod_thread st' = prod_thread st /\ prod (q st') = prod (q st) /\ sent st' = sent st /\
  (received st' = received st + 1 \/
   received st' = received st /\ (may_receive st -> (cons_need st' < cons_need st)%nat)).
Proof.
  intros [Hq Hp Hc]. unfold consumer_step, cons_at, may_receive, sent, received in *.
  destruct (cons_thread st) as [v|v|v|] eqn:Et.
  - destruct Hc as (Ep & Es & Hv). destruct (Z.ltb_spec v total); cbn.
    + split_and!; try done; [|right; split; [done|unfold cons_need; rewrite Et; cbn; lia]].
      split; cbn; [|done|unfold cons_at; cbn; split_and!; (done || lia)]. eapply spsc_inv_step; [done|exact Hq|].
      by apply step_call_pop.
    + replace v with total in * by lia. split; [by split|]. split_and!; try done. right. split; [done|].
      intros Hlt. rewrite Es, zlen_seqZ in Hlt by lia. pose proof (sent_in_order _ Hp) as [_ ?]. unfold sent in *.
      lia.
  - destruct Hc as (Ei & Es & Hv). destruct (cons_next N (q st)) as [s'|] eqn:E.
    2: { destruct (cons_progress N (q st) Hq Ei) as [? ?]. congruence. }
    destruct (cons_access _ _ Hq E) as (Ec & Epo & Hacc). pose proof (inv_cons_next N _ _ Hq E) as Hq'. cbn.
    assert (Hp' : forall c, prod_at (MkState s' (prod_thread st) c)) by (intros c; unfold prod_at in *; cbn; by rewrite Ec, Epo).
    rewrite Epo. destruct (pop_returns (q st)) as [x|].
    + destruct Hacc as [Eid Epu]. rewrite Eid. pose proof (sent_in_order _ Hp) as [Esq _]. rewrite <- Epo in Esq.
      rewrite Es in Epu. pose proof (next_in_order _ _ _ _ Hq' Esq Epu ltac:(lia)) as ->. rewrite Z.eqb_refl.
      rewrite seqZ_snoc in Epu by lia.
      split; [split; [done|done|unfold cons_at; cbn; rewrite Epu; split_and!; (done || lia)]|].
      split_and!; try done. left. rewrite Epu, Es, !zlen_seqZ by lia. done.
    + destruct Hacc as [Epu Hacc]. rewrite Epu. destruct Hacc as [[Eid Hfull]|(Hne & Hless)].
      * rewrite Eid. split; [split; [done|done|unfold cons_at; cbn]|]; [rewrite Epu; split_and!; (done || lia)|].
        split_and!; try done. right. split; [done|lia].
      * assert (Epc : forall A (a b : A), match cons s' with CIdle => a | _ => b end = b) by by destruct (cons s').
        rewrite Epc. split; [split; [done|done|unfold cons_at; cbn]|]; [rewrite Epu; split_and!; (done || lia)|].
        split_and!; try done. right. split; [done|]. intros _. unfold cons_need. by rewrite Et.
  - split; [by split; [done|done|unfold cons_at; rewrite Et]|]. split_and!; try done. right. split; [done|].
    destruct Hc as (_ & -> & ->). rewrite zlen_seqZ by lia. pose proof (sent_in_order _ Hp) as [_ ?].
    unfold sent in *. lia.
  - done.
Qed.

Lemma thread_step_ok (who : side) (st : state) : round_ok st -> round_ok (thread_step N total who st).
Proof. intros Hr. destruct who; [by apply producer_step_ok|by apply consumer_step_ok]. Qed.

Lemma exec_ok (sched : nat -> side) (st : state) (i : nat) : round_ok st -> round_ok (exec N total sched st i).
Proof. intros Hr. induction i as [|i IH]; [done|]. by apply thread_step_ok. Qed.

(** ** Under a fair schedule everything arrives *)

Section fair.
Variable sched : nat -> side.
Hypothesis fair : forall who i, exists j, (i <= j)%nat /\ sched j = who.

(** A side that comes closer with each of its own turns, and is not set back by the
    other's, gets there. *)
Lemma fair_progress (who : side) (waiting : nat -> Prop) (need : nat -> nat) (value : nat -> Z) :
  (forall i, waiting i -> sched i = who -> value i < value (S i) \/
     value (S i) = value i /\ waiting (S i) /\ (need (S i) < need i)%nat) ->
  (forall i, waiting i -> sched i <> who -> value (S i) = value i /\ waiting (S i) /\ need (S i) = need i) ->
  forall i, waiting i -> exists j, (i <= j)%nat /\ value i < value j.
Proof.
  intros Hown Hother i. remember (need i) as n eqn:En. revert i En.
  induction n as [n IHn] using lt_wf_ind. intros i -> Hw.
  destruct (fair who i) as (j & Hij & Hj). remember (j - i)%nat as d eqn:Ed. revert i Hij Hw Ed IHn.
  induction d as [|d IHd]; intros i Hij Hw Ed IHn;
    (destruct (decide (sched i = who)) as [Es|Es];
      [destruct (Hown i Hw Es) as [Hv|(Ev & Hw' & Hn)]; [exists (S i); split; [lia|done]|];
       destruct (IHn _ Hn (S i) eq_refl Hw') as (k & Hk & Hlt); exists k; rewrite <- Ev; split; [lia|done]|]).
  - replace i with j in Es by lia. done.
  - destruct (Hother i Hw Es) as (Ev & Hw' & Hn). destruct (IHd (S i)) as (k & Hk & Hlt); [|done|lia| |].
    + assert (i <> j) by congruence. lia.
    + rewrite Hn. exact IHn.
    + exists k. rewrite <- Ev. split; [lia|done].
Qed.

Variable st0 : state.
Hypothesis start_ok : round_ok st0.

Abbreviation state_at := (exec N total sched st0).

Lemma other_side (a b : side) : a <> b -> a = match b with Producer => Consumer | Consumer => Producer end.
Proof. by destruct a, b. Qed.

Lemma send_eventually (i : nat) :
  may_send (state_at i) -> exists j, (i <= j)%nat /\ sent (state_at i) < sent (state_at j).
Proof.
  apply (fair_progress Producer (fun i => may_send (state_at i)) (fun i => prod_need (state_at i))
           (fun i => sent (state_at i))); clear i; intros i Hm Hs; cbn [exec].
  - rewrite Hs. destruct (producer_step_ok (state_at i) (exec_ok _ _ i start_ok)) as (_ & _ & _ & Er & Hp).
    cbn [thread_step]. destruct Hp as [Hp|[Es Hless]]; [left; lia|right].
    split_and!; [done|unfold may_send in *; by rewrite Es, Er|by apply Hless].
  - rewrite (other_side _ _ Hs). destruct (consumer_step_ok (state_at i) (exec_ok _ _ i start_ok)) as (_ & Et & Ep & Es & Hr).
    cbn [thread_step]. split_and!; [done| |unfold prod_need, prod_left; by rewrite Et, Ep].
    unfold may_send in *. rewrite Es. destruct Hr as [Hr|[Hr _]]; lia.
Qed.

Lemma receive_eventually (i : nat) :
  may_receive (state_at i) -> exists j, (i <= j)%nat /\ received (state_at i) < received (state_at j).
Proof.
  apply (fair_progress Consumer (fun i => may_receive (state_at i)) (fun i => cons_need (state_at i))
           (fun i => received (state_at i))); clear i; intros i Hm Hs; cbn [exec].
  - rewrite Hs. destruct (consumer_step_ok (state_at i) (exec_ok _ _ i start_ok)) as (_ & _ & _ & Er & Hp).
    cbn [thread_step]. destruct Hp as [Hp|[Es Hless]]; [left; lia|right].
    split_and!; [done|unfold may_receive in *; by rewrite Es, Er|by apply Hless].
  - rewrite (other_side _ _ Hs). destruct (producer_step_ok (state_at i) (exec_ok _ _ i start_ok)) as (_ & Et & Ep & Es & Hr).
    cbn [thread_step]. split_and!; [done| |unfold cons_need, cons_left; by rewrite Et, Ep].
    unfold may_receive in *. rewrite Es. destruct Hr as [Hr|[Hr _]]; lia.
Qed.

Lemma counts_bound (i : nat) : 0 <= received (state_at i) <= sent (state_at i) /\ sent (state_at i) <= total.
Proof.
  destruct (exec_ok sched st0 i start_ok) as [Hq Hp _]. pose proof (inv_gap N _ Hq).
  pose proof (sent_in_order _ Hp) as [_ ?]. unfold sent, received, zlen in *. lia.
Qed.

Lemma counts_grow (i j : nat) :
  (i <= j)%nat -> sent (state_at i) <= sent (state_at j) /\ received (state_at i) <= received (state_at j).
Proof.
  induction 1 as [|j _ [IH1 IH2]]; [lia|]. cbn [exec]. destruct (sched j); cbn [thread_step].
  - destruct (producer_step_ok (state_at j) (exec_ok _ _ j start_ok)) as (_ & _ & _ & Er & [Hp|[Hp _]]); lia.
  - destruct (consumer_step_ok (state_at j) (exec_ok _ _ j start_ok)) as (_ & _ & _ & Er & [Hp|[Hp _]]); lia.
Qed.

Lemma all_arrives (i : nat) : exists j, (i <= j)%nat /\ received (state_at j) = total.
Proof.
  remember (Z.to_nat (2 * total - sent (state_at i) - received (state_at i))) as n eqn:En. revert i En.
  induction n as [n IH] using lt_wf_ind. intros i ->. pose proof (counts_bound i) as Hb.
  pose proof (capacity_range N) as HR.
  assert (Hgo : forall k, (i <= k)%nat -> sent (state_at i) + received (state_at i) < sent (state_at k) + received (state_at k) ->
    exists j, (i <= j)%nat /\ received (state_at j) = total).
  { intros k Hik Hlt. pose proof (counts_bound k) as Hbk. 
    destruct (IH (Z.to_nat (2 * total - sent (state_at k) - received (state_at k))) ltac:(lia) k eq_refl) as (j & Hkj & Ej).
    exists j. split; [lia|done]. }
  destruct (decide (received (state_at i) < sent (state_at i))) as [Hr|Hr].
  - destruct (receive_eventually i Hr) as (k & Hik & Hlt). apply (Hgo k Hik).
    pose proof (counts_grow i k Hik). lia.
  - destruct (decide (sent (state_at i) < total)) as [Hs|Hs]; [|exists i; split; [done|lia]].
    destruct (send_eventually i) as (k & Hik & Hlt); [split; [done|lia]|]. apply (Hgo k Hik).
    pose proof (counts_grow i k Hik). lia.
Qed.

(** Once everything arrived each thread ends with its next turn, for good. *)
Lemma producer_joins (i : nat) :
  sent (state_at i) = total -> sched i = Producer -> prod_thread (state_at (S i)) = PJoined.
Proof.
  intros Es Hs. cbn [exec]. rewrite Hs. cbn [thread_step]. unfold producer_step, sent in *.
  pose proof (ro_prod _ (exec_ok sched st0 i start_ok)) as Hp. unfold prod_at in Hp.
  destruct (prod_thread (state_at i)) as [v|v| |] eqn:Et; try done.
  - destruct Hp as (_ & Ep & Hv). rewrite Ep, zlen_seqZ in Es by lia. by rewrite (proj2 (Z.ltb_ge _ _)) by lia.
  - destruct Hp as (_ & Ep & Hv). rewrite Ep, zlen_seqZ in Es by lia. lia.
Qed.

Lemma consumer_returns (i : nat) :
  received (state_at i) = total -> sched i = Consumer -> cons_thread (state_at (S i)) = CReturned total.
Proof.
  intros Es Hs. cbn [exec]. rewrite Hs. cbn [thread_step]. unfold consumer_step, received in *.
  pose proof (ro_cons _ (exec_ok sched st0 i start_ok)) as Hp. unfold cons_at in Hp.
  destruct (cons_thread (state_at i)) as [v|v|v|] eqn:Et; try done.
  - destruct Hp as (_ & Ep & Hv). rewrite Ep, zlen_seqZ in Es by lia. rewrite (proj2 (Z.ltb_ge _ _)) by lia.
    cbn. by rewrite Es.
  - destruct Hp as (_ & Ep & Hv). rewrite Ep, zlen_seqZ in Es by lia. lia.
  - rewrite Et. by destruct Hp as (_ & _ & ->).
Qed.

Lemma joined_stays (i j : nat) :
  (i <= j)%nat -> prod_thread (state_at i) = PJoined -> prod_thread (state_at j) = PJoined.
Proof.
  intros Hij Hi. induction Hij as [|j _ IH]; [done|]. cbn [exec]. destruct (sched j); cbn [thread_step].
  - unfold producer_step. by rewrite IH.
  - by destruct (consumer_step_ok (state_at j) (exec_ok _ _ j start_ok)) as (_ & -> & _).
Qed.

Lemma returned_stays (e : Z) (i j : nat) :
  (i <= j)%nat -> cons_thread (state_at i) = CReturned e -> cons_thread (state_at j) = CReturned e.
Proof.
  intros Hij Hi. induction Hij as [|j _ IH]; [done|]. cbn [exec]. destruct (sched j); cbn [thread_step].
  - by destruct (producer_step_ok (state_at j) (exec_ok _ _ j start_ok)) as (_ & -> & _).
  - unfold consumer_step. by rewrite IH.
Qed.

Lemma round_ends :
  exists i, forall j, (i <= j)%nat ->
    prod_thread (state_at j) = PJoined /\ cons_thread (state_at j) = CReturned total.
Proof.
  destruct (all_arrives 0) as (i & _ & Ei).
  destruct (fair Producer i) as (a & Ha & Sa). destruct (fair Consumer i) as (b & Hb & Sb).
  pose proof (counts_grow i a Ha). pose proof (counts_grow i b Hb). pose proof (counts_bound i).
  pose proof (counts_bound a). pose proof (counts_bound b). exists (S (a + b)). intros j Hj. split.
  - apply (joined_stays (S a)); [lia|]. apply producer_joins; [lia|done].
  - apply (returned_stays _ (S b)); [lia|]. apply consumer_returns; [lia|done].
Qed.

End fair.

End proofs.

(** * Start of a round *)

Lemma round_starts (ptr : Z) (w : world Z) :
  region_ok (T := Z) QUEUE_CAPACITY ptr (QUEUE_CAPACITY * slot_size) ->
  queue w = Spsc.new -> length (slots w) = 64%nat ->
  exists w', init QUEUE_CAPACITY ptr (QUEUE_CAPACITY * slot_size) w = Done (Ok tt) w' /\
    inv QUEUE_CAPACITY (of_world w').
Proof.
  intros Hr Eq Hl. rewrite init_run, Eq by done. cbn [is_initialized is_initializing Spsc.new orb].
  destruct (clear_sequences_run QUEUE_CAPACITY (set_queue (store_initializing true Spsc.new) w) Hl) as (s' & E & Hl' & Hz & _).
  rewrite (mbind_done _ _ _ _ _ E). msimpl. eexists. split; [done|].
  change (of_world _) with (start s'). apply spsc_inv_start; [done|by etrans; [exact Hl'|]|].
  eapply Forall_impl; [exact Hz|]. intros sl Hs. unfold stable. cbn in Hs. by rewrite Hs.
Qed.

(** A box the size of 64 slots, aligned to a page, of any content. *)
Definition boxed (l : workload) : Prop :=
  storage l <> 0 /\ storage l mod 4096 = 0 /\ length (content l) = 64%nat.

Definition fair (sched : nat -> side) : Prop := forall who i, exists j, (i <= j)%nat /\ sched j = who.

Lemma boxed_region (l : workload) :
  boxed l -> region_ok (T := Z) QUEUE_CAPACITY (storage l) (QUEUE_CAPACITY * slot_size).
Proof.
  intros (H1 & H2 & _). split_and!; try done. change slot_align with 64. apply Z.mod_divide; [done|].
  apply Z.mod_divide in H2 as [k ->]; [|done]. exists (k * 64). lia.
Qed.

Lemma round_start_ok (w : world Z) :
  inv QUEUE_CAPACITY (of_world w) ->
  round_ok QUEUE_CAPACITY TRANSFERS_PER_ROUND (MkState (of_world w) (PLoop 0) (CLoop 0)).
Proof. intros Hi. by split. Qed.

Lemma run_round_ends (h : Host) (l : workload) :
  boxed l -> fair (schedule l) ->
  exists i, forall j, (i <= j)%nat -> finished run_spsc_round h j l = true /\ finished run_ring_round h j l = true.
Proof.
  intros Hb Hf. destruct (round_starts (storage l) (MkWorld Spsc.new (content l) h)) as (w' & E & Hi);
    [by apply boxed_region|done|by apply Hb|].
  destruct (round_ends QUEUE_CAPACITY TRANSFERS_PER_ROUND ltac:(done) (schedule l) Hf _ (round_start_ok w' Hi)) as [i Hend].
  exists i. intros j Hj. specialize (Hend j Hj). unfold finished, run_spsc_round, run_ring_round, run_round.
  change (RB.init (T := Z) QUEUE_CAPACITY) with (init (T := Z) QUEUE_CAPACITY). rewrite E.
  destruct (exec _ _ _ _ _) as [c p r]. cbn in Hend. destruct Hend as [-> ->].
  by vm_compute.
Qed.

(** C10: the workload ends. Whatever the storage of a round holds at first and however
    the two threads are scheduled, as long as neither is starved for ever, every
    round of the queue and of the ring ends with both threads joined and all 100000
    items consumed, so the program gets through all its rounds. *)
Theorem workload_completes (callback : FnPtr) (spsc ring : nat -> workload) (h : Host) :
  (forall round, boxed (spsc round) /\ fair (schedule (spsc round))) ->
  (forall round, boxed (ring round) /\ fair (schedule (ring round))) ->
  exists i, forall j, (i <= j)%nat -> main callback spsc ring j h = true.
Proof.
  intros Hs Hr. unfold main. set (h1 := install_cache_callbacks callback h).
  induction (seq 0 ROUNDS) as [|r rs [i IH]].
  - by exists 0%nat.
  - destruct (run_round_ends h1 (spsc r)) as [a Ha]; [apply Hs..|].
    destruct (run_round_ends h1 (ring r)) as [b Hb]; [apply Hr..|].
    exists (i + a + b)%nat. intros j Hj. cbn [forallb].
    rewrite (proj1 (Ha j ltac:(lia))), (proj2 (Hb j ltac:(lia))), IH by lia. done.
Qed.

(** Whatever the schedule, fair or not, no thread of a round ever panics: at every
    step the items pushed so far are 0, 1, 2, ... in order, those popped are a prefix
    of them, and each is the one the consumer's assertion expects. *)
Theorem workload_never_panics (l : workload) (h : Host) (i : nat) :
  boxed l ->
  exists w', init QUEUE_CAPACITY (storage l) (QUEUE_CAPACITY * slot_size) (MkWorld Spsc.new (content l) h) = Done (Ok tt) w' /\
    let st := exec QUEUE_CAPACITY TRANSFERS_PER_ROUND (schedule l) (MkState (of_world w') (PLoop 0) (CLoop 0)) i in
    prod_thread st <> PPanicked /\ cons_thread st <> CPanicked /\
    exists m n, 0 <= m <= n /\ n <= TRANSFERS_PER_ROUND /\ pushed (q st) = seqZ 0 n /\ popped (q st) = seqZ 0 m.
Proof.
  intros Hb. destruct (round_starts (storage l) (MkWorld Spsc.new (content l) h)) as (w' & E & Hi);
    [by apply boxed_region|done|by apply Hb|]. exists w'. split; [done|]. intros st.
  pose proof (exec_ok QUEUE_CAPACITY TRANSFERS_PER_ROUND ltac:(done) (schedule l) _ i (round_start_ok w' Hi)) as Hr.
  fold st in Hr. destruct Hr as [Hq Hp Hc]. pose proof (inv_gap _ _ Hq) as Hg.
  pose proof (sent_in_order TRANSFERS_PER_ROUND ltac:(done) _ Hp) as [Es Hs]. unfold sent in *.
  split; [intros Ep; unfold prod_at in Hp; by rewrite Ep in Hp|].
  split; [intros Ec; unfold cons_at in Hc; by rewrite Ec in Hc|].
  exists (zlen (popped (q st))), (zlen (pushed (q st))). split_and!; [unfold zlen; lia|lia|lia|done|].
  unfold cons_at in Hc. destruct (cons_thread st) as [v|v|v|]; [..|done];
    destruct Hc as (_ & -> & Hv); subst; rewrite zlen_seqZ by (done || lia); done.
Qed.

(** ** Witnesses: the threads take turns *)

Definition alternate (i : nat) : side := if Nat.even i then Producer else Consumer.

Lemma alternate_fair : fair alternate.
Proof.
  intros who i. unfold alternate. destruct (Nat.even i) eqn:Ei, who.
  - exists i. by rewrite Ei.
  - exists (S i). rewrite Nat.even_succ, <- Nat.negb_even, Ei. split; [lia|done].
  - exists (S i). rewrite Nat.even_succ, <- Nat.negb_even, Ei. split; [lia|done].
  - exists i. by rewrite Ei.
Qed.

Definition sample_workload : workload := MkWorkload 4096 (replicate 64 (MkSlot Uninit 7)) alternate.

Lemma workload_completes_witness :
  exists i, forall j, (i <= j)%nat -> main 5 (fun _ => sample_workload) (fun _ => sample_workload) j host_boot = true.
Proof.
  apply (workload_completes 5 (fun _ => sample_workload) (fun _ => sample_workload) host_boot);
    intros _; (split; [by vm_compute|exact alternate_fair]).
Defined.

Lemma workload_never_panics_witness :
  exists w', init QUEUE_CAPACITY 4096 (QUEUE_CAPACITY * slot_size) (MkWorld Spsc.new (content sample_workload) host_boot) =
      Done (Ok tt) w' /\
    let st := exec QUEUE_CAPACITY TRANSFERS_PER_ROUND alternate (MkState (of_world w') (PLoop 0) (CLoop 0)) 1000 in
    prod_thread st <> PPanicked /\ cons_thread st <> CPanicked /\
    exists m n, 0 <= m <= n /\ n <= TRANSFERS_PER_ROUND /\ pushed (q st) = seqZ 0 n /\ popped (q st) = seqZ 0 m.
Proof. apply (workload_never_panics sample_workload host_boot 1000). by vm_compute. Defined.

End Workload.
