(* ===== verification/Scheduler.v ===== *)
(** tcb.rs and bitmap_scheduler.rs: the sixteen-priority bitmap scheduler.

    [PerCoreScheduler] is the source's struct. The stacks live in host memory:
    [memory] maps the address of an aligned 64-bit word to its contents, and a
    volatile access to an address outside it is undefined behaviour. Tasks run
    between ticks and may overwrite any mapped word, which is how a canary gets
    corrupted ([StackWrite] below). A slice index out of range panics, and the
    panic handler never returns ([Halted]). *)

From stdpp Require Import gmap.
From S2P Require Import Prelude RtosHost.
Local Open Scope Z_scope.

Module Sched.

(** * Task control block *)

Record Tcb : Type := MkTcb {
  entry_point : Z;
  stack_base : Z;
  stack_size : Z;
  rsp : Z;
  priority : Z;
  stack_canary : Z
}.

Definition tcb_new : Tcb := MkTcb 0 0 0 0 15 0.

Definition new_task (entry_point stack_base stack_size initial_rsp priority : Z) : Tcb :=
  MkTcb entry_point stack_base stack_size initial_rsp priority 0.

Definition set_canary (v : Z) (t : Tcb) : Tcb :=
  MkTcb (entry_point t) (stack_base t) (stack_size t) (rsp t) (priority t) v.
Definition set_rsp (v : Z) (t : Tcb) : Tcb :=
  MkTcb (entry_point t) (stack_base t) (stack_size t) v (priority t) (stack_canary t).

(** * Scheduler state *)

Definition MAX_TASKS : Z := 16.

Record PerCoreScheduler : Type := MkSched {
  tasks : list Tcb;
  ready_bitmap : Z;
  current_task : Z;
  watchdog_matrix : Z;
  critical_task_mask : Z
}.

Record world : Type := MkWorld {
  sched : PerCoreScheduler;
  memory : gmap Z Z;
  host : Host
}.

Definition set_sched (s : PerCoreScheduler) (w : world) : world := MkWorld s (memory w) (host w).
Definition set_memory (m : gmap Z Z) (w : world) : world := MkWorld (sched w) m (host w).
Definition set_host (h : Host) (w : world) : world := MkWorld (sched w) (memory w) h.

Definition set_tasks (v : list Tcb) (s : PerCoreScheduler) : PerCoreScheduler :=
  MkSched v (ready_bitmap s) (current_task s) (watchdog_matrix s) (critical_task_mask s).
Definition set_bitmap (v : Z) (s : PerCoreScheduler) : PerCoreScheduler :=
  MkSched (tasks s) v (current_task s) (watchdog_matrix s) (critical_task_mask s).
Definition set_current (v : Z) (s : PerCoreScheduler) : PerCoreScheduler :=
  MkSched (tasks s) (ready_bitmap s) v (watchdog_matrix s) (critical_task_mask s).
Definition set_matrix (v : Z) (s : PerCoreScheduler) : PerCoreScheduler :=
  MkSched (tasks s) (ready_bitmap s) (current_task s) v (critical_task_mask s).
Definition set_mask (v : Z) (s : PerCoreScheduler) : PerCoreScheduler :=
  MkSched (tasks s) (ready_bitmap s) (current_task s) (watchdog_matrix s) v.

Definition valid_stack_pointer (tcb : Tcb) (rsp : Z) : bool :=
  match checked_add 64 (stack_base tcb) (stack_size tcb) with
  | None => false
  | Some stack_end =>
    match checked_add 64 (stack_base tcb) 8 with
    | None => false
    | Some first_usable_rsp =>
        negb (stack_base tcb =? 0) &&
        is_multiple_of (stack_base tcb) 8 &&
        (8 <=? stack_size tcb) &&
        (first_usable_rsp <=? rsp) &&
        (rsp <=? stack_end)
    end
  end.

Definition new : PerCoreScheduler :=
  MkSched [tcb_new; tcb_new; tcb_new; tcb_new; tcb_new; tcb_new; tcb_new; tcb_new;
           tcb_new; tcb_new; tcb_new; tcb_new; tcb_new; tcb_new; tcb_new; tcb_new] 0 15 0 0.

(** * Operations *)

(** [self.tasks[idx]] *)
Definition index_task (idx : Z) : M world Tcb :=
  w ← get; match tasks (sched w) !! Z.to_nat idx with Some t => mret t | None => halt end.

(** [self.tasks[idx] = t] *)
Definition store_task (idx : Z) (t : Tcb) : M world unit :=
  index_task idx ;;
  modify (fun w => set_sched (set_tasks (<[Z.to_nat idx := t]> (tasks (sched w))) (sched w)) w).

Definition read_volatile (addr : Z) : M world Z :=
  w ← get; return_or_ub (memory w !! addr).

Definition write_volatile (addr v : Z) : M world unit :=
  w ← get;
  match memory w !! addr with
  | Some _ => put (set_memory (<[addr := v]> (memory w)) w)
  | None => undefined
  end.

Definition modify_sched (f : PerCoreScheduler -> PerCoreScheduler) : M world unit :=
  modify (fun w => set_sched (f (sched w)) w).

(** [a || b] where evaluating [b] may panic: [b] runs only when [a] is false. *)
Definition or_else (a : bool) (b : M world bool) : M world bool :=
  if a then mret true else b.
Definition and_then (a : bool) (b : M world bool) : M world bool :=
  if a then b else mret false.

Definition create_task (tcb : Tcb) (canary_value : Z) : M world (result unit SchedulerError) :=
  let valid_stack := valid_stack_pointer tcb (rsp tcb) in
  reject ← or_else ((entry_point tcb =? 0) || (16 <=? priority tcb) || negb valid_stack)
             (old ← index_task (priority tcb); mret (negb (stack_base old =? 0)));
  if (reject : bool) then mret (Err TaskFault) else
  let tcb := set_canary canary_value tcb in
  (if negb (stack_base tcb =? 0) then write_volatile (stack_base tcb) canary_value else mret tt) ;;
  let idx := priority tcb in
  store_task idx tcb ;;
  modify_sched (fun s => set_bitmap (Z.lor (ready_bitmap s) (shl 16 1 idx)) s) ;;
  mret (Ok tt).

Definition set_ready (priority : Z) : M world unit :=
  if priority <? 16
  then modify_sched (fun s => set_bitmap (Z.lor (ready_bitmap s) (shl 16 1 priority)) s)
  else mret tt.

Definition clear_ready (priority : Z) : M world unit :=
  if priority <? 16
  then modify_sched (fun s => set_bitmap (Z.land (ready_bitmap s) (bnot 16 (shl 16 1 priority))) s)
  else mret tt.

Definition task_check_in (priority : Z) : M world unit :=
  ok ← and_then (priority <? 16)
         (t ← index_task priority; mret (negb (stack_base t =? 0)));
  if (ok : bool)
  then modify_sched (fun s => set_matrix (Z.lor (watchdog_matrix s) (shl 16 1 priority)) s)
  else mret tt.

(** The fold over [self.tasks.iter().enumerate()]. *)
Definition registered_mask (ts : list Tcb) : Z :=
  foldl (fun mask '(idx, tcb) =>
           if negb (stack_base tcb =? 0) then Z.lor mask (shl 16 1 (Z.of_nat idx)) else mask)
        0 (imap pair ts).

Definition set_critical_task_mask (critical_task_mask_ : Z) : M world unit :=
  modify_sched (fun s => set_mask (Z.land critical_task_mask_ (registered_mask (tasks s))) s) ;;
  modify_sched (fun s => set_matrix (Z.land (watchdog_matrix s) (critical_task_mask s)) s).

Definition schedule_tick (current_rsp : Z) : M world Z :=
  w ← get;
  let current_idx := current_task (sched w) in
  if MAX_TASKS <=? current_idx then mret 0 else
  has_context ← and_then ((current_idx <? MAX_TASKS) && negb (current_rsp =? 0))
                  (t ← index_task current_idx; mret (negb (stack_base t =? 0)));
  current_fault ←
    (if (has_context : bool) then
       tcb ← index_task current_idx;
       canary_ok ← and_then (valid_stack_pointer tcb current_rsp)
                     (current_canary ← read_volatile (stack_base tcb);
                      mret (current_canary =? stack_canary tcb));
       if negb canary_ok then mret true else
       store_task current_idx (set_rsp current_rsp tcb) ;;
       mret false
     else mret false);
  if (current_fault : bool) then mret 0 else
  w ← get;
  let next_idx := trailing_zeros 16 (ready_bitmap (sched w)) in
  let next_idx := if MAX_TASKS <=? next_idx then 15 else next_idx in
  next_tcb ← index_task next_idx;
  next_fault ←
    (if negb (stack_base next_tcb =? 0) then
       if negb (valid_stack_pointer next_tcb (rsp next_tcb)) then mret true else
       next_canary ← read_volatile (stack_base next_tcb);
       mret (negb (next_canary =? stack_canary next_tcb))
     else
       mret (negb (next_idx =? 15) ||
             negb (Z.land (ready_bitmap (sched w)) (shl 16 1 next_idx) =? 0)));
  if (next_fault : bool) then mret 0 else
  w ← get;
  (if negb (critical_task_mask (sched w) =? 0) &&
      (Z.land (watchdog_matrix (sched w)) (critical_task_mask (sched w)) =? critical_task_mask (sched w))
   then
     zoom host set_host host_pet_watchdog ;;
     modify_sched (set_matrix 0)
   else mret tt) ;;
  modify_sched (set_current next_idx) ;;
  t ← index_task next_idx;
  mret (rsp t).

(** * What a tick does, as a decision table *)

Definition registered (t : Tcb) : bool := negb (stack_base t =? 0).

Definition canary_intact (m : gmap Z Z) (t : Tcb) : bool :=
  match m !! stack_base t with Some v => v =? stack_canary t | None => false end.

(** May the current task's context be saved? *)
Definition context_ok (r : Z) (w : world) (t : Tcb) : bool :=
  (r =? 0) || negb (registered t) || (valid_stack_pointer t r && canary_intact (memory w) t).

(** The selected priority: the lowest set bit, or idle when none is set. *)
Definition select (bitmap : Z) : Z := if bitmap =? 0 then 15 else trailing_zeros 16 bitmap.

(** May the selected task run? *)
Definition runnable (w : world) (t : Tcb) : bool :=
  if registered t then canary_intact (memory w) t else ready_bitmap (sched w) =? 0.

Definition save (r : Z) (t : Tcb) (w : world) : world :=
  if negb (r =? 0) && registered t
  then set_sched (set_tasks (<[Z.to_nat (current_task (sched w)) := set_rsp r t]>
                               (tasks (sched w))) (sched w)) w
  else w.

Definition all_checked_in (s : PerCoreScheduler) : bool :=
  negb (critical_task_mask s =? 0) &&
  (Z.land (watchdog_matrix s) (critical_task_mask s) =? critical_task_mask s).

Definition service_watchdog (cb : FnPtr) (w : world) : world :=
  if all_checked_in (sched w)
  then set_sched (set_matrix 0 (sched w)) (set_host (log (EvPetWatchdog cb) (host w)) w)
  else w.

Definition switch_to (j : Z) (w : world) : world := set_sched (set_current j (sched w)) w.

(** * Well-formedness *)

Record wf_task (m : gmap Z Z) (i : nat) (t : Tcb) : Prop := {
  wf_priority : priority t = Z.of_nat i;
  wf_entry : entry_point t <> 0;
  wf_rsp : valid_stack_pointer t (rsp t) = true;
  wf_mapped : is_Some (m !! stack_base t)
}.

Record wf (w : world) : Prop := {
  wf_len : length (tasks (sched w)) = 16%nat;
  wf_current : 0 <= current_task (sched w) < 16;
  wf_bitmap : in_width 16 (ready_bitmap (sched w));
  wf_matrix : in_width 16 (watchdog_matrix (sched w));
  wf_mask : in_width 16 (critical_task_mask (sched w));
  wf_tasks : forall i t, tasks (sched w) !! i = Some t -> registered t = true ->
    wf_task (memory w) i t;
  (** Only registered priorities can owe a check-in or have made one. *)
  wf_obligations : forall i t, tasks (sched w) !! i = Some t -> registered t = false ->
    Z.testbit (critical_task_mask (sched w)) (Z.of_nat i) = false /\
    Z.testbit (watchdog_matrix (sched w)) (Z.of_nat i) = false;
  wf_empty : forall i t, tasks (sched w) !! i = Some t -> registered t = false -> t = tcb_new
}.

(** * Lemmas *)

Lemma index_task_run (i : Z) (w : world) (t : Tcb) :
  tasks (sched w) !! Z.to_nat i = Some t -> index_task i w = Done t w.
Proof. intros E. unfold index_task. msimpl. by rewrite E. Qed.

Lemma store_task_run (i : Z) (w : world) (t t0 : Tcb) :
  tasks (sched w) !! Z.to_nat i = Some t0 ->
  store_task i t w =
    Done tt (set_sched (set_tasks (<[Z.to_nat i := t]> (tasks (sched w))) (sched w)) w).
Proof. intros E. unfold store_task. msimpl. by rewrite (index_task_run i w t0 E). Qed.

Lemma task_in_range (w : world) (i : Z) :
  length (tasks (sched w)) = 16%nat -> 0 <= i < 16 ->
  exists t, tasks (sched w) !! Z.to_nat i = Some t.
Proof. intros Hl Hi. apply lookup_lt_is_Some_2. lia. Qed.

Lemma select_range (b : Z) : in_width 16 b -> 0 <= select b < 16.
Proof.
  intros Hb. unfold select, in_width in *. destruct (Z.eqb_spec b 0); [lia|].
  destruct (trailing_zeros_spec 16 b) as (H & _ & _); lia.
Qed.

(** The selected priority is ready, and nothing above it is. *)
Lemma select_highest (b : Z) :
  in_width 16 b ->
  (forall i, i < select b -> Z.testbit b i = false) /\
  (b = 0 \/ Z.testbit b (select b) = true).
Proof.
  intros Hb. unfold select, in_width in *. destruct (Z.eqb_spec b 0) as [->|Hne].
  - split; [|by left]. intros. apply Z.testbit_0_l.
  - destruct (trailing_zeros_spec 16 b) as (_ & Ht & Hlow); [lia|]. auto.
Qed.

(** The code's form of the selection. *)
Lemma select_code (b : Z) :
  in_width 16 b ->
  (if MAX_TASKS <=? trailing_zeros 16 b then 15 else trailing_zeros 16 b) = select b.
Proof.
  intros Hb. pose proof (select_range b Hb) as Hr. unfold select, MAX_TASKS in *.
  destruct (Z.eqb_spec b 0) as [->|Hne]; [done|].
  destruct (Z.leb_spec 16 (trailing_zeros 16 b)); lia.
Qed.

(** The code's test of an empty selected slot. *)
Lemma empty_slot_code (b : Z) :
  in_width 16 b ->
  negb (select b =? 15) || negb (Z.land b (shl 16 1 (select b)) =? 0) = negb (b =? 0).
Proof.
  intros Hb. pose proof (select_range b Hb). destruct (select_highest b Hb) as [_ [->|Ht]]; [done|].
  assert (Hl : Z.land b (shl 16 1 (select b)) <> 0).
  { intros E. apply (f_equal (fun z => Z.testbit z (select b))) in E.
    rewrite Z.land_spec, Ht, shl_one_testbit, Z.eqb_refl, Z.testbit_0_l in E by lia. done. }
  apply Z.eqb_neq in Hl. rewrite Hl, orb_true_r.
  destruct (Z.eqb_spec b 0) as [->|]; [by rewrite Z.testbit_0_l in Ht|done].
Qed.

Lemma lor_bit (b k i : Z) :
  0 <= k < 16 -> 0 <= i -> Z.testbit (Z.lor b (shl 16 1 k)) i = Z.testbit b i || (i =? k).
Proof. intros. by rewrite Z.lor_spec, shl_one_testbit by lia. Qed.

Lemma clear_bit (b k i : Z) :
  in_width 16 b -> 0 <= k < 16 -> 0 <= i ->
  Z.testbit (Z.land b (bnot 16 (shl 16 1 k))) i = Z.testbit b i && negb (i =? k).
Proof.
  intros Hb Hk Hi. rewrite Z.land_spec. destruct (Z_lt_le_dec i 16).
  - rewrite bnot_testbit, shl_one_testbit by (try apply shl_range; lia). done.
  - by rewrite (testbit_high 16 b i).
Qed.

(** The running mask of the fold, generalised over where it starts. *)
Lemma registered_mask_from (ts : list Tcb) (k : nat) (acc i : Z) :
  (k + length ts <= 16)%nat -> 0 <= i ->
  Z.testbit (foldl (fun mask '(idx, tcb) =>
      if negb (stack_base tcb =? 0) then Z.lor mask (shl 16 1 (Z.of_nat idx)) else mask)
    acc (imap (fun j t => ((k + j)%nat, t)) ts)) i =
  Z.testbit acc i ||
  (match ts !! Z.to_nat (i - Z.of_nat k) with
   | Some t => (Z.of_nat k <=? i) && registered t | None => false end).
Proof.
  revert k acc. induction ts as [|t ts IH]; intros k acc Hk Hi; cbn [imap foldl length] in *.
  - by rewrite lookup_nil, orb_false_r.
  - replace (k + 0)%nat with k by lia.
    rewrite (imap_ext _ (fun j t => ((S k + j)%nat, t))).
    2:{ intros. cbn. f_equal. lia. }
    rewrite IH by lia. fold (registered t).
    destruct (Z.lt_trichotomy i (Z.of_nat k)) as [Hlt|[->|Hgt]].
    + replace (Z.to_nat (i - Z.of_nat k)) with 0%nat by lia.
      replace (Z.to_nat (i - Z.of_nat (S k))) with 0%nat by lia. cbn [lookup list_lookup].
      destruct (Z.leb_spec (Z.of_nat k) i), (Z.leb_spec (Z.of_nat (S k)) i); try lia.
      replace (match ts !! 0%nat with Some t0 => false && registered t0 | None => false end) with false
        by (by destruct (ts !! 0%nat)).
      destruct (registered t); [|done]. rewrite lor_bit by lia.
      destruct (Z.eqb_spec i (Z.of_nat k)); [lia|]. by rewrite !orb_false_r.
    + rewrite Z.sub_diag, Z.leb_refl. change (Z.to_nat 0) with 0%nat. cbn [lookup list_lookup andb].
      destruct (Z.leb_spec (Z.of_nat (S k)) (Z.of_nat k)); [lia|].
      replace (match ts !! _ with Some t0 => false && registered t0 | None => false end) with false
        by (by destruct (ts !! _)).
      destruct (registered t); [|done]. rewrite lor_bit, Z.eqb_refl by lia. by rewrite !orb_true_r.
    + replace (Z.to_nat (i - Z.of_nat k)) with (S (Z.to_nat (i - Z.of_nat (S k)))) by lia.
      cbn [lookup list_lookup].
      destruct (Z.leb_spec (Z.of_nat k) i), (Z.leb_spec (Z.of_nat (S k)) i); try lia.
      f_equal. destruct (registered t); [|done]. rewrite lor_bit by lia.
      destruct (Z.eqb_spec i (Z.of_nat k)); [lia|]. by rewrite orb_false_r.
Qed.

Lemma registered_mask_bit (ts : list Tcb) (i : nat) :
  (length ts <= 16)%nat ->
  Z.testbit (registered_mask ts) (Z.of_nat i) =
    match ts !! i with Some t => registered t | None => false end.
Proof.
  intros Hl. unfold registered_mask.
  pose proof (registered_mask_from ts 0 0 (Z.of_nat i)) as E. cbn in E.
  rewrite (imap_ext _ pair) in E by done. rewrite E by lia.
  rewrite Z.testbit_0_l, Z.sub_0_r, Nat2Z.id.
  destruct (ts !! i); [|done]. by rewrite (proj2 (Z.leb_le _ _)) by lia.
Qed.

(** ** The tick, branch by branch *)

Lemma read_canary (w : world) (t : Tcb) (i : nat) :
  wf_task (memory w) i t ->
  exists v, read_volatile (stack_base t) w = Done v w /\
            canary_intact (memory w) t = (v =? stack_canary t).
Proof.
  intros [_ _ _ [v Hv]]. exists v. unfold read_volatile, canary_intact. msimpl. by rewrite Hv.
Qed.

(** The part of the tick after the current context was dealt with. *)
Definition tick_select : M world Z :=
  w ← get;
  let next_idx := trailing_zeros 16 (ready_bitmap (sched w)) in
  let next_idx := if MAX_TASKS <=? next_idx then 15 else next_idx in
  next_tcb ← index_task next_idx;
  next_fault ←
    (if negb (stack_base next_tcb =? 0) then
       if negb (valid_stack_pointer next_tcb (rsp next_tcb)) then mret true else
       next_canary ← read_volatile (stack_base next_tcb);
       mret (negb (next_canary =? stack_canary next_tcb))
     else
       mret (negb (next_idx =? 15) ||
             negb (Z.land (ready_bitmap (sched w)) (shl 16 1 next_idx) =? 0)));
  if (next_fault : bool) then mret 0 else
  w ← get;
  (if negb (critical_task_mask (sched w) =? 0) &&
      (Z.land (watchdog_matrix (sched w)) (critical_task_mask (sched w)) =? critical_task_mask (sched w))
   then
     zoom host set_host host_pet_watchdog ;;
     modify_sched (set_matrix 0)
   else mret tt) ;;
  modify_sched (set_current next_idx) ;;
  t ← index_task next_idx;
  mret (rsp t).

Lemma tick_select_run (w : world) (cb : FnPtr) :
  wf w -> PET_WATCHDOG_CB (host w) = Some cb ->
  let j := select (ready_bitmap (sched w)) in
  exists t, tasks (sched w) !! Z.to_nat j = Some t /\
    tick_select w =
      (if runnable w t then Done (rsp t) (switch_to j (service_watchdog cb w)) else Done 0 w).
Proof.
  intros Hwf Hcb j. pose proof (select_range _ (wf_bitmap w Hwf)) as Hj. fold j in Hj.
  destruct (task_in_range w j (wf_len w Hwf) Hj) as [t Ht]. exists t. split; [done|].
  assert (Hgo : forall w0 : world, w0 = w ->
    (if negb (critical_task_mask (sched w0) =? 0) &&
        (Z.land (watchdog_matrix (sched w0)) (critical_task_mask (sched w0)) =?
           critical_task_mask (sched w0))
     then zoom host set_host host_pet_watchdog ;; modify_sched (set_matrix 0) else mret tt) w0 =
    Done tt (service_watchdog cb w)).
  { intros w0 ->. unfold service_watchdog. fold (all_checked_in (sched w)).
    destruct (all_checked_in (sched w)); [|done]. msimpl. unfold zoom.
    by rewrite (host_pet_watchdog_ok cb). }
  assert (Hend : (modify_sched (set_current j) ;; t ← index_task j; mret (rsp t))
                   (service_watchdog cb w) = Done (rsp t) (switch_to j (service_watchdog cb w))).
  { unfold modify_sched. msimpl.
    erewrite index_task_run; [done|]. unfold service_watchdog. by destruct (all_checked_in (sched w)). }
  unfold tick_select. msimpl. rewrite select_code by apply Hwf. fold j.
  rewrite (index_task_run j w t Ht). fold (registered t). unfold runnable.
  destruct (registered t) eqn:Er.
  - pose proof (wf_tasks w Hwf _ _ Ht Er) as Hwt.
    destruct (read_canary w t _ Hwt) as (v & Hv & Hci). rewrite (wf_rsp _ _ _ Hwt), Hci.
    cbn [negb]. rewrite Hv. destruct (v =? stack_canary t); cbn [negb]; [|done].
    rewrite (Hgo w eq_refl). exact Hend.
  - unfold j. rewrite empty_slot_code by apply Hwf. fold j.
    destruct (ready_bitmap (sched w) =? 0); cbn [negb]; [|done].
    rewrite (Hgo w eq_refl). exact Hend.
Qed.

Lemma tick_run (r : Z) (w : world) (t : Tcb) :
  wf w -> tasks (sched w) !! Z.to_nat (current_task (sched w)) = Some t ->
  schedule_tick r w = (if context_ok r w t then tick_select (save r t w) else Done 0 w).
Proof.
  intros Hwf Ht. pose proof (wf_current w Hwf) as Hc.
  unfold schedule_tick. fold tick_select. unfold context_ok, save, MAX_TASKS, and_then. msimpl.
  destruct (Z.leb_spec 16 (current_task (sched w))); [lia|].
  destruct (Z.ltb_spec (current_task (sched w)) 16); [|lia]. cbn [andb].
  destruct (r =? 0); cbn [negb orb andb]; [done|].
  rewrite (index_task_run _ w t Ht). fold (registered t).
  destruct (registered t) eqn:Er; cbn [negb orb andb]; [|done].
  rewrite (index_task_run _ w t Ht).
  destruct (valid_stack_pointer t r); cbn [andb negb]; [|done].
  destruct (read_canary w t _ (wf_tasks w Hwf _ _ Ht Er)) as (v & Hv & Hci). rewrite Hv, Hci.
  destruct (v =? stack_canary t); cbn [negb]; [|done].
  by rewrite (store_task_run _ w _ t Ht).
Qed.

(** ** Preservation *)

(** Operations leave every mapped word mapped and the callbacks registered. *)
Definition extends (w w' : world) : Prop :=
  same_registry (host w) (host w') /\
  (forall a, is_Some (memory w !! a) -> is_Some (memory w' !! a)).

#[export] Instance extends_preorder : PreOrder extends.
Proof.
  split.
  - intros w. split; [reflexivity|done].
  - intros w1 w2 w3 [R1 M1] [R2 M2]. split; [by transitivity (host w2)|auto].
Qed.

Lemma extends_insert (w : world) (s : PerCoreScheduler) (a v : Z) :
  extends w (MkWorld s (<[a := v]> (memory w)) (host w)).
Proof. split; [by cbn|]. cbn. intros a' Ha. by apply lookup_insert_is_Some'; right. Qed.

Lemma wf_save (r : Z) (t : Tcb) (w : world) :
  wf w -> tasks (sched w) !! Z.to_nat (current_task (sched w)) = Some t ->
  context_ok r w t = true -> wf (save r t w).
Proof.
  intros [Hl Hc Hb Hm Hk Ht Ho Hn] Hcur Hok. unfold save, context_ok in *.
  destruct (r =? 0); cbn [negb andb orb] in *; [done|].
  destruct (registered t) eqn:Er; cbn [negb andb orb] in *; [|done].
  apply andb_true_iff in Hok as [Hv _].
  assert (Hlt := lookup_lt_Some _ _ _ Hcur).
  split; cbn; try done.
  - by rewrite length_insert.
  - intros i t' Hi Hr'. destruct (decide (Z.to_nat (current_task (sched w)) = i)) as [<-|Hne].
    + rewrite list_lookup_insert_eq in Hi by done. simplify_eq.
      destruct (Ht _ _ Hcur Er). split; cbn; done.
    + rewrite list_lookup_insert_ne in Hi by done. by apply Ht.
  - intros i t' Hi Hr'. destruct (decide (Z.to_nat (current_task (sched w)) = i)) as [<-|Hne].
    + rewrite list_lookup_insert_eq in Hi by done. simplify_eq.
      unfold registered in *. cbn in Hr'. congruence.
    + rewrite list_lookup_insert_ne in Hi by done. by eapply Ho.
  - intros i t' Hi Hr'. destruct (decide (Z.to_nat (current_task (sched w)) = i)) as [<-|Hne].
    + rewrite list_lookup_insert_eq in Hi by done. simplify_eq.
      unfold registered in *. cbn in Hr'. congruence.
    + rewrite list_lookup_insert_ne in Hi by done. by eapply Hn.
Qed.

Lemma wf_service_watchdog (cb : FnPtr) (w : world) : wf w -> wf (service_watchdog cb w).
Proof.
  intros [Hl Hc Hb Hm Hk Ht Ho Hn]. unfold service_watchdog. destruct (all_checked_in _); [|done].
  split; cbn; try done. intros i t Hi Hr. destruct (Ho i t Hi Hr). split; [done|]. apply Z.testbit_0_l.
Qed.

Lemma wf_switch_to (j : Z) (w : world) : 0 <= j < 16 -> wf w -> wf (switch_to j w).
Proof. intros Hj [Hl Hc Hb Hm Hk Ht Ho Hn]. by split. Qed.

Lemma wf_tick (r : Z) (w : world) (cb : FnPtr) :
  wf w -> PET_WATCHDOG_CB (host w) = Some cb ->
  exists v w', schedule_tick r w = Done v w' /\ wf w' /\ extends w w'.
Proof.
  intros Hwf Hcb. destruct (task_in_range w _ (wf_len w Hwf) (wf_current w Hwf)) as [t Ht].
  rewrite (tick_run r w t Hwf Ht). destruct (context_ok r w t) eqn:Ec; [|by exists 0, w].
  pose proof (wf_save r t w Hwf Ht Ec) as Hs.
  assert (Eh : host (save r t w) = host w) by (unfold save; by case_match).
  destruct (tick_select_run (save r t w) cb Hs) as (t' & Ht' & ->); [by rewrite Eh|].
  assert (Em : memory (save r t w) = memory w) by (unfold save; by case_match).
  unfold extends. rewrite <- Eh, <- Em. destruct (runnable _ _).
  - eexists _, _. split; [done|]. split.
    + apply wf_switch_to; [apply select_range, Hs|by apply wf_service_watchdog].
    + unfold switch_to, service_watchdog. by destruct (all_checked_in _).
  - by exists 0, (save r t w).
Qed.

(** Registration accepts exactly these control blocks. *)
Definition acceptable (s : PerCoreScheduler) (t : Tcb) : bool :=
  negb (entry_point t =? 0) && (priority t <? 16) && valid_stack_pointer t (rsp t) &&
  match tasks s !! Z.to_nat (priority t) with
  | Some old => negb (registered old)
  | None => false
  end.

Definition install (t : Tcb) (canary : Z) (w : world) : world :=
  MkWorld
    (MkSched (<[Z.to_nat (priority t) := set_canary canary t]> (tasks (sched w)))
       (Z.lor (ready_bitmap (sched w)) (shl 16 1 (priority t)))
       (current_task (sched w)) (watchdog_matrix (sched w)) (critical_task_mask (sched w)))
    (<[stack_base t := canary]> (memory w)) (host w).

Lemma valid_pointer_bounds (t : Tcb) (r : Z) :
  valid_stack_pointer t r = true ->
  stack_base t <> 0 /\ stack_base t mod 8 = 0 /\ 8 <= stack_size t /\
  stack_base t + stack_size t < 2 ^ 64 /\ stack_base t + 8 <= r <= stack_base t + stack_size t.
Proof.
  unfold valid_stack_pointer, checked_add, is_multiple_of.
  boolify; cbn; try done; try (intros _; lia). all: boolify; done.
Qed.

Lemma create_task_run (t : Tcb) (canary : Z) (w : world) :
  length (tasks (sched w)) = 16%nat -> 0 <= priority t ->
  (acceptable (sched w) t = true -> is_Some (memory w !! stack_base t)) ->
  create_task t canary w =
    if acceptable (sched w) t then Done (Ok tt) (install t canary w) else Done (Err TaskFault) w.
Proof.
  intros Hl Hp Hmap. unfold create_task, acceptable, or_else in *. msimpl.
  destruct (Z.eqb_spec (entry_point t) 0); cbn [negb orb andb] in *; [done|].
  destruct (Z.leb_spec 16 (priority t)), (Z.ltb_spec (priority t) 16);
    try lia; cbn [negb orb andb] in *; [done|].
  destruct (valid_stack_pointer t (rsp t)) eqn:Ev; cbn [negb orb andb] in *; [|done].
  destruct (task_in_range w (priority t) Hl) as [old Hold]; [lia|].
  rewrite Hold in *. rewrite (index_task_run _ w old Hold). fold (registered old).
  destruct (registered old); cbn [negb] in *; [done|].
  destruct (Hmap eq_refl) as [v Hv]. cbn.
  apply valid_pointer_bounds in Ev as (Hb & _). apply Z.eqb_neq in Hb. rewrite Hb. cbn [negb].
  unfold write_volatile. msimpl. rewrite Hv. unfold store_task. msimpl.
  erewrite index_task_run by (cbn; exact Hold). done.
Qed.

Lemma wf_install (t : Tcb) (canary : Z) (w : world) :
  wf w -> 0 <= priority t -> acceptable (sched w) t = true -> wf (install t canary w).
Proof.
  intros [Hl Hc Hb Hm Hk Ht Ho Hn] Hp Ha. unfold acceptable in Ha.
  rewrite !andb_true_iff, !negb_true_iff, Z.eqb_neq, Z.ltb_lt in Ha.
  destruct Ha as [[[He Hlt] Hv] Hold].
  split; cbn; try done.
  - by rewrite length_insert.
  - apply lor_width; [lia|done|apply shl_range; lia].
  - intros i t' Hi Hr. destruct (decide (Z.to_nat (priority t) = i)) as [<-|Hne].
    + rewrite list_lookup_insert_eq in Hi by lia. simplify_eq. split; cbn; try done; [lia|].
      rewrite lookup_insert_eq. eauto.
    + rewrite list_lookup_insert_ne in Hi by done. destruct (Ht i t' Hi Hr) as [H1 H2 H3 H4].
      split; try done. by apply lookup_insert_is_Some'; right.
  - intros i t' Hi Hr. destruct (decide (Z.to_nat (priority t) = i)) as [<-|Hne].
    + rewrite list_lookup_insert_eq in Hi by lia. simplify_eq.
      apply valid_pointer_bounds in Hv as (Hb0 & _). unfold registered in Hr. cbn in Hr.
      apply negb_false_iff, Z.eqb_eq in Hr. done.
    + rewrite list_lookup_insert_ne in Hi by done. by eapply Ho.
  - intros i t' Hi Hr. destruct (decide (Z.to_nat (priority t) = i)) as [<-|Hne].
    + rewrite list_lookup_insert_eq in Hi by lia. simplify_eq.
      apply valid_pointer_bounds in Hv as (Hb0 & _). unfold registered in Hr. cbn in Hr.
      apply negb_false_iff, Z.eqb_eq in Hr. done.
    + rewrite list_lookup_insert_ne in Hi by done. by eapply Hn.
Qed.

(** ** A successful switch *)

(** The task table after the context [r] of task [c] was saved. *)
Definition saved (r : Z) (t : Tcb) (c : Z) (ts : list Tcb) : list Tcb :=
  if negb (r =? 0) && registered t then <[Z.to_nat c := set_rsp r t]> ts else ts.

Lemma lookup_saved_ne (r : Z) (t : Tcb) (c : Z) (ts : list Tcb) (k : nat) :
  k <> Z.to_nat c -> saved r t c ts !! k = ts !! k.
Proof. intros. unfold saved. case_match; [|done]. by rewrite list_lookup_insert_ne. Qed.

Lemma save_eq (r : Z) (t : Tcb) (w : world) :
  save r t w = set_sched (set_tasks (saved r t (current_task (sched w)) (tasks (sched w)))
                            (sched w)) w.
Proof. unfold save, saved. case_match; [done|]. by destruct w as [[] ? ?]. Qed.

Lemma tick_switch (r : Z) (w : world) (t u : Tcb) (cb : FnPtr) :
  let j := select (ready_bitmap (sched w)) in
  wf w -> PET_WATCHDOG_CB (host w) = Some cb ->
  tasks (sched w) !! Z.to_nat (current_task (sched w)) = Some t -> context_ok r w t = true ->
  saved r t (current_task (sched w)) (tasks (sched w)) !! Z.to_nat j = Some u ->
  runnable w u = true ->
  exists w', schedule_tick r w = Done (rsp u) w' /\ wf w' /\
    tasks (sched w') = saved r t (current_task (sched w)) (tasks (sched w)) /\
    ready_bitmap (sched w') = ready_bitmap (sched w) /\ memory w' = memory w /\
    current_task (sched w') = j /\ PET_WATCHDOG_CB (host w') = Some cb.
Proof.
  intros j Hwf Hcb Ht Hok Hu Hrun. rewrite (tick_run r w t Hwf Ht), Hok.
  pose proof (wf_save r t w Hwf Ht Hok) as Hs. rewrite save_eq in *.
  destruct (tick_select_run _ cb Hs) as (u' & Hu' & ->); [done|].
  cbn in Hu'. fold j in Hu'. rewrite Hu in Hu'. injection Hu' as <-.
  change (runnable (set_sched _ w) u) with (runnable w u). rewrite Hrun.
  eexists. split; [done|]. split.
  - apply wf_switch_to; [apply select_range, Hwf|by apply wf_service_watchdog].
  - unfold switch_to, service_watchdog. by destruct (all_checked_in _).
Qed.

(** * Runs *)

(** The calls of the host, and what a task may do to memory in between. *)
Inductive op : Type :=
| OpCreate (t : Tcb) (canary : Z)
| OpReady (p : Z)
| OpClear (p : Z)
| OpCheckIn (p : Z)
| OpCritical (m : Z)
| OpTick (r : Z)
| StackWrite (addr v : Z).

Definition run_op (o : op) : M world unit :=
  match o with
  | OpCreate t canary => create_task t canary ;; mret tt
  | OpReady p => set_ready p
  | OpClear p => clear_ready p
  | OpCheckIn p => task_check_in p
  | OpCritical m => set_critical_task_mask m
  | OpTick r => schedule_tick r ;; mret tt
  | StackWrite addr v => write_volatile addr v
  end.

Fixpoint run_ops (os : list op) : M world unit :=
  match os with
  | [] => mret tt
  | o :: os' => run_op o ;; run_ops os'
  end.

(** Arguments fit their machine types, and memory handed over is mapped (the
    safety contract of [create_task]). *)
Definition op_ok (w : world) (o : op) : Prop :=
  match o with
  | OpCreate t _ => in_width 8 (priority t) /\ is_Some (memory w !! stack_base t)
  | OpReady p | OpClear p | OpCheckIn p => in_width 8 p
  | OpCritical m => in_width 16 m
  | OpTick _ => True
  | StackWrite addr _ => is_Some (memory w !! addr)
  end.

Lemma check_in_run (p : Z) (w : world) :
  length (tasks (sched w)) = 16%nat -> 0 <= p ->
  task_check_in p w =
    Done tt (if (p <? 16) && match tasks (sched w) !! Z.to_nat p with
                             | Some t => registered t | None => false end
             then set_sched (set_matrix (Z.lor (watchdog_matrix (sched w)) (shl 16 1 p)) (sched w)) w
             else w).
Proof.
  intros Hl Hp. unfold task_check_in, and_then. msimpl.
  destruct (Z.ltb_spec p 16); cbn [andb]; [|done].
  destruct (task_in_range w p Hl) as [t Ht]; [lia|].
  rewrite (index_task_run p w t Ht), Ht. fold (registered t). by destruct (registered t).
Qed.

Lemma wf_run_op (o : op) (w : world) (cb : FnPtr) :
  wf w -> PET_WATCHDOG_CB (host w) = Some cb -> op_ok w o ->
  exists w', run_op o w = Done tt w' /\ wf w' /\ extends w w'.
Proof.
  intros Hwf Hcb Hok. pose proof Hwf as [Hl Hc Hb Hm Hk Ht Ho Hn].
  destruct o as [t canary|p|p|p|m|r|addr v]; cbn [run_op op_ok] in *.
  - destruct Hok as [[Hp _] Hmap]. msimpl. rewrite create_task_run by done.
    destruct (acceptable (sched w) t) eqn:Ea; eexists; (split; [done|]); [|by split].
    split; [by apply wf_install|apply extends_insert].
  - unfold set_ready, in_width in *. destruct (Z.ltb_spec p 16); eexists; (split; [done|]);
      (split; [|done]); [|done].
    split; cbn; try done. apply lor_width; [lia|done|apply shl_range; lia].
  - unfold clear_ready, in_width in *. destruct (Z.ltb_spec p 16); eexists; (split; [done|]);
      (split; [|done]); [|done].
    split; cbn; try done. by apply land_width.
  - destruct Hok as [Hp _]. rewrite check_in_run by done. eexists. split; [done|].
    destruct (Z.ltb_spec p 16); cbn [andb]; [|by split].
    destruct (task_in_range w p Hl) as [t Htp]; [lia|]. rewrite Htp.
    destruct (registered t) eqn:Er; [|by split]. split; [|done].
    split; cbn; try done.
    + apply lor_width; [lia|done|apply shl_range; lia].
    + intros i t' Hi Hr. destruct (Ho i t' Hi Hr) as [H1 H2]. split; [done|].
      rewrite lor_bit, H2 by lia. cbn. apply Z.eqb_neq. intros <-.
      rewrite Nat2Z.id in Htp. congruence.
  - eexists. split; [done|]. split; [|done]. split; cbn; try done.
    + by apply land_width.
    + by apply land_width.
    + intros i t' Hi Hr. rewrite !Z.land_spec, registered_mask_bit, Hi, Hr by lia.
      by rewrite !andb_false_r.
  - msimpl. destruct (wf_tick r w cb Hwf Hcb) as (v & w' & -> & Hw' & Hs). eauto.
  - destruct Hok as [old Hold]. unfold write_volatile. msimpl. rewrite Hold.
    eexists. split; [done|]. split; [|apply extends_insert]. split; cbn; try done.
    intros i t Hi Hr. destruct (Ht i t Hi Hr) as [H1 H2 H3 H4]. split; try done.
    by apply lookup_insert_is_Some'; right.
Qed.

Lemma op_ok_extends (o : op) (w w' : world) : extends w w' -> op_ok w o -> op_ok w' o.
Proof. intros [_ Hm] Hok. destruct o; cbn in *; destruct_and?; split_and?; auto. Qed.

Lemma extends_pet (w w' : world) (cb : FnPtr) :
  extends w w' -> PET_WATCHDOG_CB (host w) = Some cb -> PET_WATCHDOG_CB (host w') = Some cb.
Proof. intros [R _] E. destruct R as (_ & _ & _ & _ & _ & _ & ->). done. Qed.

Lemma wf_run_ops (os : list op) (w : world) (cb : FnPtr) :
  wf w -> PET_WATCHDOG_CB (host w) = Some cb -> Forall (op_ok w) os ->
  exists w', run_ops os w = Done tt w' /\ wf w' /\ extends w w'.
Proof.
  revert w. induction os as [|o os IH]; intros w Hwf Hcb Hok; cbn [run_ops].
  - by exists w.
  - apply Forall_cons in Hok as [Ho Hos].
    destruct (wf_run_op o w cb Hwf Hcb Ho) as (w1 & E1 & Hw1 & X1). msimpl. rewrite E1.
    destruct (IH w1 Hw1) as (w2 & E2 & Hw2 & X2).
    + by eapply extends_pet.
    + eapply Forall_impl; [exact Hos|]. intros o'. by apply op_ok_extends.
    + exists w2. split_and!; [done|done|by transitivity w1].
Qed.

(** ** Watchdog windows *)

Lemma all_checked_in_bits (s : PerCoreScheduler) (i : Z) :
  all_checked_in s = true -> Z.testbit (critical_task_mask s) i = true ->
  Z.testbit (watchdog_matrix s) i = true.
Proof.
  unfold all_checked_in. rewrite andb_true_iff, Z.eqb_eq. intros [_ E] Hi.
  rewrite <- E, Z.land_spec, andb_true_iff in Hi. tauto.
Qed.

(** An operation that leaves host, mask and matrix alone. *)
Lemma window_same (o : op) (w w' : world) :
  trace (host w') = trace (host w) -> watchdog_matrix (sched w') = watchdog_matrix (sched w) ->
  (forall i, o <> OpCheckIn i) ->
  trace (host w') = trace (host w) /\
  (forall i, 0 <= i -> Z.testbit (watchdog_matrix (sched w')) i = true ->
    Z.testbit (watchdog_matrix (sched w)) i = true \/ o = OpCheckIn i) /\
  ((forall m, o <> OpCritical m) ->
   forall i, 0 <= i -> Z.testbit (critical_task_mask (sched w)) i = true ->
    Z.testbit (watchdog_matrix (sched w)) i = true \/ o = OpCheckIn i ->
    Z.testbit (watchdog_matrix (sched w')) i = true).
Proof.
  intros Et -> Hn. split_and!; [done|by left|]. intros _ i _ _ [?|H]; [done|by destruct (Hn i)].
Qed.

(** A check-in of a registered priority sets its bit; a critical priority is
    registered. *)
Lemma check_in_window (p : Z) (w : world) :
  wf w -> 0 <= p ->
  let w' := if (p <? 16) && match tasks (sched w) !! Z.to_nat p with
                             | Some t => registered t | None => false end
             then set_sched (set_matrix (Z.lor (watchdog_matrix (sched w)) (shl 16 1 p)) (sched w)) w
             else w in
  trace (host w') = trace (host w) /\
  (forall i, 0 <= i -> Z.testbit (watchdog_matrix (sched w')) i = true ->
    Z.testbit (watchdog_matrix (sched w)) i = true \/ OpCheckIn p = OpCheckIn i) /\
  ((forall m, OpCheckIn p <> OpCritical m) ->
   forall i, 0 <= i -> Z.testbit (critical_task_mask (sched w)) i = true ->
    Z.testbit (watchdog_matrix (sched w)) i = true \/ OpCheckIn p = OpCheckIn i ->
    Z.testbit (watchdog_matrix (sched w')) i = true).
Proof.
  intros Hwf Hp. cbn zeta. destruct (Z.ltb_spec p 16) as [Hlt|Hge]; cbn [andb].
  - destruct (task_in_range w p (wf_len w Hwf)) as [t Ht]; [lia|]. rewrite Ht.
    destruct (registered t) eqn:Er; cbn.
    + split_and!; [done| |].
      * intros i Hi. rewrite lor_bit by lia. rewrite orb_true_iff, Z.eqb_eq. intros [?| ->]; auto.
      * intros _ i Hi _ H. rewrite lor_bit by lia. rewrite orb_true_iff, Z.eqb_eq.
        destruct H as [H|[= ->]]; auto.
    + split_and!; [done|by left|]. intros _ i Hi Hc [?|[= ->]]; [done|].
      destruct (wf_obligations w Hwf (Z.to_nat i) t Ht Er) as [Hno _].
      rewrite Z2Nat.id in Hno by done. congruence.
  - split_and!; [done|by left|]. intros _ i Hi Hc [?|[= ->]]; [done|]. exfalso.
    by rewrite (testbit_high 16) in Hc by (apply Hwf || lia).
Qed.

(** One operation either leaves the host alone, adding to the matrix exactly the
    priority that checked in (a mask change may also drop bits), or it is a tick
    that found every critical task checked in, pets once and empties the matrix. *)
Lemma run_op_window (o : op) (w w' : world) (cb : FnPtr) :
  wf w -> PET_WATCHDOG_CB (host w) = Some cb -> op_ok w o -> run_op o w = Done tt w' ->
  ((forall m, o <> OpCritical m) -> critical_task_mask (sched w') = critical_task_mask (sched w)) /\
  ((trace (host w') = trace (host w) /\
    (forall i, 0 <= i -> Z.testbit (watchdog_matrix (sched w')) i = true ->
      Z.testbit (watchdog_matrix (sched w)) i = true \/ o = OpCheckIn i) /\
    ((forall m, o <> OpCritical m) ->
     forall i, 0 <= i -> Z.testbit (critical_task_mask (sched w)) i = true ->
      Z.testbit (watchdog_matrix (sched w)) i = true \/ o = OpCheckIn i ->
      Z.testbit (watchdog_matrix (sched w')) i = true)) \/
   (all_checked_in (sched w) = true /\ watchdog_matrix (sched w') = 0 /\
    trace (host w') = trace (host w) ++ [EvPetWatchdog cb])).
Proof.
  intros Hwf Hcb Hok E. destruct o as [t canary|p|p|p|m|r|addr v]; cbn [run_op op_ok] in *.
  - msimpl. rewrite create_task_run in E by (apply Hwf || apply Hok || (intros; apply Hok)).
    destruct (acceptable _ _); simplify_eq; cbn; split; auto 6 using window_same.
  - unfold set_ready, modify_sched in E. destruct (p <? 16); msimpl; simplify_eq; cbn; split; auto using window_same.
  - unfold clear_ready, modify_sched in E. destruct (p <? 16); msimpl; simplify_eq; cbn; split; auto using window_same.
  - destruct Hok as [Hp _]. rewrite check_in_run in E by (apply Hwf || done). simplify_eq.
    split; [by destruct (_ && _)|]. left. by apply check_in_window.
  - unfold set_critical_task_mask, modify_sched in E. msimpl. simplify_eq. cbn.
    split; [intros Hnc; by destruct (Hnc m)|]. left. split_and!; [done| |].
    + intros i Hi. rewrite Z.land_spec, andb_true_iff. intros [? _]. by left.
    + intros Hnc. by destruct (Hnc m).
  - destruct (task_in_range w _ (wf_len w Hwf) (wf_current w Hwf)) as [t Ht].
    msimpl. rewrite (tick_run r w t Hwf Ht) in E.
    destruct (context_ok r w t) eqn:Ec; [|simplify_eq; split; auto using window_same].
    pose proof (wf_save r t w Hwf Ht Ec) as Hs. pose proof (save_eq r t w) as Es.
    set (ts := saved _ _ _ _) in Es.
    destruct (tick_select_run (save r t w) cb Hs) as (t' & Ht' & E').
    { by rewrite Es. }
    rewrite E', Es in E. destruct (runnable _ _); simplify_eq; cbn; [|split; auto using window_same].
    unfold switch_to, service_watchdog. cbn.
    change (all_checked_in (set_tasks ts (sched w))) with (all_checked_in (sched w)).
    destruct (all_checked_in (sched w)) eqn:Eall; cbn; split; auto using window_same.
  - unfold write_volatile in E. msimpl. destruct (memory w !! addr); simplify_eq; cbn.
    split; auto using window_same.
Qed.

(** A tick that answers a task pets when every critical task has checked in. *)
Lemma tick_pets (r v : Z) (w w' : world) (cb : FnPtr) :
  wf w -> PET_WATCHDOG_CB (host w) = Some cb -> schedule_tick r w = Done v w' -> v <> 0 ->
  all_checked_in (sched w) = true -> trace (host w') = trace (host w) ++ [EvPetWatchdog cb].
Proof.
  intros Hwf Hcb E Hv Hall.
  destruct (task_in_range w _ (wf_len w Hwf) (wf_current w Hwf)) as [t Ht].
  rewrite (tick_run r w t Hwf Ht) in E. destruct (context_ok r w t) eqn:Ec; [|by simplify_eq].
  pose proof (wf_save r t w Hwf Ht Ec) as Hs. pose proof (save_eq r t w) as Es.
  destruct (tick_select_run (save r t w) cb Hs) as (t' & Ht' & E'); [by rewrite Es|].
  rewrite E', Es in E. destruct (runnable _ _); [|by simplify_eq]. injection E as _ <-.
  unfold switch_to, service_watchdog. cbn.
  change (all_checked_in (set_tasks _ (sched w))) with (all_checked_in (sched w)). by rewrite Hall.
Qed.

(** One run of calls, with every intermediate state well-formed. *)
Lemma run_ops_cons (o : op) (os : list op) (w w' : world) (cb : FnPtr) :
  wf w -> PET_WATCHDOG_CB (host w) = Some cb -> Forall (op_ok w) (o :: os) ->
  run_ops (o :: os) w = Done tt w' ->
  exists w1, run_op o w = Done tt w1 /\ run_ops os w1 = Done tt w' /\ wf w1 /\
    PET_WATCHDOG_CB (host w1) = Some cb /\ Forall (op_ok w1) os /\ op_ok w o.
Proof.
  intros Hwf Hcb Hok E. apply Forall_cons in Hok as [Ho Hos].
  destruct (wf_run_op o w cb Hwf Hcb Ho) as (w1 & E1 & Hw1 & X1).
  cbn [run_ops] in E. msimpl. rewrite E1 in E. exists w1. split_and!; try done.
  - by eapply extends_pet.
  - eapply Forall_impl; [exact Hos|]. intros o'. by apply op_ok_extends.
Qed.

(** What a run adds to the matrix was checked in during the run, and the trace only
    grows. *)
Lemma run_ops_bits (os : list op) (w w' : world) (cb : FnPtr) :
  wf w -> PET_WATCHDOG_CB (host w) = Some cb -> Forall (op_ok w) os -> run_ops os w = Done tt w' ->
  trace (host w) `prefix_of` trace (host w') /\
  forall i, 0 <= i -> Z.testbit (watchdog_matrix (sched w')) i = true ->
    Z.testbit (watchdog_matrix (sched w)) i = true \/ OpCheckIn i ∈ os.
Proof.
  revert w. induction os as [|o os IH]; intros w Hwf Hcb Hok E.
  { cbn [run_ops] in E. msimpl. simplify_eq. split; [done|auto]. }
  destruct (run_ops_cons o os w w' cb Hwf Hcb Hok E) as (w1 & E1 & E2 & Hw1 & Hcb1 & Hos & Ho).
  destruct (IH w1 Hw1 Hcb1 Hos E2) as [Hpre Hbits].
  destruct (run_op_window o w w1 cb Hwf Hcb Ho E1) as [_ [(Et & Hm & _)|(_ & Hz & Et)]].
  - rewrite Et in Hpre. split; [done|]. intros i Hi Hb. destruct (Hbits i Hi Hb) as [H1|H1].
    + destruct (Hm i Hi H1) as [?| ->]; [by left|]. right. by left.
    + right. by right.
  - split; [etransitivity; [|exact Hpre]; rewrite Et; by eexists|].
    intros i Hi Hb. destruct (Hbits i Hi Hb) as [H1|H1]; [by rewrite Hz, Z.testbit_0_l in H1|].
    right. by right.
Qed.

(** Until the next pet and the next mask change no check-in of a critical task is lost. *)
Lemma run_ops_kept (os : list op) (w w' : world) (cb : FnPtr) :
  wf w -> PET_WATCHDOG_CB (host w) = Some cb -> Forall (op_ok w) os -> run_ops os w = Done tt w' ->
  trace (host w') = trace (host w) -> (forall m, OpCritical m ∉ os) ->
  critical_task_mask (sched w') = critical_task_mask (sched w) /\
  forall i, 0 <= i -> Z.testbit (critical_task_mask (sched w)) i = true ->
    Z.testbit (watchdog_matrix (sched w)) i = true \/ OpCheckIn i ∈ os ->
    Z.testbit (watchdog_matrix (sched w')) i = true.
Proof.
  revert w. induction os as [|o os IH]; intros w Hwf Hcb Hok E Htr Hnc.
  { cbn [run_ops] in E. msimpl. simplify_eq. split; [done|]. intros i _ _ [?|H]; [done|by apply elem_of_nil in H]. }
  destruct (run_ops_cons o os w w' cb Hwf Hcb Hok E) as (w1 & E1 & E2 & Hw1 & Hcb1 & Hos & Ho).
  destruct (run_ops_bits os w1 w' cb Hw1 Hcb1 Hos E2) as [Hpre _].
  assert (Hno : forall m, o <> OpCritical m) by (intros m ->; apply (Hnc m); left).
  destruct (run_op_window o w w1 cb Hwf Hcb Ho E1) as [Hmask [(Et & _ & Hk)|(_ & _ & Et)]].
  - destruct (IH w1 Hw1 Hcb1 Hos E2) as [Hmask' Hkept].
    { by rewrite Htr, Et. }
    { intros m Hm. apply (Hnc m). by right. }
    rewrite (Hmask Hno) in Hmask', Hkept. split; [done|]. intros i Hi Hc Hin.
    apply Hkept; [done|done|]. destruct Hin as [H1|H1]; [left; by apply (Hk Hno); [..|left]|].
    apply elem_of_cons in H1 as [H1|H1]; [left; by apply (Hk Hno); [..|right]|by right].
  - exfalso. apply prefix_length in Hpre. rewrite Htr, Et, length_app in Hpre. cbn in Hpre. lia.
Qed.

Lemma all_checked_in_intro (s : PerCoreScheduler) :
  in_width 16 (critical_task_mask s) -> critical_task_mask s <> 0 ->
  (forall i, 0 <= i -> Z.testbit (critical_task_mask s) i = true -> Z.testbit (watchdog_matrix s) i = true) ->
  all_checked_in s = true.
Proof.
  intros Hw Hz Hb. unfold all_checked_in. apply andb_true_iff. split; [by apply negb_true_iff, Z.eqb_neq|].
  apply Z.eqb_eq. apply Z.bits_inj'. intros i Hi. rewrite Z.land_spec.
  destruct (Z.testbit (critical_task_mask s) i) eqn:E; [by rewrite (Hb i Hi E)|by rewrite andb_false_r].
Qed.

(** Where a watchdog window opens: with an empty matrix (a new scheduler), or right
    after a call that petted. *)
Inductive window_opens (w : world) : list op -> world -> Prop :=
| opens_empty : watchdog_matrix (sched w) = 0 -> window_opens w [] w
| opens_pet os o w1 w2 : run_ops os w = Done tt w1 -> run_op o w1 = Done tt w2 ->
    trace (host w2) <> trace (host w1) -> window_opens w (os ++ [o]) w2.

Lemma window_opens_zero (w w0 : world) (before since : list op) (cb : FnPtr) :
  wf w -> PET_WATCHDOG_CB (host w) = Some cb -> Forall (op_ok w) (before ++ since) ->
  window_opens w before w0 ->
  wf w0 /\ PET_WATCHDOG_CB (host w0) = Some cb /\ Forall (op_ok w0) since /\ watchdog_matrix (sched w0) = 0.
Proof.
  intros Hwf Hcb Hok Hop. destruct Hop as [Hz|os o w1 w2 E1 E2 Htr]; [done|].
  rewrite <- app_assoc in Hok. apply Forall_app in Hok as [Hos Hok].
  destruct (wf_run_ops os w cb Hwf Hcb Hos) as (w1' & E1' & Hw1 & X1).
  rewrite E1 in E1'. injection E1' as <-.
  assert (Hok1 : Forall (op_ok w1) (o :: since)).
  { eapply Forall_impl; [exact Hok|]. intros o'. by apply op_ok_extends. }
  apply Forall_cons in Hok1 as [Ho Hs]. assert (Hcb1 := extends_pet _ _ _ X1 Hcb).
  destruct (wf_run_op o w1 cb Hw1 Hcb1 Ho) as (w2' & E2' & Hw2 & X2).
  rewrite E2 in E2'. injection E2' as <-. split_and!; [done|by eapply extends_pet| |].
  - eapply Forall_impl; [exact Hs|]. intros o'. by apply op_ok_extends.
  - by destruct (run_op_window o w1 w2 cb Hw1 Hcb1 Ho E2) as [_ [(Et & _)|(_ & Hz & _)]].
Qed.

(** * Claims *)

(** C11: from a well-formed scheduler, any sequence of calls (registrations, ready
    and blocked marks, check-ins, mask changes, ticks) interleaved with arbitrary
    writes by the tasks to mapped memory runs to its end, without undefined
    behaviour and without a panic, and leaves the scheduler well-formed: every
    saved stack pointer lies in its task's stack above the canary word, and only
    registered tasks owe or have made a check-in. *)
Theorem sched_run_safe (os : list op) (w : world) (cb : FnPtr) :
  wf w -> PET_WATCHDOG_CB (host w) = Some cb -> Forall (op_ok w) os ->
  exists w', run_ops os w = Done tt w' /\ wf w'.
Proof.
  intros Hwf Hcb Hok. destruct (wf_run_ops os w cb Hwf Hcb Hok) as (w' & E & Hw' & _). eauto.
Qed.

(** C12: a tick that hands out a stack pointer hands out that of the ready task of
    highest priority (or of the idle task when none is ready): the pointer lies in
    that task's stack above the canary word, the task's canary is intact, and no
    task of higher priority is ready. *)
Theorem sched_tick_highest (r v : Z) (w w' : world) (cb : FnPtr) :
  wf w -> PET_WATCHDOG_CB (host w) = Some cb ->
  schedule_tick r w = Done v w' -> v <> 0 ->
  let j := current_task (sched w') in
  exists t, tasks (sched w') !! Z.to_nat j = Some t /\ rsp t = v /\
    stack_base t + 8 <= v <= stack_base t + stack_size t /\
    memory w' !! stack_base t = Some (stack_canary t) /\
    (Z.testbit (ready_bitmap (sched w)) j = true \/ (ready_bitmap (sched w) = 0 /\ j = 15)) /\
    forall i, i < j -> Z.testbit (ready_bitmap (sched w)) i = false.
Proof.
  intros Hwf Hcb E Hv. destruct (task_in_range w _ (wf_len w Hwf) (wf_current w Hwf)) as [t0 Ht0].
  rewrite (tick_run r w t0 Hwf Ht0) in E.
  destruct (context_ok r w t0) eqn:Ec; [|by simplify_eq].
  pose proof (wf_save r t0 w Hwf Ht0 Ec) as Hs.
  assert (Eb : ready_bitmap (sched (save r t0 w)) = ready_bitmap (sched w) /\
               host (save r t0 w) = host w) by (by unfold save; case_match).
  destruct Eb as [Eb Eh].
  destruct (tick_select_run (save r t0 w) cb Hs) as (t & Ht & E'); [by rewrite Eh|].
  rewrite E' in E. destruct (runnable (save r t0 w) t) eqn:Er; simplify_eq.
  assert (Hw : forall j w1, sched (switch_to j (service_watchdog cb w1)) =
     MkSched (tasks (sched w1)) (ready_bitmap (sched w1)) j
       (watchdog_matrix (sched (service_watchdog cb w1))) (critical_task_mask (sched w1)) /\
     memory (switch_to j (service_watchdog cb w1)) = memory w1).
  { intros. unfold service_watchdog. by destruct (all_checked_in _). }
  destruct (Hw (select (ready_bitmap (sched (save r t0 w)))) (save r t0 w)) as [-> ->]. cbn.
  rewrite Eb in *. destruct (select_highest _ (wf_bitmap w Hwf)) as [Hlow Hbit].
  exists t. split; [done|]. split; [done|]. unfold runnable in Er.
  destruct (registered t) eqn:Ereg.
  - pose proof (wf_tasks _ Hs _ _ Ht Ereg) as Hwt.
    destruct (valid_pointer_bounds _ _ (wf_rsp _ _ _ Hwt)) as (_ & _ & _ & _ & Hbd).
    split_and!; [lia|lia| | |done].
    + unfold canary_intact in Er. case_match; [|done]. apply Z.eqb_eq in Er. congruence.
    + destruct Hbit as [Hz|]; [right|by left]. by rewrite Hz.
  - exfalso. apply Hv. by rewrite (wf_empty _ Hs _ _ Ht Ereg).
Qed.

(** Faults are reported closed. When the running task's stack pointer is
    outside its stack or its canary was overwritten, the tick answers 0 and
    changes nothing: no context is saved, nothing is switched and the watchdog is
    not petted. When the selected task cannot run (its canary was overwritten, or
    its ready bit is set but it was never registered), the tick answers 0, the
    running task stays current and the watchdog is not petted. *)
Theorem sched_tick_fault_closed (r : Z) (w : world) (cb : FnPtr) (t : Tcb) :
  wf w -> PET_WATCHDOG_CB (host w) = Some cb ->
  tasks (sched w) !! Z.to_nat (current_task (sched w)) = Some t ->
  (r <> 0 -> stack_base t <> 0 ->
   valid_stack_pointer t r = false \/ memory w !! stack_base t <> Some (stack_canary t) ->
   schedule_tick r w = Done 0 w) /\
  (forall u, tasks (sched (save r t w)) !! Z.to_nat (select (ready_bitmap (sched w))) = Some u ->
   (stack_base u <> 0 -> memory w !! stack_base u <> Some (stack_canary u)) ->
   (stack_base u = 0 -> ready_bitmap (sched w) <> 0) ->
   exists w', schedule_tick r w = Done 0 w' /\ host w' = host w /\
              current_task (sched w') = current_task (sched w)).
Proof.
  intros Hwf Hcb Ht. rewrite (tick_run r w t Hwf Ht). split.
  - intros Hr Hb Hbad. replace (context_ok r w t) with false; [done|].
    unfold context_ok, canary_intact, registered. apply Z.eqb_neq in Hr, Hb. rewrite Hr, Hb.
    cbn. destruct Hbad as [->|Hm]; [done|]. destruct (valid_stack_pointer t r); [|done].
    destruct (memory w !! stack_base t) as [v|]; [|done]. cbn. symmetry. apply Z.eqb_neq. congruence.
  - intros u Hu Hc Hz. destruct (context_ok r w t) eqn:Ec; [|by exists w].
    pose proof (wf_save r t w Hwf Ht Ec) as Hs.
    pose proof (save_eq r t w) as Es.
    destruct (tick_select_run (save r t w) cb Hs) as (u' & Hu' & ->); [by rewrite Es|].
    rewrite Es in *. cbn in Hu, Hu'. simplify_eq.
    replace (runnable _ _) with false; [by eexists|].
    unfold runnable, registered, canary_intact. cbn.
    destruct (Z.eqb_spec (stack_base u) 0) as [E|E]; cbn.
    + symmetry. apply Z.eqb_neq. auto.
    + specialize (Hc E). destruct (memory w !! stack_base u) as [v|]; [|done].
      symmetry. apply Z.eqb_neq. congruence.
Qed.

(** C37: watchdog windows. A window opens with an empty matrix, as in a new
    scheduler, or right after a call that petted. After any calls in the window,
    changes of the critical mask included, a tick that pets pets exactly once, the
    mask in force is not empty, and every task of that mask checked in since the
    window opened: check-ins made before the last pet do not count again. And when
    the window holds no mask change and no pet yet and every critical task has
    checked in during it, the next tick that answers a task does pet. *)
Theorem sched_watchdog_window (before since : list op) (r v : Z) (w w0 w1 w2 : world) (cb : FnPtr) :
  wf w -> PET_WATCHDOG_CB (host w) = Some cb -> Forall (op_ok w) (before ++ since) ->
  window_opens w before w0 ->
  run_ops since w0 = Done tt w1 ->
  schedule_tick r w1 = Done v w2 ->
  (trace (host w2) <> trace (host w1) ->
     trace (host w2) = trace (host w1) ++ [EvPetWatchdog cb] /\
     critical_task_mask (sched w1) <> 0 /\
     forall i, 0 <= i -> Z.testbit (critical_task_mask (sched w1)) i = true -> OpCheckIn i ∈ since) /\
  (v <> 0 -> critical_task_mask (sched w1) <> 0 ->
   trace (host w1) = trace (host w0) -> (forall m, OpCritical m ∉ since) ->
   (forall i, 0 <= i -> Z.testbit (critical_task_mask (sched w1)) i = true -> OpCheckIn i ∈ since) ->
   trace (host w2) = trace (host w1) ++ [EvPetWatchdog cb]).
Proof.
  intros Hwf Hcb Hok Hop Es Et.
  destruct (window_opens_zero w w0 before since cb Hwf Hcb Hok Hop) as (Hw0 & Hcb0 & Hs & Hz).
  destruct (wf_run_ops since w0 cb Hw0 Hcb0 Hs) as (w1' & E1 & Hw1 & X1).
  rewrite Es in E1. injection E1 as <-. assert (Hcb1 := extends_pet _ _ _ X1 Hcb0). split.
  - intros Hne. destruct (run_op_window (OpTick r) w1 w2 cb Hw1 Hcb1 I) as [_ [(Esame & _)|(Hall & _ & Hp)]].
    { cbn [run_op]. msimpl. by rewrite Et. }
    { done. }
    split_and!; [done| |].
    + intros Hm. unfold all_checked_in in Hall. by rewrite Hm in Hall.
    + intros i Hi Hc. destruct (run_ops_bits since w0 w1 cb Hw0 Hcb0 Hs Es) as [_ Hbits].
      destruct (Hbits i Hi) as [H0|?]; [by apply all_checked_in_bits| |done].
      by rewrite Hz, Z.testbit_0_l in H0.
  - intros Hv Hm Htr Hnc Hin. eapply tick_pets; try done.
    destruct (run_ops_kept since w0 w1 cb Hw0 Hcb0 Hs Es Htr Hnc) as [Hmask Hkept].
    apply all_checked_in_intro; [apply Hw1|done|]. intros i Hi Hc.
    apply Hkept; [done|by rewrite <- Hmask|right; by apply Hin].
Qed.

(** Registration is exact. A control block is refused with [TaskFault], and
    nothing changes, exactly when its entry point is null, its priority is 16 or
    more, its stack is null, misaligned, too small or wraps the address space, its
    stack pointer is outside the stack or on the canary word, or its priority is
    taken. Otherwise the canary is written at the stack base, the task is stored
    under its priority with that canary and marked ready, and nothing else
    changes. *)
Theorem sched_create_exact (t : Tcb) (canary : Z) (w : world) :
  wf w -> in_width 8 (priority t) -> is_Some (memory w !! stack_base t) ->
  let ok := entry_point t <> 0 /\ priority t < 16 /\ stack_base t <> 0 /\
            stack_base t mod 8 = 0 /\ 8 <= stack_size t /\
            stack_base t + stack_size t < 2 ^ 64 /\
            stack_base t + 8 <= rsp t <= stack_base t + stack_size t /\
            (forall old, tasks (sched w) !! Z.to_nat (priority t) = Some old -> stack_base old = 0) in
  (~ ok -> create_task t canary w = Done (Err TaskFault) w) /\
  (ok -> create_task t canary w = Done (Ok tt) (install t canary w)).
Proof.
  intros Hwf [Hp _] Hmap ok. rewrite create_task_run; [|apply Hwf|done|done].
  assert (Hiff : acceptable (sched w) t = true <-> ok).
  { unfold acceptable, ok. rewrite !andb_true_iff, negb_true_iff, Z.eqb_neq, Z.ltb_lt.
    split.
    - intros [[[He Hlt] Hv] Hold]. apply valid_pointer_bounds in Hv as (H1 & H2 & H3 & H4 & H5).
      split_and!; try done; try lia. intros old Eo. rewrite Eo in Hold.
      unfold registered in Hold. by rewrite negb_involutive, Z.eqb_eq in Hold.
    - intros (He & Hlt & H1 & H2 & H3 & H4 & H5 & Hold). split_and!; try done.
      + unfold valid_stack_pointer, checked_add, is_multiple_of. boolify; cbn; lia || done.
      + destruct (task_in_range w (priority t) (wf_len w Hwf)) as [old Eo]; [lia|].
        rewrite Eo. unfold registered. by rewrite (Hold old Eo). }
  destruct (acceptable (sched w) t) eqn:Ea; split; intros Hok; try done.
  - by destruct Hok; apply Hiff.
  - by apply Hiff in Hok.
Qed.

(** Preemption is transparent. When a tick preempts task [i] at stack pointer
    [r] in favour of a task of higher priority, and that task blocks, the next
    tick resumes task [i] at exactly [r]. *)
Theorem sched_preempt_resume (i j r r2 : Z) (w : world) (cb : FnPtr) (ti tj : Tcb) :
  wf w -> PET_WATCHDOG_CB (host w) = Some cb ->
  current_task (sched w) = i -> 0 <= j < i -> r <> 0 ->
  tasks (sched w) !! Z.to_nat i = Some ti -> registered ti = true ->
  valid_stack_pointer ti r = true -> canary_intact (memory w) ti = true ->
  tasks (sched w) !! Z.to_nat j = Some tj -> registered tj = true ->
  canary_intact (memory w) tj = true -> valid_stack_pointer tj r2 = true ->
  select (ready_bitmap (sched w)) = j ->
  select (Z.land (ready_bitmap (sched w)) (bnot 16 (shl 16 1 j))) = i ->
  exists w1 w2 w3,
    schedule_tick r w = Done (rsp tj) w1 /\ current_task (sched w1) = j /\
    clear_ready j w1 = Done tt w2 /\
    schedule_tick r2 w2 = Done r w3 /\ current_task (sched w3) = i.
Proof.
  intros Hwf Hcb Hi Hj Hr Hti Hri Hvi Hci Htj Hrj Hcj Hvj Hsel Hsel2.
  pose proof (wf_current w Hwf) as Hcur. rewrite Hi in Hcur.
  destruct (tick_switch r w ti tj cb) as (w1 & E1 & Hw1 & F1); try done; try (by rewrite Hi).
  { unfold context_ok. by rewrite Hvi, Hci, orb_true_r. }
  { rewrite Hsel, Hi, lookup_saved_ne by lia. done. }
  { unfold runnable. by rewrite Hrj. }
  destruct F1 as (Ft & Fb & Fm & Fc & Fp). rewrite Hsel, Hi in *.
  set (w2 := set_sched (set_bitmap (Z.land (ready_bitmap (sched w1)) (bnot 16 (shl 16 1 j)))
                          (sched w1)) w1).
  assert (Hw2 : wf w2).
  { destruct Hw1 as [Hl Hc Hb Hm Hk Ht Ho Hn]. split; cbn; try done. by apply land_width. }
  assert (Hlti : (Z.to_nat i < length (tasks (sched w)))%nat) by by eapply lookup_lt_Some.
  assert (Hsav : saved r ti i (tasks (sched w)) = <[Z.to_nat i := set_rsp r ti]> (tasks (sched w))).
  { unfold saved. by rewrite (proj2 (Z.eqb_neq r 0) Hr), Hri. }
  destruct (tick_switch r2 w2 tj (set_rsp r ti) cb) as (w3 & E3 & Hw3 & F3); try done; cbn.
  { by rewrite Fc, Ft, lookup_saved_ne by lia. }
  { unfold context_ok. cbn. by rewrite Fm, Hvj, Hcj, orb_true_r. }
  { rewrite Fb, Hsel2, Fc, lookup_saved_ne by lia. by rewrite Ft, Hsav, list_lookup_insert_eq. }
  { unfold runnable, registered, canary_intact in *. cbn. by rewrite Hri, Fm. }
  destruct F3 as (_ & _ & _ & Fc3 & _). cbn in Fc3. rewrite Fb, Hsel2 in Fc3.
  exists w1, w2, w3. split_and!; [done|done| |done|done].
  unfold clear_ready. by destruct (Z.ltb_spec j 16); [|lia].
Qed.

(** ** Witnesses

    Two tasks of priorities 2 and 5, both critical; task 2 is blocked and task 5
    runs, then task 2 becomes ready. *)

Definition boot_world : world :=
  MkWorld new (<[4096 := 0]> (<[8192 := 0]> ∅)) sample_host.

Definition sample_ops : list op :=
  [OpCreate (new_task 1 4096 64 4128 2) 170; OpCreate (new_task 1 8192 64 8224 5) 187;
   OpCritical 36; OpClear 2; OpTick 0; OpReady 2].

Definition sample : world :=
  match run_ops sample_ops boot_world with Done _ w => w | _ => boot_world end.

Lemma wf_new (m : gmap Z Z) (h : Host) : wf (MkWorld new m h).
Proof.
  assert (Hall : Forall (fun t => t = tcb_new) (tasks new)) by by repeat constructor.
  split; cbn; try done.
  - intros i t Hi Hr. rewrite Forall_lookup in Hall. by rewrite (Hall i t Hi) in Hr.
  - intros i t Hi Hr. by rewrite !Z.testbit_0_l.
  - intros i t Hi Hr. rewrite Forall_lookup in Hall. by apply (Hall i).
Qed.

Lemma sample_ops_ok : Forall (op_ok boot_world) sample_ops.
Proof. repeat constructor; cbn; try done; by eexists. Qed.

Lemma sample_wf : wf sample.
Proof.
  destruct (wf_run_ops sample_ops boot_world 7 (wf_new _ _) eq_refl sample_ops_ok)
    as (w' & E & Hw & _).
  unfold sample. by rewrite E.
Qed.

Lemma sched_run_safe_witness : exists w', run_ops sample_ops boot_world = Done tt w' /\ wf w'.
Proof. exact (sched_run_safe sample_ops boot_world 7 (wf_new _ _) eq_refl sample_ops_ok). Defined.

Definition after_tick : world :=
  match schedule_tick 8216 sample with Done _ w => w | _ => sample end.

Lemma sched_tick_highest_witness :
  exists t, tasks (sched after_tick) !! 2%nat = Some t /\ rsp t = 4128 /\
    stack_base t + 8 <= 4128 <= stack_base t + stack_size t /\
    memory after_tick !! stack_base t = Some (stack_canary t) /\
    (Z.testbit (ready_bitmap (sched sample)) 2 = true \/
     (ready_bitmap (sched sample) = 0 /\ 2 = 15)) /\
    forall i, i < 2 -> Z.testbit (ready_bitmap (sched sample)) i = false.
Proof.
  apply (sched_tick_highest 8216 4128 sample after_tick 7 sample_wf);
    [reflexivity | vm_compute; reflexivity | discriminate].
Defined.

(** Task 5 overwrites its own canary. *)
Definition corrupted : world := set_memory (<[8192 := 0]> (memory sample)) sample.

Lemma corrupted_wf : wf corrupted.
Proof.
  destruct (wf_run_op (StackWrite 8192 0) sample 7 sample_wf eq_refl) as (w' & E & Hw & _).
  - by exists 187.
  - vm_compute in E. injection E as <-. exact Hw.
Qed.

Lemma sched_tick_fault_closed_witness : schedule_tick 8216 corrupted = Done 0 corrupted.
Proof.
  refine (proj1 (sched_tick_fault_closed 8216 corrupted 7
    (MkTcb 1 8192 64 8224 5 187) corrupted_wf eq_refl _) _ _ (or_intror _));
    [vm_compute; reflexivity | discriminate | discriminate | vm_compute; discriminate].
Defined.

(** The first window ends with a pet. In the second, task 5 checks in but task 2
    does not at first, so its tick does not pet; the tick after task 2 does. *)
Definition first_window : list op := [OpCheckIn 5; OpTick 8216; OpCheckIn 2].
Definition second_window : list op := [OpCheckIn 5; OpTick 4120; OpCheckIn 2].

Definition at_ (os : list op) : world :=
  match run_ops os sample with Done _ w => w | _ => sample end.

Definition after_pet : world := at_ (first_window ++ [OpTick 4120]).
Definition ready_to_pet : world := at_ ((first_window ++ [OpTick 4120]) ++ second_window).
Definition petted_again : world :=
  match schedule_tick 4120 ready_to_pet with Done _ w => w | _ => sample end.

Lemma windows_ok : Forall (op_ok sample) ((first_window ++ [OpTick 4120]) ++ second_window).
Proof. by repeat constructor. Qed.

Lemma second_window_opens : window_opens sample (first_window ++ [OpTick 4120]) after_pet.
Proof.
  eapply (opens_pet sample first_window (OpTick 4120) (at_ first_window));
    [vm_compute; reflexivity|vm_compute; reflexivity|vm_compute; discriminate].
Qed.

Lemma sched_watchdog_window_witness :
  trace (host after_pet) = [EvPetWatchdog 7] /\
  trace (host ready_to_pet) = [EvPetWatchdog 7] /\
  trace (host petted_again) = [EvPetWatchdog 7] ++ [EvPetWatchdog 7] /\
  (OpCheckIn 2 ∈ second_window) /\ (OpCheckIn 5 ∈ second_window).
Proof.
  destruct (sched_watchdog_window (first_window ++ [OpTick 4120]) second_window 4120 4120
    sample after_pet ready_to_pet petted_again 7 sample_wf eq_refl windows_ok second_window_opens)
    as [Hpet _]; [vm_compute; reflexivity|vm_compute; reflexivity|].
  destruct Hpet as (Htr & _ & Hin); [vm_compute; discriminate|].
  split; [vm_compute; reflexivity|]. split; [vm_compute; reflexivity|]. split; [exact Htr|].
  split; apply Hin; [lia|vm_compute; reflexivity|lia|vm_compute; reflexivity].
Defined.

Lemma sched_create_exact_witness :
  create_task (new_task 9 4096 64 4104 3) 7 boot_world =
    Done (Ok tt) (install (new_task 9 4096 64 4104 3) 7 boot_world).
Proof.
  apply (proj2 (sched_create_exact (new_task 9 4096 64 4104 3) 7 boot_world (wf_new _ _)
    ltac:(done) ltac:(by eexists))).
  split_and!; try done. by intros old [= <-].
Defined.

Lemma sched_preempt_resume_witness :
  exists w1 w2 w3,
    schedule_tick 8216 sample = Done 4128 w1 /\ current_task (sched w1) = 2 /\
    clear_ready 2 w1 = Done tt w2 /\
    schedule_tick 4136 w2 = Done 8216 w3 /\ current_task (sched w3) = 5.
Proof.
  apply (sched_preempt_resume 5 2 8216 4136 sample 7
    (MkTcb 1 8192 64 8224 5 187) (MkTcb 1 4096 64 4128 2 170) sample_wf);
    by vm_compute.
Defined.

End Sched.
