(* ===== verification/DmaPool.v ===== *)
(** static_dma_pool.rs: the ABA-tagged free list with per-slot ownership words.

    [StaticDmaPool] is the source's struct; [region] holds the bytes of the
    host's DMA buffer, at the address stored in [memory]. A byte access outside
    it is undefined behaviour, and a slice index out of range panics
    ([Halted]). [compare_exchange_weak] may fail although the value matches: the
    operations take the outcomes of their attempts from a list of booleans
    ([true]: this attempt fails spuriously), and loop at most [fuel] times; the
    theorems show that one attempt more than the spurious failures is enough.
    DmaConc.v interleaves concurrent callers. *)

From S2P Require Import Prelude RtosHost.
Local Open Scope Z_scope.

Module Dma.

Definition FREE_LIST_EMPTY : Z := u32_max.
Definition OWNERSHIP_ALLOCATED_BIT : Z := shl 64 1 63.
Definition OWNERSHIP_GENERATION_MASK : Z := OWNERSHIP_ALLOCATED_BIT - 1.

Record StaticDmaPool : Type := MkPool {
  memory : Z;
  free_list_head : Z;
  next : list Z;
  ownership : list Z;
  is_initialized : bool;
  is_initializing : bool
}.

Record world : Type := MkWorld {
  pool : StaticDmaPool;
  region : list byte;
  host : Host
}.

Definition set_pool (p : StaticDmaPool) (w : world) : world := MkWorld p (region w) (host w).
Definition set_region (r : list byte) (w : world) : world := MkWorld (pool w) r (host w).
Definition set_host (h : Host) (w : world) : world := MkWorld (pool w) (region w) h.

Definition store_memory (v : Z) (p : StaticDmaPool) : StaticDmaPool :=
  MkPool v (free_list_head p) (next p) (ownership p) (is_initialized p) (is_initializing p).
Definition store_head (v : Z) (p : StaticDmaPool) : StaticDmaPool :=
  MkPool (memory p) v (next p) (ownership p) (is_initialized p) (is_initializing p).
Definition store_next (v : list Z) (p : StaticDmaPool) : StaticDmaPool :=
  MkPool (memory p) (free_list_head p) v (ownership p) (is_initialized p) (is_initializing p).
Definition store_ownership (v : list Z) (p : StaticDmaPool) : StaticDmaPool :=
  MkPool (memory p) (free_list_head p) (next p) v (is_initialized p) (is_initializing p).
Definition store_initialized (v : bool) (p : StaticDmaPool) : StaticDmaPool :=
  MkPool (memory p) (free_list_head p) (next p) (ownership p) v (is_initializing p).
Definition store_initializing (v : bool) (p : StaticDmaPool) : StaticDmaPool :=
  MkPool (memory p) (free_list_head p) (next p) (ownership p) (is_initialized p) v.

Definition pack_head (index generation : Z) : Z := Z.lor (shl 64 generation 32) index.
Definition unpack_head (value : Z) : Z * Z := (cast 32 value, cast 32 (Z.shiftr value 32)).

(** Size and alignment of the element type [T]. *)
Class Layout : Type := {
  size_of : Z;
  align_of : Z
}.

Section ops.
Context `{Layout}.
Variables N BITMAP_WORDS : Z.

(** The compile-time assertions of [StaticDmaPool::new]. *)
Definition valid_pool_size : bool := (0 <? N) && (N <=? u32_max).

Definition new : StaticDmaPool :=
  MkPool 0 (pack_head 0 0) (replicate (Z.to_nat N) FREE_LIST_EMPTY)
    (replicate (Z.to_nat N) 0) false false.

(** * Accesses *)

Definition on_pool (f : StaticDmaPool -> StaticDmaPool) : M world unit :=
  modify (fun w => set_pool (f (pool w)) w).

(** [self.next[i].load()] and [self.ownership[i].load()] *)
Definition load_next (i : Z) : M world Z :=
  w ← get; match next (pool w) !! Z.to_nat i with Some v => mret v | None => halt end.
Definition load_ownership (i : Z) : M world Z :=
  w ← get; match ownership (pool w) !! Z.to_nat i with Some v => mret v | None => halt end.

Definition write_next (i v : Z) : M world unit :=
  load_next i ;; on_pool (fun p => store_next (<[Z.to_nat i := v]> (next p)) p).
Definition write_ownership (i v : Z) : M world unit :=
  load_ownership i ;; on_pool (fun p => store_ownership (<[Z.to_nat i := v]> (ownership p)) p).

(** [compare_exchange] on an ownership word: did it succeed? *)
Definition cas_ownership (i expected v : Z) : M world bool :=
  current ← load_ownership i;
  if current =? expected then write_ownership i v ;; mret true else mret false.

(** [compare_exchange_weak] on the head: [None] on success, otherwise the value
    that was found. *)
Definition cas_head_weak (spurious : bool) (observed replacement : Z) : M world (option Z) :=
  w ← get;
  let current := free_list_head (pool w) in
  if negb spurious && (current =? observed)
  then on_pool (store_head replacement) ;; mret None
  else mret (Some current).

(** Volatile byte store at address [addr]. *)
Definition write_byte (addr : Z) (b : byte) : M world unit :=
  w ← get;
  let i := addr - memory (pool w) in
  if (0 <=? i) && bool_decide (is_Some (region w !! Z.to_nat i))
  then put (set_region (<[Z.to_nat i := b]> (region w)) w)
  else undefined.

(** Volatile 64-bit store of zero: eight zero bytes, at an aligned address. *)
Definition write_zero_word (addr : Z) : M world unit :=
  if is_multiple_of addr 8
  then for_range 0 8 (fun k => write_byte (addr + Z.of_nat k) x00)
  else undefined.

(** * Operations *)

Definition init (base_ptr size_in_bytes : Z) : M world (result unit AllocatorError) :=
  if size_of =? 0 then mret (Err AllocAddressOutOfBounds) else
  if base_ptr =? 0 then mret (Err AllocAddressOutOfBounds) else
  match checked_mul 64 N size_of with
  | None => mret (Err AllocAddressOutOfBounds)
  | Some required_size =>
    if (size_in_bytes <? required_size) ||
       match checked_add 64 base_ptr required_size with None => true | Some _ => false end
    then mret (Err AllocAddressOutOfBounds) else
    if negb (is_multiple_of base_ptr 4096) || negb (is_multiple_of base_ptr align_of)
    then mret (Err AllocInvalidAlignment) else
    let required_bitmap_words := div_ceil N 64 in
    if negb (BITMAP_WORDS =? required_bitmap_words) then mret (Err AllocAddressOutOfBounds) else
    w ← get;
    if is_initialized (pool w) || is_initializing (pool w)
    then mret (Err AllocAlreadyInitialized) else
    on_pool (store_initializing true) ;;
    on_pool (store_memory base_ptr) ;;
    for_range 0 (Z.to_nat N) (fun index =>
      let index := Z.of_nat index in
      let next_index := if index + 1 <? N then index + 1 else FREE_LIST_EMPTY in
      write_next index next_index ;;
      write_ownership index 0) ;;
    on_pool (store_head (pack_head 0 0)) ;;
    on_pool (store_initialized true) ;;
    on_pool (store_initializing false) ;;
    mret (Ok tt)
  end.

(** What [allocate] does once it has taken [slot] off the free list. With
    [debug], the debug assertion is compiled in. *)
Definition claim (debug : bool) (base_ptr slot : Z)
  : M world (result (Z * Z * Z) AllocatorError) :=
  observed_state ← load_ownership slot;
  if debug && negb (Z.land observed_state OWNERSHIP_ALLOCATED_BIT =? 0) then halt else
  let next_generation :=
    Z.land (wrapping_add 64 (Z.land observed_state OWNERSHIP_GENERATION_MASK) 1)
      OWNERSHIP_GENERATION_MASK in
  let claimed_state := Z.lor OWNERSHIP_ALLOCATED_BIT next_generation in
  ok ← cas_ownership slot observed_state claimed_state;
  if negb ok then mret (Err AllocDoubleFree) else
  let token := next_generation in
  let pointer := base_ptr + slot * size_of in
  mret (Ok (slot, token, pointer)).

Fixpoint allocate_loop (debug : bool) (fuel : nat) (spurious : list bool) (base_ptr observed : Z)
  : M world (result (Z * Z * Z) AllocatorError) :=
  match fuel with
  | O => halt
  | S fuel' =>
    let '(index, generation) := unpack_head observed in
    if index =? FREE_LIST_EMPTY then mret (Err AllocOutOfMemory) else
    n ← load_next index;
    let next_index := cast 32 n in
    let replacement := pack_head next_index (wrapping_add 32 generation 1) in
    r ← cas_head_weak (default false (list.head spurious)) observed replacement;
    match r with
    | None => claim debug base_ptr index
    | Some current => allocate_loop debug fuel' (list.tail spurious) base_ptr current
    end
  end.

Definition allocate (debug : bool) (fuel : nat) (spurious : list bool)
  : M world (result (Z * Z * Z) AllocatorError) :=
  w ← get;
  if negb (is_initialized (pool w)) then mret (Err AllocNotInitialized) else
  let base_ptr := memory (pool w) in
  let observed := free_list_head (pool w) in
  allocate_loop debug fuel spurious base_ptr observed.

(** The three wiping loops of [free], by the loop's remaining bound. *)
Fixpoint wipe_prefix (fuel : nat) (pointer length offset : Z) : M world Z :=
  match fuel with
  | O => mret offset
  | S fuel' =>
    if (offset <? length) && negb (Z.land (pointer + offset) (8 - 1) =? 0)
    then write_byte (pointer + offset) x00 ;; wipe_prefix fuel' pointer length (offset + 1)
    else mret offset
  end.

Fixpoint wipe_words (fuel : nat) (pointer length offset : Z) : M world Z :=
  match fuel with
  | O => mret offset
  | S fuel' =>
    if offset + 8 <=? length
    then write_zero_word (pointer + offset) ;; wipe_words fuel' pointer length (offset + 8)
    else mret offset
  end.

Fixpoint wipe_tail (fuel : nat) (pointer length offset : Z) : M world Z :=
  match fuel with
  | O => mret offset
  | S fuel' =>
    if offset <? length
    then write_byte (pointer + offset) x00 ;; wipe_tail fuel' pointer length (offset + 1)
    else mret offset
  end.

(** Every iteration advances [offset] by at least one, so [length] bounds them. *)
Definition wipe (pointer length : Z) : M world unit :=
  offset ← wipe_prefix (Z.to_nat length) pointer length 0;
  offset ← wipe_words (Z.to_nat length) pointer length offset;
  wipe_tail (Z.to_nat length) pointer length offset ;;
  mret tt.

Fixpoint free_loop (fuel : nat) (spurious : list bool) (buffer_idx observed : Z)
  : M world (result unit AllocatorError) :=
  match fuel with
  | O => halt
  | S fuel' =>
    let '(_, head_generation) := unpack_head observed in
    write_next buffer_idx (cast 32 observed) ;;
    let replacement := pack_head (cast 32 buffer_idx) (wrapping_add 32 head_generation 1) in
    r ← cas_head_weak (default false (list.head spurious)) observed replacement;
    match r with
    | None => mret (Ok tt)
    | Some current => free_loop fuel' (list.tail spurious) buffer_idx current
    end
  end.

Definition free (fuel : nat) (spurious : list bool) (buffer_idx generation : Z)
  : M world (result unit AllocatorError) :=
  w ← get;
  if negb (is_initialized (pool w)) then mret (Err AllocNotInitialized) else
  if N <=? buffer_idx then mret (Err AllocAddressOutOfBounds) else
  if OWNERSHIP_GENERATION_MASK <? generation then mret (Err AllocDoubleFree) else
  let expected_state := Z.lor OWNERSHIP_ALLOCATED_BIT generation in
  ok ← cas_ownership buffer_idx expected_state generation;
  if negb ok then mret (Err AllocDoubleFree) else
  w ← get;
  let base_ptr := memory (pool w) in
  let pointer := base_ptr + buffer_idx * size_of in
  let length := size_of in
  wipe pointer length ;;
  zoom host set_host (host_cache_flush pointer length) ;;
  w ← get;
  let observed := free_list_head (pool w) in
  free_loop fuel spurious buffer_idx observed.

End ops.

(** * Words *)

Lemma allocated_bit : OWNERSHIP_ALLOCATED_BIT = 2 ^ 63.
Proof. reflexivity. Qed.

Lemma land_generation (x : Z) : Z.land x OWNERSHIP_GENERATION_MASK = x mod 2 ^ 63.
Proof. unfold OWNERSHIP_GENERATION_MASK. rewrite allocated_bit, Z.sub_1_r. by apply (Z.land_ones x 63). Qed.

Lemma lor_allocated (g : Z) : in_width 63 g -> Z.lor OWNERSHIP_ALLOCATED_BIT g = 2 ^ 63 + g.
Proof. intros Hg. apply (lor_high_low 63 g 1); [lia|done]. Qed.

Lemma land_allocated (g : Z) : in_width 63 g -> Z.land g OWNERSHIP_ALLOCATED_BIT = 0.
Proof.
  intros Hg. rewrite allocated_bit. apply Z.bits_inj'. intros i Hi.
  rewrite Z.land_spec, Z.testbit_0_l, Z.pow2_bits_eqb by lia.
  destruct (Z.eqb_spec 63 i) as [<-|]; [|by rewrite andb_false_r].
  by rewrite (testbit_high 63).
Qed.

Lemma pack_head_val (i g : Z) : in_width 32 i -> in_width 32 g -> pack_head i g = g * 2 ^ 32 + i.
Proof.
  unfold in_width. intros Hi Hg. unfold pack_head, shl.
  rewrite Z.mod_small; [by apply lor_high_low|]. rewrite Z.shiftl_mul_pow2 by lia. lia.
Qed.

(** Packing a free-list head loses nothing. *)
Lemma unpack_pack (i g : Z) :
  in_width 32 i -> in_width 32 g -> unpack_head (pack_head i g) = (i, g).
Proof.
  intros Hi Hg. rewrite pack_head_val by done. unfold unpack_head, cast, in_width in *. f_equal.
  - rewrite Z.add_comm, Z_mod_plus_full. by apply Z.mod_small.
  - rewrite Z.shiftr_div_pow2 by lia.
    rewrite Z.div_add_l, (Z.div_small i), Z.add_0_r by lia. by apply Z.mod_small.
Qed.

Lemma cast_pack (i g : Z) : in_width 32 i -> in_width 32 g -> cast 32 (pack_head i g) = i.
Proof. intros Hi Hg. pose proof (unpack_pack i g Hi Hg) as E. by injection E. Qed.

Lemma cast_small (w x : Z) : in_width w x -> cast w x = x.
Proof. intros. by apply Z.mod_small. Qed.

(** * Wiping *)

(** [r] with the [n] bytes from [s] on cleared. *)
Definition wiped (s n : nat) (r : list byte) : list byte := take s r ++ zeros n ++ drop (s + n) r.

Lemma wiped_0 (s : nat) (r : list byte) : wiped s 0 r = r.
Proof. unfold wiped. cbn. by rewrite Nat.add_0_r, take_drop. Qed.

Lemma length_wiped (s n : nat) (r : list byte) :
  (s + n <= length r)%nat -> length (wiped s n r) = length r.
Proof.
  intros. unfold wiped. rewrite !length_app, length_zeros, length_take, length_drop. lia.
Qed.

Lemma slice_wiped (s n : nat) (r : list byte) :
  (s + n <= length r)%nat -> slice s (s + n) (wiped s n r) = zeros n.
Proof.
  intros. unfold slice, wiped. rewrite drop_app_length' by (rewrite length_take; lia).
  rewrite take_app_length' by (rewrite length_zeros; lia). done.
Qed.

Lemma wiped_step (s n : nat) (r : list byte) :
  (s + n < length r)%nat -> <[(s + n)%nat := x00]> (wiped s n r) = wiped s (S n) r.
Proof.
  intros Hlt. unfold wiped.
  rewrite insert_app_r_alt by (rewrite length_take; lia).
  rewrite length_take. replace (s + n - s `min` length r)%nat with n by lia.
  rewrite insert_app_r_alt by (rewrite length_zeros; lia).
  rewrite length_zeros, Nat.sub_diag.
  destruct (drop (s + n) r) as [|b l] eqn:E.
  { apply (f_equal length) in E. rewrite length_drop in E. cbn in E. lia. }
  cbn [insert list_insert]. unfold zeros. rewrite replicate_S_end, <- app_assoc. cbn.
  replace (drop (s + S n) r) with l; [done|].
  replace (s + S n)%nat with (S (s + n)) by lia.
  by rewrite <- Nat.add_1_r, <- drop_drop, E.
Qed.

Section wiping.
Variables (w : world) (s : nat).
Let at_ (n : nat) : world := set_region (wiped s n (region w)) w.
Let pointer : Z := memory (pool w) + Z.of_nat s.

Lemma write_zero_run (n : nat) :
  (s + n < length (region w))%nat ->
  write_byte (pointer + Z.of_nat n) x00 (at_ n) = Done tt (at_ (S n)).
Proof.
  intros Hlt. unfold write_byte. msimpl. change (pool (at_ n)) with (pool w). unfold pointer.
  replace (memory (pool w) + Z.of_nat s + Z.of_nat n - memory (pool w)) with (Z.of_nat (s + n)) by lia.
  rewrite (proj2 (Z.leb_le 0 _)), Nat2Z.id by lia. cbn [andb].
  change (region (at_ n)) with (wiped s n (region w)).
  rewrite bool_decide_true by (apply lookup_lt_is_Some_2; rewrite length_wiped; lia).
  by rewrite wiped_step.
Qed.

Lemma write_zero_word_run (n : nat) :
  (s + n + 8 <= length (region w))%nat -> (pointer + Z.of_nat n) mod 8 = 0 ->
  write_zero_word (pointer + Z.of_nat n) (at_ n) = Done tt (at_ (n + 8)).
Proof.
  intros Hlt Hal. unfold write_zero_word, is_multiple_of. rewrite Hal. cbn [Z.eqb].
  destruct (for_range_inv (fun k w' => w' = at_ (n + k))
    (fun k => write_byte (pointer + Z.of_nat n + Z.of_nat k) x00) 0 8 (at_ n)) as (w' & E & ->).
  - intros k w' Hk ->. exists (at_ (n + S k)). split; [|done].
    replace (pointer + Z.of_nat n + Z.of_nat k) with (pointer + Z.of_nat (n + k)) by lia.
    rewrite write_zero_run by lia. by rewrite Nat.add_succ_r.
  - by rewrite Nat.add_0_r.
  - exact E.
Qed.

Variable len : nat.
Hypothesis fits : (s + len <= length (region w))%nat.

Lemma wipe_prefix_run (fuel n : nat) :
  (n <= len)%nat -> (len - n <= fuel)%nat ->
  exists n', (n <= n' <= len)%nat /\ (n' = len \/ (pointer + Z.of_nat n') mod 8 = 0) /\
    wipe_prefix fuel pointer (Z.of_nat len) (Z.of_nat n) (at_ n) = Done (Z.of_nat n') (at_ n').
Proof.
  revert n. induction fuel as [|fuel IH]; intros n Hn Hf; cbn [wipe_prefix].
  { exists n. split_and!; [lia|lia|left; lia|done]. }
  destruct (Z.ltb_spec (Z.of_nat n) (Z.of_nat len)); cbn [andb].
  2:{ exists n. split_and!; [lia|lia|left; lia|done]. }
  rewrite (Z.land_ones _ 3) by lia. change (2 ^ 3) with 8.
  destruct (Z.eqb_spec ((pointer + Z.of_nat n) mod 8) 0); cbn [negb].
  { exists n. split_and!; [lia|lia|by right|done]. }
  msimpl. rewrite write_zero_run by lia.
  replace (Z.of_nat n + 1) with (Z.of_nat (S n)) by lia.
  destruct (IH (S n)) as (n' & Hn' & Ha & E); [lia|lia|]. exists n'. split_and!; [lia|lia|done|done].
Qed.

Lemma wipe_words_run (fuel n : nat) :
  (n <= len)%nat -> n = len \/ (pointer + Z.of_nat n) mod 8 = 0 ->
  exists n', (n <= n' <= len)%nat /\
    wipe_words fuel pointer (Z.of_nat len) (Z.of_nat n) (at_ n) = Done (Z.of_nat n') (at_ n').
Proof.
  revert n. induction fuel as [|fuel IH]; intros n Hn Ha; cbn [wipe_words]; [by exists n|].
  destruct (Z.leb_spec (Z.of_nat n + 8) (Z.of_nat len)); [|by exists n].
  destruct Ha as [->|Ha]; [lia|].
  msimpl. rewrite write_zero_word_run by (lia || done).
  replace (Z.of_nat n + 8) with (Z.of_nat (n + 8)) by lia.
  destruct (IH (n + 8)%nat) as (n' & Hn' & E); [lia| |exists n'; split; [lia|done]].
  right. rewrite Nat2Z.inj_add, Z.add_assoc. change (Z.of_nat 8) with (1 * 8). by rewrite Z_mod_plus_full.
Qed.

Lemma wipe_tail_run (fuel n : nat) :
  (n <= len)%nat -> (len - n <= fuel)%nat ->
  wipe_tail fuel pointer (Z.of_nat len) (Z.of_nat n) (at_ n) = Done (Z.of_nat len) (at_ len).
Proof.
  revert n. induction fuel as [|fuel IH]; intros n Hn Hf; cbn [wipe_tail].
  - by replace n with len by lia.
  - destruct (Z.ltb_spec (Z.of_nat n) (Z.of_nat len)); [|by replace n with len by lia].
    msimpl. rewrite write_zero_run by lia.
    replace (Z.of_nat n + 1) with (Z.of_nat (S n)) by lia. apply IH; lia.
Qed.

(** The three loops together clear exactly the [len] bytes of the slot. *)
Lemma wipe_run : wipe pointer (Z.of_nat len) w = Done tt (at_ len).
Proof.
  unfold wipe. msimpl. rewrite Nat2Z.id.
  assert (E0 : w = at_ 0) by (unfold at_; rewrite wiped_0; by destruct w).
  destruct (wipe_prefix_run len 0) as (n1 & Hn1 & Ha & E1); [lia|lia|].
  destruct (wipe_words_run len n1) as (n2 & Hn2 & E2); [lia|done|].
  rewrite E0 at 1. change 0 with (Z.of_nat 0). rewrite E1, E2, wipe_tail_run by lia. done.
Qed.

End wiping.

(** * Abstract pool

    What the pool promises: a stack of free slots and, per slot, the generation
    of its latest allocation. *)

Record spec : Type := MkSpec {
  s_free : list Z;
  s_gens : list Z
}.

Definition gen (s : spec) (i : Z) : Z := s_gens s !!! Z.to_nat i.

Definition spec_alloc (s : spec) : result (Z * Z) AllocatorError * spec :=
  match s_free s with
  | [] => (Err AllocOutOfMemory, s)
  | i :: l =>
      let g := (gen s i + 1) mod 2 ^ 63 in
      (Ok (i, g), MkSpec l (<[Z.to_nat i := g]> (s_gens s)))
  end.

(** Does [(i, g)] name the current owner of slot [i]? *)
Definition live (s : spec) (i g : Z) : Prop := (i ∉ s_free s) /\ gen s i = g.

#[export] Instance live_dec s i g : Decision (live s i g).
Proof. unfold live. apply _. Defined.

Definition spec_free (N : Z) (s : spec) (i g : Z) : result unit AllocatorError * spec :=
  if N <=? i then (Err AllocAddressOutOfBounds, s)
  else if decide (live s i g) then (Ok tt, MkSpec (i :: s_free s) (s_gens s))
  else (Err AllocDoubleFree, s).

(** * Representation *)

Section refinement.
Context `{Layout}.
Variable N : Z.
Hypothesis N_ok : 0 < N <= u32_max.
Hypothesis size_ok : 0 < size_of.

(** Following [next] from index [h] visits [l] and then the end marker. *)
Fixpoint chain (nx : list Z) (h : Z) (l : list Z) : Prop :=
  match l with
  | [] => h = FREE_LIST_EMPTY
  | i :: l' => h = i /\ exists n, nx !! Z.to_nat i = Some n /\ in_width 32 n /\ chain nx n l'
  end.

Definition slot_word (s : spec) (i : Z) : Z :=
  (if decide (i ∈ s_free s) then 0 else 2 ^ 63) + gen s i.

Record pool_repr (w : world) (s : spec) : Prop := {
  pr_init : is_initialized (pool w) = true;
  pr_next : length (next (pool w)) = Z.to_nat N;
  pr_own : length (ownership (pool w)) = Z.to_nat N;
  pr_gens : length (s_gens s) = Z.to_nat N;
  pr_region : zlen (region w) = N * size_of;
  pr_head : exists h tag, in_width 32 h /\ in_width 32 tag /\
    free_list_head (pool w) = pack_head h tag /\ chain (next (pool w)) h (s_free s);
  pr_free : NoDup (s_free s) /\ Forall (fun i => 0 <= i < N) (s_free s);
  pr_words : forall i, 0 <= i < N -> in_width 63 (gen s i) /\
    ownership (pool w) !! Z.to_nat i = Some (slot_word s i);
  pr_flush : is_Some (CACHE_FLUSH_CB (host w))
}.

Lemma chain_insert (nx : list Z) (h v : Z) (i : Z) (l : list Z) :
  0 <= i -> Forall (fun i => 0 <= i < N) l -> i ∉ l ->
  chain nx h l -> chain (<[Z.to_nat i := v]> nx) h l.
Proof.
  intros Hi Hl. revert h. induction Hl as [|j l Hj Hl IH]; intros h Hni; cbn [chain]; [done|].
  apply not_elem_of_cons in Hni as [Hne Hni].
  intros (-> & n & Hn & Hw & Hc). split; [done|]. exists n.
  rewrite list_lookup_insert_ne by lia. auto.
Qed.

Lemma index_width (i : Z) : 0 <= i < N -> in_width 32 i.
Proof. unfold in_width, u32_max in *. lia. Qed.

Lemma empty_width : in_width 32 FREE_LIST_EMPTY.
Proof. done. Qed.

Lemma index_not_empty (i : Z) : 0 <= i < N -> (i =? FREE_LIST_EMPTY) = false.
Proof. intros. apply Z.eqb_neq. unfold FREE_LIST_EMPTY. lia. Qed.

Lemma gen_insert (s : spec) (l : list Z) (i j g : Z) :
  0 <= i < N -> 0 <= j -> length (s_gens s) = Z.to_nat N ->
  gen (MkSpec l (<[Z.to_nat i := g]> (s_gens s))) j = if decide (i = j) then g else gen s j.
Proof.
  intros Hi Hj Hl. unfold gen. cbn. case_decide as E.
  - subst j. rewrite list_lookup_total_insert_eq by lia. done.
  - by rewrite list_lookup_total_insert_ne by lia.
Qed.

(** ** Running the pieces *)

Lemma load_ownership_run (w : world) (i v : Z) :
  ownership (pool w) !! Z.to_nat i = Some v -> load_ownership i w = Done v w.
Proof. intros E. unfold load_ownership. msimpl. by rewrite E. Qed.

Lemma cas_ownership_run (w : world) (i cur expected v : Z) :
  ownership (pool w) !! Z.to_nat i = Some cur ->
  cas_ownership i expected v w =
    if cur =? expected
    then Done true (set_pool (store_ownership (<[Z.to_nat i := v]> (ownership (pool w))) (pool w)) w)
    else Done false w.
Proof.
  intros E. unfold cas_ownership. msimpl. rewrite (load_ownership_run w i cur E).
  destruct (cur =? expected); [|done].
  unfold write_ownership, on_pool. msimpl. by rewrite (load_ownership_run w i cur E).
Qed.

(** However often the weak exchange fails spuriously, the loop takes the head
    off once it stops failing. *)
Lemma allocate_loop_run (debug : bool) (fuel : nat) (spurious : list bool) (base i n tag : Z) (w : world) :
  (length spurious < fuel)%nat -> 0 <= i < N -> in_width 32 tag ->
  free_list_head (pool w) = pack_head i tag ->
  next (pool w) !! Z.to_nat i = Some n -> in_width 32 n ->
  allocate_loop debug fuel spurious base (pack_head i tag) w =
    claim debug base i (set_pool (store_head (pack_head n (wrapping_add 32 tag 1)) (pool w)) w).
Proof.
  intros Hf Hi Htag Hh Hn Hnw. revert spurious Hf.
  induction fuel as [|fuel IH]; intros spurious Hf; [lia|]. cbn [allocate_loop].
  rewrite unpack_pack by (done || by apply index_width). rewrite index_not_empty by done.
  unfold load_next, cas_head_weak, on_pool. msimpl. rewrite Hn, (cast_small 32 n Hnw), Hh, Z.eqb_refl.
  destruct spurious as [|[] sp]; cbn; [done| |done].
  apply IH. cbn in Hf. lia.
Qed.

Lemma claim_run (debug : bool) (base i g : Z) (w : world) :
  in_width 63 g -> ownership (pool w) !! Z.to_nat i = Some g ->
  let g' := (g + 1) mod 2 ^ 63 in
  claim debug base i w =
    Done (Ok (i, g', base + i * size_of))
      (set_pool (store_ownership (<[Z.to_nat i := 2 ^ 63 + g']> (ownership (pool w))) (pool w)) w).
Proof.
  intros Hg Ho g'. unfold claim. msimpl. rewrite (load_ownership_run w i g Ho), land_allocated by done.
  rewrite Z.eqb_refl, andb_false_r, !land_generation.
  unfold in_width in Hg. rewrite (Z.mod_small g) by lia.
  unfold wrapping_add. rewrite (Z.mod_small (g + 1) (2 ^ 64)) by lia. fold g'.
  assert (Hg' : in_width 63 g') by (apply Z.mod_pos_bound; lia).
  rewrite (cas_ownership_run w i g), Z.eqb_refl, lor_allocated by done. done.
Qed.

Lemma slot_word_free (s : spec) (i : Z) : i ∈ s_free s -> slot_word s i = gen s i.
Proof. intros Hi. unfold slot_word. rewrite decide_True by done. lia. Qed.

Lemma slot_word_live (s : spec) (i : Z) : i ∉ s_free s -> slot_word s i = 2 ^ 63 + gen s i.
Proof. intros Hi. unfold slot_word. by rewrite decide_False by done. Qed.

(** ** The operations refine the abstract pool *)

Lemma allocate_empty (debug : bool) (fuel : nat) (spurious : list bool) (w : world) (s : spec) :
  pool_repr w s -> s_free s = [] -> (0 < fuel)%nat ->
  allocate debug fuel spurious w = Done (Err AllocOutOfMemory) w.
Proof.
  intros [Hi _ _ _ _ (h & tag & Hh & Htag & Ehd & Hc) _ _ _] Hf Hfuel.
  rewrite Hf in Hc. cbn in Hc. subst h.
  unfold allocate. msimpl. rewrite Hi, Ehd. cbn [negb]. destruct fuel; [lia|]. cbn [allocate_loop].
  by rewrite unpack_pack, Z.eqb_refl by done.
Qed.

Lemma allocate_item (debug : bool) (fuel : nat) (spurious : list bool) (w : world) (s : spec) (i : Z) (l : list Z) :
  pool_repr w s -> s_free s = i :: l -> (length spurious < fuel)%nat ->
  let g := (gen s i + 1) mod 2 ^ 63 in
  exists w', allocate debug fuel spurious w =
      Done (Ok (i, g, memory (pool w) + i * size_of)) w' /\
    pool_repr w' (MkSpec l (<[Z.to_nat i := g]> (s_gens s))) /\
    region w' = region w /\ host w' = host w /\ memory (pool w') = memory (pool w).
Proof.
  intros [Hi Hln Hlo Hlg Hreg (h & tag & Hh & Htag & Ehd & Hc) [Hnd Hall] Hw Hfl] Hf Hfuel g.
  rewrite Hf in *. cbn in Hc. destruct Hc as (-> & n & Hn & Hnw & Hc).
  apply NoDup_cons in Hnd as [Hni Hnd]. apply Forall_cons in Hall as [Hir Hall].
  destruct (Hw i Hir) as [Hgw Ho]. rewrite slot_word_free in Ho by (rewrite Hf; left).
  assert (Hg' : in_width 63 g) by (apply Z.mod_pos_bound; lia).
  unfold allocate. msimpl. rewrite Hi, Ehd. cbn [negb].
  rewrite (allocate_loop_run _ _ _ _ i n tag) by done.
  rewrite (claim_run debug _ i (gen s i)) by done. fold g.
  eexists. split; [done|]. split_and!; [|done|done|done].
  split; cbn; try done.
  - by rewrite length_insert.
  - by rewrite length_insert.
  - exists n, (wrapping_add 32 tag 1). split_and!; [done|apply wrapping_add_range; lia|done|done].
  - intros j Hj. rewrite gen_insert by (done || lia). unfold slot_word. cbn.
    destruct (Hw j Hj) as [Hjw Hjo]. rewrite gen_insert by (done || lia).
    destruct (decide (i = j)) as [<-|Hne].
    + split; [done|]. rewrite list_lookup_insert_eq by lia. by rewrite decide_False.
    + split; [done|]. rewrite list_lookup_insert_ne by lia. rewrite Hjo. unfold slot_word. rewrite Hf.
      destruct (decide (j ∈ l)), (decide (j ∈ i :: l)); try done; exfalso; set_solver.
Qed.

Lemma free_loop_run (fuel : nat) (spurious : list bool) (i h tag : Z) (w : world) :
  (length spurious < fuel)%nat -> 0 <= i < N -> in_width 32 h -> in_width 32 tag ->
  free_list_head (pool w) = pack_head h tag -> length (next (pool w)) = Z.to_nat N ->
  free_loop fuel spurious i (pack_head h tag) w =
    Done (Ok tt)
      (set_pool (store_head (pack_head i (wrapping_add 32 tag 1))
                   (store_next (<[Z.to_nat i := h]> (next (pool w))) (pool w))) w).
Proof.
  intros Hf Hi Hh Htag. revert w spurious Hf.
  induction fuel as [|fuel IH]; intros w spurious Hf Ehd Hl; [lia|]. cbn [free_loop].
  rewrite unpack_pack, cast_pack by done. rewrite (cast_small 32 i) by (by apply index_width).
  destruct (lookup_lt_is_Some_2 (next (pool w)) (Z.to_nat i)) as [v Hv]; [lia|].
  unfold write_next, load_next, cas_head_weak, on_pool. msimpl. rewrite Hv. cbn.
  rewrite Ehd, Z.eqb_refl. destruct spurious as [|[] sp]; cbn; [done| |done].
  rewrite IH; cbn; [|cbn in Hf; lia|done|by rewrite length_insert].
  by rewrite list_insert_insert_eq.
Qed.

Lemma free_stale (fuel : nat) (spurious : list bool) (w : world) (s : spec) (i g : Z) :
  pool_repr w s -> 0 <= i -> in_width 64 g -> (spec_free N s i g).1 <> Ok tt ->
  free N fuel spurious i g w = Done (spec_free N s i g).1 w /\ (spec_free N s i g).2 = s.
Proof.
  intros [Hi Hln Hlo Hlg Hreg Hhd [Hnd Hall] Hw Hfl] Hi0 Hg. unfold spec_free, free. msimpl.
  rewrite Hi. cbn [negb]. destruct (Z.leb_spec N i); [done|].
  destruct (Hw i) as [Hgw Ho]; [lia|]. case_decide as Hlive; [done|]. intros _. split; [|done].
  destruct (Z.ltb_spec OWNERSHIP_GENERATION_MASK g) as [|Hle]; [done|].
  assert (Hg63 : in_width 63 g).
  { unfold OWNERSHIP_GENERATION_MASK in Hle. rewrite allocated_bit in Hle. unfold in_width in *. lia. }
  rewrite (cas_ownership_run w i (slot_word s i)), lor_allocated by done.
  destruct (Z.eqb_spec (slot_word s i) (2 ^ 63 + g)) as [E|]; [|done].
  exfalso. apply Hlive. unfold slot_word, live, in_width in *.
  case_decide; [lia|]. split; [done|lia].
Qed.

(** The bytes of slot [i] in the region. *)
Definition slot_start (i : Z) : nat := Z.to_nat (i * size_of).

Lemma slot_fits (i : Z) (w : world) :
  0 <= i < N -> zlen (region w) = N * size_of ->
  (slot_start i + Z.to_nat size_of <= length (region w))%nat.
Proof. unfold slot_start, zlen. intros. nia. Qed.

Lemma free_live (fuel : nat) (spurious : list bool) (w : world) (s : spec) (i g cb : Z) :
  pool_repr w s -> 0 <= i < N -> live s i g -> (length spurious < fuel)%nat ->
  CACHE_FLUSH_CB (host w) = Some cb ->
  exists w', free N fuel spurious i g w = Done (Ok tt) w' /\
    pool_repr w' (MkSpec (i :: s_free s) (s_gens s)) /\
    region w' = wiped (slot_start i) (Z.to_nat size_of) (region w) /\
    host w' = log (EvCacheFlush cb (memory (pool w) + i * size_of) size_of) (host w) /\
    memory (pool w') = memory (pool w).
Proof.
  intros [Hi Hln Hlo Hlg Hreg (h & tag & Hh & Htag & Ehd & Hc) [Hnd Hall] Hw Hfl] Hir [Hni Hg] Hfuel Hcb.
  destruct (Hw i Hir) as [Hgw Ho]. rewrite slot_word_live in Ho by done. rewrite Hg in *.
  unfold free. msimpl. rewrite Hi. cbn [negb].
  destruct (Z.leb_spec N i); [lia|].
  destruct (Z.ltb_spec OWNERSHIP_GENERATION_MASK g) as [Hbad|_].
  { unfold OWNERSHIP_GENERATION_MASK in Hbad. rewrite allocated_bit in Hbad. unfold in_width in *. lia. }
  rewrite (cas_ownership_run w i _ _ _ Ho), lor_allocated, Z.eqb_refl by done. cbn [negb].
  set (w1 := set_pool _ w).
  pose proof (slot_fits i w Hir Hreg) as Hfit.
  pose proof (wipe_run w1 (slot_start i) (Z.to_nat size_of) Hfit) as Ewipe.
  assert (Eptr : memory (pool w1) + Z.of_nat (slot_start i) = memory (pool w) + i * size_of).
  { unfold slot_start. cbn. nia. }
  rewrite Eptr, Z2Nat.id in Ewipe by lia.
  change (memory (pool w1)) with (memory (pool w)). rewrite Ewipe.
  unfold zoom. cbn [host set_region]. rewrite (host_cache_flush_ok cb) by done. cbn [pool set_host set_region].
  change (free_list_head (pool w1)) with (free_list_head (pool w)). rewrite Ehd.
  rewrite (free_loop_run fuel spurious i h tag); [|done..].
  eexists. split; [done|]. split_and!; [|done|done|done].
  split; cbn; try done.
  - by rewrite length_insert.
  - by rewrite length_insert.
  - unfold zlen in *. by rewrite length_wiped.
  - exists i, (wrapping_add 32 tag 1).
    split_and!; [by apply index_width|apply wrapping_add_range; lia|done|done|].
    exists h. split_and!; [by apply list_lookup_insert_eq; lia|done|]. apply chain_insert; [lia|done..].
  - split; [by apply NoDup_cons|by apply Forall_cons].
  - intros j Hj. destruct (Hw j Hj) as [Hjw Hjo]. split; [done|]. unfold slot_word, gen in *. cbn.
    destruct (decide (i = j)) as [<-|Hne].
    + rewrite list_lookup_insert_eq by lia. rewrite decide_True by (left). by rewrite Hg.
    + rewrite list_lookup_insert_ne by lia. rewrite Hjo.
      destruct (decide (j ∈ s_free s)), (decide (j ∈ i :: s_free s)); try done; exfalso; set_solver.
Qed.

(** ** Initialisation *)

Definition fresh : spec := MkSpec (seqZ 0 N) (replicate (Z.to_nat N) 0).

Definition linked (nx : list Z) (n : nat) : Prop :=
  forall k, (k < n)%nat ->
    nx !! k = Some (if Z.of_nat k + 1 <? N then Z.of_nat k + 1 else FREE_LIST_EMPTY).

Lemma linked_chain (nx : list Z) (m : nat) :
  linked nx (Z.to_nat N) -> (m <= Z.to_nat N)%nat ->
  chain nx (if Z.of_nat m <? N then Z.of_nat m else FREE_LIST_EMPTY)
    (seqZ (Z.of_nat m) (N - Z.of_nat m)).
Proof.
  intros Hl Hm. remember (Z.to_nat N - m)%nat as d eqn:Ed. revert m Hm Ed.
  induction d as [|d IH]; intros m Hm Ed.
  - replace (N - Z.of_nat m) with 0 by lia. cbn. destruct (Z.ltb_spec (Z.of_nat m) N); [lia|done].
  - destruct (Z.ltb_spec (Z.of_nat m) N); [|lia].
    rewrite seqZ_cons by lia. cbn [chain]. split; [done|].
    rewrite Nat2Z.id. eexists. split; [apply Hl; lia|].
    replace (Z.of_nat m + 1) with (Z.of_nat (S m)) by lia. split.
    + destruct (Z.ltb_spec (Z.of_nat (S m)) N); [apply index_width; lia|done].
    + replace (Z.succ (Z.of_nat m)) with (Z.of_nat (S m)) by lia.
      replace (Z.pred (N - Z.of_nat m)) with (N - Z.of_nat (S m)) by lia. apply IH; lia.
Qed.

Lemma init_loop_run (w : world) :
  length (next (pool w)) = Z.to_nat N -> length (ownership (pool w)) = Z.to_nat N ->
  exists nx, length nx = Z.to_nat N /\ linked nx (Z.to_nat N) /\
    for_range 0 (Z.to_nat N) (fun index =>
      let index := Z.of_nat index in
      let next_index := if index + 1 <? N then index + 1 else FREE_LIST_EMPTY in
      write_next index next_index ;; write_ownership index 0) w =
    Done tt (set_pool (store_next nx (store_ownership (replicate (Z.to_nat N) 0) (pool w))) w).
Proof.
  intros Hln Hlo.
  destruct (for_range_inv (fun n w' =>
      exists nx own, w' = set_pool (store_next nx (store_ownership own (pool w))) w /\
        length nx = Z.to_nat N /\ length own = Z.to_nat N /\ linked nx n /\
        forall k, (k < n)%nat -> own !! k = Some 0)
    (fun index => let index := Z.of_nat index in
      let next_index := if index + 1 <? N then index + 1 else FREE_LIST_EMPTY in
      write_next index next_index ;; write_ownership index 0) 0 (Z.to_nat N) w)
    as (w' & E & nx & own & -> & Hnx & Hown & Hlk & Hz).
  - intros k w' Hk (nx & own & -> & Hnx & Hown & Hlk & Hz).
    unfold write_next, write_ownership, load_next, load_ownership, on_pool. msimpl. cbn.
    rewrite Nat2Z.id.
    destruct (lookup_lt_is_Some_2 nx k) as [v Hv]; [lia|]. rewrite Hv. cbn.
    destruct (lookup_lt_is_Some_2 own k) as [u Hu]; [lia|]. rewrite Hu. cbn.
    eexists. split; [done|].
    exists (<[k := if Z.of_nat k + 1 <? N then Z.of_nat k + 1 else FREE_LIST_EMPTY]> nx), (<[k := 0]> own).
    rewrite !length_insert. split_and!; [done|done|done| |].
    + intros j Hj. destruct (decide (k = j)) as [<-|Hne].
      * by rewrite list_lookup_insert_eq by lia.
      * rewrite list_lookup_insert_ne by done. apply Hlk. lia.
    + intros j Hj. destruct (decide (k = j)) as [<-|Hne].
      * by rewrite list_lookup_insert_eq by lia.
      * rewrite list_lookup_insert_ne by done. apply Hz. lia.
  - exists (next (pool w)), (ownership (pool w)). split_and!; [by destruct w as [[] ? ?]|done|done| |].
    + intros k Hk. lia.
    + intros k Hk. lia.
  - exists nx. split_and!; [done|done|]. rewrite E. repeat f_equal.
    symmetry. apply replicate_as_Forall. split; [done|]. apply Forall_lookup. intros k x Hx.
    rewrite Hz in Hx by (apply lookup_lt_Some in Hx; lia). congruence.
Qed.

Definition region_fits (base_ptr size_in_bytes : Z) : Prop :=
  base_ptr <> 0 /\ N * size_of < 2 ^ 64 /\ N * size_of <= size_in_bytes /\
  base_ptr + N * size_of < 2 ^ 64.

Definition region_aligned (base_ptr : Z) : Prop :=
  base_ptr mod 4096 = 0 /\ base_ptr mod align_of = 0.

Lemma fresh_repr (w : world) :
  length (next (pool w)) = Z.to_nat N -> length (ownership (pool w)) = Z.to_nat N ->
  zlen (region w) = N * size_of -> is_Some (CACHE_FLUSH_CB (host w)) ->
  is_initialized (pool w) = true -> free_list_head (pool w) = pack_head 0 0 ->
  linked (next (pool w)) (Z.to_nat N) -> ownership (pool w) = replicate (Z.to_nat N) 0 ->
  pool_repr w fresh.
Proof.
  intros Hln Hlo Hreg Hfl Hi Ehd Hlk Hown. split; cbn; try done.
  - apply length_replicate.
  - exists 0, 0. split_and!; [done|done|done|].
    pose proof (linked_chain (next (pool w)) 0 Hlk) as Hc. change (Z.of_nat 0) with 0 in Hc.
    rewrite (proj2 (Z.ltb_lt 0 N)), Z.sub_0_r in Hc by lia. apply Hc. lia.
  - split; [apply NoDup_seqZ|]. apply Forall_forall. intros k Hk%elem_of_seqZ. lia.
  - intros k Hk. assert (Hg : gen fresh k = 0).
    { unfold gen. cbn. apply lookup_total_replicate_2. lia. }
    unfold slot_word. rewrite Hg, decide_True by (apply elem_of_seqZ; lia).
    split; [done|]. rewrite Hown. apply lookup_replicate_2. lia.
Qed.

Variable BITMAP_WORDS : Z.

Lemma init_ready (base_ptr size_in_bytes : Z) (w : world) :
  0 < align_of -> region_fits base_ptr size_in_bytes -> region_aligned base_ptr ->
  BITMAP_WORDS = div_ceil N 64 ->
  is_initialized (pool w) || is_initializing (pool w) = false ->
  length (next (pool w)) = Z.to_nat N -> length (ownership (pool w)) = Z.to_nat N ->
  zlen (region w) = N * size_of -> is_Some (CACHE_FLUSH_CB (host w)) ->
  exists w', init N BITMAP_WORDS base_ptr size_in_bytes w = Done (Ok tt) w' /\
    pool_repr w' fresh /\ memory (pool w') = base_ptr /\ region w' = region w /\ host w' = host w.
Proof.
  intros Hal (H1 & H2 & H3 & H4) [H5 H6] Hbw Hinit Hln Hlo Hreg Hfl.
  unfold init, checked_mul, checked_add, is_multiple_of.
  rewrite (proj2 (Z.eqb_neq size_of 0)), (proj2 (Z.eqb_neq base_ptr 0)) by lia.
  rewrite (proj2 (Z.ltb_lt (N * size_of) _)) by done.
  rewrite (proj2 (Z.ltb_ge size_in_bytes _)), (proj2 (Z.ltb_lt (base_ptr + _) _)) by done.
  rewrite (proj2 (Z.eqb_neq align_of 0)) by lia. rewrite H5, H6, Hbw, !Z.eqb_refl.
  change (4096 =? 0) with false. cbn [negb orb].
  unfold on_pool. msimpl. rewrite Hinit.
  edestruct init_loop_run as (nx & Hnx & Hlk & E); [| |erewrite E].
  - exact Hln.
  - exact Hlo.
  - eexists. split; [done|]. split; [|done]. apply fresh_repr; cbn; try done. apply length_replicate.
Qed.

End refinement.

(** * Sequences of calls *)

Inductive dma_op : Type :=
| DAlloc (spurious : list bool)
| DFree (i g : Z) (spurious : list bool).

Inductive dma_ret : Type :=
| RAlloc (r : result (Z * Z * Z) AllocatorError)
| RFree (r : result unit AllocatorError).

Section sequences.
Context `{Layout}.
Variable N : Z.

Definition dma_step (debug : bool) (o : dma_op) : M world dma_ret :=
  match o with
  | DAlloc sp => r ← allocate debug (S (length sp)) sp; mret (RAlloc r)
  | DFree i g sp => r ← free N (S (length sp)) sp i g; mret (RFree r)
  end.

Fixpoint dma_run (debug : bool) (os : list dma_op) : M world (list dma_ret) :=
  match os with
  | [] => mret []
  | o :: os' => r ← dma_step debug o; rs ← dma_run debug os'; mret (r :: rs)
  end.

Definition locate (base : Z) (r : result (Z * Z) AllocatorError) : dma_ret :=
  RAlloc (match r with Ok (i, g) => Ok (i, g, base + i * size_of) | Err e => Err e end).

Definition spec_step (base : Z) (o : dma_op) (s : spec) : dma_ret * spec :=
  match o with
  | DAlloc _ => let '(r, s') := spec_alloc s in (locate base r, s')
  | DFree i g _ => let '(r, s') := spec_free N s i g in (RFree r, s')
  end.

Fixpoint spec_run (base : Z) (os : list dma_op) (s : spec) : list dma_ret * spec :=
  match os with
  | [] => ([], s)
  | o :: os' =>
      let '(r, s1) := spec_step base o s in
      let '(rs, s2) := spec_run base os' s1 in
      (r :: rs, s2)
  end.

(** Arguments as the C interface passes them: an index and a 64-bit token. *)
Definition op_in_range (o : dma_op) : Prop :=
  match o with DAlloc _ => True | DFree i g _ => 0 <= i /\ in_width 64 g end.

Hypothesis N_ok : 0 < N <= u32_max.
Hypothesis size_ok : 0 < size_of.

Lemma dma_step_refines (debug : bool) (o : dma_op) (w : world) (s : spec) :
  pool_repr N w s -> op_in_range o ->
  exists w', dma_step debug o w = Done (spec_step (memory (pool w)) o s).1 w' /\
    pool_repr N w' (spec_step (memory (pool w)) o s).2 /\ memory (pool w') = memory (pool w).
Proof.
  intros R Ho. destruct o as [sp|i g sp]; cbn [dma_step spec_step op_in_range] in *; msimpl.
  - unfold spec_alloc. destruct (s_free s) as [|i l] eqn:Ef.
    + erewrite allocate_empty by (done || lia). by exists w.
    + destruct (allocate_item N N_ok size_ok debug (S (length sp)) sp w s i l R Ef) as (w' & -> & R' & _ & _ & Em);
        [lia|]. by exists w'.
  - destruct Ho as [Hi Hg]. destruct (spec_free N s i g) as [r s'] eqn:Es.
    destruct (decide (r = Ok tt)) as [->|Hne].
    + unfold spec_free in Es. destruct (Z.leb_spec N i); [done|].
      case_decide as Hlive; [|done]. simplify_eq.
      pose proof R as [_ _ _ _ _ _ _ _ [cb Hcb]].
      destruct (free_live N N_ok size_ok (S (length sp)) sp w s i g cb R) as (w' & -> & R' & _ & _ & Em);
        [lia|done|lia|done|]. by exists w'.
    + pose proof (free_stale N N_ok (S (length sp)) sp w s i g R Hi Hg) as Hst. rewrite Es in Hst.
      destruct Hst as [-> Es']; [done|]. cbn in Es'. subst s'. by exists w.
Qed.

Lemma dma_run_refines (debug : bool) (os : list dma_op) (w : world) (s : spec) :
  pool_repr N w s -> Forall op_in_range os ->
  exists w', dma_run debug os w = Done (spec_run (memory (pool w)) os s).1 w' /\
    pool_repr N w' (spec_run (memory (pool w)) os s).2 /\ memory (pool w') = memory (pool w).
Proof.
  revert w s. induction os as [|o os IH]; intros w s R Hos; cbn [dma_run spec_run]; [by exists w|].
  apply Forall_cons in Hos as [Ho Hos].
  destruct (dma_step_refines debug o w s R Ho) as (w1 & E1 & R1 & M1). msimpl. rewrite E1.
  destruct (spec_step (memory (pool w)) o s) as [r s1].
  destruct (IH w1 s1 R1 Hos) as (w2 & E2 & R2 & M2). rewrite E2, M1 in *.
  destruct (spec_run (memory (pool w)) os s1) as [rs s2]. exists w2. cbn in *. by rewrite M2.
Qed.

(** ** Generations *)

Record spec_ok (s : spec) : Prop := {
  so_gens : length (s_gens s) = Z.to_nat N;
  so_free : Forall (fun i => 0 <= i < N) (s_free s);
  so_width : forall i, 0 <= i < N -> in_width 63 (gen s i)
}.

Lemma repr_spec_ok (w : world) (s : spec) : pool_repr N w s -> spec_ok s.
Proof. intros [_ _ _ Hg _ _ [_ Hf] Hw _]. split; [done|done|]. intros i Hi. by apply Hw. Qed.

(** One call advances the generation of a slot by at most one, and a free slot
    whose generation did not advance is still free. *)
Lemma spec_step_slot (base : Z) (o : dma_op) (s : spec) (i : Z) :
  spec_ok s -> op_in_range o -> 0 <= i < N ->
  let s' := (spec_step base o s).2 in
  spec_ok s' /\ exists d, 0 <= d <= 1 /\ gen s' i = (gen s i + d) mod 2 ^ 63 /\
    (d = 0 -> i ∈ s_free s -> i ∈ s_free s').
Proof.
  intros [Hg Hf Hw] Ho Hi. assert (Hstay : gen s i = (gen s i + 0) mod 2 ^ 63).
  { specialize (Hw i Hi). unfold in_width in Hw. by rewrite Z.add_0_r, Z.mod_small. }
  assert (Hsame : spec_ok s /\ exists d, 0 <= d <= 1 /\ gen s i = (gen s i + d) mod 2 ^ 63 /\
    (d = 0 -> i ∈ s_free s -> i ∈ s_free s)) by (split; [done|]; exists 0; split_and!; (done || lia)).
  destruct o as [sp|k g sp]; cbn [spec_step op_in_range] in *.
  - unfold spec_alloc. destruct (s_free s) as [|k l] eqn:Ef; cbn [locate fst snd].
    { rewrite Ef. exact Hsame. }
    apply Forall_cons in Hf as [Hk Hl]. cbn [snd]. split.
    + split; cbn; [by rewrite length_insert|done|]. intros j Hj. rewrite (gen_insert N) by (done || lia).
      case_decide; [apply Z.mod_pos_bound; lia|auto].
    + rewrite (gen_insert N) by (done || lia). case_decide as E.
      * subst k. exists 1. split_and!; (done || lia).
      * exists 0. split_and!; [lia|lia|done|]. intros _ Hin. cbn. set_solver.
  - unfold spec_free. destruct (Z.leb_spec N k); [exact Hsame|].
    case_decide; [|exact Hsame]. cbn [snd]. split.
    + split; cbn; [done|apply Forall_cons; split; [lia|done]|done].
    + exists 0. split_and!; [lia|lia|done|]. intros _ Hin. cbn. by right.
Qed.

Lemma spec_run_slot (base : Z) (os : list dma_op) (s : spec) (i : Z) :
  spec_ok s -> Forall op_in_range os -> 0 <= i < N ->
  let s' := (spec_run base os s).2 in
  exists d, 0 <= d <= zlen os /\ gen s' i = (gen s i + d) mod 2 ^ 63 /\
    (d = 0 -> i ∈ s_free s -> i ∈ s_free s').
Proof.
  unfold zlen. intros Hs Hos Hi. revert s Hs. induction Hos as [|o os Ho Hos IH]; intros s Hs; cbn [spec_run].
  - exists 0. split_and!; [lia|cbn; lia| |done].
    destruct (so_width s Hs i Hi). by rewrite Z.add_0_r, Z.mod_small.
  - destruct (spec_step_slot base o s i Hs Ho Hi) as (Hs1 & d1 & Hd1 & G1 & F1).
    destruct (spec_step base o s) as [r s1]. cbn in *.
    destruct (IH s1 Hs1) as (d2 & Hd2 & G2 & F2).
    destruct (spec_run base os s1) as [rs s2]. cbn in *.
    exists (d1 + d2). split_and!; [lia|lia| |].
    + by rewrite G2, G1, Zplus_mod_idemp_l, Z.add_assoc.
    + intros Hd Hin. apply F2; [lia|]. apply F1; [lia|done].
Qed.

End sequences.

(** * Claims *)

(** C8: every sequence of [allocate] and [free] calls, with any pattern of spurious
    failures of the weak exchange, answers what the abstract pool answers: slots
    come off a free stack, each allocation carries the next generation of its
    slot, and a free succeeds exactly for the current generation of an allocated
    slot. No call loops for ever, panics or touches memory outside the region. *)
Theorem dma_refines `{Layout} (N : Z) (debug : bool) (os : list dma_op) (w : world) (s : spec) :
  0 < N <= u32_max -> 0 < size_of -> pool_repr N w s -> Forall op_in_range os ->
  exists w', dma_run N debug os w = Done (spec_run N (memory (pool w)) os s).1 w' /\
    pool_repr N w' (spec_run N (memory (pool w)) os s).2.
Proof.
  intros HN Hs R Hos. destruct (dma_run_refines N HN Hs debug os w s R Hos) as (w' & E & R' & _). eauto.
Qed.

(** A successful allocation is exclusive: no token was live for the slot it
    hands out, the new token is live afterwards, every other live token stays
    live, the buffer lies inside the region and overlaps no live buffer. *)
Theorem dma_allocate_exclusive `{Layout} (N : Z) (debug : bool) (sp : list bool)
    (w w' : world) (s : spec) (i g p : Z) :
  0 < N <= u32_max -> 0 < size_of -> pool_repr N w s ->
  allocate debug (S (length sp)) sp w = Done (Ok (i, g, p)) w' ->
  exists s', pool_repr N w' s' /\ live s' i g /\
    p = memory (pool w) + i * size_of /\ p + size_of <= memory (pool w) + N * size_of /\
    forall j h, 0 <= j < N -> live s j h ->
      j <> i /\ live s' j h /\
      (memory (pool w) + j * size_of + size_of <= p \/ p + size_of <= memory (pool w) + j * size_of).
Proof.
  intros HN Hs R E. destruct (s_free s) as [|k l] eqn:Ef.
  { erewrite allocate_empty in E by (done || lia). done. }
  destruct (allocate_item N HN Hs debug (S (length sp)) sp w s k l R Ef) as (w1 & E1 & R1 & _); [lia|].
  rewrite E1 in E. simplify_eq. eexists. split; [exact R1|].
  pose proof R as [_ _ _ Hg _ _ [Hnd Hf] _ _]. rewrite Ef in Hnd, Hf.
  apply NoDup_cons in Hnd as [Hni _]. apply Forall_cons in Hf as [Hk _].
  unfold live. cbn [s_free]. rewrite (gen_insert N) by (done || lia).
  split_and!; [done|by rewrite decide_True|done|nia|].
  intros j h Hj [Hjf Hjg]. rewrite Ef in Hjf. apply not_elem_of_cons in Hjf as [Hne Hjl].
  rewrite (gen_insert N) by (done || lia). rewrite decide_False by done.
  split_and!; [done|done|done|]. nia.
Qed.

(** Freeing the current owner's buffer erases it: afterwards every byte of the buffer is zero, no other byte of the region
    changed, the range was flushed, and the slot heads the free stack. *)
Theorem dma_free_erases `{Layout} (N : Z) (sp : list bool) (w : world) (s : spec) (i g cb : Z) :
  0 < N <= u32_max -> 0 < size_of -> pool_repr N w s -> 0 <= i < N -> live s i g ->
  CACHE_FLUSH_CB (host w) = Some cb ->
  exists w', free N (S (length sp)) sp i g w = Done (Ok tt) w' /\
    slice (slot_start i) (slot_start i + Z.to_nat size_of) (region w') = zeros (Z.to_nat size_of) /\
    (forall k, (k < slot_start i \/ slot_start i + Z.to_nat size_of <= k)%nat ->
       region w' !! k = region w !! k) /\
    trace (host w') = trace (host w) ++ [EvCacheFlush cb (memory (pool w) + i * size_of) size_of] /\
    pool_repr N w' (MkSpec (i :: s_free s) (s_gens s)).
Proof.
  intros HN Hs R Hi Hl Hcb.
  destruct (free_live N HN Hs (S (length sp)) sp w s i g cb R Hi Hl) as (w' & E & R' & Er & Eh & _);
    [lia|done|].
  exists w'. pose proof R as [_ _ _ _ Hreg _ _ _ _]. pose proof (slot_fits N HN Hs i w Hi Hreg) as Hfit.
  rewrite Er, Eh. split_and!; [done| | |done|done].
  - by apply slice_wiped.
  - intros k Hk. unfold wiped. destruct Hk as [Hk|Hk].
    + rewrite lookup_app_l by (rewrite length_take; lia). by rewrite lookup_take_lt.
    + rewrite lookup_app_r by (rewrite length_take; lia).
      rewrite lookup_app_r by (rewrite length_take, length_zeros; lia).
      rewrite length_take, length_zeros, lookup_drop. f_equal. lia.
Qed.

(** A token dies with its allocation: once [(i, g)] was freed, freeing it again
    is refused and changes nothing, whatever calls happened in between, including
    new allocations of the same slot, as long as they are fewer than 2^63. *)
Theorem dma_stale_token `{Layout} (N : Z) (debug : bool) (os : list dma_op) (w : world) (s : spec) (i g : Z) :
  0 < N <= u32_max -> 0 < size_of -> pool_repr N w s -> 0 <= i < N -> live s i g ->
  Forall op_in_range os -> zlen os < 2 ^ 63 ->
  exists w1 rs w2,
    free N 1 [] i g w = Done (Ok tt) w1 /\
    dma_run N debug os w1 = Done rs w2 /\
    free N 1 [] i g w2 = Done (Err AllocDoubleFree) w2.
Proof.
  intros HN Hs R Hi Hl Hos Hlen. pose proof R as [_ _ _ _ _ _ _ Hw [cb Hcb]].
  destruct (Hw i Hi) as [Hgw _]. pose proof Hl as [Hni Hg]. rewrite Hg in Hgw.
  destruct (free_live N HN Hs 1 [] w s i g cb R Hi Hl) as (w1 & E1 & R1 & _); [cbn; lia|done|].
  destruct (dma_run_refines N HN Hs debug os w1 _ R1 Hos) as (w2 & E2 & R2 & _).
  eexists w1, _, w2. split; [exact E1|]. split; [exact E2|].
  destruct (spec_run_slot N HN Hs (memory (pool w1)) os _ i (repr_spec_ok N w1 _ R1) Hos Hi)
    as (d & Hd & Gd & Fd).
  set (s2 := (spec_run N (memory (pool w1)) os _).2) in *.
  assert (Hdead : ~ live s2 i g).
  { intros [Hf2 Hg2]. apply Hf2, Fd; [|left].
    rewrite Gd in Hg2. unfold gen in Hg2, Hg. cbn in Hg2. rewrite Hg in Hg2.
    unfold in_width in Hgw. rewrite <- (Z.mod_small g (2 ^ 63)) in Hg2 at 2 by lia.
    apply mod_eq_close in Hg2; lia. }
  destruct (free_stale N HN 1 [] w2 s2 i g R2) as [E3 _]; [lia|unfold in_width in *; lia| |].
  - unfold spec_free. destruct (Z.leb_spec N i); [done|]. by rewrite decide_False.
  - rewrite E3. unfold spec_free. destruct (Z.leb_spec N i); [lia|]. by rewrite decide_False.
Qed.

(** [init] accepts exactly the regions it documents, and each refusal leaves the
    pool as it was: [AddressOutOfBounds] for a null, short or wrapping region,
    [InvalidAlignment] for one not aligned to a page or to the element, and
    [AlreadyInitialized] for a second initialisation. On success every slot is free
    in index order with generation zero. *)
Theorem dma_init_exact `{Layout} (N BITMAP_WORDS base_ptr size_in_bytes : Z) (w : world) :
  0 < N <= u32_max -> 0 < size_of -> 0 < align_of -> BITMAP_WORDS = div_ceil N 64 ->
  length (next (pool w)) = Z.to_nat N -> length (ownership (pool w)) = Z.to_nat N ->
  zlen (region w) = N * size_of -> is_Some (CACHE_FLUSH_CB (host w)) ->
  let run := init N BITMAP_WORDS base_ptr size_in_bytes w in
  (~ region_fits N base_ptr size_in_bytes -> run = Done (Err AllocAddressOutOfBounds) w) /\
  (region_fits N base_ptr size_in_bytes -> ~ region_aligned base_ptr ->
     run = Done (Err AllocInvalidAlignment) w) /\
  (region_fits N base_ptr size_in_bytes -> region_aligned base_ptr ->
     is_initialized (pool w) || is_initializing (pool w) = true ->
     run = Done (Err AllocAlreadyInitialized) w) /\
  (region_fits N base_ptr size_in_bytes -> region_aligned base_ptr ->
     is_initialized (pool w) || is_initializing (pool w) = false ->
     exists w', run = Done (Ok tt) w' /\ pool_repr N w' (fresh N) /\
                memory (pool w') = base_ptr /\ region w' = region w /\ host w' = host w).
Proof.
  intros HN Hs Hal Hbw Hln Hlo Hreg Hfl run. unfold region_fits, region_aligned.
  split_and!; [| | |by intros; apply init_ready]; subst run;
    unfold init, checked_mul, checked_add, is_multiple_of;
    (rewrite (proj2 (Z.eqb_neq size_of 0)), (proj2 (Z.eqb_neq align_of 0)) by lia);
    rewrite Hbw, (Z.eqb_refl (div_ceil N 64)); change (4096 =? 0) with false.
  - intros Hbad. boolify; try done; exfalso; apply Hbad; split_and!; (done || lia).
  - intros (H1 & H2 & H3 & H4) Hbad. boolify; try lia; done.
  - intros (H1 & H2 & H3 & H4) [H5 H6] Hinit. boolify; try lia; try done.
    cbn [negb orb]. msimpl. by rewrite Hinit.
Qed.

(** ** Witnesses: two 16-byte slots at address 4096. *)

Definition sample_layout : Layout := {| size_of := 16; align_of := 8 |}.
#[local] Existing Instance sample_layout.

Definition sample_world : world := MkWorld (new 2) (replicate 32 xff) sample_host.

Definition sample_ready : world :=
  match init 2 1 4096 32 sample_world with Done _ w => w | _ => sample_world end.

Lemma dma_ready_repr : pool_repr 2 sample_ready (fresh 2).
Proof.
  destruct (init_ready 2 ltac:(done) ltac:(done) 1 4096 32 sample_world) as (w' & E & R & _);
    try done. unfold sample_ready. by rewrite E.
Qed.

Lemma dma_init_exact_witness :
  exists w', init 2 1 4096 32 sample_world = Done (Ok tt) w' /\ pool_repr 2 w' (fresh 2) /\
             memory (pool w') = 4096 /\ region w' = region sample_world /\ host w' = host sample_world.
Proof.
  refine (proj2 (proj2 (proj2 (dma_init_exact 2 1 4096 32 sample_world _ _ _ _ _ _ _ _))) _ _ _);
    done.
Defined.

Definition sample_calls : list dma_op :=
  [DAlloc [true; true]; DAlloc []; DAlloc []; DFree 0 1 [true]; DFree 0 1 []; DAlloc []; DFree 5 1 []].

Lemma dma_refines_witness :
  exists w', dma_run 2 true sample_calls sample_ready =
    Done [RAlloc (Ok (0, 1, 4096)); RAlloc (Ok (1, 1, 4112)); RAlloc (Err AllocOutOfMemory);
          RFree (Ok tt); RFree (Err AllocDoubleFree); RAlloc (Ok (0, 2, 4096));
          RFree (Err AllocAddressOutOfBounds)] w' /\
    pool_repr 2 w' (MkSpec [] [2; 1]).
Proof.
  apply (dma_refines 2 true sample_calls sample_ready (fresh 2) ltac:(done) ltac:(done) dma_ready_repr).
  repeat constructor; done.
Defined.

Definition sample_owned : world :=
  match allocate false 1 [] sample_ready with Done _ w => w | _ => sample_ready end.

Lemma sample_owned_repr : pool_repr 2 sample_owned (MkSpec [1] [1; 0]).
Proof.
  destruct (allocate_item 2 ltac:(done) ltac:(done) false 1 [] sample_ready (fresh 2) 0 [1]
              dma_ready_repr) as (w' & E & R & _); [done|cbn; lia|].
  unfold sample_owned. rewrite E. exact R.
Qed.

Lemma sample_live : live (MkSpec [1] [1; 0]) 0 1.
Proof. split; [|done]. intros H%list_elem_of_singleton. done. Qed.

Lemma dma_allocate_exclusive_witness :
  exists w' s', allocate false 1 [] sample_owned = Done (Ok (1, 1, 4112)) w' /\
    pool_repr 2 w' s' /\ live s' 1 1 /\ live s' 0 1.
Proof.
  destruct (allocate false 1 [] sample_owned) as [r w'| |] eqn:E;
    [|vm_compute in E; discriminate|vm_compute in E; discriminate].
  assert (Er : r = Ok (1, 1, 4112)) by (vm_compute in E; injection E; auto). rewrite Er in *.
  destruct (dma_allocate_exclusive 2 false [] sample_owned w' (MkSpec [1] [1; 0]) 1 1 4112
    ltac:(done) ltac:(done) sample_owned_repr E) as (s' & R & L & _ & _ & Hj).
  exists w', s'. split; [reflexivity|]. split; [exact R|]. split; [exact L|].
  destruct (Hj 0 1 ltac:(done) sample_live) as (_ & L0 & _). exact L0.
Defined.

Lemma dma_free_erases_witness :
  exists w', free 2 1 [] 0 1 sample_owned = Done (Ok tt) w' /\
    slice 0 16 (region w') = zeros 16 /\
    (forall k, (k < 0 \/ 16 <= k)%nat -> region w' !! k = region sample_owned !! k) /\
    trace (host w') = [EvCacheFlush 6 4096 16] /\
    pool_repr 2 w' (MkSpec [0; 1] [1; 0]).
Proof.
  exact (dma_free_erases 2 [] sample_owned (MkSpec [1] [1; 0]) 0 1 6
    ltac:(done) ltac:(done) sample_owned_repr ltac:(done) sample_live eq_refl).
Defined.

Lemma dma_stale_token_witness :
  exists w1 rs w2,
    free 2 1 [] 0 1 sample_owned = Done (Ok tt) w1 /\
    dma_run 2 false [DAlloc []; DAlloc []] w1 = Done rs w2 /\
    free 2 1 [] 0 1 w2 = Done (Err AllocDoubleFree) w2.
Proof.
  apply (dma_stale_token 2 false [DAlloc []; DAlloc []] sample_owned (MkSpec [1] [1; 0]) 0 1
    ltac:(done) ltac:(done) sample_owned_repr ltac:(done) sample_live); [by repeat constructor|done].
Defined.

End Dma.
