(* ===== verification/DmaConc.v ===== *)
(** static_dma_pool.rs under interleaving: any number of concurrent callers.

    [allocate] and [free] are cut at every access to a shared word (the packed
    head, a [next] entry, an ownership word); a caller's program counter keeps
    what it has read so far. [step] lets one caller make one access, or fail a
    weak exchange spuriously. Three ghost components make the argument: the
    abstract free stack, the unbounded number of head mutations (the 32-bit tag in
    the head is this number modulo 2^32), and which slots were written by an
    owner since they were last wiped. The wipe and flush of a slot only its
    freeing caller can reach are one step. *)

From S2P Require Import Prelude RtosHost DmaPool.
Import Dma.
Local Open Scope Z_scope.

Module DConc.

Section machine.
Variable N : Z.

Inductive pc : Type :=
| Idle
(** [allocate] *)
| ALoad
| ANext (observed : Z)
| ACas (observed next_index : Z)
| AOwn (slot : Z)
| AClaim (slot observed_state : Z)
(** [free] *)
| FCas (buffer_idx generation : Z)
| FWipe (buffer_idx : Z)
| FLoad (buffer_idx : Z)
| FStore (buffer_idx observed : Z)
| FTry (buffer_idx observed : Z).

Record shared : Type := MkShared {
  x_head : Z;
  x_next : list Z;
  x_own : list Z;
  g_free : list Z;      (** ghost: the free stack *)
  g_version : Z;        (** ghost: head mutations so far *)
  g_dirty : list bool;  (** ghost: written by an owner since the last wipe *)
  g_corrupt : nat       (** ghost: allocations answered [DoubleFree] *)
}.

Definition set_head (h : Z) (fr : list Z) (x : shared) : shared :=
  MkShared h (x_next x) (x_own x) fr (g_version x + 1) (g_dirty x) (g_corrupt x).
Definition set_next (i v : Z) (x : shared) : shared :=
  MkShared (x_head x) (<[Z.to_nat i := v]> (x_next x)) (x_own x) (g_free x) (g_version x)
    (g_dirty x) (g_corrupt x).
Definition set_own (i v : Z) (x : shared) : shared :=
  MkShared (x_head x) (x_next x) (<[Z.to_nat i := v]> (x_own x)) (g_free x) (g_version x)
    (g_dirty x) (g_corrupt x).
Definition set_dirty (i : Z) (b : bool) (x : shared) : shared :=
  MkShared (x_head x) (x_next x) (x_own x) (g_free x) (g_version x)
    (<[Z.to_nat i := b]> (g_dirty x)) (g_corrupt x).
Definition note_corrupt (x : shared) : shared :=
  MkShared (x_head x) (x_next x) (x_own x) (g_free x) (g_version x) (g_dirty x) (S (g_corrupt x)).

(** The next access of a caller; [spurious] decides a weak exchange that would
    otherwise succeed. [None] between calls and on a slice index panic. *)
Definition next_access (spurious : bool) (x : shared) (p : pc) : option (shared * pc) :=
  match p with
  | Idle => None
  | ALoad => Some (x, ANext (x_head x))
  | ANext observed =>
      let '(index, _) := unpack_head observed in
      if index =? FREE_LIST_EMPTY then Some (x, Idle) else
      n ← x_next x !! Z.to_nat index;
      Some (x, ACas observed (cast 32 n))
  | ACas observed next_index =>
      let '(index, generation) := unpack_head observed in
      if negb spurious && (x_head x =? observed)
      then Some (set_head (pack_head next_index (wrapping_add 32 generation 1)) (list.tail (g_free x)) x,
                 AOwn index)
      else Some (x, ANext (x_head x))
  | AOwn slot =>
      st ← x_own x !! Z.to_nat slot; Some (x, AClaim slot st)
  | AClaim slot observed_state =>
      current ← x_own x !! Z.to_nat slot;
      if current =? observed_state
      then
        let next_generation :=
          Z.land (wrapping_add 64 (Z.land observed_state OWNERSHIP_GENERATION_MASK) 1)
            OWNERSHIP_GENERATION_MASK in
        Some (set_dirty slot true (set_own slot (Z.lor OWNERSHIP_ALLOCATED_BIT next_generation) x), Idle)
      else Some (note_corrupt x, Idle)
  | FCas i g =>
      if N <=? i then Some (x, Idle) else
      if OWNERSHIP_GENERATION_MASK <? g then Some (x, Idle) else
      current ← x_own x !! Z.to_nat i;
      if current =? Z.lor OWNERSHIP_ALLOCATED_BIT g
      then Some (set_own i g x, FWipe i)
      else Some (x, Idle)
  | FWipe i => Some (set_dirty i false x, FLoad i)
  | FLoad i => Some (x, FStore i (x_head x))
  | FStore i observed => Some (set_next i (cast 32 observed) x, FTry i observed)
  | FTry i observed =>
      let '(_, head_generation) := unpack_head observed in
      if negb spurious && (x_head x =? observed)
      then Some (set_head (pack_head (cast 32 i) (wrapping_add 32 head_generation 1)) (i :: g_free x) x,
                 Idle)
      else Some (x, FStore i (x_head x))
  end.

Record conc : Type := MkConc {
  sh : shared;
  callers : list pc
}.

(** Any caller between calls may allocate, or free any index with any token. *)
Inductive step : conc -> conc -> Prop :=
| step_allocate x cs t : cs !! t = Some Idle -> step (MkConc x cs) (MkConc x (<[t := ALoad]> cs))
| step_free x cs t i g : cs !! t = Some Idle -> 0 <= i -> 0 <= g ->
    step (MkConc x cs) (MkConc x (<[t := FCas i g]> cs))
| step_access x cs t p sp x' p' :
    cs !! t = Some p -> next_access sp x p = Some (x', p') ->
    step (MkConc x cs) (MkConc x' (<[t := p']> cs)).

(** After [init]: all slots free in index order, [n] callers. *)
Definition start (n : nat) : conc :=
  MkConc
    (MkShared (pack_head 0 0)
       (imap (fun k _ => if Z.of_nat k + 1 <? N then Z.of_nat k + 1 else FREE_LIST_EMPTY)
          (replicate (Z.to_nat N) tt))
       (replicate (Z.to_nat N) 0) (seqZ 0 N) 0 (replicate (Z.to_nat N) false) 0)
    (replicate n Idle).

(** The slot a caller has for itself: off the free stack, not handed out. *)
Definition holds (p : pc) : option Z :=
  match p with
  | AOwn i | AClaim i _ | FWipe i | FLoad i | FStore i _ | FTry i _ => Some i
  | _ => None
  end.

Definition allocated (x : shared) (i : Z) : Prop :=
  exists g, x_own x !! Z.to_nat i = Some (2 ^ 63 + g) /\ in_width 63 g.

End machine.

(** * Invariant *)

Section invariant.
Variable N : Z.
Hypothesis N_ok : 0 < N <= u32_max.

Definition free_word (x : shared) (i : Z) : Prop :=
  exists g, x_own x !! Z.to_nat i = Some g /\ in_width 63 g.

Definition top (x : shared) : Z := default FREE_LIST_EMPTY (list.head (g_free x)).

(** A value some past head had: it carries the number [k] of mutations before it,
    names a slot or the end, and is the present head if none happened since. *)
Definition seen (x : shared) (observed : Z) : Prop :=
  exists h k, in_width 32 h /\ (h = FREE_LIST_EMPTY \/ h < N) /\ 0 <= k <= g_version x /\
    observed = pack_head h (k mod 2 ^ 32) /\ (k = g_version x -> h = top x).

(** Off the free stack and not handed out. *)
Definition private (x : shared) (i : Z) : Prop :=
  0 <= i < N /\ (i ∉ g_free x) /\ free_word x i.

Definition clean (x : shared) (i : Z) : Prop := g_dirty x !! Z.to_nat i = Some false.

Definition local_ok (x : shared) (p : pc) : Prop :=
  match p with
  | Idle | ALoad => True
  | ANext obs => seen x obs
  | ACas obs n =>
      exists h k, in_width 32 h /\ in_width 32 n /\ 0 <= k <= g_version x /\
        obs = pack_head h (k mod 2 ^ 32) /\ h <> FREE_LIST_EMPTY /\
        (k = g_version x -> h = top x /\ x_next x !! Z.to_nat h = Some n)
  | AOwn i => private x i
  | AClaim i st => private x i /\ x_own x !! Z.to_nat i = Some st
  | FCas i g => 0 <= i /\ 0 <= g
  | FWipe i => private x i
  | FLoad i => private x i /\ clean x i
  | FStore i obs => private x i /\ clean x i /\ seen x obs
  | FTry i obs =>
      private x i /\ clean x i /\ seen x obs /\ x_next x !! Z.to_nat i = Some (cast 32 obs)
  end.

Record shared_ok (x : shared) : Prop := {
  so_next : length (x_next x) = Z.to_nat N;
  so_own : length (x_own x) = Z.to_nat N;
  so_dirty : length (g_dirty x) = Z.to_nat N;
  so_version : 0 <= g_version x;
  so_head : x_head x = pack_head (top x) (g_version x mod 2 ^ 32);
  so_chain : chain (x_next x) (top x) (g_free x);
  so_nodup : NoDup (g_free x);
  so_range : Forall (fun i => 0 <= i < N) (g_free x);
  so_free : forall i, i ∈ g_free x -> free_word x i /\ clean x i;
  so_corrupt : g_corrupt x = 0%nat
}.

Record inv (c : conc) : Prop := {
  inv_shared : shared_ok (sh c);
  inv_local : forall t p, callers c !! t = Some p -> local_ok (sh c) p;
  inv_excl : forall t1 t2 p1 p2 i, callers c !! t1 = Some p1 -> callers c !! t2 = Some p2 ->
    holds p1 = Some i -> holds p2 = Some i -> t1 = t2
}.

Lemma holds_private (x : shared) (p : pc) (i : Z) :
  local_ok x p -> holds p = Some i -> private x i.
Proof.
  destruct p; cbn; intros Hl E; try discriminate E; injection E as <-;
    first [exact Hl | exact (proj1 Hl)].
Qed.

Lemma top_width (x : shared) : shared_ok x -> in_width 32 (top x).
Proof.
  intros Hx. unfold top. destruct (g_free x) as [|i l] eqn:E; [done|]. cbn.
  pose proof (so_range x Hx) as Hr. rewrite E in Hr. apply Forall_cons in Hr as [Hi _].
  by apply (index_width N).
Qed.

Lemma top_range (x : shared) : shared_ok x -> top x = FREE_LIST_EMPTY \/ top x < N.
Proof.
  intros Hx. unfold top. destruct (g_free x) as [|i l] eqn:E; [by left|]. right. cbn.
  pose proof (so_range x Hx) as Hr. rewrite E in Hr. apply Forall_cons in Hr as [Hi _]. lia.
Qed.

Lemma tag_width (k : Z) : in_width 32 (k mod 2 ^ 32).
Proof. apply Z.mod_pos_bound. lia. Qed.

Lemma seen_head (x : shared) : shared_ok x -> seen x (x_head x).
Proof.
  intros Hx. exists (top x), (g_version x). split_and!; [by apply top_width|by apply top_range|apply Hx|done|apply Hx|done].
Qed.

(** The tag identifies the version while fewer than 2^32 mutations happened. *)
Lemma head_is_current (x : shared) (h k : Z) :
  shared_ok x -> in_width 32 h -> 0 <= k <= g_version x -> g_version x < 2 ^ 32 ->
  x_head x = pack_head h (k mod 2 ^ 32) -> k = g_version x /\ h = top x.
Proof.
  intros Hx Hh Hk Hv E. rewrite (so_head x Hx) in E.
  apply (f_equal unpack_head) in E. rewrite !unpack_pack in E by (apply tag_width || done || by apply top_width).
  injection E as E1 E2. rewrite !Z.mod_small in E2 by lia. lia.
Qed.

(** * Interference *)

(** How one caller's access may look to the others: heads only move forward,
    slots leave or join the free stack only through the acting caller, and no word
    of a slot held by someone else changes. *)
Record interferes (x x' : shared) (mine : Z -> Prop) : Prop := {
  if_version : g_version x <= g_version x';
  if_top : g_version x' = g_version x -> g_free x' = g_free x;
  if_free : forall i, ~ mine i -> i ∈ g_free x' -> i ∈ g_free x;
  if_own : forall i, 0 <= i -> ~ mine i -> x_own x' !! Z.to_nat i = x_own x !! Z.to_nat i;
  if_next : forall i, 0 <= i -> ~ mine i -> x_next x' !! Z.to_nat i = x_next x !! Z.to_nat i;
  if_dirty : forall i, 0 <= i -> ~ mine i -> g_dirty x' !! Z.to_nat i = g_dirty x !! Z.to_nat i;
  if_mine : forall i, mine i -> g_version x' = g_version x -> i ∉ g_free x
}.

Lemma seen_interferes (x x' : shared) (mine : Z -> Prop) (obs : Z) :
  interferes x x' mine -> seen x obs -> seen x' obs.
Proof.
  intros [Hv Ht _ _ _ _ _] (h & k & Hh & Hr & Hk & -> & Hcur). exists h, k.
  split_and!; [done|done|lia|lia|done|]. intros Ek. unfold top. rewrite Ht by lia. apply Hcur. lia.
Qed.

Lemma private_interferes (x x' : shared) (mine : Z -> Prop) (i : Z) :
  interferes x x' mine -> ~ mine i -> private x i -> private x' i.
Proof.
  intros [_ _ Hf Ho _ _ _] Hm (Hi & Hni & g & Hg & Hw). split_and!; [lia|lia|eauto|].
  exists g. by rewrite Ho by (done || lia).
Qed.

Lemma clean_interferes (x x' : shared) (mine : Z -> Prop) (i : Z) :
  interferes x x' mine -> 0 <= i -> ~ mine i -> clean x i -> clean x' i.
Proof. intros [_ _ _ _ _ Hd _] Hi Hm Hc. unfold clean. by rewrite Hd. Qed.

Lemma top_in_free (x : shared) : top x <> FREE_LIST_EMPTY -> top x ∈ g_free x.
Proof. unfold top. destruct (g_free x); cbn; [done|]. intros _. left. Qed.

Lemma local_interferes (x x' : shared) (mine : Z -> Prop) (p : pc) :
  interferes x x' mine -> (forall i, holds p = Some i -> ~ mine i) ->
  shared_ok x -> local_ok x p -> local_ok x' p.
Proof.
  intros Hif Hm Hx Hl.
  assert (Hp : forall i, holds p = Some i -> private x i -> private x' i).
  { intros i Hi. apply (private_interferes x x' mine); auto. }
  assert (Hc : forall i, holds p = Some i -> private x i -> clean x i -> clean x' i).
  { intros i Hi [Hr _]. apply (clean_interferes x x' mine); [done|lia|auto]. }
  destruct p as [| |obs|obs n|i|i st|i g|i|i|i obs|i obs]; cbn [local_ok holds] in *; try done.
  - by apply (seen_interferes x x' mine).
  - destruct Hl as (h & k & Hh & Hn & Hk & -> & Hne & Hcur). exists h, k.
    destruct Hif as [Hv Ht _ _ Hnx _ Hmine].
    split_and!; [done|done|lia|lia|done|done|]. intros Ek.
    destruct Hcur as [-> Hnext]; [lia|]. unfold top in *. rewrite Ht by lia. split; [done|].
    rewrite Hnx; [done|unfold in_width in Hh; lia|]. intros Hbad.
    apply (Hmine _ Hbad); [lia|]. by apply top_in_free.
  - auto.
  - destruct Hl as [Hpr Hst]. split; [auto|]. destruct Hif as [_ _ _ Ho _ _ _]. destruct Hpr as [Hr _].
    rewrite Ho; [done|lia|auto].
  - auto.
  - destruct Hl as [Hpr Hcl]. auto.
  - destruct Hl as (Hpr & Hcl & Hs). split_and!; [by apply Hp|by apply Hc|].
    by apply (seen_interferes x x' mine).
  - destruct Hl as (Hpr & Hcl & Hs & Hn). split_and!; [by apply Hp|by apply Hc| |].
    + by apply (seen_interferes x x' mine).
    + destruct Hif as [_ _ _ _ Hnx _ _]. destruct Hpr as [Hr _]. rewrite Hnx; [done|lia|auto].
Qed.

(** What acting on slots the caller holds, or just acquired, has to show. *)
Definition mine (p p' : pc) (i : Z) : Prop := holds p = Some i \/ holds p' = Some i.

Lemma inv_update (x x' : shared) (cs : list pc) (t : nat) (p p' : pc) :
  inv (MkConc x cs) -> cs !! t = Some p ->
  shared_ok x' -> local_ok x' p' -> interferes x x' (mine p p') ->
  (forall i, holds p' = Some i -> holds p = Some i \/ ~ private x i) ->
  inv (MkConc x' (<[t := p']> cs)).
Proof.
  intros [Hx Hl He] Ht Hx' Hl' Hif Hacq. cbn in *.
  assert (Hother : forall t2 p2 i, t2 <> t -> cs !! t2 = Some p2 -> holds p2 = Some i -> ~ mine p p' i).
  { intros t2 p2 i Hne H2 Hh [Hm|Hm].
    - apply Hne. by eapply He.
    - destruct (Hacq i Hm) as [Hp|Hnp]; [apply Hne; by eapply He|].
      apply Hnp. eapply holds_private; [|exact Hh]. by eapply Hl. }
  assert (Hlt : (t < length cs)%nat) by by eapply lookup_lt_Some.
  split; cbn; [done| |].
  - intros t2 p2 H2. destruct (decide (t = t2)) as [<-|Hne].
    + rewrite list_lookup_insert_eq in H2 by done. by simplify_eq.
    + rewrite list_lookup_insert_ne in H2 by done.
      eapply local_interferes; [exact Hif| |exact Hx|by eapply Hl].
      intros i Hi. by eapply Hother.
  - intros t1 t2 p1 p2 i H1 H2 Hh1 Hh2.
    destruct (decide (t = t1)) as [<-|Hne1], (decide (t = t2)) as [<-|Hne2]; [done|..];
      rewrite ?list_lookup_insert_eq in H1 by done; rewrite ?list_lookup_insert_eq in H2 by done;
      rewrite ?list_lookup_insert_ne in H1 by done; rewrite ?list_lookup_insert_ne in H2 by done;
      simplify_eq.
    + exfalso. apply (Hother t2 p2 i); auto. by right.
    + exfalso. apply (Hother t1 p1 i); auto. by right.
    + by eapply He.
Qed.

Lemma interferes_refl (x : shared) (m : Z -> Prop) :
  (forall i, m i -> i ∉ g_free x) -> interferes x x m.
Proof. intros Hm. split; try done. intros i Hi _. by apply Hm. Qed.

(** A read leaves the shared state alone. *)
Lemma inv_read (x : shared) (cs : list pc) (t : nat) (p p' : pc) :
  inv (MkConc x cs) -> cs !! t = Some p -> local_ok x p' ->
  (forall i, holds p' = Some i -> holds p = Some i) ->
  inv (MkConc x (<[t := p']> cs)).
Proof.
  intros Hinv Ht Hl' Hacq. pose proof Hinv as [Hx Hl _]. eapply inv_update; try done.
  - apply interferes_refl. intros i [Hi|Hi].
    + by destruct (holds_private x p i (Hl t p Ht) Hi) as (_ & ? & _).
    + by destruct (holds_private x p' i Hl' Hi) as (_ & ? & _).
  - intros i Hi. left. auto.
Qed.

Lemma chain_top (nx : list Z) (h : Z) (l : list Z) :
  chain nx h l -> h = default FREE_LIST_EMPTY (list.head l).
Proof. destruct l; cbn; [done|]. by intros [-> _]. Qed.

Lemma lookup_ne_own (x : shared) (i j v : Z) :
  0 <= i -> 0 <= j -> i <> j -> x_own (set_own i v x) !! Z.to_nat j = x_own x !! Z.to_nat j.
Proof. intros. cbn. rewrite list_lookup_insert_ne by lia. done. Qed.

(** Taking the top off the free stack. *)
Lemma inv_pop (x : shared) (cs : list pc) (t : nat) (obs n : Z) :
  inv (MkConc x cs) -> cs !! t = Some (ACas obs n) -> g_version x < 2 ^ 32 -> x_head x = obs ->
  let '(index, generation) := unpack_head obs in
  inv (MkConc (set_head (pack_head n (wrapping_add 32 generation 1)) (list.tail (g_free x)) x)
         (<[t := AOwn index]> cs)).
Proof.
  intros Hinv Ht Hv Ehd. pose proof Hinv as [Hx Hl _]. specialize (Hl t _ Ht). cbn in Hx, Hl.
  destruct Hl as (h & k & Hh & Hn & Hk & -> & Hne & Hcur).
  destruct (head_is_current x h k Hx Hh Hk Hv Ehd) as [-> ->].
  destruct (Hcur eq_refl) as [_ Hnext]. clear Hcur. rewrite unpack_pack by (done || apply tag_width).
  pose proof (top_in_free x Hne) as Hin. pose proof Hx as [Hln Hlo Hld Hv0 _ Hc Hnd Hr Hf Hco].
  destruct (g_free x) as [|h l] eqn:Ef; [by apply not_elem_of_nil in Hin|].
  assert (Et : top x = h) by (unfold top; by rewrite Ef). rewrite Et in *.
  destruct Hc as (_ & n' & Hn' & Hw' & Hc). rewrite Hnext in Hn'. injection Hn' as <-.
  apply NoDup_cons in Hnd as [Hni Hnd]. apply Forall_cons in Hr as [Hhr Hr].
  rewrite wrapping_add_counter by lia. cbn [list.tail].
  eapply inv_update; try done.
  - split; cbn; try done; [lia| | |].
    + unfold top. cbn. by rewrite <- (chain_top _ _ _ Hc).
    + unfold top. cbn. by rewrite <- (chain_top _ _ _ Hc).
    + intros i Hi. apply Hf. by right.
  - cbn. split_and!; [lia|lia|done|]. apply Hf. left.
  - split; cbn; try done; try lia. intros i _ Hi. rewrite Ef. by right.
  - cbn. intros i [= <-]. right. intros (_ & Hbad & _). apply Hbad. rewrite Ef. left.
Qed.

(** Putting a wiped slot back. *)
Lemma inv_push (x : shared) (cs : list pc) (t : nat) (i obs : Z) :
  inv (MkConc x cs) -> cs !! t = Some (FTry i obs) -> x_head x = obs ->
  let '(_, head_generation) := unpack_head obs in
  inv (MkConc (set_head (pack_head (cast 32 i) (wrapping_add 32 head_generation 1)) (i :: g_free x) x)
         (<[t := Idle]> cs)).
Proof.
  intros Hinv Ht <-. pose proof Hinv as [Hx Hl _]. specialize (Hl t _ Ht). cbn in Hx, Hl.
  destruct Hl as ((Hi & Hni & Hfw) & Hcl & _ & Hnx).
  pose proof Hx as [Hln Hlo Hld Hv0 Eh Hc Hnd Hr Hf Hco].
  assert (Hiw : in_width 32 i) by by apply (index_width N).
  rewrite Eh in Hnx |- *. rewrite unpack_pack, wrapping_add_counter by (apply tag_width || lia || by apply top_width).
  rewrite cast_pack in Hnx by (apply tag_width || by apply top_width). rewrite (cast_small 32 i Hiw).
  eapply inv_update; try done.
  - split; cbn; try done; [lia| | | |].
    + split; [done|]. exists (top x). split_and!; [done|by apply top_width..|done].
    + by apply NoDup_cons.
    + by apply Forall_cons.
    + intros j [->|Hj]%elem_of_cons; [done|]. by apply Hf.
  - split; cbn; try done; try lia. intros j Hm [->|Hj]%elem_of_cons; [|done].
    exfalso. apply Hm. by left.
Qed.

(** Handing a slot out: its word gets the allocated bit, its bytes may be written. *)
Lemma inv_claim (x : shared) (cs : list pc) (t : nat) (i st g : Z) :
  inv (MkConc x cs) -> cs !! t = Some (AClaim i st) ->
  inv (MkConc (set_dirty i true (set_own i g x)) (<[t := Idle]> cs)).
Proof.
  intros Hinv Ht. pose proof Hinv as [Hx Hl _]. specialize (Hl t _ Ht). cbn in Hx, Hl.
  destruct Hl as ((Hi & Hni & Hfw) & _). pose proof Hx as [Hln Hlo Hld Hv0 Eh Hc Hnd Hr Hf Hco].
  rewrite Forall_forall in Hr. eapply inv_update; try done.
  - split; cbn; try done; rewrite ?length_insert; try done; [by apply Forall_forall|].
    intros j Hj. assert (i <> j) by congruence. specialize (Hr j Hj). destruct (Hf j Hj) as [[g0 Hg0] Hd].
    split; [exists g0|unfold clean in *]; cbn; by rewrite list_lookup_insert_ne by lia.
  - split; cbn; try done; try (intros j Hj Hm; rewrite list_lookup_insert_ne; [done|];
      intros E; apply Hm; left; cbn; f_equal; lia).
    intros j [[= <-]|Hj] _; [done|by cbn in Hj].
Qed.

(** A matching token takes the slot back into private hands. *)
Lemma inv_release (x : shared) (cs : list pc) (t : nat) (i g : Z) :
  inv (MkConc x cs) -> cs !! t = Some (FCas i g) -> i < N -> in_width 63 g ->
  x_own x !! Z.to_nat i = Some (2 ^ 63 + g) ->
  inv (MkConc (set_own i g x) (<[t := FWipe i]> cs)).
Proof.
  intros Hinv Ht Hi Hg Ho. pose proof Hinv as [Hx Hl _]. specialize (Hl t _ Ht). cbn in Hx, Hl.
  destruct Hl as [Hi0 _]. pose proof Hx as [Hln Hlo Hld Hv0 Eh Hc Hnd Hr Hf Hco].
  rewrite Forall_forall in Hr.
  assert (Hnw : ~ free_word x i).
  { intros (g0 & Hg0 & Hw0). rewrite Ho in Hg0. simplify_eq. unfold in_width in *. lia. }
  assert (Hni : i ∉ g_free x) by (intros Hin; by apply Hnw, Hf).
  eapply inv_update; try done.
  - split; cbn; try done; rewrite ?length_insert; try done; [by apply Forall_forall|].
    intros j Hj. assert (i <> j) by congruence. specialize (Hr j Hj). destruct (Hf j Hj) as [[g0 Hg0] Hd].
    split; [exists g0; cbn; by rewrite list_lookup_insert_ne by lia|done].
  - cbn. split_and!; [lia|lia|done|]. exists g. cbn. by rewrite list_lookup_insert_eq by lia.
  - split; cbn; try done.
    + intros j Hj Hm. rewrite list_lookup_insert_ne; [done|]. intros E. apply Hm. right. cbn. f_equal. lia.
    + intros j [Hj|[= <-]] _; [by cbn in Hj|done].
  - cbn. intros j [= <-]. right. by intros (_ & _ & ?).
Qed.

Lemma inv_wipe (x : shared) (cs : list pc) (t : nat) (i : Z) :
  inv (MkConc x cs) -> cs !! t = Some (FWipe i) ->
  inv (MkConc (set_dirty i false x) (<[t := FLoad i]> cs)).
Proof.
  intros Hinv Ht. pose proof Hinv as [Hx Hl _]. specialize (Hl t _ Ht). cbn in Hx, Hl.
  destruct Hl as (Hi & Hni & Hfw). pose proof Hx as [Hln Hlo Hld Hv0 Eh Hc Hnd Hr Hf Hco].
  rewrite Forall_forall in Hr. eapply inv_update; try done.
  - split; cbn; try done; rewrite ?length_insert; try done; [by apply Forall_forall|].
    intros j Hj. assert (i <> j) by congruence. specialize (Hr j Hj). destruct (Hf j Hj) as [Hg0 Hd].
    split; [done|unfold clean in *]; cbn; by rewrite list_lookup_insert_ne by lia.
  - cbn. split; [done|]. unfold clean. cbn. apply list_lookup_insert_eq. lia.
  - split; cbn; try done.
    + intros j Hj Hm. rewrite list_lookup_insert_ne; [done|]. intros E. apply Hm. left. cbn. f_equal. lia.
    + intros j [[= <-]|[= <-]] _; done.
  - cbn. auto.
Qed.

Lemma inv_link (x : shared) (cs : list pc) (t : nat) (i obs : Z) :
  inv (MkConc x cs) -> cs !! t = Some (FStore i obs) ->
  inv (MkConc (set_next i (cast 32 obs) x) (<[t := FTry i obs]> cs)).
Proof.
  intros Hinv Ht. pose proof Hinv as [Hx Hl _]. specialize (Hl t _ Ht). cbn in Hx, Hl.
  destruct Hl as ((Hi & Hni & Hfw) & Hcl & Hs). pose proof Hx as [Hln Hlo Hld Hv0 Eh Hc Hnd Hr Hf Hco].
  assert (Hif : interferes x (set_next i (cast 32 obs) x) (mine (FStore i obs) (FTry i obs))).
  { split; cbn; try done.
    - intros j Hj Hm. rewrite list_lookup_insert_ne; [done|]. intros E. apply Hm. left. cbn. f_equal. lia.
    - intros j [[= <-]|[= <-]] _; done. }
  eapply inv_update; try done.
  - split; cbn; try done; rewrite ?length_insert; try done. apply (chain_insert N); [lia|done..].
  - cbn. split_and!; [done|done|by eapply seen_interferes|]. apply list_lookup_insert_eq. lia.
  - cbn. auto.
Qed.

Lemma inv_access (x x' : shared) (cs : list pc) (t : nat) (p p' : pc) (sp : bool) :
  inv (MkConc x cs) -> g_version x < 2 ^ 32 -> cs !! t = Some p ->
  next_access N sp x p = Some (x', p') -> inv (MkConc x' (<[t := p']> cs)).
Proof.
  intros Hinv Hv Ht E. pose proof Hinv as [Hx Hl _]. specialize (Hl t _ Ht). cbn in Hx, Hl.
  destruct p as [| |obs|obs n|i|i st|i g|i|i|i obs|i obs]; cbn [next_access local_ok] in *.
  - done.
  - injection E as <- <-. eapply inv_read; try done. by apply seen_head.
  - destruct Hl as (h & k & Hh & _ & Hk & -> & Hcur). rewrite unpack_pack in E by (done || apply tag_width).
    destruct (Z.eqb_spec h FREE_LIST_EMPTY) as [|Hne]; [injection E as <- <-; by eapply inv_read|].
    destruct (x_next x !! Z.to_nat h) as [n|] eqn:En; [|done]. cbn in E. injection E as <- <-.
    eapply inv_read; try done. exists h, k.
    split_and!; [done|apply Z.mod_pos_bound; lia|lia|lia|done|done|].
    intros Ek. specialize (Hcur Ek). split; [done|]. rewrite En. f_equal. subst h.
    pose proof (so_chain x Hx) as Hc. unfold top in *. destruct (g_free x); [done|].
    destruct Hc as (_ & n' & Hn' & Hw & _). cbn in En. rewrite En in Hn'. injection Hn' as <-.
    symmetry. by apply cast_small.
  - pose proof (inv_pop x cs t obs n Hinv Ht Hv) as Hpop.
    destruct (unpack_head obs) as [index generation].
    destruct (negb sp && (x_head x =? obs)) eqn:Ec; injection E as <- <-.
    + apply andb_true_iff in Ec as [_ Ec%Z.eqb_eq]. by apply Hpop.
    + eapply inv_read; try done. by apply seen_head.
  - destruct (x_own x !! Z.to_nat i) as [st|] eqn:Eo; [|done]. cbn in E. injection E as <- <-.
    by eapply inv_read.
  - destruct Hl as [Hp Ho]. rewrite Ho in E. cbn in E. rewrite Z.eqb_refl in E. injection E as <- <-.
    by eapply inv_claim.
  - destruct Hl as [Hi Hg]. destruct (Z.leb_spec N i); [injection E as <- <-; by eapply inv_read|].
    destruct (Z.ltb_spec OWNERSHIP_GENERATION_MASK g) as [|Hle]; [injection E as <- <-; by eapply inv_read|].
    assert (Hg63 : in_width 63 g).
    { unfold OWNERSHIP_GENERATION_MASK in Hle. rewrite allocated_bit in Hle. unfold in_width. lia. }
    destruct (x_own x !! Z.to_nat i) as [cur|] eqn:Eo; [|done]. cbn in E.
    rewrite lor_allocated in E by done.
    destruct (Z.eqb_spec cur (2 ^ 63 + g)) as [->|]; injection E as <- <-; [by eapply inv_release|by eapply inv_read].
  - injection E as <- <-. by eapply inv_wipe.
  - injection E as <- <-. eapply inv_read; try done. destruct Hl as [Hp Hc]. split_and!; [exact Hp|done|by apply seen_head].
  - injection E as <- <-. by eapply inv_link.
  - pose proof (inv_push x cs t i obs Hinv Ht) as Hpush.
    destruct (unpack_head obs) as [index generation].
    destruct (negb sp && (x_head x =? obs)) eqn:Ec; injection E as <- <-.
    + apply andb_true_iff in Ec as [_ Ec%Z.eqb_eq]. by apply Hpush.
    + eapply inv_read; try done. destruct Hl as (Hp & Hc & _). split_and!; [exact Hp|done|by apply seen_head].
Qed.

Lemma dma_inv_step (c c' : conc) : inv c -> g_version (sh c) < 2 ^ 32 -> step N c c' -> inv c'.
Proof.
  intros Hinv Hv Hst. destruct Hst as [x cs t Ht|x cs t i g Ht Hi Hg|x cs t p sp x' p' Ht E].
  - by eapply inv_read.
  - by eapply inv_read.
  - by eapply inv_access.
Qed.

Lemma version_step (c c' : conc) : step N c c' -> g_version (sh c) <= g_version (sh c').
Proof.
  intros Hst. destruct Hst as [x cs t Ht|x cs t i g Ht Hi Hg|x cs t p sp x' p' Ht E]; cbn; [lia|lia|].
  destruct p as [| |obs|obs n|i|i st|i g|i|i|i obs|i obs]; cbn [next_access] in E.
  all: repeat (case_match; simplify_eq; cbn; try lia).
  all: try (destruct (x_next x !! _) in E; cbn in E; simplify_eq; lia).
  all: try (destruct (x_own x !! _) in E; cbn in E; repeat case_match; simplify_eq; cbn; lia).
  all: simplify_eq; cbn; lia.
Qed.

Lemma start_linked : linked N (x_next (sh (start N 0))) (Z.to_nat N).
Proof.
  intros k Hk. cbn. rewrite list_lookup_imap, lookup_replicate_2 by done. done.
Qed.

Lemma dma_inv_start (n : nat) : inv (start N n).
Proof.
  assert (Etop : top (sh (start N n)) = 0).
  { unfold top. cbn. rewrite seqZ_cons by lia. done. }
  split.
  - split.
    + cbn. by rewrite length_imap, length_replicate.
    + apply length_replicate.
    + apply length_replicate.
    + done.
    + by rewrite Etop.
    + rewrite Etop. pose proof (linked_chain N N_ok _ 0 start_linked) as Hc. change (Z.of_nat 0) with 0 in Hc.
      rewrite (proj2 (Z.ltb_lt 0 N)), Z.sub_0_r in Hc by lia. apply Hc. lia.
    + apply NoDup_seqZ.
    + apply Forall_forall. cbn. intros k Hk%elem_of_seqZ. lia.
    + cbn. intros k Hk%elem_of_seqZ. unfold free_word, clean. cbn. split.
      * exists 0. split; [|done]. apply lookup_replicate_2. lia.
      * apply lookup_replicate_2. lia.
    + done.
  - cbn. intros t p Hp. by apply lookup_replicate in Hp as [-> _].
  - cbn. intros t1 t2 p1 p2 i H1 H2 Hh. by apply lookup_replicate in H1 as [-> _].
Qed.

Lemma dma_inv_reachable (n : nat) (c : conc) :
  rtc (step N) (start N n) c -> g_version (sh c) < 2 ^ 32 -> inv c.
Proof.
  apply (rtc_ind_r (fun c => g_version (sh c) < 2 ^ 32 -> inv c)); [intros _; apply dma_inv_start|].
  intros c1 c2 _ Hst IH Hv. pose proof (version_step c1 c2 Hst).
  apply (dma_inv_step c1); [apply IH; lia|lia|done].
Qed.

End invariant.

(** * Claims *)

(** C7: under every interleaving of any number of callers, and every pattern of
    spurious exchange failures, while the head was mutated fewer than 2^32 times
    (the operating bound the module documents): following [next] from the packed
    head visits exactly the free stack, once each; a slot a caller has taken off
    the stack or is giving back is held by no other caller, is not on the stack and
    is not handed out; a handed-out slot is not on the stack; every slot on the
    stack was wiped since it was last handed out; and no allocation ever meets the
    corruption answer. *)
Theorem dma_interleaved_safe (N : Z) (n : nat) (c : conc) :
  0 < N <= u32_max -> rtc (step N) (start N n) c -> g_version (sh c) < 2 ^ 32 ->
  let x := sh c in
  chain (x_next x) (unpack_head (x_head x)).1 (g_free x) /\ NoDup (g_free x) /\
  (forall t1 t2 p1 p2 i, callers c !! t1 = Some p1 -> callers c !! t2 = Some p2 ->
     holds p1 = Some i -> holds p2 = Some i -> t1 = t2) /\
  (forall t p i, callers c !! t = Some p -> holds p = Some i -> (i ∉ g_free x) /\ ~ allocated x i) /\
  (forall i, allocated x i -> i ∉ g_free x) /\
  (forall i, i ∈ g_free x -> g_dirty x !! Z.to_nat i = Some false) /\
  g_corrupt x = 0%nat.
Proof.
  intros HN Hr Hv x. pose proof (dma_inv_reachable N HN n c Hr Hv) as [Hx Hl He]. fold x in Hx, Hl.
  assert (Hword : forall i, free_word x i -> ~ allocated x i).
  { intros i (g & Hg & Hw) (g' & Hg' & Hw'). rewrite Hg in Hg'. simplify_eq. unfold in_width in *. lia. }
  split_and!.
  - rewrite (so_head N x Hx), unpack_pack by (apply tag_width || by apply (top_width N)). apply Hx.
  - apply Hx.
  - exact He.
  - intros t p i Ht Hh. destruct (holds_private N x p i (Hl t p Ht) Hh) as (_ & Hni & Hfw). auto.
  - intros i Ha Hin. by apply (Hword i); [apply (so_free N x Hx)|].
  - intros i Hin. by apply (so_free N x Hx).
  - apply Hx.
Qed.

(** Caller [t] makes [k] accesses in a row. *)
Fixpoint burst (N : Z) (t k : nat) (c : conc) : conc :=
  match k with
  | O => c
  | S k' =>
      match callers c !! t with
      | Some p => match next_access N false (sh c) p with
                  | Some (x', p') => burst N t k' (MkConc x' (<[t := p']> (callers c)))
                  | None => c
                  end
      | None => c
      end
  end.

Lemma burst_steps (N : Z) (t k : nat) (c : conc) : rtc (step N) c (burst N t k c).
Proof.
  revert c. induction k as [|k IH]; intros [x cs]; cbn; [done|].
  destruct (cs !! t) as [p|] eqn:Ep; [|done].
  destruct (next_access N false x p) as [[x' p']|] eqn:E; [|done].
  eapply rtc_l; [by eapply step_access|apply IH].
Qed.

(** Two callers race for slot 0: the first has read [next], the second takes the
    slot, and the first's exchange fails and takes slot 1. *)
Definition sample_start : conc := start 2 2.
Definition sample_called : conc :=
  MkConc (sh sample_start) (<[1%nat := ALoad]> (<[0%nat := ALoad]> (callers sample_start))).
Definition sample_race : conc := burst 2 0 4 (burst 2 1 5 (burst 2 0 2 sample_called)).

Lemma sample_race_reachable : rtc (step 2) (start 2 2) sample_race.
Proof.
  eapply rtc_l; [by apply (step_allocate 2 (sh sample_start) (callers sample_start) 0)|].
  eapply rtc_l; [by apply (step_allocate 2 (sh sample_start) (<[0%nat := ALoad]> (callers sample_start)) 1)|].
  unfold sample_race, sample_called.
  etrans; [apply (burst_steps 2 0 2)|]. etrans; [apply (burst_steps 2 1 5)|]. apply burst_steps.
Qed.

Lemma dma_interleaved_safe_witness :
  callers sample_race = [AClaim 1 0; Idle] /\ allocated (sh sample_race) 0 /\
  (1 ∉ g_free (sh sample_race)) /\ ~ allocated (sh sample_race) 1 /\ g_corrupt (sh sample_race) = 0%nat.
Proof.
  destruct (dma_interleaved_safe 2 2 sample_race ltac:(done) sample_race_reachable ltac:(reflexivity))
    as (_ & _ & _ & Hh & _ & _ & Hco).
  destruct (Hh 0%nat (AClaim 1 0) 1) as [H1 H2]; [vm_compute; reflexivity|reflexivity|].
  split; [vm_compute; reflexivity|]. split; [by exists 1; vm_compute|]. split; [exact H1|]. split; [exact H2|exact Hco].
Defined.

End DConc.
