(* ===== verification/DmaProgress.v ===== *)
(** static_dma_pool.rs under interleaving: progress.

    Neither loop of the pool has a bound of its own: an exchange that meets a changed
    head starts over. What is promised is that the callers as a whole move. The
    measure is the number of accesses each caller still needs if nobody else
    changes the head; a change of the head costs every other caller at most one more
    round, and an operation changes the head at most once. *)

From stdpp Require Import list_numbers.
From S2P Require Import Prelude RtosHost DmaPool DmaConc.
Import Dma DConc.
Local Open Scope Z_scope.

Module DProgress.

(** * Counting *)

Record tally : Type := MkTally {
  started : nat;     (** calls begun *)
  completed : nat;   (** calls returned *)
  accesses : nat;    (** accesses made *)
  failures : nat     (** weak exchanges that failed although the head matched *)
}.

Definition idle (p : pc) : bool := match p with Idle => true | _ => false end.

(** A weak exchange fails for no reason. *)
Definition fails (spurious : bool) (x : shared) (p : pc) : bool :=
  match p with ACas observed _ | FTry _ observed => spurious && (x_head x =? observed) | _ => false end.

Definition count (spurious : bool) (x : shared) (p p' : pc) (k : tally) : tally :=
  MkTally (started k)
    (if idle p' then S (completed k) else completed k) (S (accesses k))
    (if fails spurious x p then S (failures k) else failures k).

Section machine.
Variable N : Z.

(** The steps of [DConc.step], counted. *)
Inductive counted : conc * tally -> conc * tally -> Prop :=
| counted_start x cs t p k :
    cs !! t = Some Idle -> (p = ALoad \/ exists i g, p = FCas i g /\ 0 <= i /\ 0 <= g) ->
    counted (MkConc x cs, k)
      (MkConc x (<[t := p]> cs), MkTally (S (started k)) (completed k) (accesses k) (failures k))
| counted_access x cs t p sp x' p' k :
    cs !! t = Some p -> next_access N sp x p = Some (x', p') ->
    counted (MkConc x cs, k) (MkConc x' (<[t := p']> cs), count sp x p p' k).

Lemma counted_step (a b : conc * tally) : counted a b -> step N a.1 b.1.
Proof.
  intros [x cs t p k Ht [->|(i & g & -> & Hi & Hg)]|]; cbn; [by apply step_allocate|by apply step_free|].
  by eapply step_access.
Qed.

(** * The measure *)

Definition stale (x : shared) (observed : Z) : nat := if x_head x =? observed then 0 else 2.

(** Accesses to the end of the call if the head stays what it is. *)
Definition left_to_do (x : shared) (p : pc) : nat :=
  match p with
  | Idle => 0
  | ALoad => 5
  | ANext observed => 4 + stale x observed
  | ACas observed _ => 3 + stale x observed
  | AOwn _ => 2
  | AClaim _ _ => 1
  | FCas _ _ => 5
  | FWipe _ => 4
  | FLoad _ => 3
  | FStore _ observed => 2 + stale x observed
  | FTry _ observed => 1 + stale x observed
  end.

(** Head changes a call may still make. *)
Definition changes_left (p : pc) : nat :=
  match p with Idle | AOwn _ | AClaim _ _ => 0 | _ => 1 end.
Definition busy (p : pc) : nat := match p with Idle => 0 | _ => 1 end.

Lemma left_after (x x' : shared) (p : pc) : (left_to_do x' p <= left_to_do x p + 2)%nat.
Proof. destruct p; cbn; unfold stale; repeat case_match; lia. Qed.

Lemma left_same_head (x x' : shared) (p : pc) : x_head x' = x_head x -> left_to_do x' p = left_to_do x p.
Proof. intros E. destruct p; cbn; unfold stale; by rewrite ?E. Qed.

Lemma stale_head (x : shared) : stale x (x_head x) = 0%nat.
Proof. unfold stale. by rewrite Z.eqb_refl. Qed.

Ltac measured :=
  match goal with E : _ = Some _ |- _ => cbn in E; injection E as <- <- end;
  cbn; rewrite ?stale_head; unfold stale; cbn;
  split; [lia|]; split; [first [left; split_and!; (done || lia) | right; split_and!; (done || intros; lia)]|]; split; lia.

(** One access of a caller against its own measure. *)
Lemma access_measure (sp : bool) (x x' : shared) (p p' : pc) :
  next_access N sp x p = Some (x', p') ->
  (S (left_to_do x' p') <= left_to_do x p + (if fails sp x p then 2 else 0))%nat /\
  (x_head x' = x_head x /\ g_version x' = g_version x /\ (changes_left p' <= changes_left p)%nat \/
   g_version x' = g_version x + 1 /\ changes_left p = 1%nat /\ changes_left p' = 0%nat /\
     forall y, (left_to_do x p <= left_to_do y p)%nat) /\
  busy p = 1%nat /\ (busy p' + (if idle p' then 1 else 0) = 1)%nat.
Proof.
  destruct p as [| |obs|obs n|i|i st|i g|i|i|i obs|i obs]; cbn [next_access fails]; intros E; [done|..].
  - by measured.
  - destruct (unpack_head obs) as [index tag]. destruct (index =? FREE_LIST_EMPTY); [by measured|].
    destruct (x_next x !! _); [|done]. by measured.
  - destruct (unpack_head obs) as [index tag]. cbn [left_to_do]. unfold stale.
    destruct sp, (Z.eqb_spec (x_head x) obs) as [<-|]; by measured.
  - destruct (x_own x !! _); [|done]. by measured.
  - destruct (x_own x !! _) as [v|]; [|done]. cbn in E. destruct (v =? st); by measured.
  - destruct (N <=? i); [by measured|]. destruct (_ <? g); [by measured|].
    destruct (x_own x !! _) as [v|]; [|done]. cbn in E. destruct (v =? _); by measured.
  - by measured.
  - by measured.
  - by measured.
  - destruct (unpack_head obs) as [index tag]. cbn [left_to_do]. unfold stale.
    destruct sp, (Z.eqb_spec (x_head x) obs) as [<-|]; by measured.
Qed.

(** * Sums over the callers *)

Lemma sum_insert {A} (f : A -> nat) (l : list A) (t : nat) (p p' : A) :
  l !! t = Some p -> (sum_list_with f (<[t := p']> l) + f p = sum_list_with f l + f p')%nat.
Proof.
  revert t. induction l as [|a l IH]; intros [|t] E; [done|done|..]; cbn in *.
  - injection E as ->. lia.
  - specialize (IH t E). unfold insert at 1. lia.
Qed.

Lemma sum_le {A} (f g : A -> nat) (d : nat) (l : list A) :
  (forall a, f a <= g a + d)%nat -> (sum_list_with f l <= sum_list_with g l + d * length l)%nat.
Proof. intros Hfg. induction l as [|a l IH]; cbn; [lia|]. specialize (Hfg a). lia. Qed.

Definition work (c : conc) : nat := sum_list_with (left_to_do (sh c)) (callers c).

(** What the counts say of each other. *)
Record accounts (n : nat) (c : conc) (k : tally) : Prop := {
  ac_callers : length (callers c) = n;
  ac_calls : (completed k + sum_list_with busy (callers c) = started k)%nat;
  ac_version : 0 <= g_version (sh c) /\
    (Z.to_nat (g_version (sh c)) + sum_list_with changes_left (callers c) <= started k)%nat;
  ac_work : (accesses k + work c <=
    5 * started k + 2 * n * Z.to_nat (g_version (sh c)) + 2 * failures k)%nat
}.

Lemma accounts_start (n : nat) : accounts n (start N n) (MkTally 0 0 0 0).
Proof.
  assert (Hz : forall f : pc -> nat, f Idle = 0%nat -> sum_list_with f (replicate n Idle) = 0%nat).
  { intros f E. induction n as [|m IH]; cbn; [done|]. rewrite E. exact IH. }
  split; cbn.
  - apply length_replicate.
  - by rewrite Hz.
  - by rewrite Hz.
  - unfold work. cbn. rewrite Hz by done. lia.
Qed.

Lemma accounts_step (n : nat) (a b : conc * tally) :
  counted a b -> accounts n a.1 a.2 -> accounts n b.1 b.2.
Proof.
  intros [x cs t p k Ht Hp|x cs t p sp x' p' k Ht E] [Hn Hc [Hv Hg] Hw]; cbn in *; unfold work in *; cbn in *.
  - assert (Hl : left_to_do x p = 5%nat /\ busy p = 1%nat /\ changes_left p = 1%nat).
    { by destruct Hp as [->|(i & g & -> & _)]. }
    destruct Hl as (Hl & Hb & Hch). pose proof (sum_insert (left_to_do x) cs t Idle p Ht) as S1.
    pose proof (sum_insert busy cs t Idle p Ht) as S2. pose proof (sum_insert changes_left cs t Idle p Ht) as S3.
    cbn in S1, S2, S3. split; cbn; [by rewrite length_insert|lia|lia|unfold work; cbn; lia].
  - destruct (access_measure _ _ _ _ _ E) as (Hm & Hh & Hb & Hb').
    pose proof (sum_insert (left_to_do x') cs t p p' Ht) as S1.
    pose proof (sum_insert busy cs t p p' Ht) as S2. pose proof (sum_insert changes_left cs t p p' Ht) as S3.
    assert (Hf : (failures (count sp x p p' k) = failures k + if fails sp x p then 1 else 0)%nat).
    { cbn. destruct (fails sp x p); lia. }
    assert (Hd : (completed (count sp x p p' k) = completed k + if idle p' then 1 else 0)%nat).
    { cbn. destruct (idle p'); lia. }
    split; cbn [sh callers started accesses count]; [by rewrite length_insert|rewrite Hd; lia|..].
    + destruct Hh as [(_ & -> & ?)|(-> & ? & ? & _)]; lia.
    + rewrite Hf. unfold work. cbn [sh callers]. destruct Hh as [(Hh & -> & _)|(Ev & _ & _ & Hmin)].
      * assert (sum_list_with (left_to_do x') cs <= sum_list_with (left_to_do x) cs)%nat.
        { pose proof (sum_le (left_to_do x') (left_to_do x) 0 cs) as Hs.
          rewrite Nat.mul_0_l, Nat.add_0_r in Hs. apply Hs. intros q. rewrite (left_same_head x x') by done. lia. }
        rewrite (left_same_head x x' p) in S1 by done. destruct (fails sp x p); lia.
      * pose proof (sum_le (left_to_do x') (left_to_do x) 2 cs (left_after x x')) as Hs.
        specialize (Hmin x').
        rewrite Ev, Z2Nat.inj_add by lia. destruct (fails sp x p); nia.
Qed.

Lemma accounts_run (n : nat) (c : conc) (k : tally) :
  rtc counted (start N n, MkTally 0 0 0 0) (c, k) -> accounts n c k.
Proof.
  intros Hr. change c with (c, k).1. change k with (c, k).2 at 2. revert Hr. generalize (c, k). clear c k.
  apply (rtc_ind_r (fun a => accounts n a.1 a.2)); [apply accounts_start|].
  intros a b _ Hst IH. by eapply accounts_step.
Qed.

(** The accesses of a run are paid for by the calls that returned, the calls still
    open and the exchanges that failed for no reason. *)
Lemma accesses_bound (n : nat) (c : conc) (k : tally) :
  rtc counted (start N n, MkTally 0 0 0 0) (c, k) ->
  (started k <= completed k + n)%nat /\
  (accesses k <= (5 + 2 * n) * (completed k + n) + 2 * failures k)%nat.
Proof.
  intros Hr. destruct (accounts_run n c k Hr) as [Hn Hc [Hv Hg] Hw].
  assert (Hb : (sum_list_with busy (callers c) <= n)%nat).
  { rewrite <- Hn. clear. induction (callers c) as [|p cs IH]; cbn; [lia|]. destruct p; cbn; lia. }
  split; [lia|]. nia.
Qed.

End machine.

(** * No caller is ever stuck *)

(** Inside a call the next access is always defined: no index is out of range. *)
Theorem dma_caller_moves (N : Z) (n : nat) (c : conc) (t : nat) (p : pc) (sp : bool) :
  0 < N <= u32_max -> rtc (step N) (start N n) c -> g_version (sh c) < 2 ^ 32 ->
  callers c !! t = Some p -> p <> Idle -> is_Some (next_access N sp (sh c) p).
Proof.
  intros HN Hr Hv Ht Hp. destruct (dma_inv_reachable N HN n c Hr Hv) as [Hx Hl _]. specialize (Hl t p Ht).
  destruct Hx as [Hn Ho _ _ _ _ _ _ _ _].
  assert (Hown : forall i, 0 <= i < N -> is_Some (x_own (sh c) !! Z.to_nat i)).
  { intros i Hi. apply lookup_lt_is_Some_2. lia. }
  destruct p as [| |obs|obs m|i|i st|i g|i|i|i obs|i obs]; cbn [next_access local_ok] in *; try done.
  - destruct Hl as (h & k & Hh & Hr' & _ & -> & _). rewrite unpack_pack by (done || apply tag_width).
    destruct (Z.eqb_spec h FREE_LIST_EMPTY); [done|].
    destruct (lookup_lt_is_Some_2 (x_next (sh c)) (Z.to_nat h)) as [v ->]; [unfold in_width in Hh; lia|done].
  - destruct (unpack_head obs). by case_match.
  - destruct Hl as [Hi _]. by destruct (Hown i Hi) as [v ->].
  - destruct Hl as [[Hi _] _]. destruct (Hown i Hi) as [v ->]. cbn. by case_match.
  - destruct (Z.leb_spec N i); [done|]. destruct (_ <? g); [done|].
    destruct (Hown i) as [v ->]; [lia|]. cbn. by case_match.
  - destruct (unpack_head obs). by case_match.
Qed.

(** * Claims *)

(** C9: the pool is lock-free. Take any unending execution by any number of
    callers, each step a new call or one access, scheduled in any way at all (some
    callers may be suspended for ever inside a call), in which weak exchanges fail
    without reason only finitely often. Then calls keep returning: every number of
    returned calls is passed. *)
Theorem dma_lock_free (N : Z) (n bound : nat) (run : nat -> conc * tally) :
  run 0%nat = (start N n, MkTally 0 0 0 0) ->
  (forall i, counted N (run i) (run (S i))) ->
  (forall i, failures (run i).2 <= bound)%nat ->
  forall k, exists i, (k <= completed (run i).2)%nat.
Proof.
  intros H0 Hst Hf k. exists ((6 + 2 * n) * (k + n) + 2 * bound)%nat. set (i := (_ + 2 * bound)%nat).
  assert (Hr : forall j, rtc (counted N) (start N n, MkTally 0 0 0 0) (run j)).
  { intros j. rewrite <- H0. induction j as [|j IH]; [done|]. eapply rtc_r; [exact IH|apply Hst]. }
  assert (Hsteps : forall j, (started (run j).2 + accesses (run j).2 = j)%nat).
  { intros j. induction j as [|j IH]; [by rewrite H0|]. destruct (Hst j); cbn in *; lia. }
  specialize (Hsteps i). specialize (Hf i). specialize (Hr i). destruct (run i) as [c y]. cbn in *.
  destruct (accesses_bound N n c y Hr) as [Hs Ha]. subst i. nia.
Qed.

(** ** Two callers in turn, allocating for ever from a pool of one slot *)

Definition turn (N : Z) (t : nat) (a : conc * tally) : conc * tally :=
  let '(MkConc x cs, k) := a in
  match cs !! t with
  | Some Idle =>
      (MkConc x (<[t := ALoad]> cs), MkTally (S (started k)) (completed k) (accesses k) (failures k))
  | Some p =>
      match next_access N false x p with
      | Some (x', p') => (MkConc x' (<[t := p']> cs), count false x p p' k)
      | None => a
      end
  | None => a
  end.

Definition can_turn (N : Z) (t : nat) (a : conc * tally) : bool :=
  match callers a.1 !! t with
  | Some Idle => true
  | Some p => match next_access N false (sh a.1) p with Some _ => true | None => false end
  | None => false
  end.

Lemma turn_counted (N : Z) (t : nat) (a : conc * tally) :
  can_turn N t a = true -> counted N a (turn N t a) /\ failures (turn N t a).2 = failures a.2.
Proof.
  destruct a as [[x cs] k]. unfold can_turn, turn. cbn [fst snd callers sh].
  destruct (cs !! t) as [p|] eqn:Et; [|done]. destruct p eqn:Ep.
  1: { intros _. split; [|done]. apply counted_start; [done|by left]. }
  all: rewrite <- Ep in *; destruct (next_access N false x p) as [[x' p']|] eqn:E; [|done]; intros _;
    (split; [by eapply counted_access|]); cbn; subst p; done.
Qed.

Fixpoint in_turn (i : nat) : conc * tally :=
  match i with
  | O => (start 1 2, MkTally 0 0 0 0)
  | S j => turn 1 (j mod 2) (in_turn j)
  end.

(** The slot is handed out and neither caller is past the check for it. *)
Definition exhausted (a : conc * tally) : Prop :=
  (unpack_head (x_head (sh a.1))).1 = FREE_LIST_EMPTY /\ length (callers a.1) = 2%nat /\
  Forall (fun p => p = Idle \/ p = ALoad \/ p = ANext (x_head (sh a.1))) (callers a.1).

Lemma exhausted_turn (t : nat) (a : conc * tally) :
  (t < 2)%nat -> exhausted a -> can_turn 1 t a = true /\ exhausted (turn 1 t a).
Proof.
  destruct a as [[x cs] k]. unfold exhausted, can_turn, turn. cbn [fst snd callers sh]. intros Ht (Hx & Hl & Hcs).
  destruct (lookup_lt_is_Some_2 cs t) as [p Ep]; [lia|]. rewrite Ep.
  destruct (Forall_lookup_1 _ _ _ _ Hcs Ep) as [->|[->| ->]]; cbn [next_access].
  - split; [done|]. cbn. rewrite length_insert. split_and!; [done|done|]. apply Forall_insert; auto.
  - split; [done|]. cbn. rewrite length_insert. split_and!; [done|done|]. apply Forall_insert; auto.
  - destruct (unpack_head (x_head x)) as [index tag] eqn:Eu. cbn in Hx. subst index. rewrite Z.eqb_refl.
    split; [done|]. cbn [fst snd sh callers]. rewrite length_insert, Eu. split_and!; [done|done|].
    apply Forall_insert; auto.
Qed.

Lemma exhausted_stays (i j : nat) : exhausted (in_turn i) -> exhausted (in_turn (j + i)).
Proof.
  intros Hi. induction j as [|j IH]; [exact Hi|]. cbn [Nat.add in_turn].
  apply exhausted_turn; [by apply Nat.mod_upper_bound|exact IH].
Qed.

Definition sample_exhausted : conc * tally :=
  (MkConc (MkShared 8589934591 [4294967295] [9223372036854775809] [] 1 [true] 0) [ALoad; ALoad], MkTally 4 2 9 0).

Lemma sample_exhausted_reached : in_turn 13 = sample_exhausted.
Proof. vm_compute. reflexivity. Qed.

Lemma sample_exhausted_ok : exhausted sample_exhausted.
Proof.
  split; [done|]. split; [done|]. apply Forall_cons_2; [by right; left|]. apply Forall_cons_2; [by right; left|done].
Qed.

Lemma first_turns : forallb (fun i => can_turn 1 (i mod 2) (in_turn i)) (seq 0 13) = true.
Proof. vm_compute. reflexivity. Qed.

Lemma in_turn_alive (i : nat) : can_turn 1 (i mod 2) (in_turn i) = true.
Proof.
  destruct (decide (i < 13)%nat) as [Hi|Hi].
  - apply (proj1 (forallb_forall _ _) first_turns). apply in_seq. lia.
  - apply exhausted_turn; [by apply Nat.mod_upper_bound|].
    replace i with ((i - 13) + 13)%nat by lia. apply exhausted_stays.
    rewrite sample_exhausted_reached. apply sample_exhausted_ok.
Qed.

Lemma dma_lock_free_witness : exists i, (1000 <= completed (in_turn i).2)%nat.
Proof.
  apply (dma_lock_free 1 2 0 in_turn).
  - reflexivity.
  - intros i. apply turn_counted. apply in_turn_alive.
  - intros i. induction i as [|i IH]; [reflexivity|]. cbn [in_turn].
    rewrite (proj2 (turn_counted 1 (i mod 2) (in_turn i) (in_turn_alive i))). exact IH.
Defined.

End DProgress.
