(* ===== verification/StateMachine.v ===== *)
(** state_machine.rs: the enclave life cycle behind one atomic byte.

    [try_advance] is a compare-exchange loop. It is modelled twice: run alone,
    with the weak exchange failing spuriously as a list of booleans says, and cut
    at each access with any number of concurrent callers ([step]), where a ghost
    list records every value the byte has held. *)

From S2P Require Import Prelude.
Local Open Scope Z_scope.

Module SM.

Inductive EnclaveState : Type := Init | Bootstrapping | Operational | Degraded | Terminal.

#[export] Instance EnclaveState_eq_dec : EqDecision EnclaveState.
Proof. solve_decision. Defined.

(** [target as u8] *)
Definition code (s : EnclaveState) : Z :=
  match s with Init => 0 | Bootstrapping => 1 | Operational => 2 | Degraded => 3 | Terminal => 4 end.

Record StateMachine : Type := MkSM { current_state : Z }.

Definition new : StateMachine := MkSM (code Init).

(** The [matches!] table. *)
Definition valid (current target : Z) : bool :=
  match current, target with
  | 0, 1 | 1, 2 | 1, 4 | 2, 3 | 2, 4 | 3, 4 | 3, 2 => true
  | _, _ => false
  end.

Fixpoint advance_loop (fuel : nat) (spurious : list bool) (target current : Z)
  : M StateMachine (result unit unit) :=
  match fuel with
  | O => halt
  | S fuel' =>
    if negb (valid current target) then mret (Err tt) else
    m ← get;
    if negb (default false (list.head spurious)) && (current_state m =? current)
    then put (MkSM target) ;; mret (Ok tt)
    else advance_loop fuel' (list.tail spurious) target (current_state m)
  end.

Definition try_advance (fuel : nat) (spurious : list bool) (target : EnclaveState)
  : M StateMachine (result unit unit) :=
  m ← get; advance_loop fuel spurious (code target) (current_state m).

Definition get_state : M StateMachine Z := m ← get; mret (current_state m).

(** * Concurrent callers *)

Inductive pc : Type :=
| Idle
| Load (target : EnclaveState)
| Try (target : EnclaveState) (current : Z).

Record conc : Type := MkConc {
  byte_ : Z;
  callers : list pc;
  history : list Z;             (** ghost: values the byte has held, newest first *)
  answers : list (EnclaveState * bool * list Z)
    (** ghost: calls that returned, with the history at that moment *)
}.

Inductive step : conc -> conc -> Prop :=
| step_call b cs h a t target : cs !! t = Some Idle ->
    step (MkConc b cs h a) (MkConc b (<[t := Load target]> cs) h a)
| step_load b cs h a t target : cs !! t = Some (Load target) ->
    step (MkConc b cs h a) (MkConc b (<[t := Try target b]> cs) h a)
| step_refuse b cs h a t target current : cs !! t = Some (Try target current) ->
    valid current (code target) = false ->
    step (MkConc b cs h a) (MkConc b (<[t := Idle]> cs) h ((target, false, h) :: a))
| step_win b cs h a t target current : cs !! t = Some (Try target current) ->
    valid current (code target) = true -> b = current ->
    step (MkConc b cs h a)
      (MkConc (code target) (<[t := Idle]> cs) (code target :: h) ((target, true, code target :: h) :: a))
| step_retry b cs h a t target current : cs !! t = Some (Try target current) ->
    valid current (code target) = true ->
    (** another value was found, or the weak exchange failed spuriously *)
    step (MkConc b cs h a) (MkConc b (<[t := Try target b]> cs) h a).

Definition start (n : nat) : conc := MkConc (code Init) (replicate n Idle) [code Init] [].

(** Newest-first paths along the documented edges, from [Init]. *)
Inductive lifecycle : list Z -> Prop :=
| lc_init : lifecycle [code Init]
| lc_edge cur nxt l : lifecycle (cur :: l) -> valid cur nxt = true -> lifecycle (nxt :: cur :: l).

(** * Lemmas *)

Lemma valid_from_code (c t : Z) :
  valid c t = true -> exists s u, c = code s /\ t = code u /\ s <> Terminal /\ u <> Init.
Proof.
  unfold valid. intros E. repeat case_match; try done;
    match goal with |- exists s u, ?a = _ /\ ?b = _ /\ _ =>
      exists (match a with 1 => Bootstrapping | 2 => Operational | 3 => Degraded | _ => Init end),
             (match b with 1 => Bootstrapping | 2 => Operational | 3 => Degraded | _ => Terminal end)
    end; done.
Qed.

Lemma advance_loop_run (fuel : nat) (spurious : list bool) (target : Z) (m : StateMachine) :
  (length spurious < fuel)%nat ->
  advance_loop fuel spurious target (current_state m) m =
    if valid (current_state m) target then Done (Ok tt) (MkSM target) else Done (Err tt) m.
Proof.
  revert spurious. induction fuel as [|fuel IH]; intros spurious Hf; [lia|]. cbn [advance_loop].
  destruct (valid (current_state m) target) eqn:Ev; cbn [negb]; [|done].
  msimpl. rewrite Z.eqb_refl. destruct spurious as [|[] sp]; cbn; [done| |done].
  by rewrite IH by (cbn in Hf; lia).
Qed.

Record inv (c : conc) : Prop := {
  inv_path : lifecycle (history c);
  inv_top : exists l, history c = byte_ c :: l;
  inv_seen : forall t target current, callers c !! t = Some (Try target current) ->
    current ∈ history c;
  inv_answers : Forall (fun '(target, ok, h) =>
      h `suffix_of` history c /\
      if (ok : bool) then exists l, h = code target :: l /\ lifecycle h
      else exists seen, seen ∈ h /\ valid seen (code target) = false) (answers c)
}.

Lemma sm_inv_start (n : nat) : inv (start n).
Proof.
  split; cbn; [constructor|by eexists| |done].
  intros t target current H. by apply lookup_replicate in H as [? _].
Qed.

(** Moving one caller: whatever it now remembers must be in the history. *)
Lemma seen_update (cs : list pc) (t : nat) (p : pc) (h h' : list Z) :
  (forall t target current, cs !! t = Some (Try target current) -> current ∈ h) ->
  (forall v, v ∈ h -> v ∈ h') -> (t < length cs)%nat ->
  (forall target current, p = Try target current -> current ∈ h') ->
  forall t' target current, <[t := p]> cs !! t' = Some (Try target current) -> current ∈ h'.
Proof.
  intros Hs Hh Ht Hp t' target current. destruct (decide (t = t')) as [<-|Hne].
  - rewrite list_lookup_insert_eq by done. intros [= ->]. by eapply Hp.
  - rewrite list_lookup_insert_ne by done. intros H. eapply Hh, Hs, H.
Qed.

Lemma sm_inv_step (c c' : conc) : inv c -> step c c' -> inv c'.
Proof.
  intros Hinv Hst. destruct Hst as [b cs h a t g Ht|b cs h a t g Ht|b cs h a t g cur Ht Hv
    |b cs h a t g cur Ht Hv ->|b cs h a t g cur Ht Hv];
    destruct Hinv as [Hp [l Htop] Hs Ha]; cbn in *;
    assert (Hlt := lookup_lt_Some _ _ _ Ht); subst h.
  - split; cbn; [done|by eexists| |done]. by eapply seen_update.
  - split; cbn; [done|by eexists| |done]. eapply seen_update; try done.
    intros ? ? [= _ ->]. left.
  - split; cbn; [done|by eexists| |].
    + by eapply seen_update.
    + constructor; [|done]. split; [done|]. exists cur. split; [by eapply Hs|done].
  - assert (Hpath : lifecycle (code g :: cur :: l)) by by constructor.
    split; cbn; [done|by eexists| |].
    + eapply seen_update; try done. intros v Hin. by right.
    + constructor; [split; [done|by eexists]|].
      eapply Forall_impl; [exact Ha|]. intros [[g' ok] h'] [Hsuf Hok]. split; [|done].
      by apply suffix_cons_r.
  - split; cbn; [done|by eexists| |done]. eapply seen_update; try done.
    intros ? ? [= _ ->]. left.
Qed.

Lemma sm_inv_reachable (n : nat) (c : conc) : rtc step (start n) c -> inv c.
Proof.
  apply (rtc_ind_r (fun c => inv c)); [apply sm_inv_start|]. intros c1 c2 _ Hst Hi. by eapply sm_inv_step.
Qed.

Lemma lifecycle_no_exit (l1 l2 : list Z) (v : Z) :
  lifecycle (l1 ++ v :: l2) -> v = code Terminal -> l1 = [].
Proof.
  intros Hl ->. destruct l1 as [|x l1 _] using rev_ind; [done|].
  exfalso. rewrite <- app_assoc in Hl. cbn in Hl. clear -Hl.
  induction l1 as [|y l1 IH]; cbn in Hl.
  - inversion Hl as [|? ? ? ? Hv]; subst. apply valid_from_code in Hv as (s & u & E & _ & Hne & _).
    destruct s; done.
  - inversion Hl; subst; [by destruct l1|]. by apply IH; destruct l1; simplify_eq/=.
Qed.

(** * Claims *)

(** Run alone, [try_advance] is exact: it moves to the target and answers [Ok]
    when the table allows the step from the present state, and otherwise answers
    [Err] and changes nothing, however often the weak exchange fails spuriously. *)
Theorem sm_try_advance_exact (spurious : list bool) (target : EnclaveState) (m : StateMachine) :
  try_advance (S (length spurious)) spurious target m =
    if valid (current_state m) (code target)
    then Done (Ok tt) (MkSM (code target)) else Done (Err tt) m.
Proof. unfold try_advance. msimpl. apply advance_loop_run. lia. Qed.

(** With any number of concurrent callers the byte only ever moves along the
    documented edges, starting from [Init]; [Terminal] is never left; a call that
    answered [Ok] made its own edge of that path; and a call that answered [Err]
    saw a state, actually held before it returned, from which its step is
    forbidden. *)
Theorem sm_interleaved_path (n : nat) (c : conc) :
  rtc step (start n) c ->
  lifecycle (history c) /\
  (forall l1 l2, history c = l1 ++ code Terminal :: l2 -> l1 = [] /\ byte_ c = code Terminal) /\
  Forall (fun '(target, ok, h) =>
      h `suffix_of` history c /\
      if (ok : bool) then exists l, h = code target :: l /\ lifecycle h
      else exists seen, seen ∈ h /\ valid seen (code target) = false) (answers c).
Proof.
  intros Hr. destruct (sm_inv_reachable n c Hr) as [Hp [l Htop] _ Ha]. split_and!; [done| |done].
  intros l1 l2 E. assert (l1 = []) as -> by (eapply lifecycle_no_exit; [by rewrite <- E|done]).
  split; [done|]. rewrite Htop in E. by injection E.
Qed.

(** Two callers: the first sees [Init] and wins, the second loses the race. *)
Definition sample : conc :=
  MkConc 1 [Idle; Idle] [1; 0] [(Bootstrapping, false, [1; 0]); (Bootstrapping, true, [1; 0])].

Lemma sm_sample_reachable : rtc step (start 2) sample.
Proof.
  eapply rtc_l; [by apply (step_call _ _ _ _ 0 Bootstrapping)|].
  eapply rtc_l; [by apply (step_call _ _ _ _ 1 Bootstrapping)|].
  eapply rtc_l; [by eapply (step_load _ _ _ _ 0)|].
  eapply rtc_l; [by eapply (step_load _ _ _ _ 1)|].
  eapply rtc_l; [by eapply (step_win _ _ _ _ 0)|].
  eapply rtc_l; [by eapply (step_retry _ _ _ _ 1)|].
  eapply rtc_l; [by eapply (step_refuse _ _ _ _ 1)|]. done.
Qed.

Lemma sm_interleaved_path_witness : lifecycle [1; 0].
Proof. exact (proj1 (sm_interleaved_path 2 sample sm_sample_reachable)). Defined.

End SM.
