(* ===== verification/Latency.v ===== *)
(** latency_tracker.rs: execution-time statistics.

    One owner makes the [mark_start]/[mark_end] calls of a tracker, as the source
    requires. The two exchange loops of [mark_end] take the outcomes of their weak
    attempts from lists of booleans ([true]: a spurious failure). *)

From S2P Require Import Prelude.
Local Open Scope Z_scope.

Module Lat.

Record LatencyTracker : Type := MkTracker {
  started : bool;
  start_time : Z;
  max_latency : Z;
  total_latency : Z;
  samples : Z
}.

Definition new : LatencyTracker := MkTracker false 0 0 0 0.

Definition set_started (v : bool) (t : LatencyTracker) : LatencyTracker :=
  MkTracker v (start_time t) (max_latency t) (total_latency t) (samples t).
Definition set_start_time (v : Z) (t : LatencyTracker) : LatencyTracker :=
  MkTracker (started t) v (max_latency t) (total_latency t) (samples t).
Definition set_max (v : Z) (t : LatencyTracker) : LatencyTracker :=
  MkTracker (started t) (start_time t) v (total_latency t) (samples t).
Definition set_total (v : Z) (t : LatencyTracker) : LatencyTracker :=
  MkTracker (started t) (start_time t) (max_latency t) v (samples t).
Definition set_samples (v : Z) (t : LatencyTracker) : LatencyTracker :=
  MkTracker (started t) (start_time t) (max_latency t) (total_latency t) v.

Definition mark_start (current_timestamp : Z) : M LatencyTracker unit :=
  modify (set_start_time current_timestamp) ;; modify (set_started true).

(** [while delta > current_max { compare_exchange_weak ... }] *)
Fixpoint max_loop (fuel : nat) (spurious : list bool) (delta current_max : Z)
  : M LatencyTracker unit :=
  match fuel with
  | O => halt
  | S fuel' =>
    if current_max <? delta then
      t ← get;
      if negb (default false (list.head spurious)) && (max_latency t =? current_max)
      then modify (set_max delta)
      else max_loop fuel' (list.tail spurious) delta (max_latency t)
    else mret tt
  end.

Fixpoint total_loop (fuel : nat) (spurious : list bool) (delta current_total : Z)
  : M LatencyTracker unit :=
  match fuel with
  | O => halt
  | S fuel' =>
    let updated_total := saturating_add 64 current_total delta in
    t ← get;
    if negb (default false (list.head spurious)) && (total_latency t =? current_total)
    then modify (set_total updated_total)
    else total_loop fuel' (list.tail spurious) delta (total_latency t)
  end.

Definition mark_end (fuel : nat) (spurious1 spurious2 : list bool) (current_timestamp : Z)
  : M LatencyTracker unit :=
  t ← get;
  if negb (started t) then mret tt else
  let start := start_time t in
  if current_timestamp <? start then mret tt else
  t ← get;
  modify (set_started false) ;;
  if negb (started t) then mret tt else
  let delta := current_timestamp - start in
  t ← get;
  max_loop fuel spurious1 delta (max_latency t) ;;
  t ← get;
  total_loop fuel spurious2 delta (total_latency t) ;;
  modify (fun t => set_samples (wrapping_add 64 (samples t) 1) t).

(** * Calls and the statistics they should produce *)

Inductive call : Type :=
| Start (now : Z)
| End (now : Z) (spurious1 spurious2 : list bool).

Definition run_call (c : call) : M LatencyTracker unit :=
  match c with
  | Start now => mark_start now
  | End now s1 s2 => mark_end (S (length s1 + length s2)) s1 s2 now
  end.

Fixpoint run (cs : list call) : M LatencyTracker unit :=
  match cs with [] => mret tt | c :: cs' => run_call c ;; run cs' end.

(** The durations the calls measure: an [End] completes the latest open [Start]
    unless its reading is earlier, in which case the measurement stays open. *)
Fixpoint durations (opened : option Z) (cs : list call) : list Z :=
  match cs with
  | [] => []
  | Start now :: cs' => durations (Some now) cs'
  | End now _ _ :: cs' =>
      match opened with
      | None => durations None cs'
      | Some s => if now <? s then durations opened cs' else (now - s) :: durations None cs'
      end
  end.

Definition sum (l : list Z) : Z := foldr Z.add 0 l.
Definition maximum (l : list Z) : Z := foldr Z.max 0 l.

Definition opened (t : LatencyTracker) : option Z :=
  if started t then Some (start_time t) else None.

(** * Lemmas *)

Lemma max_loop_run (fuel : nat) (spurious : list bool) (delta : Z) (t : LatencyTracker) :
  (length spurious < fuel)%nat ->
  max_loop fuel spurious delta (max_latency t) t =
    Done tt (set_max (Z.max (max_latency t) delta) t).
Proof.
  revert spurious. induction fuel as [|fuel IH]; intros spurious Hf; [lia|]. cbn [max_loop].
  destruct (Z.ltb_spec (max_latency t) delta) as [Hlt|Hge].
  - msimpl. rewrite Z.eqb_refl. rewrite Z.max_r by lia.
    destruct spurious as [|[] sp]; cbn; [done| |done].
    rewrite IH by (cbn in Hf; lia). by rewrite Z.max_r by lia.
  - rewrite Z.max_l by lia. by destruct t.
Qed.

Lemma total_loop_run (fuel : nat) (spurious : list bool) (delta : Z) (t : LatencyTracker) :
  (length spurious < fuel)%nat ->
  total_loop fuel spurious delta (total_latency t) t =
    Done tt (set_total (saturating_add 64 (total_latency t) delta) t).
Proof.
  revert spurious. induction fuel as [|fuel IH]; intros spurious Hf; [lia|]. cbn [total_loop].
  msimpl. rewrite Z.eqb_refl. destruct spurious as [|[] sp]; cbn; [done| |done].
  by rewrite IH by (cbn in Hf; lia).
Qed.

Lemma mark_end_run (fuel : nat) (s1 s2 : list bool) (now : Z) (t : LatencyTracker) :
  (length s1 + length s2 < fuel)%nat ->
  mark_end fuel s1 s2 now t =
    Done tt (match opened t with
             | None => t
             | Some s =>
                 if now <? s then t else
                 MkTracker false (start_time t) (Z.max (max_latency t) (now - s))
                   (saturating_add 64 (total_latency t) (now - s)) (wrapping_add 64 (samples t) 1)
             end).
Proof.
  intros Hf. unfold mark_end, opened. msimpl. destruct (started t) eqn:Es; cbn [negb]; [|done].
  destruct (now <? start_time t); [done|].
  pose proof (max_loop_run fuel s1 (now - start_time t) (set_started false t)) as E1. cbn in E1.
  rewrite Es. cbn. rewrite E1 by lia. cbn.
  pose proof (total_loop_run fuel s2 (now - start_time t)
    (set_max (Z.max (max_latency t) (now - start_time t)) (set_started false t))) as E2. cbn in E2.
  rewrite E2 by lia. done.
Qed.

Lemma sum_nonneg (l : list Z) : Forall (fun d => 0 <= d) l -> 0 <= sum l.
Proof. induction 1; cbn in *; [done|]. unfold sum in *. lia. Qed.

Lemma maximum_nonneg (l : list Z) : 0 <= maximum l.
Proof. unfold maximum. induction l; cbn; lia. Qed.

Lemma durations_nonneg (o : option Z) (cs : list call) : Forall (fun d => 0 <= d) (durations o cs).
Proof.
  revert o. induction cs as [|[now|now s1 s2] cs IH]; intros o; cbn; [constructor|done|].
  destruct o as [s|]; [|done]. destruct (Z.ltb_spec now s); [done|].
  constructor; [lia|done].
Qed.

(** Saturating additions in a row saturate the sum. *)
Lemma saturating_sum (a b c : Z) :
  0 <= b -> 0 <= c -> saturating_add 64 (saturating_add 64 a b) c = saturating_add 64 a (b + c).
Proof. unfold saturating_add. lia. Qed.

Lemma run_stats (cs : list call) (t : LatencyTracker) :
  0 <= total_latency t <= u64_max -> 0 <= max_latency t -> in_width 64 (samples t) ->
  let ds := durations (opened t) cs in
  exists t', run cs t = Done tt t' /\
    max_latency t' = Z.max (max_latency t) (maximum ds) /\
    total_latency t' = saturating_add 64 (total_latency t) (sum ds) /\
    samples t' = (samples t + zlen ds) mod 2 ^ 64.
Proof.
  revert t. induction cs as [|c cs IH]; intros t Ht Hm Hs; cbn [run].
  { exists t. unfold maximum, sum, saturating_add, u64_max, zlen in *. cbn [durations foldr length].
    split_and!; [done|lia|lia|]. by rewrite Z.add_0_r, Z.mod_small. }
  msimpl. destruct c as [now|now s1 s2]; cbn [run_call durations] in *.
  - exact (IH (set_started true (set_start_time now t)) Ht Hm Hs).
  - rewrite mark_end_run by lia. destruct (opened t) as [s|] eqn:Eo.
    2:{ specialize (IH t Ht Hm Hs). rewrite Eo in IH. exact IH. }
    destruct (Z.ltb_spec now s) as [Hlt|Hge].
    { specialize (IH t Ht Hm Hs). rewrite Eo in IH. exact IH. }
    set (t1 := MkTracker _ _ _ _ _).
    pose proof (sum_nonneg _ (durations_nonneg None cs)) as Hsum.
    destruct (IH t1) as (t' & E & E1 & E2 & E3); unfold t1 in *; cbn [opened started max_latency
      total_latency samples] in *;
      [unfold saturating_add, u64_max in *; lia|lia|apply wrapping_add_range; lia|].
    exists t'. split_and!; [done| | |].
    + rewrite E1. unfold maximum. cbn. lia.
    + rewrite E2. by rewrite saturating_sum by lia.
    + rewrite E3. unfold zlen, wrapping_add. cbn [length]. rewrite Zplus_mod_idemp_l. f_equal. lia.
Qed.

(** * Claims *)

(** Whatever calls its owner makes, and however the weak exchanges fail, a new
    tracker holds the statistics of the durations measured: their maximum, their
    sum capped at the 64-bit limit instead of wrapping, and their number (modulo
    2^64). A backwards clock reading is never counted and never closes the open
    measurement. *)
Theorem latency_statistics (cs : list call) :
  let ds := durations None cs in
  exists t, run cs new = Done tt t /\
    max_latency t = maximum ds /\ total_latency t = Z.min (sum ds) u64_max /\
    samples t = zlen ds mod 2 ^ 64.
Proof.
  intros ds. destruct (run_stats cs new) as (t & E & E1 & E2 & E3); [done|done|done|].
  cbn [opened new started] in *. fold ds in E1, E2, E3. exists t. split_and!; [done| | |done].
  - rewrite E1. cbn. pose proof (maximum_nonneg ds). lia.
  - rewrite E2. unfold saturating_add, u64_max. cbn. done.
Qed.

Lemma latency_statistics_witness :
  exists t, run [Start 10; End 5 [] []; End 17 [true] [true; true]; End 99 [] []; Start 20; End 23 [] []] new
              = Done tt t /\
    max_latency t = 7 /\ total_latency t = 10 /\ samples t = 2.
Proof.
  exact (latency_statistics [Start 10; End 5 [] []; End 17 [true] [true; true]; End 99 [] []; Start 20;
    End 23 [] []]).
Defined.

End Lat.
