(* ===== verification/RtosTypes.v ===== *)
(** The C-visible types of shawncore-rtos-sync: the payloads of telemetry_queue.rs and
    ffi.rs, the layout of every type the entry points place in the host's memory, and
    the machine those entry points run on. *)

From stdpp Require Import gmap.
From S2P Require Import Prelude CMemory RtosHost Spsc RingBuffer Scheduler DmaPool StateMachine Latency.
Local Open Scope Z_scope.

(** * Payloads *)

Record TelemetryEvent : Type := MkTelemetry {
  event_id : Z;
  te_padding_1 : list byte;
  te_timestamp : Z;
  te_payload : list byte
}.

Record EwCommand : Type := MkEw {
  ew_mode : Z;
  ew_padding : list byte;
  ew_target_freq : Z;
  ew_target_bw : Z
}.

Record FftResult : Type := MkFft {
  fft_snr_db : Z;
  fft_center_freq : Z;
  fft_bandwidth : Z;
  fft_timestamp : Z;
  fft_padding : list byte
}.

#[export] Instance TelemetryEvent_eq_dec : EqDecision TelemetryEvent.
Proof. solve_decision. Defined.

(** [Default] *)
Definition telemetry_default : TelemetryEvent := MkTelemetry 0 (zeros 4) 0 (zeros 48).
Definition ew_default : EwCommand := MkEw 0 (zeros 7) 0 0.
Definition fft_default : FftResult := MkFft 0 0 0 0 (zeros 32).

(** The fields of each [repr(C)] struct as (size, alignment). *)
Definition telemetry_size : Z := repr_C 64 [(4, 4); (4, 1); (8, 8); (48, 1)].
Definition ew_size : Z := repr_C 8 [(1, 1); (7, 1); (8, 8); (8, 8)].
Definition fft_size : Z := repr_C 64 [(4, 4); (8, 8); (8, 8); (8, 8); (32, 1)].
Definition tcb_size : Z := repr_C 64 [(8, 8); (8, 8); (8, 8); (8, 8); (1, 1); (8, 8)].
Definition scheduler_size : Z :=
  repr_C 64 [(Sched.MAX_TASKS * tcb_size, 64); (2, 2); (8, 8); (2, 2); (2, 2)].
Definition pool2k_size : Z := repr_C 64 [(8, 8); (8, 8); (256 * 8, 8); (256 * 8, 8); (1, 1); (1, 1)].
Definition queue_size : Z := repr_C 64 [(8, 8); (64, 64); (64, 64); (1, 1); (1, 1)].
Definition machine_size : Z := repr_C 64 [(1, 1)].
Definition tracker_size : Z := repr_C 64 [(1, 1); (8, 8); (8, 8); (8, 8); (8, 8)].

#[export] Instance telemetry_elem : Elem TelemetryEvent :=
  {| elem_default := telemetry_default; elem_size := telemetry_size; elem_align := 64 |}.
#[export] Instance ew_elem : Elem EwCommand :=
  {| elem_default := ew_default; elem_size := ew_size; elem_align := 8 |}.
#[export] Instance fft_elem : Elem FftResult :=
  {| elem_default := fft_default; elem_size := fft_size; elem_align := 64 |}.

(** [[u8; 2048]] *)
#[export] Instance buffer2k : Dma.Layout := {| Dma.size_of := 2048; Dma.align_of := 1 |}.

(** * Universe *)

(** A queue of [T] and the slots it is bound to; the two kinds of queue share their
    representation. [word] is a [usize], a [u64] or a data pointer. *)
Record Queue (T : Type) : Type := MkQueueOf { raw_queue : SpscQueue }.
Arguments MkQueueOf {T}.
Arguments raw_queue {T}.
Record Slots (T : Type) : Type := MkSlots { cells : list (CacheAlignedSlot T) }.
Arguments MkSlots {T}.
Arguments cells {T}.
Record region : Type := MkRegion { region_bytes : list byte }.
Record word : Type := MkWord { word_val : Z }.

Inductive object : Type :=
| OTcb (t : Sched.Tcb)
| OScheduler (s : Sched.PerCoreScheduler)
| OPool (p : Dma.StaticDmaPool)
| ORegion (r : region)
| OWord (v : word)
| OTelemetry (e : TelemetryEvent)
| OTelemetryQueue (q : Queue TelemetryEvent)
| OTelemetrySlots (s : Slots TelemetryEvent)
| OEw (e : EwCommand)
| OEwRing (q : Queue EwCommand)
| OEwSlots (s : Slots EwCommand)
| OFft (e : FftResult)
| OFftQueue (q : Queue FftResult)
| OFftSlots (s : Slots FftResult)
| OMachine (m : SM.StateMachine)
| OTracker (t : Lat.LatencyTracker).

(** The host hands each queue a region of exactly the slots it needs (or more, of which
    the queue uses these). *)
Definition slots_extent (T : Type) `{Elem T} (N : Z) : Z := N * slot_size.

Definition object_extent (o : object) : Z :=
  match o with
  | OTcb _ => tcb_size
  | OScheduler _ => scheduler_size
  | OPool _ => pool2k_size
  | ORegion _ => 256 * 2048
  | OWord _ => 8
  | OTelemetry _ => telemetry_size
  | OTelemetryQueue _ | OEwRing _ | OFftQueue _ => queue_size
  | OTelemetrySlots _ => slots_extent TelemetryEvent 64
  | OEw _ => ew_size
  | OEwSlots _ => slots_extent EwCommand 1024
  | OFft _ => fft_size
  | OFftSlots _ => slots_extent FftResult 256
  | OMachine _ => machine_size
  | OTracker _ => tracker_size
  end.

Definition object_alignment (o : object) : Z :=
  match o with
  | OWord _ | OEw _ => 8
  | ORegion _ => 1
  | _ => 64
  end.

#[export] Instance rtos_universe : Universe object :=
  {| extent := object_extent; alignment := object_alignment |}.

(** Each instance lists its constructor; the laws hold by case analysis. *)
Ltac ctype := first [done | intros [] ?; cbn; congruence].

#[export] Instance ct_tcb : CType object Sched.Tcb.
Proof.
  refine {| wrap := OTcb; unwrap u := match u with OTcb x => Some x | _ => None end;
            csize := tcb_size; calign := 64 |}; ctype.
Defined.
#[export] Instance ct_scheduler : CType object Sched.PerCoreScheduler.
Proof.
  refine {| wrap := OScheduler; unwrap u := match u with OScheduler x => Some x | _ => None end;
            csize := scheduler_size; calign := 64 |}; ctype.
Defined.
#[export] Instance ct_pool : CType object Dma.StaticDmaPool.
Proof.
  refine {| wrap := OPool; unwrap u := match u with OPool x => Some x | _ => None end;
            csize := pool2k_size; calign := 64 |}; ctype.
Defined.
#[export] Instance ct_region : CType object region.
Proof.
  refine {| wrap := ORegion; unwrap u := match u with ORegion x => Some x | _ => None end;
            csize := 256 * 2048; calign := 1 |}; ctype.
Defined.
#[export] Instance ct_word : CType object word.
Proof.
  refine {| wrap := OWord; unwrap u := match u with OWord x => Some x | _ => None end;
            csize := 8; calign := 8 |}; ctype.
Defined.
#[export] Instance ct_telemetry : CType object TelemetryEvent.
Proof.
  refine {| wrap := OTelemetry; unwrap u := match u with OTelemetry x => Some x | _ => None end;
            csize := telemetry_size; calign := 64 |}; ctype.
Defined.
#[export] Instance ct_telemetry_queue : CType object (Queue TelemetryEvent).
Proof.
  refine {| wrap := OTelemetryQueue; unwrap u := match u with OTelemetryQueue x => Some x | _ => None end;
            csize := queue_size; calign := 64 |}; ctype.
Defined.
#[export] Instance ct_telemetry_slots : CType object (Slots TelemetryEvent).
Proof.
  refine {| wrap := OTelemetrySlots; unwrap u := match u with OTelemetrySlots x => Some x | _ => None end;
            csize := slots_extent TelemetryEvent 64; calign := 64 |}; ctype.
Defined.
#[export] Instance ct_ew : CType object EwCommand.
Proof.
  refine {| wrap := OEw; unwrap u := match u with OEw x => Some x | _ => None end;
            csize := ew_size; calign := 8 |}; ctype.
Defined.
#[export] Instance ct_ew_ring : CType object (Queue EwCommand).
Proof.
  refine {| wrap := OEwRing; unwrap u := match u with OEwRing x => Some x | _ => None end;
            csize := queue_size; calign := 64 |}; ctype.
Defined.
#[export] Instance ct_ew_slots : CType object (Slots EwCommand).
Proof.
  refine {| wrap := OEwSlots; unwrap u := match u with OEwSlots x => Some x | _ => None end;
            csize := slots_extent EwCommand 1024; calign := 64 |}; ctype.
Defined.
#[export] Instance ct_fft : CType object FftResult.
Proof.
  refine {| wrap := OFft; unwrap u := match u with OFft x => Some x | _ => None end;
            csize := fft_size; calign := 64 |}; ctype.
Defined.
#[export] Instance ct_fft_queue : CType object (Queue FftResult).
Proof.
  refine {| wrap := OFftQueue; unwrap u := match u with OFftQueue x => Some x | _ => None end;
            csize := queue_size; calign := 64 |}; ctype.
Defined.
#[export] Instance ct_fft_slots : CType object (Slots FftResult).
Proof.
  refine {| wrap := OFftSlots; unwrap u := match u with OFftSlots x => Some x | _ => None end;
            csize := slots_extent FftResult 256; calign := 64 |}; ctype.
Defined.
#[export] Instance ct_machine : CType object SM.StateMachine.
Proof.
  refine {| wrap := OMachine; unwrap u := match u with OMachine x => Some x | _ => None end;
            csize := machine_size; calign := 64 |}; ctype.
Defined.
#[export] Instance ct_tracker : CType object Lat.LatencyTracker.
Proof.
  refine {| wrap := OTracker; unwrap u := match u with OTracker x => Some x | _ => None end;
            csize := tracker_size; calign := 64 |}; ctype.
Defined.

(** The layouts agree with the repository's layout tests. *)
Example layouts :
  (csize TelemetryEvent, csize EwCommand, csize FftResult, csize Sched.Tcb) = (64, 24, 64, 64) /\
  csize Dma.StaticDmaPool = 4160 /\ csize Sched.PerCoreScheduler = 1088 /\
  csize (Queue EwCommand) = 256 /\ csize SM.StateMachine = 64 /\ csize Lat.LatencyTracker = 64.
Proof. vm_compute. done. Qed.

(** * Machine *)

(** The host's memory, the task stacks (words by address, as in Scheduler.v) and the
    platform callbacks. *)
Record machine : Type := MkMachine {
  mem : cmem object;
  stacks : gmap Z Z;
  platform : Host
}.

Definition set_mem (m : cmem object) (w : machine) : machine := MkMachine m (stacks w) (platform w).
Definition set_stacks (s : gmap Z Z) (w : machine) : machine := MkMachine (mem w) s (platform w).
Definition set_platform (h : Host) (w : machine) : machine := MkMachine (mem w) (stacks w) h.

Definition on_mem {A} (m : M (cmem object) A) : M machine A := zoom mem set_mem m.
