(* ===== verification/RtosFfi.v ===== *)
(** ffi.rs of shawncore-rtos-sync: the C entry points of the queues, the scheduler, the
    DMA pool, the state machine and the latency tracker.

    Each entry point validates its pointers (null, alignment, overlap of outputs with
    the object they belong to), resolves them in the host's memory and runs the
    operation of the component on the object found there; the result is turned into an
    error code. A [Result] that the C side sees is a [ShawncoreRtosErr]. *)

From stdpp Require Import gmap.
From S2P Require Import Prelude CMemory RtosHost Spsc RingBuffer Scheduler DmaPool StateMachine Latency RtosTypes.
Local Open Scope Z_scope.

Module RtosC.

(** * Pointer validation *)

Section validation.
Context {U : Type} `{Universe U}.

Definition is_null (p : Z) : bool := p =? 0.

Definition ptr_is_aligned (T : Type) `{CType U T} (p : Z) : bool := is_multiple_of p (calign T).

Definition valid_aligned_ptr (T : Type) `{CType U T} (p : Z) : bool :=
  negb (is_null p) && is_multiple_of p (calign T).

End validation.

(** [size] and [align] are those of the element type. *)
Definition valid_dma_region (size align memory_base size_in_bytes element_count : Z) : bool :=
  let required_alignment := align in
  if is_null memory_base
     || negb (is_multiple_of memory_base 4096)
     || negb (is_multiple_of memory_base required_alignment)
  then false
  else
    match checked_mul 64 element_count size with
    | None => false
    | Some required_size =>
        if required_size <=? size_in_bytes
        then match checked_add 64 memory_base required_size with Some _ => true | None => false end
        else false
    end.

Definition ranges_overlap (first first_len second second_len : Z) : bool :=
  match checked_add 64 first first_len with
  | None => true
  | Some first_end =>
    match checked_add 64 second second_len with
    | None => true
    | Some second_end => (first <? second_end) && (second <? first_end)
    end
  end.

Definition object_overlaps_backing (object_size object backing backing_len : Z) : bool :=
  ranges_overlap object object_size backing backing_len.

(** * Layout queries *)

Definition shawncore_rtos_tcb_sizeof : Z := csize (U := object) Sched.Tcb.
Definition shawncore_rtos_tcb_alignof : Z := calign (U := object) Sched.Tcb.
Definition shawncore_rtos_telemetry_event_sizeof : Z := csize (U := object) TelemetryEvent.
Definition shawncore_rtos_telemetry_event_alignof : Z := calign (U := object) TelemetryEvent.
Definition shawncore_rtos_fft_result_sizeof : Z := csize (U := object) FftResult.
Definition shawncore_rtos_fft_result_alignof : Z := calign (U := object) FftResult.
Definition shawncore_rtos_spsc_telemetry_slot_sizeof : Z := slot_size (T := TelemetryEvent).
Definition shawncore_rtos_spsc_telemetry_slot_alignof : Z := slot_align (T := TelemetryEvent).
Definition shawncore_rtos_ringbuffer_ew_slot_sizeof : Z := slot_size (T := EwCommand).
Definition shawncore_rtos_ringbuffer_ew_slot_alignof : Z := slot_align (T := EwCommand).
Definition shawncore_rtos_spsc_fft_slot_sizeof : Z := slot_size (T := FftResult).
Definition shawncore_rtos_spsc_fft_slot_alignof : Z := slot_align (T := FftResult).
Definition shawncore_rtos_scheduler_sizeof : Z := csize (U := object) Sched.PerCoreScheduler.
Definition shawncore_rtos_scheduler_alignof : Z := calign (U := object) Sched.PerCoreScheduler.
Definition shawncore_rtos_dmapool2k_sizeof : Z := csize (U := object) Dma.StaticDmaPool.
Definition shawncore_rtos_dmapool2k_alignof : Z := calign (U := object) Dma.StaticDmaPool.
Definition shawncore_rtos_spsc_telemetry_sizeof : Z := csize (U := object) (Queue TelemetryEvent).
Definition shawncore_rtos_spsc_telemetry_alignof : Z := calign (U := object) (Queue TelemetryEvent).
Definition shawncore_rtos_ringbuffer_ew_sizeof : Z := csize (U := object) (Queue EwCommand).
Definition shawncore_rtos_ringbuffer_ew_alignof : Z := calign (U := object) (Queue EwCommand).
Definition shawncore_rtos_spsc_fft_sizeof : Z := csize (U := object) (Queue FftResult).
Definition shawncore_rtos_spsc_fft_alignof : Z := calign (U := object) (Queue FftResult).
Definition shawncore_rtos_state_machine_sizeof : Z := csize (U := object) SM.StateMachine.
Definition shawncore_rtos_state_machine_alignof : Z := calign (U := object) SM.StateMachine.
Definition shawncore_rtos_latency_tracker_sizeof : Z := csize (U := object) Lat.LatencyTracker.
Definition shawncore_rtos_latency_tracker_alignof : Z := calign (U := object) Lat.LatencyTracker.

(** * Constructors and destructors of plain objects

    [core::ptr::write(p, T::new())] and [core::ptr::drop_in_place(p)] behind the null and
    alignment checks. *)

Section plain.
Context {T : Type} `{!CType object T}.

Definition init_object (x : T) (p : Z) : M machine ShawncoreRtosErr :=
  if is_null p then mret RtosInvalidMemory else
  if negb (ptr_is_aligned T p) then mret RtosInvalidMemory else
  on_mem (ptr_write p x) ;;
  mret RtosSuccess.

Definition destroy_object (p : Z) : M machine ShawncoreRtosErr :=
  if is_null p then mret RtosInvalidMemory else
  if negb (ptr_is_aligned T p) then mret RtosInvalidMemory else
  on_mem (ptr_drop (T := T) p) ;;
  mret RtosSuccess.

End plain.

(** * Scheduler and task control blocks *)

(** A [Tcb] pointer names a block of its own, or one of the blocks inside a scheduler. *)
Definition task_of (p : Z) (m : cmem object) : option (Z * Sched.PerCoreScheduler * nat) :=
  list.head (omap (fun '(b, o) =>
    match o with
    | OScheduler s =>
        if (b <=? p) && (p <? b + Sched.MAX_TASKS * tcb_size) && ((p - b) mod tcb_size =? 0)
        then Some (b, s, Z.to_nat ((p - b) / tcb_size)) else None
    | _ => None
    end) (map_to_list (objects m))).

Definition tcb_at (p : Z) (m : cmem object) : option Sched.Tcb :=
  match object_at p m with
  | Some t => Some t
  | None => '(_, s, i) ← task_of p m; Sched.tasks s !! i
  end.

Definition put_tcb (p : Z) (t : Sched.Tcb) (m : cmem object) : cmem object :=
  match (object_at p m : option Sched.Tcb) with
  | Some _ => put_object p (OTcb t) m
  | None =>
      match task_of p m with
      | Some (b, s, i) => put_object b (OScheduler (Sched.set_tasks (<[i := t]> (Sched.tasks s)) s)) m
      | None => m
      end
  end.

Definition read_tcb (p : Z) : M machine Sched.Tcb :=
  w ← get; return_or_ub (tcb_at p (mem w)).

Definition shawncore_rtos_scheduler_init (scheduler : Z) : M machine ShawncoreRtosErr :=
  if negb (valid_aligned_ptr Sched.PerCoreScheduler scheduler) then mret RtosInvalidMemory else
  if negb (ptr_is_aligned Sched.PerCoreScheduler scheduler) then mret RtosInvalidMemory else
  on_mem (ptr_write scheduler Sched.new) ;;
  mret RtosSuccess.

Definition shawncore_rtos_scheduler_destroy (scheduler : Z) : M machine ShawncoreRtosErr :=
  if negb (valid_aligned_ptr Sched.PerCoreScheduler scheduler) then mret RtosInvalidMemory else
  if negb (ptr_is_aligned Sched.PerCoreScheduler scheduler) then mret RtosInvalidMemory else
  on_mem (ptr_drop (T := Sched.PerCoreScheduler) scheduler) ;;
  mret RtosSuccess.

Definition shawncore_rtos_tcb_new (entry_point stack_base stack_size initial_rsp priority out_tcb : Z)
  : M machine ShawncoreRtosErr :=
  if negb (valid_aligned_ptr Sched.Tcb out_tcb) then mret RtosInvalidMemory else
  if negb (ptr_is_aligned Sched.Tcb out_tcb) then mret RtosInvalidMemory else
  if entry_point =? 0 then mret RtosTaskFault else
  let tcb := Sched.new_task entry_point stack_base stack_size initial_rsp priority in
  on_mem (ptr_write out_tcb tcb) ;;
  mret RtosSuccess.

Definition shawncore_rtos_tcb_get_rsp (tcb : Z) : M machine Z :=
  if negb (valid_aligned_ptr Sched.Tcb tcb) then mret 0 else
  if negb (ptr_is_aligned Sched.Tcb tcb) then mret 0 else
  tcb_ref ← read_tcb tcb;
  mret (Sched.rsp tcb_ref).

Definition shawncore_rtos_tcb_set_rsp (tcb rsp : Z) : M machine ShawncoreRtosErr :=
  if negb (valid_aligned_ptr Sched.Tcb tcb) then mret RtosInvalidMemory else
  if negb (ptr_is_aligned Sched.Tcb tcb) then mret RtosInvalidMemory else
  tcb_ref ← read_tcb tcb;
  on_mem (modify (put_tcb tcb (Sched.set_rsp rsp tcb_ref))) ;;
  mret RtosSuccess.

(** Run a scheduler operation on the scheduler at [p]. *)
Definition sched_view (s : Sched.PerCoreScheduler) (w : machine) : Sched.world :=
  Sched.MkWorld s (stacks w) (platform w).

Definition sched_back (p : Z) (v : Sched.world) (w : machine) : machine :=
  MkMachine (put_object p (OScheduler (Sched.sched v)) (mem w)) (Sched.memory v) (Sched.host v).

Definition with_scheduler {A} (p : Z) (op : M Sched.world A) : M machine A :=
  s ← on_mem (ptr_read p);
  zoom (sched_view s) (sched_back p) op.

Definition shawncore_rtos_scheduler_create_task (scheduler tcb canary_value : Z)
  : M machine ShawncoreRtosErr :=
  if negb (valid_aligned_ptr Sched.PerCoreScheduler scheduler)
     || negb (valid_aligned_ptr Sched.Tcb tcb) then mret RtosInvalidMemory else
  if negb (ptr_is_aligned Sched.PerCoreScheduler scheduler)
     || negb (ptr_is_aligned Sched.Tcb tcb) then mret RtosInvalidMemory else
  tcb_val ← read_tcb tcb;
  r ← with_scheduler scheduler (Sched.create_task tcb_val canary_value);
  match r with
  | Ok _ => mret RtosSuccess
  | Err _ => mret RtosTaskFault
  end.

Definition shawncore_rtos_scheduler_tick (scheduler current_rsp : Z) : M machine Z :=
  if negb (valid_aligned_ptr Sched.PerCoreScheduler scheduler) then mret current_rsp else
  if negb (ptr_is_aligned Sched.PerCoreScheduler scheduler) then mret current_rsp else
  with_scheduler scheduler (Sched.schedule_tick current_rsp).

Definition shawncore_rtos_scheduler_set_critical_task_mask (scheduler critical_task_mask : Z)
  : M machine ShawncoreRtosErr :=
  if negb (valid_aligned_ptr Sched.PerCoreScheduler scheduler) then mret RtosInvalidMemory else
  if negb (ptr_is_aligned Sched.PerCoreScheduler scheduler) then mret RtosInvalidMemory else
  with_scheduler scheduler (Sched.set_critical_task_mask critical_task_mask) ;;
  mret RtosSuccess.

Definition shawncore_rtos_scheduler_task_check_in (scheduler priority : Z)
  : M machine ShawncoreRtosErr :=
  if negb (valid_aligned_ptr Sched.PerCoreScheduler scheduler) || (16 <=? priority)
  then mret RtosInvalidMemory else
  if negb (ptr_is_aligned Sched.PerCoreScheduler scheduler) then mret RtosInvalidMemory else
  with_scheduler scheduler (Sched.task_check_in priority) ;;
  mret RtosSuccess.

(** * DMA pool: 256 buffers of 2048 bytes *)

Definition pool_new : Dma.StaticDmaPool := Dma.new 256.

(** The pool object with the region it is bound to. *)
Definition region_at (p : Z) (m : cmem object) : list byte :=
  match object_at p m with Some r => region_bytes r | None => [] end.

Definition put_region (p : Z) (l : list byte) (m : cmem object) : cmem object :=
  match (object_at p m : option region) with
  | Some _ => put_object p (ORegion (MkRegion l)) m
  | None => m
  end.

Definition pool_view (d : Dma.StaticDmaPool) (base : Z) (w : machine) : Dma.world :=
  Dma.MkWorld d (region_at base (mem w)) (platform w).

Definition pool_back (p base : Z) (v : Dma.world) (w : machine) : machine :=
  MkMachine (put_region base (Dma.region v) (put_object p (OPool (Dma.pool v)) (mem w)))
            (stacks w) (Dma.host v).

Definition with_pool {A} (p : Z) (op : M Dma.world A) : M machine A :=
  d ← on_mem (ptr_read p);
  zoom (pool_view d (Dma.memory d)) (pool_back p (Dma.memory d)) op.

Definition shawncore_rtos_dmapool2k_init (pool memory_base size_in_bytes : Z)
  : M machine ShawncoreRtosErr :=
  if is_null pool
     || negb (valid_dma_region 2048 1 memory_base size_in_bytes 256)
     || object_overlaps_backing (csize (U := object) Dma.StaticDmaPool) pool memory_base size_in_bytes
  then mret RtosInvalidMemory else
  if negb (ptr_is_aligned Dma.StaticDmaPool pool) then mret RtosInvalidMemory else
  on_mem (ptr_write pool pool_new) ;;
  pool_ref ← on_mem (ptr_read pool);
  r ← zoom (pool_view pool_ref memory_base) (pool_back pool memory_base)
           (Dma.init 256 4 memory_base size_in_bytes);
  match r with
  | Ok _ => mret RtosSuccess
  | Err e => mret (rtos_of_allocator e)
  end.

Definition shawncore_rtos_dmapool2k_destroy (pool : Z) : M machine ShawncoreRtosErr :=
  destroy_object (T := Dma.StaticDmaPool) pool.

(** [debug] says whether debug assertions are compiled in; [fuel] and [spurious] drive
    the weak compare-exchange loop as in DmaPool.v. *)
Definition shawncore_rtos_dmapool2k_allocate (debug : bool) (fuel : nat) (spurious : list bool)
    (pool out_idx out_generation out_ptr : Z) : M machine ShawncoreRtosErr :=
  if is_null pool || is_null out_idx || is_null out_generation || is_null out_ptr
  then mret RtosInvalidMemory else
  if negb (ptr_is_aligned Dma.StaticDmaPool pool)
     || negb (ptr_is_aligned word out_idx)
     || negb (ptr_is_aligned word out_generation)
     || negb (ptr_is_aligned word out_ptr)
  then mret RtosInvalidMemory else
  let pool_size := csize (U := object) Dma.StaticDmaPool in
  let word_size := csize (U := object) word in
  if ranges_overlap pool pool_size out_idx word_size
     || ranges_overlap pool pool_size out_generation word_size
     || ranges_overlap pool pool_size out_ptr word_size
     || ranges_overlap out_idx word_size out_generation word_size
     || ranges_overlap out_idx word_size out_ptr word_size
     || ranges_overlap out_generation word_size out_ptr word_size
  then mret RtosInvalidMemory else
  r ← with_pool pool (Dma.allocate debug fuel spurious);
  match r with
  | Ok (idx, generation, buf_ptr) =>
      on_mem (ptr_write out_idx (MkWord idx)) ;;
      on_mem (ptr_write out_generation (MkWord generation)) ;;
      on_mem (ptr_write out_ptr (MkWord buf_ptr)) ;;
      mret RtosSuccess
  | Err e => mret (rtos_of_allocator e)
  end.

Definition shawncore_rtos_dmapool2k_free (fuel : nat) (spurious : list bool)
    (pool buffer_idx generation : Z) : M machine ShawncoreRtosErr :=
  if is_null pool then mret RtosInvalidMemory else
  if negb (ptr_is_aligned Dma.StaticDmaPool pool) then mret RtosInvalidMemory else
  r ← with_pool pool (Dma.free 256 fuel spurious buffer_idx generation);
  match r with
  | Ok _ => mret RtosSuccess
  | Err e => mret (rtos_of_allocator e)
  end.

(** * Queues

    The entry points of the three queues are the same code at three element types; the
    operation they forward to is an argument. *)

Section queue_entry_points.
Context {T : Type} `{Elem T, !CType object T, !CType object (Queue T), !CType object (Slots T)}.
Variable N : Z.

Definition cells_at (p : Z) (m : cmem object) : list (CacheAlignedSlot T) :=
  match object_at p m with Some s => cells s | None => [] end.

Definition put_cells (p : Z) (l : list (CacheAlignedSlot T)) (m : cmem object) : cmem object :=
  match (object_at p m : option (Slots T)) with
  | Some _ => put_object p (wrap (MkSlots l)) m
  | None => m
  end.

(** The queue object with the slots it is bound to. *)
Definition queue_view (q : SpscQueue) (w : machine) : Spsc.world T :=
  Spsc.MkWorld q (cells_at (Spsc.buffer q) (mem w)) (platform w).

Definition queue_back (p base : Z) (v : Spsc.world T) (w : machine) : machine :=
  MkMachine (put_cells base (Spsc.slots v) (put_object p (wrap (MkQueueOf (T := T) (Spsc.queue v))) (mem w)))
            (stacks w) (Spsc.host v).

Definition with_queue {A} (p : Z) (op : M (Spsc.world T) A) : M machine A :=
  q ← on_mem (ptr_read p);
  zoom (queue_view (raw_queue q)) (queue_back p (Spsc.buffer (raw_queue q))) op.

(** Storage the host owns, seen as slots nothing has been written to: no datum, and in
    the place of each counter whatever is there, the counter of a slot that an earlier
    queue left or any bytes. *)
Definition raw_counter (base : Z) (m : cmem object) (i : nat) : Z :=
  match cells_at base m !! i with
  | Some slot => sequence_counter slot
  | None =>
      match bytes_at (base + Z.of_nat i * slot_size + align_up elem_size 8) 8 m with
      | Some l => le_val l
      | None => 0
      end
  end.

Definition raw_slots (base : Z) (m : cmem object) : list (CacheAlignedSlot T) :=
  if mapped base (N * slot_size) m
  then map (fun i => MkSlot Uninit (raw_counter base m i)) (seq 0 (Z.to_nat N)) else [].

Definition init_view (q : SpscQueue) (base : Z) (w : machine) : Spsc.world T :=
  Spsc.MkWorld q (raw_slots base (mem w)) (platform w).

(** The slots become an object once the queue is bound to them. *)
Definition init_back (p base : Z) (v : Spsc.world T) (w : machine) : machine :=
  let m := put_object p (wrap (MkQueueOf (T := T) (Spsc.queue v))) (mem w) in
  MkMachine (if Spsc.is_initialized (Spsc.queue v) then place base (wrap (MkSlots (Spsc.slots v))) m else m)
            (stacks w) (Spsc.host v).

Definition queue_init (new : SpscQueue)
    (init : Z -> Z -> M (Spsc.world T) (result unit IpcError))
    (queue memory_base size_in_bytes : Z) : M machine ShawncoreRtosErr :=
  if is_null queue
     || negb (valid_dma_region slot_size slot_align memory_base size_in_bytes N)
     || object_overlaps_backing (csize (U := object) (Queue T)) queue memory_base size_in_bytes
  then mret RtosInvalidMemory else
  if negb (ptr_is_aligned (Queue T) queue) then mret RtosInvalidMemory else
  on_mem (ptr_write queue (MkQueueOf (T := T) new)) ;;
  queue_ref ← on_mem (ptr_read queue);
  r ← zoom (init_view (raw_queue (T := T) queue_ref) memory_base) (init_back queue memory_base)
           (init memory_base size_in_bytes);
  match r with
  | Ok _ => mret RtosSuccess
  | Err e => mret (rtos_of_ipc e)
  end.

Definition queue_push (push : T -> M (Spsc.world T) (result unit IpcError)) (queue event : Z)
  : M machine ShawncoreRtosErr :=
  if is_null queue || is_null event then mret RtosInvalidMemory else
  if negb (ptr_is_aligned (Queue T) queue) || negb (ptr_is_aligned T event)
  then mret RtosInvalidMemory else
  event_val ← on_mem (ptr_read event);
  r ← with_queue queue (push event_val);
  match r with
  | Ok _ => mret RtosSuccess
  | Err error => mret (rtos_of_ipc error)
  end.

(** [pop] and [peek] share everything but the operation. *)
Definition queue_take (take : M (Spsc.world T) (option T)) (queue out_event : Z)
  : M machine ShawncoreRtosErr :=
  if is_null queue || is_null out_event then mret RtosInvalidMemory else
  if negb (ptr_is_aligned (Queue T) queue) || negb (ptr_is_aligned T out_event)
  then mret RtosInvalidMemory else
  if ranges_overlap queue (csize (U := object) (Queue T)) out_event (csize (U := object) T)
  then mret RtosInvalidMemory else
  queue_ref ← on_mem (ptr_read queue);
  if negb (Spsc.is_initialized (raw_queue (T := T) queue_ref)) then mret RtosNotInitialized else
  r ← with_queue queue take;
  match r with
  | Some event =>
      on_mem (ptr_write out_event event) ;;
      mret RtosSuccess
  | None => mret RtosQueueEmpty
  end.

End queue_entry_points.

Definition shawncore_rtos_spsc_telemetry_init : Z -> Z -> Z -> M machine ShawncoreRtosErr :=
  queue_init (T := TelemetryEvent) 64 Spsc.new (Spsc.init 64).
Definition shawncore_rtos_spsc_telemetry_destroy : Z -> M machine ShawncoreRtosErr :=
  destroy_object (T := Queue TelemetryEvent).
Definition shawncore_rtos_spsc_telemetry_push : Z -> Z -> M machine ShawncoreRtosErr :=
  queue_push (T := TelemetryEvent) (Spsc.push 64).
Definition shawncore_rtos_spsc_telemetry_pop : Z -> Z -> M machine ShawncoreRtosErr :=
  queue_take (T := TelemetryEvent) (Spsc.pop 64).

Definition shawncore_rtos_ringbuffer_ew_init : Z -> Z -> Z -> M machine ShawncoreRtosErr :=
  queue_init (T := EwCommand) 1024 RB.new (RB.init 1024).
Definition shawncore_rtos_ringbuffer_ew_destroy : Z -> M machine ShawncoreRtosErr :=
  destroy_object (T := Queue EwCommand).
Definition shawncore_rtos_ringbuffer_ew_push : Z -> Z -> M machine ShawncoreRtosErr :=
  queue_push (T := EwCommand) (RB.push 1024).
Definition shawncore_rtos_ringbuffer_ew_pop : Z -> Z -> M machine ShawncoreRtosErr :=
  queue_take (T := EwCommand) (RB.pop 1024).
Definition shawncore_rtos_ringbuffer_ew_peek : Z -> Z -> M machine ShawncoreRtosErr :=
  queue_take (T := EwCommand) (RB.peek 1024).

Definition shawncore_rtos_spsc_fft_init : Z -> Z -> Z -> M machine ShawncoreRtosErr :=
  queue_init (T := FftResult) 256 Spsc.new (Spsc.init 256).
Definition shawncore_rtos_spsc_fft_destroy : Z -> M machine ShawncoreRtosErr :=
  destroy_object (T := Queue FftResult).
Definition shawncore_rtos_spsc_fft_push : Z -> Z -> M machine ShawncoreRtosErr :=
  queue_push (T := FftResult) (Spsc.push 256).
Definition shawncore_rtos_spsc_fft_pop : Z -> Z -> M machine ShawncoreRtosErr :=
  queue_take (T := FftResult) (Spsc.pop 256).

(** * State machine and latency tracker *)

(** Run an operation on an object that needs nothing else of the machine. *)
Definition with_object {T A} `{!CType object T} (p : Z) (op : M T A) : M machine A :=
  x ← on_mem (ptr_read p);
  zoom (fun _ => x) (fun x' w => set_mem (put_object p (wrap x') (mem w)) w) op.

Definition shawncore_rtos_state_machine_init : Z -> M machine ShawncoreRtosErr :=
  init_object (T := SM.StateMachine) SM.new.
Definition shawncore_rtos_state_machine_destroy : Z -> M machine ShawncoreRtosErr :=
  destroy_object (T := SM.StateMachine).

Definition shawncore_rtos_state_machine_try_advance (fuel : nat) (spurious : list bool)
    (machine_ target_state : Z) : M machine ShawncoreRtosErr :=
  if is_null machine_ then mret RtosInvalidMemory else
  if negb (ptr_is_aligned SM.StateMachine machine_) then mret RtosInvalidMemory else
  let advance target :=
    r ← with_object machine_ (SM.try_advance fuel spurious target);
    match r with
    | Ok _ => mret RtosSuccess
    | Err _ => mret RtosInvalidState
    end in
  match target_state with
  | 0 => advance SM.Init
  | 1 => advance SM.Bootstrapping
  | 2 => advance SM.Operational
  | 3 => advance SM.Degraded
  | 4 => advance SM.Terminal
  | _ => mret RtosInvalidState
  end.

Definition shawncore_rtos_latency_tracker_init : Z -> M machine ShawncoreRtosErr :=
  init_object (T := Lat.LatencyTracker) Lat.new.
Definition shawncore_rtos_latency_tracker_destroy : Z -> M machine ShawncoreRtosErr :=
  destroy_object (T := Lat.LatencyTracker).

Definition shawncore_rtos_latency_tracker_mark_start (tracker current_timestamp : Z)
  : M machine ShawncoreRtosErr :=
  if is_null tracker then mret RtosInvalidMemory else
  if negb (ptr_is_aligned Lat.LatencyTracker tracker) then mret RtosInvalidMemory else
  with_object tracker (Lat.mark_start current_timestamp) ;;
  mret RtosSuccess.

Definition shawncore_rtos_latency_tracker_mark_end (fuel : nat) (spurious1 spurious2 : list bool)
    (tracker current_timestamp : Z) : M machine ShawncoreRtosErr :=
  if is_null tracker then mret RtosInvalidMemory else
  if negb (ptr_is_aligned Lat.LatencyTracker tracker) then mret RtosInvalidMemory else
  with_object tracker (Lat.mark_end fuel spurious1 spurious2 current_timestamp) ;;
  mret RtosSuccess.

(** * Calls

    A C program is a sequence of calls; [fuel] is one more than the list of spurious
    failures, as in the components. *)

Inductive call : Type :=
| SchedulerInit (scheduler : Z)
| SchedulerDestroy (scheduler : Z)
| TcbNew (entry_point stack_base stack_size initial_rsp priority out_tcb : Z)
| TcbGetRsp (tcb : Z)
| TcbSetRsp (tcb rsp : Z)
| CreateTask (scheduler tcb canary_value : Z)
| Tick (scheduler current_rsp : Z)
| SetCriticalTaskMask (scheduler critical_task_mask : Z)
| TaskCheckIn (scheduler priority : Z)
| PoolInit (pool memory_base size_in_bytes : Z)
| PoolDestroy (pool : Z)
| PoolAllocate (spurious : list bool) (pool out_idx out_generation out_ptr : Z)
| PoolFree (spurious : list bool) (pool buffer_idx generation : Z)
| TelemetryInit (queue memory_base size_in_bytes : Z)
| TelemetryDestroy (queue : Z)
| TelemetryPush (queue event : Z)
| TelemetryPop (queue out_event : Z)
| EwInit (rb memory_base size_in_bytes : Z)
| EwDestroy (rb : Z)
| EwPush (rb item : Z)
| EwPop (rb out_item : Z)
| EwPeek (rb out_item : Z)
| FftInit (queue memory_base size_in_bytes : Z)
| FftDestroy (queue : Z)
| FftPush (queue item : Z)
| FftPop (queue out_item : Z)
| MachineInit (machine_ : Z)
| MachineDestroy (machine_ : Z)
| TryAdvance (spurious : list bool) (machine_ target_state : Z)
| TrackerInit (tracker : Z)
| TrackerDestroy (tracker : Z)
| MarkStart (tracker current_timestamp : Z)
| MarkEnd (spurious1 spurious2 : list bool) (tracker current_timestamp : Z).

(** An error code, or the stack pointer a scheduler call answers. *)
Inductive reply : Type :=
| Code (e : ShawncoreRtosErr)
| StackPointer (rsp : Z).

Definition code (m : M machine ShawncoreRtosErr) : M machine reply := e ← m; mret (Code e).
Definition pointer (m : M machine Z) : M machine reply := v ← m; mret (StackPointer v).

Definition run_call (debug : bool) (c : call) : M machine reply :=
  match c with
  | SchedulerInit p => code (shawncore_rtos_scheduler_init p)
  | SchedulerDestroy p => code (shawncore_rtos_scheduler_destroy p)
  | TcbNew e b s r pr out => code (shawncore_rtos_tcb_new e b s r pr out)
  | TcbGetRsp p => pointer (shawncore_rtos_tcb_get_rsp p)
  | TcbSetRsp p r => code (shawncore_rtos_tcb_set_rsp p r)
  | CreateTask s t c => code (shawncore_rtos_scheduler_create_task s t c)
  | Tick s r => pointer (shawncore_rtos_scheduler_tick s r)
  | SetCriticalTaskMask s m => code (shawncore_rtos_scheduler_set_critical_task_mask s m)
  | TaskCheckIn s p => code (shawncore_rtos_scheduler_task_check_in s p)
  | PoolInit p b n => code (shawncore_rtos_dmapool2k_init p b n)
  | PoolDestroy p => code (shawncore_rtos_dmapool2k_destroy p)
  | PoolAllocate sp p i g o => code (shawncore_rtos_dmapool2k_allocate debug (S (length sp)) sp p i g o)
  | PoolFree sp p i g => code (shawncore_rtos_dmapool2k_free (S (length sp)) sp p i g)
  | TelemetryInit q b n => code (shawncore_rtos_spsc_telemetry_init q b n)
  | TelemetryDestroy q => code (shawncore_rtos_spsc_telemetry_destroy q)
  | TelemetryPush q e => code (shawncore_rtos_spsc_telemetry_push q e)
  | TelemetryPop q o => code (shawncore_rtos_spsc_telemetry_pop q o)
  | EwInit q b n => code (shawncore_rtos_ringbuffer_ew_init q b n)
  | EwDestroy q => code (shawncore_rtos_ringbuffer_ew_destroy q)
  | EwPush q e => code (shawncore_rtos_ringbuffer_ew_push q e)
  | EwPop q o => code (shawncore_rtos_ringbuffer_ew_pop q o)
  | EwPeek q o => code (shawncore_rtos_ringbuffer_ew_peek q o)
  | FftInit q b n => code (shawncore_rtos_spsc_fft_init q b n)
  | FftDestroy q => code (shawncore_rtos_spsc_fft_destroy q)
  | FftPush q e => code (shawncore_rtos_spsc_fft_push q e)
  | FftPop q o => code (shawncore_rtos_spsc_fft_pop q o)
  | MachineInit p => code (shawncore_rtos_state_machine_init p)
  | MachineDestroy p => code (shawncore_rtos_state_machine_destroy p)
  | TryAdvance sp p t => code (shawncore_rtos_state_machine_try_advance (S (length sp)) sp p t)
  | TrackerInit p => code (shawncore_rtos_latency_tracker_init p)
  | TrackerDestroy p => code (shawncore_rtos_latency_tracker_destroy p)
  | MarkStart p t => code (shawncore_rtos_latency_tracker_mark_start p t)
  | MarkEnd sp1 sp2 p t =>
      code (shawncore_rtos_latency_tracker_mark_end (S (length sp1 + length sp2)) sp1 sp2 p t)
  end.

Fixpoint run_calls (debug : bool) (cs : list call) : M machine (list reply) :=
  match cs with
  | [] => mret []
  | c :: cs' => r ← run_call debug c; rs ← run_calls debug cs'; mret (r :: rs)
  end.

(** * What a call demands of its pointers *)

(** The pointers a call passes, each with the size and alignment of what it points to. *)
Definition targets (c : call) : list (Z * Z * Z) :=
  match c with
  | SchedulerInit p | SchedulerDestroy p | Tick p _ | SetCriticalTaskMask p _ | TaskCheckIn p _ =>
      [(p, scheduler_size, 64)]
  | TcbNew _ _ _ _ _ p | TcbGetRsp p | TcbSetRsp p _ => [(p, tcb_size, 64)]
  | CreateTask s t _ => [(s, scheduler_size, 64); (t, tcb_size, 64)]
  | PoolInit p _ _ | PoolDestroy p | PoolFree _ p _ _ => [(p, pool2k_size, 64)]
  | PoolAllocate _ p i g o => [(p, pool2k_size, 64); (i, 8, 8); (g, 8, 8); (o, 8, 8)]
  | TelemetryInit q _ _ | TelemetryDestroy q | EwInit q _ _ | EwDestroy q
  | FftInit q _ _ | FftDestroy q => [(q, queue_size, 64)]
  | TelemetryPush q e | TelemetryPop q e => [(q, queue_size, 64); (e, telemetry_size, 64)]
  | EwPush q e | EwPop q e | EwPeek q e => [(q, queue_size, 64); (e, ew_size, 8)]
  | FftPush q e | FftPop q e => [(q, queue_size, 64); (e, fft_size, 64)]
  | MachineInit p | MachineDestroy p | TryAdvance _ p _ => [(p, machine_size, 64)]
  | TrackerInit p | TrackerDestroy p | MarkStart p _ | MarkEnd _ _ p _ => [(p, tracker_size, 64)]
  end.

(** Whether the call writes results through its later pointers, so that they must not
    alias each other or the object. *)
Definition has_outputs (c : call) : bool :=
  match c with
  | PoolAllocate _ _ _ _ _ | TelemetryPop _ _ | EwPop _ _ | EwPeek _ _ | FftPop _ _ => true
  | _ => false
  end.

(** The backing region of an initialisation: address, length, and what is required of it. *)
Definition backing_region (c : call) : option (Z * Z * Z * Z) :=
  match c with
  | PoolInit _ b n => Some (b, n, 256 * 2048, 1)
  | TelemetryInit _ b n => Some (b, n, 64 * slot_size (T := TelemetryEvent), 64)
  | EwInit _ b n => Some (b, n, 1024 * slot_size (T := EwCommand), 64)
  | FftInit _ b n => Some (b, n, 256 * slot_size (T := FftResult), 64)
  | _ => None
  end.

Definition well_placed (t : Z * Z * Z) : Prop := let '(p, _, align) := t in p <> 0 /\ p mod align = 0.

(** The two ranges fit below the top of the address space and share no address. *)
Definition apart (t u : Z * Z * Z) : Prop :=
  let '(p, n, _) := t in let '(q, k, _) := u in
  p + n < 2 ^ 64 /\ q + k < 2 ^ 64 /\ ~ meets p n q k.

Definition region_fit (c : call) : Prop :=
  match backing_region c with
  | None => True
  | Some (b, n, required, align) =>
      b <> 0 /\ b mod 4096 = 0 /\ b mod align = 0 /\ required <= n /\ b + required < 2 ^ 64 /\
      Forall (fun t => apart t (b, n, align)) (targets c)
  end.

(** The pointers are acceptable. *)
Definition pointers_valid (c : call) : Prop :=
  Forall well_placed (targets c) /\
  (has_outputs c = true -> ForallOrdPairs apart (targets c)) /\
  region_fit c.

#[export] Instance pointers_valid_dec (c : call) : Decision (pointers_valid c).
Proof.
  assert (RelDecision apart) by (intros [[??]?] [[??]?]; apply _).
  assert (forall t, Decision (well_placed t)) by (intros [[??]?]; apply _).
  unfold pointers_valid, region_fit.
  destruct (backing_region c) as [[[[??]?]?]|]; apply _.
Defined.

(** The remaining arguments an entry point checks itself. *)
Definition refusal (c : call) : option reply :=
  match c with
  | TcbNew 0 _ _ _ _ _ => Some (Code RtosTaskFault)
  | TaskCheckIn _ p => if 16 <=? p then Some (Code RtosInvalidMemory) else None
  | TryAdvance _ _ t => if 5 <=? t then Some (Code RtosInvalidState) else None
  | _ => None
  end.

(** What a call answers when its pointers are not acceptable. *)
Definition pointer_error (c : call) : reply :=
  match c with
  | TcbGetRsp _ => StackPointer 0
  | Tick _ r => StackPointer r
  | _ => Code RtosInvalidMemory
  end.

(** Arguments are unsigned machine words. *)
Definition args_in_range (c : call) : Prop :=
  Forall (fun '(p, _, _) => 0 <= p) (targets c) /\
  match c with
  | PoolInit _ b n | TelemetryInit _ b n | EwInit _ b n | FftInit _ b n => 0 <= b /\ 0 <= n
  | TryAdvance _ _ t => 0 <= t
  | _ => True
  end.

(** * Lemmas on the checks *)

Lemma ranges_overlap_spec (p n q k : Z) :
  0 < n -> 0 < k ->
  ranges_overlap p n q k = false <-> p + n < 2 ^ 64 /\ q + k < 2 ^ 64 /\ ~ meets p n q k.
Proof.
  intros Hn Hk. rewrite meets_iff by done. unfold ranges_overlap, checked_add.
  boolify; cbn [andb]; intuition (congruence || lia).
Qed.

Lemma apart_overlap (p n a q k b : Z) :
  apart (p, n, a) (q, k, b) -> 0 < n -> 0 < k -> ranges_overlap p n q k = false.
Proof. intros. by apply ranges_overlap_spec. Qed.

Lemma valid_dma_region_spec (size align b n count : Z) :
  0 < align -> 0 <= b -> 0 <= count * size ->
  valid_dma_region size align b n count = true <->
  b <> 0 /\ b mod 4096 = 0 /\ b mod align = 0 /\ count * size <= n /\ b + count * size < 2 ^ 64.
Proof.
  intros Ha Hb Hc. unfold valid_dma_region, is_null, is_multiple_of, checked_mul, checked_add.
  change (4096 =? 0) with false. rewrite (proj2 (Z.eqb_neq align 0)) by lia. cbn iota.
  boolify; cbn [negb orb]; intuition (congruence || lia).
Qed.

Lemma aligned_spec (T : Type) `{!CType object T} (p : Z) :
  0 < calign T -> ptr_is_aligned T p = true <-> p mod calign T = 0.
Proof.
  intros Ha. unfold ptr_is_aligned, is_multiple_of.
  rewrite (proj2 (Z.eqb_neq (calign T) 0)) by lia. apply Z.eqb_eq.
Qed.

Lemma code_guard (b : bool) (e : ShawncoreRtosErr) (m : M machine ShawncoreRtosErr) (w : machine)
    (r : outcome machine reply) :
  (b = true -> Done (Code e) w = r) -> (b = false -> code m w = r) ->
  code (if b then mret e else m) w = r.
Proof. destruct b; auto. Qed.

Lemma pointer_guard (b : bool) (v : Z) (m : M machine Z) (w : machine) (r : outcome machine reply) :
  (b = true -> Done (StackPointer v) w = r) -> (b = false -> pointer m w = r) ->
  pointer (if b then mret v else m) w = r.
Proof. destruct b; auto. Qed.

Lemma is_null_spec (p : Z) : is_null p = false <-> p <> 0.
Proof. apply Z.eqb_neq. Qed.

Lemma valid_aligned_spec (T : Type) `{!CType object T} (p : Z) :
  0 < calign T -> valid_aligned_ptr T p = true <-> p <> 0 /\ p mod calign T = 0.
Proof.
  intros Ha. unfold valid_aligned_ptr. rewrite andb_true_iff, negb_true_iff, is_null_spec.
  by rewrite <- aligned_spec.
Qed.

Lemma aligned_true (T : Type) `{!CType object T} (p : Z) :
  0 < calign T -> p mod calign T = 0 -> ptr_is_aligned T p = true.
Proof. intros. by apply aligned_spec. Qed.

Lemma valid_aligned_true (T : Type) `{!CType object T} (p : Z) :
  0 < calign T -> p <> 0 -> p mod calign T = 0 -> valid_aligned_ptr T p = true.
Proof. intros. by apply valid_aligned_spec. Qed.

(** The checks of the entry points as propositions. *)
Ltac checks_in H :=
  unfold object_overlaps_backing in H;
  rewrite ?orb_false_iff, ?negb_false_iff, ?is_null_spec, ?valid_aligned_spec, ?aligned_spec,
    ?valid_dma_region_spec, ?ranges_overlap_spec in H by (done || lia);
  cbn [csize calign ct_tcb ct_scheduler ct_pool ct_word ct_telemetry ct_telemetry_queue ct_ew
       ct_ew_ring ct_fft ct_fft_queue ct_machine ct_tracker] in H.
Ltac checks := repeat match goal with H : _ = false |- _ => progress checks_in H end.

Create HintDb entry.
#[export] Hint Unfold
  shawncore_rtos_scheduler_init shawncore_rtos_scheduler_destroy shawncore_rtos_tcb_new
  shawncore_rtos_tcb_get_rsp shawncore_rtos_tcb_set_rsp shawncore_rtos_scheduler_create_task
  shawncore_rtos_scheduler_tick shawncore_rtos_scheduler_set_critical_task_mask
  shawncore_rtos_scheduler_task_check_in shawncore_rtos_dmapool2k_init
  shawncore_rtos_dmapool2k_destroy shawncore_rtos_dmapool2k_allocate shawncore_rtos_dmapool2k_free
  shawncore_rtos_spsc_telemetry_init shawncore_rtos_spsc_telemetry_destroy
  shawncore_rtos_spsc_telemetry_push shawncore_rtos_spsc_telemetry_pop
  shawncore_rtos_ringbuffer_ew_init shawncore_rtos_ringbuffer_ew_destroy
  shawncore_rtos_ringbuffer_ew_push shawncore_rtos_ringbuffer_ew_pop
  shawncore_rtos_ringbuffer_ew_peek shawncore_rtos_spsc_fft_init shawncore_rtos_spsc_fft_destroy
  shawncore_rtos_spsc_fft_push shawncore_rtos_spsc_fft_pop shawncore_rtos_state_machine_init
  shawncore_rtos_state_machine_destroy shawncore_rtos_state_machine_try_advance
  shawncore_rtos_latency_tracker_init shawncore_rtos_latency_tracker_destroy
  shawncore_rtos_latency_tracker_mark_start shawncore_rtos_latency_tracker_mark_end : entry.

(** Walk through the checks at the head of an entry point. *)
Ltac guards :=
  repeat (first [apply code_guard | apply pointer_guard]; [by intros | intros ?]).

Lemma rejects (debug : bool) (c : call) (w : machine) :
  args_in_range c -> ~ pointers_valid c -> run_call debug c w = Done (pointer_error c) w.
Proof.
  intros [Hr Hr'] Hbad. destruct c; cbn [run_call pointer_error] in *;
    autounfold with entry; unfold init_object, destroy_object, queue_init, queue_push, queue_take;
    guards; exfalso; apply Hbad; clear Hbad; checks; destruct_and?;
    (split; [by repeat constructor|]; split; [try done | try done]).
  all: try (intros _; repeat constructor; cbn; done).
  all: cbn; split_and!; try done; repeat constructor; try done.
  all: match goal with
       | H : ranges_overlap _ _ _ ?n = false, L : _ <= ?n |- _ =>
           apply ranges_overlap_spec in H;
             [naive_solver | done | by eapply Z.lt_le_trans; [|exact L]]
       end.
Qed.

Lemma refuses (debug : bool) (c : call) (w : machine) (r : reply) :
  args_in_range c -> pointers_valid c -> refusal c = Some r -> run_call debug c w = Done r w.
Proof.
  intros [Hr Hr'] [Hp _] Href. destruct c; cbn [refusal] in Href; try done.
  - destruct entry_point; try done. injection Href as <-. apply Forall_singleton in Hp as [Hn Ha].
    cbn [run_call]. unfold shawncore_rtos_tcb_new, code. msimpl.
    by rewrite valid_aligned_true, aligned_true by done.
  - destruct (Z.leb_spec 16 priority); [|done]. injection Href as <-.
    cbn. unfold shawncore_rtos_scheduler_task_check_in.
    rewrite (proj2 (Z.leb_le 16 priority)), orb_true_r by done. done.
  - destruct (Z.leb_spec 5 target_state); [|done]. injection Href as <-. cbn in *.
    apply Forall_singleton in Hp as [Hn Ha].
    unfold shawncore_rtos_state_machine_try_advance, code. msimpl.
    rewrite (proj2 (is_null_spec _) Hn), aligned_true by done. cbn [negb].
    destruct target_state as [|[[[]|[]|]|[[]|[]|]|]|]; (done || lia).
Qed.

(** * Claims *)


Definition empty_machine : machine := MkMachine (MkMem [] ∅ ∅) ∅ host_boot.


(** C29: the overlap test is exact on machine addresses: it answers "no overlap" for two
    non-empty ranges exactly when both end below the top of the address space and they
    have no address in common; in particular a range whose end wraps around always
    counts as overlapping. *)
Theorem ffi_overlap_exact (p n q k : Z) :
  0 < n -> 0 < k ->
  ranges_overlap p n q k = false <->
  p + n < 2 ^ 64 /\ q + k < 2 ^ 64 /\ forall a, ~ (within p n a /\ within q k a).
Proof.
  intros Hn Hk. rewrite ranges_overlap_spec by done. unfold meets. naive_solver.
Qed.

Lemma ffi_overlap_exact_witness :
  ranges_overlap 4096 64 4160 8 = false /\ ranges_overlap (2 ^ 64 - 8) 8 4096 8 = true.
Proof.
  split.
  - apply ffi_overlap_exact; [done..|]. split_and!; [done..|]. unfold within. lia.
  - vm_compute. reflexivity.
Defined.

End RtosC.
