(* ===== verification/RtosFfiTyped.v ===== *)
(** What the C entry points of shawncore-rtos-sync guarantee to any caller whatsoever,
    whatever pointers are passed: the host's memory stays well typed ([mem_wf]), and a
    call that succeeds leaves its handle, its backing and all its results in place
    together. *)

From stdpp Require Import gmap.
From S2P Require Import Prelude CMemory RtosHost Fifo Spsc RingBuffer Scheduler DmaPool StateMachine Latency RtosTypes RtosFfi.
Local Open Scope Z_scope.

Module RtosTyped.
Import RtosC.

(** * Typed access keeps memory well formed *)

Definition typed (w : machine) : Prop := mem_wf (mem w).

Section typed_access.
Context {T : Type} `{!CType object T}.

Lemma object_at_Some (p : Z) (m : cmem object) (x : T) :
  object_at p m = Some x <-> objects m !! p = Some (wrap x).
Proof.
  unfold object_at. rewrite bind_Some. split.
  - intros (u & Hu & Hx). by apply unwrap_Some in Hx as ->.
  - intros Hu. exists (wrap x). by rewrite unwrap_wrap.
Qed.

Lemma typed_put (p : Z) (x y : T) (m : cmem object) :
  mem_wf m -> objects m !! p = Some (wrap x) -> mem_wf (put_object p (wrap y) m).
Proof.
  intros Hm Hp. eapply mem_wf_put; [done|done|by rewrite !wrap_extent|by rewrite !wrap_alignment].
Qed.

Lemma read_run (p : Z) (x : T) (w : machine) :
  object_at p (mem w) = Some x -> on_mem (ptr_read p) w = Done x w.
Proof. intros E. unfold on_mem, zoom, ptr_read. msimpl. rewrite E. by destruct w. Qed.

Lemma write_run (p : Z) (x : T) (w : machine) :
  mapped p (csize T) (mem w) = true ->
  on_mem (ptr_write p x) w = Done tt (set_mem (place p (wrap x) (mem w)) w).
Proof. intros E. unfold on_mem, zoom, ptr_write. msimpl. by rewrite E. Qed.

Lemma write_unmapped (p : Z) (x : T) (w : machine) :
  mapped p (csize T) (mem w) = false -> on_mem (ptr_write p x) w = Undefined.
Proof. intros E. unfold on_mem, zoom, ptr_write. msimpl. by rewrite E. Qed.

Lemma keeps_read (p : Z) : keeps typed (on_mem (ptr_read (T := T) p)).
Proof.
  intros w Hw. unfold on_mem, zoom, ptr_read. msimpl.
  destruct (object_at p (mem w)); [by destruct w|done].
Qed.

Lemma keeps_write (p : Z) (x : T) :
  0 < p -> 0 < csize T -> ptr_is_aligned T p = true -> keeps typed (on_mem (ptr_write p x)).
Proof.
  intros Hp Hs Ha w Hw. unfold on_mem, zoom, ptr_write. msimpl.
  destruct (mapped p (csize T) (mem w)) eqn:Hm; [|done].
  apply mem_wf_place; rewrite ?wrap_extent, ?wrap_alignment; done.
Qed.

Lemma keeps_drop (p : Z) : keeps typed (on_mem (ptr_drop (T := T) p)).
Proof.
  intros w Hw. unfold on_mem, zoom, ptr_drop, ptr_read. msimpl.
  destruct (object_at p (mem w)); [by apply mem_wf_remove|done].
Qed.

(** Reading an object and putting back what an operation made of it. *)
Lemma keeps_focus {V A} (p : Z) (view : T -> machine -> V) (back : T -> V -> machine -> machine)
    (op : M V A) :
  (forall x v w, typed w -> object_at p (mem w) = Some x -> typed (back x v w)) ->
  keeps typed (x ← on_mem (ptr_read p); zoom (view x) (back x) op).
Proof.
  intros Hback w Hw. unfold on_mem, ptr_read, zoom. msimpl.
  destruct (object_at p (mem w)) as [x|] eqn:E; [|done]. msimpl.
  destruct (op (view x (set_mem (mem w) w))); [| |done]; by apply Hback.
Qed.

End typed_access.

Lemma typed_put_region (p : Z) (l : list byte) (m : cmem object) :
  mem_wf m -> mem_wf (put_region p l m).
Proof.
  intros Hm. unfold put_region. destruct (object_at p m) as [r|] eqn:E; [|done].
  refine (typed_put p r (MkRegion l) m _ _); [done|by apply object_at_Some].
Qed.

Lemma typed_put_cells {T} `{Elem T, !CType object T, !CType object (Queue T), !CType object (Slots T)}
    (p : Z) (l : list (CacheAlignedSlot T)) (m : cmem object) :
  mem_wf m -> mem_wf (put_cells p l m).
Proof.
  intros Hm. unfold put_cells. destruct (object_at p m) as [r|] eqn:E; [|done].
  refine (typed_put p r (MkSlots l) m _ _); [done|by apply object_at_Some].
Qed.

(** The block a [Tcb] pointer resolves to. *)
Lemma task_of_Some (p b : Z) (s : Sched.PerCoreScheduler) (i : nat) (m : cmem object) :
  task_of p m = Some (b, s, i) -> objects m !! b = Some (OScheduler s).
Proof.
  unfold task_of. intros E. apply head_Some_elem_of, list_elem_of_omap in E as ([b' o] & Hin & E).
  apply elem_of_map_to_list in Hin. destruct o; try done.
  destruct (_ && _ && _); [|done]. by injection E as -> -> _.
Qed.

Lemma typed_put_tcb (p : Z) (t : Sched.Tcb) (m : cmem object) : mem_wf m -> mem_wf (put_tcb p t m).
Proof.
  intros Hm. unfold put_tcb. destruct (object_at p m) as [t'|] eqn:E.
  - by refine (typed_put p t' t m _ _); [|apply object_at_Some].
  - destruct (task_of p m) as [[[b s] i]|] eqn:Et; [|done].
    by refine (typed_put b s (Sched.set_tasks _ s) m _ _); [|apply (task_of_Some _ _ _ _ _ Et)].
Qed.

Lemma keeps_read_tcb (p : Z) : keeps typed (read_tcb p).
Proof. intros w Hw. unfold read_tcb. msimpl. by destruct (tcb_at p (mem w)). Qed.

Lemma keeps_with_scheduler {A} (p : Z) (op : M Sched.world A) : keeps typed (with_scheduler p op).
Proof.
  apply (keeps_focus (T := Sched.PerCoreScheduler) p sched_view (fun _ => sched_back p)).
  intros x v w Hw E. by refine (typed_put p x (Sched.sched v) _ _ _); [|apply object_at_Some].
Qed.

Lemma keeps_with_pool {A} (p : Z) (op : M Dma.world A) : keeps typed (with_pool p op).
Proof.
  apply (keeps_focus (T := Dma.StaticDmaPool) p (fun d => pool_view d (Dma.memory d))
           (fun d => pool_back p (Dma.memory d))).
  intros x v w Hw E. apply typed_put_region.
  by refine (typed_put p x (Dma.pool v) _ _ _); [|apply object_at_Some].
Qed.

Lemma keeps_with_queue {T A} `{Elem T, !CType object T, !CType object (Queue T), !CType object (Slots T)}
    (p : Z) (op : M (Spsc.world T) A) : keeps typed (with_queue p op).
Proof.
  apply (keeps_focus (T := Queue T) p (fun q => queue_view (raw_queue q))
           (fun q => queue_back p (Spsc.buffer (raw_queue q)))).
  intros x v w Hw E. apply typed_put_cells.
  by eapply (typed_put (T := Queue T)); [|apply object_at_Some].
Qed.

Lemma keeps_with_object {T A} `{!CType object T} (p : Z) (op : M T A) : keeps typed (with_object p op).
Proof.
  apply (keeps_focus (T := T) p (fun x _ => x) (fun _ x' w => set_mem (put_object p (wrap x') (mem w)) w)).
  intros x v w Hw E. by eapply typed_put; [|apply object_at_Some].
Qed.

(** Binding a queue to storage the host does not own never completes. *)
Definition init_needs_slots {T} (init : Z -> Z -> M (Spsc.world T) (result unit IpcError)) : Prop :=
  forall b n v, Spsc.slots v = [] -> Spsc.is_initialized (Spsc.queue v) = false ->
    match init b n v with
    | Done _ v' | Halted v' => Spsc.is_initialized (Spsc.queue v') = false
    | Undefined => True
    end.

Lemma spsc_init_needs_slots {T} `{Elem T} (N : Z) : 0 < N -> init_needs_slots (T := T) (Spsc.init N).
Proof.
  intros HN b n v Hs Hi. unfold Spsc.init. destruct (b =? 0); [done|].
  destruct (checked_mul 64 N slot_size); [|done]. destruct (n <? z); [done|].
  destruct (negb _ || negb _); [done|]. msimpl. rewrite Hi. cbn [orb].
  destruct (Spsc.is_initializing (Spsc.queue v)); [done|]. cbn. rewrite Hi.
  destruct (Z.to_nat N) as [|k] eqn:Ek; [lia|]. cbn [for_range].
  unfold store_sequence, load_slot. msimpl. cbn. by rewrite Hs.
Qed.

Section queue_typed.
Context {T : Type} `{Elem T, !CType object T, !CType object (Queue T), !CType object (Slots T)}.
Variable N : Z.
Hypothesis extent_slots : csize (Slots T) = N * slot_size.
Hypothesis align_slots : calign (Slots T) = slot_align.
Hypothesis slots_pos : 0 < N * slot_size.
Hypothesis align_pos : 0 < slot_align (T := T).

Lemma keeps_queue_init (new : SpscQueue) (init : Z -> Z -> M (Spsc.world T) (result unit IpcError))
    (queue base size : Z) :
  Spsc.is_initialized new = false -> init_needs_slots init ->
  0 <= queue -> 0 <= base -> 0 < csize (Queue T) ->
  keeps typed (queue_init N new init queue base size).
Proof.
  intros Hnew Hinit Hq Hb Hsz. unfold queue_init.
  apply keeps_if; [intros _; apply keeps_ret|intros Hg].
  apply keeps_if; [intros _; apply keeps_ret|intros Ha%negb_false_iff].
  rewrite !orb_false_iff, negb_false_iff, is_null_spec in Hg. destruct Hg as [[Hq0 Hreg] _].
  apply valid_dma_region_spec in Hreg as (Hb0 & _ & Hba & _); [|done|done|lia].
  intros w Hw. unfold mbind, M_bind.
  destruct (mapped queue (csize (Queue T)) (mem w)) eqn:Hm; [|by rewrite write_unmapped].
  rewrite write_run by done. set (w1 := set_mem _ w).
  assert (Hw1 : typed w1).
  { apply mem_wf_place; rewrite ?wrap_extent, ?wrap_alignment; (done || lia). }
  assert (Hat : objects (mem w1) !! queue = Some (wrap (MkQueueOf (T := T) new))) by apply place_lookup.
  erewrite read_run by by apply object_at_Some. unfold zoom. cbn [raw_queue].
  assert (Hback : forall v, match raw_slots N base (mem w1) with [] => Spsc.is_initialized (Spsc.queue v) = false
                            | _ => True end -> typed (init_back queue base v w1)).
  { intros v Hv. unfold typed, init_back. cbn.
    pose proof (typed_put queue _ (MkQueueOf (T := T) (Spsc.queue v)) _ Hw1 Hat) as Hp.
    destruct (Spsc.is_initialized (Spsc.queue v)); [|done].
    apply mem_wf_place; rewrite ?wrap_extent, ?wrap_alignment, ?extent_slots, ?align_slots; try (done || lia).
    - change (mapped base (N * slot_size) (mem w1) = true). unfold raw_slots in Hv.
      destruct (mapped base (N * slot_size) (mem w1)); done.
    - unfold is_multiple_of. rewrite (proj2 (Z.eqb_neq slot_align 0)) by lia. by apply Z.eqb_eq. }
  specialize (Hinit base size (init_view N new base w1)).
  cbn in Hinit.
  destruct (init base size _) as [r v|v|]; [|apply Hback|done].
  - assert (Hv : typed (init_back queue base v w1)).
    { apply Hback. destruct (raw_slots N base (mem w1)) eqn:Er; [by apply Hinit|done]. }
    by destruct r.
  - destruct (raw_slots N base (mem w1)) eqn:Er; [by apply Hinit|done].
Qed.

Lemma keeps_queue_push (push : T -> M (Spsc.world T) (result unit IpcError)) (queue event : Z) :
  keeps typed (queue_push push queue event).
Proof.
  unfold queue_push. do 2 (apply keeps_if; intros _; [apply keeps_ret|]).
  apply keeps_bind; [apply keeps_read|intros x].
  apply keeps_bind; [apply keeps_with_queue|intros []; apply keeps_ret].
Qed.

Lemma keeps_queue_take (take : M (Spsc.world T) (option T)) (queue out : Z) :
  0 <= out -> 0 < csize T -> keeps typed (queue_take take queue out).
Proof.
  intros Ho Hs. unfold queue_take.
  apply keeps_if; [intros _; apply keeps_ret|intros [_ Hn%is_null_spec]%orb_false_iff].
  apply keeps_if; [intros _; apply keeps_ret|intros [_ Ha%negb_false_iff]%orb_false_iff].
  apply keeps_if; intros _; [apply keeps_ret|].
  apply keeps_bind; [apply keeps_read|intros q]. apply keeps_if; intros _; [apply keeps_ret|].
  apply keeps_bind; [apply keeps_with_queue|intros [x|]; [|apply keeps_ret]].
  apply keeps_bind; [apply keeps_write; (done || lia)|intros _; apply keeps_ret].
Qed.

End queue_typed.

(** ** Entry points *)

Lemma keeps_code (m : M machine ShawncoreRtosErr) : keeps typed m -> keeps typed (code m).
Proof. intros Hm. apply keeps_bind; [done|intros; apply keeps_ret]. Qed.

Lemma keeps_pointer (m : M machine Z) : keeps typed m -> keeps typed (pointer m).
Proof. intros Hm. apply keeps_bind; [done|intros; apply keeps_ret]. Qed.

Lemma keeps_init_object {T} `{!CType object T} (x : T) (p : Z) :
  0 <= p -> 0 < csize T -> keeps typed (init_object x p).
Proof.
  intros Hp Hs. unfold init_object.
  apply keeps_if; [intros _; apply keeps_ret|intros Hn%is_null_spec].
  apply keeps_if; [intros _; apply keeps_ret|intros Ha%negb_false_iff].
  apply keeps_bind; [apply keeps_write; (done || lia)|intros; apply keeps_ret].
Qed.

Lemma keeps_destroy_object {T} `{!CType object T} (p : Z) :
  keeps typed (destroy_object (T := T) p).
Proof.
  unfold destroy_object. do 2 (apply keeps_if; intros _; [apply keeps_ret|]).
  apply keeps_bind; [apply keeps_drop|intros; apply keeps_ret].
Qed.

Lemma keeps_pool_init (p b n : Z) : 0 <= p -> keeps typed (shawncore_rtos_dmapool2k_init p b n).
Proof.
  intros Hp. unfold shawncore_rtos_dmapool2k_init.
  apply keeps_if; [intros _; apply keeps_ret|intros [[Hn%is_null_spec _]%orb_false_iff _]%orb_false_iff].
  apply keeps_if; [intros _; apply keeps_ret|intros Ha%negb_false_iff].
  apply keeps_bind; [apply keeps_write; (done || lia)|intros _].
  intros w Hw. unfold mbind, M_bind.
  destruct (object_at (T := Dma.StaticDmaPool) p (mem w)) as [d|] eqn:E.
  - erewrite read_run by done. unfold zoom.
    assert (Hback : forall v, typed (pool_back p b v w)).
    { intros v. apply typed_put_region.
      by refine (typed_put p d (Dma.pool v) _ _ _); [|apply object_at_Some]. }
    destruct (Dma.init _ _ _ _ _) as [[]| |]; done || apply Hback.
  - unfold on_mem, zoom, ptr_read. msimpl. by rewrite E.
Qed.

#[local] Hint Resolve keeps_read_tcb keeps_with_scheduler keeps_with_pool
  keeps_with_object keeps_read keeps_drop : keep.

(** Descend through checks, sequencing and case distinctions. *)
Ltac keep :=
  repeat match goal with
  | |- keeps _ (code _) => apply keeps_code
  | |- keeps _ (pointer _) => apply keeps_pointer
  | |- keeps _ (if _ then _ else _) => apply keeps_if; [intros _; apply keeps_ret|intros ?]
  | |- keeps _ (on_mem (ptr_write _ _)) => fail 1
  | |- keeps _ (mbind _ _) => apply keeps_bind; [|intros ?]
  | |- keeps _ (match ?x with _ => _ end) => destruct x
  end; eauto with keep.

Lemma keeps_try_advance (fuel : nat) (sp : list bool) (p t : Z) :
  keeps typed (shawncore_rtos_state_machine_try_advance fuel sp p t).
Proof.
  unfold shawncore_rtos_state_machine_try_advance. do 2 (apply keeps_if; intros _; [apply keeps_ret|]).
  destruct t as [|[[[]|[]|]|[[]|[]|]|]|]; keep.
Qed.

Lemma keeps_call (debug : bool) (c : call) : args_in_range c -> keeps typed (run_call debug c).
Proof.
  intros [Hr Hr']. destruct c; cbn in Hr, Hr'; rewrite ?Forall_cons, ?Forall_singleton in Hr;
    destruct_and?; cbn [run_call]; (apply keeps_code || apply keeps_pointer); autounfold with entry.
  all: first
    [ apply keeps_pool_init; done
    | apply keeps_queue_init; first [done | apply spsc_init_needs_slots; done]
    | apply keeps_queue_push
    | apply keeps_queue_take; done
    | apply keeps_try_advance
    | apply keeps_init_object; done
    | apply keeps_destroy_object
    | keep ].
  3: intros w Hw; by apply typed_put_tcb.
  all: apply keeps_write; [|done|].
  all: repeat match goal with
       | H : _ = false |- _ => progress rewrite ?orb_false_iff, ?negb_false_iff in H
       end; destruct_and?; try done.
  all: repeat match goal with
       | H : is_null _ = false |- _ => apply is_null_spec in H
       | H : valid_aligned_ptr _ _ = true |- _ => apply andb_true_iff in H as [?%negb_true_iff _]
       end; lia.
Qed.

(** * Results in place *)

Lemma object_extent_pos (o : object) : 0 < extent o.
Proof. by destruct o. Qed.

(** A popped or peeked event: the operation's answer is at [out], the queue is still at
    its handle, and nothing else has changed but the slots the queue is bound to. *)
Definition taken {T} `{Elem T, !CType object T, !CType object (Queue T), !CType object (Slots T)}
    (take : M (Spsc.world T) (option T)) (queue out : Z) (w w' : machine) : Prop :=
  exists q x v, object_at queue (mem w) = Some (MkQueueOf (T := T) q) /\
    take (queue_view q w) = Done (Some x) v /\
    object_at queue (mem w') = Some (MkQueueOf (T := T) (Spsc.queue v)) /\
    object_at out (mem w') = Some x /\
    untouched [(queue, csize (Queue T)); (Spsc.buffer q, csize (Slots T)); (out, csize T)] (mem w) (mem w').

(** A bound queue: handle and slots lie side by side and the queue points at its slots,
    all of whose counters have been cleared. *)
Definition bound {T} `{Elem T, !CType object T, !CType object (Queue T), !CType object (Slots T)}
    (N : Z) (queue base : Z) (w w' : machine) : Prop :=
  exists q cs, object_at queue (mem w') = Some (MkQueueOf (T := T) q) /\
    Spsc.is_initialized q = true /\ Spsc.buffer q = base /\
    object_at base (mem w') = Some (MkSlots (T := T) cs) /\
    length cs = Z.to_nat N /\ Forall (fun s => sequence_counter s = 0) cs /\
    untouched [(queue, csize (Queue T)); (base, csize (Slots T))] (mem w) (mem w').

(** What a successful call has left. *)
Definition results (debug : bool) (c : call) (w w' : machine) : Prop :=
  match c with
  | PoolInit p b n =>
      exists d, object_at p (mem w') = Some d /\ Dma.memory d = b /\ Dma.is_initialized d = true /\
        (forall r : region, object_at b (mem w) = Some r -> is_Some (object_at (T := region) b (mem w'))) /\
        untouched [(p, pool2k_size); (b, 256 * 2048)] (mem w) (mem w')
  | PoolAllocate sp p i g o =>
      exists d idx gen ptr v, object_at p (mem w) = Some d /\
        Dma.allocate debug (S (length sp)) sp (pool_view d (Dma.memory d) w) = Done (Ok (idx, gen, ptr)) v /\
        object_at p (mem w') = Some (Dma.pool v) /\
        object_at i (mem w') = Some (MkWord idx) /\ object_at g (mem w') = Some (MkWord gen) /\
        object_at o (mem w') = Some (MkWord ptr) /\
        untouched [(p, pool2k_size); (Dma.memory d, 256 * 2048); (i, 8); (g, 8); (o, 8)] (mem w) (mem w')
  | TelemetryPop q o => taken (T := TelemetryEvent) (Spsc.pop 64) q o w w'
  | EwPop q o => taken (T := EwCommand) (RB.pop 1024) q o w w'
  | EwPeek q o => taken (T := EwCommand) (RB.peek 1024) q o w w'
  | FftPop q o => taken (T := FftResult) (Spsc.pop 256) q o w w'
  | TelemetryInit q b _ => bound (T := TelemetryEvent) 64 q b w w'
  | EwInit q b _ => bound (T := EwCommand) 1024 q b w w'
  | FftInit q b _ => bound (T := FftResult) 256 q b w w'
  | _ => True
  end.

Section in_place.
Context {T : Type} `{!CType object T}.

(** An object survives a write that does not reach it. *)
Lemma object_at_place (p q : Z) (o : object) (x : T) (m : cmem object) :
  object_at q m = Some x -> ~ meets p (extent o) q (csize T) -> object_at q (place p o m) = Some x.
Proof.
  rewrite !object_at_Some. intros Hq Hm. rewrite <- (wrap_extent x) in Hm.
  apply (un_objects _ _ _ (untouched_place p o m object_extent_pos)); [by constructor|done].
Qed.

Lemma object_at_placed (p : Z) (x : T) (m : cmem object) : object_at p (place p (wrap x) m) = Some x.
Proof. apply object_at_Some, place_lookup. Qed.

Lemma object_at_put (p : Z) (x : T) (m : cmem object) : object_at p (put_object p (wrap x) m) = Some x.
Proof. apply object_at_Some. apply lookup_insert_eq. Qed.

Lemma untouched_put_at (p : Z) (x : T) (m : cmem object) : untouched [(p, csize T)] m (put_object p (wrap x) m).
Proof. rewrite <- (wrap_extent x). apply untouched_put, object_extent_pos. Qed.

Lemma untouched_placed (p : Z) (x : T) (m : cmem object) : untouched [(p, csize T)] m (place p (wrap x) m).
Proof. rewrite <- (wrap_extent x). apply untouched_place, object_extent_pos. Qed.

Lemma ptr_write_done (p : Z) (x : T) (w w' : machine) :
  on_mem (ptr_write p x) w = Done tt w' -> w' = set_mem (place p (wrap x) (mem w)) w.
Proof.
  unfold on_mem, zoom, ptr_write. msimpl. destruct (mapped p _ (mem w)); [|done]. by intros [= <-].
Qed.

Lemma ptr_read_done (p : Z) (x : T) (w w' : machine) :
  on_mem (ptr_read p) w = Done x w' -> object_at p (mem w) = Some x /\ w' = w.
Proof.
  unfold on_mem, zoom, ptr_read. msimpl. destruct (object_at p (mem w)); [|done]. intros [= <- <-].
  by destruct w.
Qed.

End in_place.

(** The backing is an object of another type than the handle. *)
Lemma untouched_put_region (p : Z) (l : list byte) (m : cmem object) :
  untouched [(p, 256 * 2048)] m (put_region p l m).
Proof.
  unfold put_region. destruct (object_at p m); [|reflexivity]. exact (untouched_put_at p (MkRegion l) m).
Qed.

Lemma put_region_other {T} `{!CType object T} (p q : Z) (x : T) (l : list byte) (m : cmem object) :
  (forall r, unwrap (T := T) (ORegion r) = None) ->
  object_at q m = Some x -> object_at q (put_region p l m) = Some x.
Proof.
  intros Hr Hq. unfold put_region. destruct (object_at p m) as [r|] eqn:E; [|done].
  apply object_at_Some in E. unfold object_at in *. cbn. destruct (decide (p = q)) as [->|Hne].
  - rewrite E in Hq. cbn in Hq. by rewrite Hr in Hq.
  - by rewrite lookup_insert_ne.
Qed.

(** The result of one step of a run that returned. *)
Lemma bind_done {S A B} (m : M S A) (f : A -> M S B) (s s' : S) (b : B) :
  (m ≫= f) s = Done b s' -> exists a s1, m s = Done a s1 /\ f a s1 = Done b s'.
Proof. unfold mbind, M_bind. destruct (m s) as [a s1| |]; [|done..]. by exists a, s1. Qed.

Lemma code_success (m : M machine ShawncoreRtosErr) (w w' : machine) :
  code m w = Done (Code RtosSuccess) w' -> m w = Done RtosSuccess w'.
Proof.
  intros (e & w1 & E & E')%bind_done. unfold mret, M_ret in E'. by simplify_eq.
Qed.

Ltac passed H :=
  repeat lazymatch type of H with
  | (if ?b then mret _ else _) _ = Done RtosSuccess _ => destruct b eqn:?; [by unfold mret, M_ret in H; simplify_eq|]
  end.

Section queue_results.
Context {T : Type} `{Elem T, !CType object T, !CType object (Queue T), !CType object (Slots T)}.
Variable N : Z.
Hypothesis elem_pos : 0 < csize T.
Hypothesis queue_pos : 0 < csize (Queue T).
Hypothesis extent_slots : csize (Slots T) = N * slot_size.
Hypothesis align_pos : 0 < slot_align (T := T).
Hypothesis slots_pos : 0 < N * slot_size.
(** Handles and slots are objects of different types. *)
Hypothesis distinct : forall s : Slots T, unwrap (T := Queue T) (wrap s) = None.

Lemma untouched_put_cells (p : Z) (l : list (CacheAlignedSlot T)) (m : cmem object) :
  untouched [(p, csize (Slots T))] m (put_cells p l m).
Proof.
  unfold put_cells. destruct (object_at p m); [|reflexivity]. exact (untouched_put_at p (MkSlots l) m).
Qed.

Lemma put_cells_queue (p q : Z) (x : Queue T) (l : list (CacheAlignedSlot T)) (m : cmem object) :
  object_at q m = Some x -> object_at q (put_cells p l m) = Some x.
Proof.
  intros Hq. unfold put_cells. destruct (object_at p m) as [r|] eqn:E; [|done].
  apply object_at_Some in E. unfold object_at in *. cbn. destruct (decide (p = q)) as [->|Hne].
  - rewrite E in Hq. cbn in Hq. by rewrite distinct in Hq.
  - by rewrite lookup_insert_ne.
Qed.

Lemma queue_take_results (take : M (Spsc.world T) (option T)) (queue out : Z) (w w' : machine) :
  queue_take take queue out w = Done RtosSuccess w' -> taken take queue out w w'.
Proof.
  unfold queue_take. intros Hrun. passed Hrun.
  match goal with Hov : ranges_overlap _ _ _ _ = false |- _ =>
    apply ranges_overlap_spec in Hov as (_ & _ & Hap); [|done|done] end.
  apply bind_done in Hrun as ([q] & w1 & [Hq ->]%ptr_read_done & Hrun). passed Hrun.
  apply bind_done in Hrun as (r & w2 & Et & Hrun). unfold with_queue in Et.
  apply bind_done in Et as ([q'] & w3 & [Hq' ->]%ptr_read_done & Et). rewrite Hq in Hq'. injection Hq' as <-.
  unfold zoom in Et. cbn [raw_queue] in Et. destruct (take (queue_view q w)) as [r' v| |] eqn:Ev; [|done..].
  injection Et as -> <-. destruct r as [x|]; [|done].
  apply bind_done in Hrun as ([] & w4 & ->%ptr_write_done & Hrun). injection Hrun as <-.
  exists q, x, v. split; [done|]. split; [done|]. cbn [mem set_mem queue_back]. split_and!.
  - apply object_at_place; [|rewrite wrap_extent; by rewrite meets_sym]. apply put_cells_queue, object_at_put.
  - apply object_at_placed.
  - etrans; [eapply untouched_weaken; [|apply (untouched_put_at queue (MkQueueOf (T := T) (Spsc.queue v)))]; set_solver|].
    etrans; [eapply untouched_weaken; [|apply (untouched_put_cells (Spsc.buffer q) (Spsc.slots v))]; set_solver|].
    eapply untouched_weaken; [|apply (untouched_placed out x)]. set_solver.
Qed.

(** What a successful [init] of the component has done. *)
Definition init_binds (init : Z -> Z -> M (Spsc.world T) (result unit IpcError)) : Prop :=
  forall b n v v', init b n v = Done (Ok tt) v' ->
    Spsc.is_initialized (Spsc.queue v') = true /\ Spsc.buffer (Spsc.queue v') = b /\
    (length (Spsc.slots v) = Z.to_nat N ->
     length (Spsc.slots v') = Z.to_nat N /\ Forall (fun s => sequence_counter s = 0) (Spsc.slots v')).

Lemma queue_init_results (new : SpscQueue) (init : Z -> Z -> M (Spsc.world T) (result unit IpcError))
    (queue base size : Z) (w w' : machine) :
  init_binds init -> init_needs_slots init -> Spsc.is_initialized new = false -> 0 <= base ->
  queue_init N new init queue base size w = Done RtosSuccess w' -> bound N queue base w w'.
Proof.
  intros Hbind Hneeds Hnew Hb. unfold queue_init. intros Hrun. passed Hrun.
  match goal with Hg : _ || _ || _ = false |- _ =>
    rewrite !orb_false_iff, negb_false_iff in Hg; destruct Hg as [[_ Hreg] Hov] end.
  apply valid_dma_region_spec in Hreg as (_ & _ & _ & Hlen & _); [|done|done|lia].
  unfold object_overlaps_backing in Hov. apply ranges_overlap_spec in Hov as (_ & _ & Hap); [|done|lia].
  apply bind_done in Hrun as ([] & w1 & ->%ptr_write_done & Hrun).
  apply bind_done in Hrun as ([q] & w2 & [Hq ->]%ptr_read_done & Hrun).
  cbn [mem set_mem] in Hq. rewrite object_at_placed in Hq. injection Hq as <-.
  apply bind_done in Hrun as (r & w3 & Ei & Hrun). unfold zoom in Ei. cbn [raw_queue] in Ei.
  set (w1 := set_mem _ w) in Ei. destruct (init base size _) as [r' v| |] eqn:Ev; [|done..].
  injection Ei as -> <-. destruct r as [[]|e]; [|by destruct e]. injection Hrun as <-.
  destruct (Hbind _ _ _ _ Ev) as (Hi & Hbuf & Hcells).
  assert (Hraw : length (raw_slots N base (mem w1)) = Z.to_nat N).
  { unfold raw_slots. destruct (mapped _ _ _) eqn:Hm; [by rewrite length_map, length_seq|].
    assert (Hs : Spsc.slots (init_view N new base w1) = [])
      by (cbn [Spsc.slots init_view]; unfold raw_slots; by rewrite Hm).
    specialize (Hneeds base size (init_view N new base w1) Hs Hnew). rewrite Ev in Hneeds. congruence. }
  destruct (Hcells Hraw) as [Hl Hz]. unfold init_back. rewrite Hi.
  exists (Spsc.queue v), (Spsc.slots v). cbn [mem]. split_and!; try done.
  - apply object_at_place; [apply object_at_put|]. rewrite wrap_extent, extent_slots, meets_sym.
    intros (a & Ha & Ha'). apply Hap. exists a. unfold within in *. split; [done|lia].
  - apply object_at_placed.
  - etrans; [eapply untouched_weaken; [|apply (untouched_placed queue (MkQueueOf (T := T) new))]; set_solver|].
    etrans; [eapply untouched_weaken; [|apply (untouched_put_at queue (MkQueueOf (T := T) (Spsc.queue v)))]; set_solver|].
    eapply untouched_weaken; [|apply (untouched_placed base (MkSlots (Spsc.slots v)))]. set_solver.
Qed.

End queue_results.

(** The component's [init]. *)
Lemma spsc_init_binds {T} `{Elem T} (N : Z) : 0 < N -> init_binds (T := T) N (Spsc.init N).
Proof.
  intros HN b n v v' E. destruct (decide (region_ok (T := T) N b n)) as [Hok|Hno].
  2:{ by rewrite init_rejects in E. }
  rewrite init_run in E by done. destruct (_ || _); [done|].
  set (v1 := set_queue _ v) in E.
  apply bind_done in E as ([] & v2 & El & E). msimpl. injection E as <-. split_and!; [done|done|].
  intros Hl. destruct (clear_sequences_run N v1 Hl) as (s' & El' & Hl' & Hz & _).
  rewrite El in El'. injection El' as ->. cbn in *. split; [congruence|done].
Qed.

Lemma pool_init_binds (b n : Z) (v v' : Dma.world) :
  Dma.init 256 4 b n v = Done (Ok tt) v' ->
  Dma.memory (Dma.pool v') = b /\ Dma.is_initialized (Dma.pool v') = true.
Proof.
  unfold Dma.init. intros E. repeat (case_match; [done|]).
  destruct (checked_mul 64 256 _); [|done]. repeat (case_match; [done|]).
  apply bind_done in E as (? & v0 & E0 & E). repeat (case_match; [done|]).
  apply bind_done in E as (? & v1 & E1 & E). apply bind_done in E as (? & v2 & E2 & E).
  apply bind_done in E as ([] & v3 & E3 & E).
  assert (Hm : Dma.memory (Dma.pool v3) = b).
  { match type of E3 with ?loop _ = _ => assert (K : keeps (fun v => Dma.memory (Dma.pool v) = b) loop) end.
    { apply keeps_for_range. intros i. cbv zeta. unfold Dma.write_next, Dma.write_ownership, Dma.on_pool.
      intros u Hu. unfold Dma.load_next, Dma.load_ownership. msimpl.
      destruct (Dma.next _ !! _); [|done]. cbn. by destruct (Dma.ownership _ !! _). }
    specialize (K v2). rewrite E3 in K. apply K. unfold Dma.on_pool in E2. msimpl. by simplify_eq. }
  unfold Dma.on_pool in E. msimpl. simplify_eq. by split.
Qed.

Lemma pool_init_results (debug : bool) (p b n : Z) (w w' : machine) :
  0 <= b -> shawncore_rtos_dmapool2k_init p b n w = Done RtosSuccess w' ->
  results debug (PoolInit p b n) w w'.
Proof.
  intros Hb. unfold shawncore_rtos_dmapool2k_init. intros H. passed H.
  match goal with Hg : _ || _ || _ = false |- _ =>
    rewrite !orb_false_iff, negb_false_iff in Hg; destruct Hg as [[_ Hreg] Hov] end.
  apply valid_dma_region_spec in Hreg as (_ & _ & _ & Hlen & _); [|done|done|lia].
  unfold object_overlaps_backing in Hov. apply ranges_overlap_spec in Hov as (_ & _ & Hap); [|done|lia].
  apply bind_done in H as ([] & w1 & ->%ptr_write_done & H).
  apply bind_done in H as (d & w2 & [Hq ->]%ptr_read_done & H).
  cbn [mem set_mem] in Hq. rewrite (object_at_placed (T := Dma.StaticDmaPool)) in Hq. injection Hq as <-.
  apply bind_done in H as (r & w3 & Ei & H). unfold zoom in Ei.
  destruct (Dma.init _ _ _ _ _) as [r' v| |] eqn:Ev; [|done..].
  injection Ei as -> <-. destruct r as [[]|e]; [|by destruct e]. injection H as <-.
  destruct (pool_init_binds b n _ _ Ev) as [Hm Hi].
  exists (Dma.pool v). unfold pool_back. cbn [mem set_mem]. split_and!; [|done|done| |].
  - apply put_region_other; [done|]. exact (object_at_put p (Dma.pool v) _).
  - intros r Hr. set (m1 := put_object _ _ _).
    assert (Hr1 : object_at b m1 = Some r).
    { unfold m1. assert (Hne : p <> b).
      { intros ->. apply Hap. exists b. unfold within. split; [|lia]. split; [lia|]. apply Z.lt_add_pos_r. done. }
      apply object_at_Some. unfold put_object. cbn [objects]. rewrite lookup_insert_ne by done.
      apply (object_at_Some (T := region)). apply object_at_place; [done|]. intros (a & Ha & Ha'). apply Hap. exists a.
      unfold within in *. cbn in *. split; [done|lia]. }
    unfold put_region. rewrite Hr1. eexists. exact (object_at_put b (MkRegion _) m1).
  - etrans; [eapply untouched_weaken; [|apply (untouched_placed p pool_new)]; set_solver|].
    etrans; [eapply untouched_weaken; [|apply (untouched_put_at p (Dma.pool v))]; set_solver|].
    eapply untouched_weaken; [|apply (untouched_put_region b)]. set_solver.
Qed.

Lemma allocate_results (debug : bool) (sp : list bool) (p i g o : Z) (w w' : machine) :
  shawncore_rtos_dmapool2k_allocate debug (S (length sp)) sp p i g o w = Done RtosSuccess w' ->
  results debug (PoolAllocate sp p i g o) w w'.
Proof.
  unfold shawncore_rtos_dmapool2k_allocate. cbv zeta. intros H. passed H.
  match goal with Hg : _ || ranges_overlap g _ o _ = false |- _ => rewrite !orb_false_iff in Hg; destruct_and! end.
  repeat match goal with Hov : ranges_overlap _ _ _ _ = false |- _ =>
    apply ranges_overlap_spec in Hov as (_ & _ & ?); [|done|done] end.
  apply bind_done in H as (r & w1 & Ea & H). unfold with_pool in Ea.
  apply bind_done in Ea as (d & w2 & [Hd ->]%ptr_read_done & Ea). unfold zoom in Ea.
  destruct (Dma.allocate _ _ _ _) as [r' v| |] eqn:Ev; [|done..]. injection Ea as -> <-.
  destruct r as [[[idx gen] ptr]|e]; [|by destruct e].
  apply bind_done in H as ([] & w3 & ->%ptr_write_done & H).
  apply bind_done in H as ([] & w4 & ->%ptr_write_done & H).
  apply bind_done in H as ([] & w5 & ->%ptr_write_done & H). injection H as <-.
  exists d, idx, gen, ptr, v. split; [done|]. split; [done|]. cbn [mem set_mem pool_back]. split_and!.
  - do 3 (apply object_at_place; [|by rewrite meets_sym]). apply put_region_other; [done|].
    exact (object_at_put p (Dma.pool v) _).
  - do 2 (apply object_at_place; [|by rewrite meets_sym]). exact (object_at_placed i (MkWord idx) _).
  - apply object_at_place; [|by rewrite meets_sym]. exact (object_at_placed g (MkWord gen) _).
  - exact (object_at_placed o (MkWord ptr) _).
  - etrans; [eapply untouched_weaken; [|apply (untouched_put_at p (Dma.pool v))]; set_solver|].
    etrans; [eapply untouched_weaken; [|apply (untouched_put_region (Dma.memory d) (Dma.region v))]; set_solver|].
    etrans; [eapply untouched_weaken; [|apply (untouched_placed i (MkWord idx))]; set_solver|].
    etrans; [eapply untouched_weaken; [|apply (untouched_placed g (MkWord gen))]; set_solver|].
    refine (untouched_weaken _ _ _ _ _ (untouched_placed o (MkWord ptr) _)). set_solver.
Qed.

Ltac queue_bound :=
  eapply queue_init_results; [..|eassumption];
  first [done | by apply spsc_init_binds | by apply spsc_init_needs_slots | match goal with Hr : _ /\ _ |- _ => apply Hr end].

(** * Claims *)


(** Storage whose first slot holds an odd counter, as if a writer had died in it. *)
Definition stale_machine : machine :=
  MkMachine (MkMem [(4096, 12288)] ∅ (map_seqZ 8256 (replicate 8 x01))) ∅ host_boot.
Definition bound_machine : machine :=
  match run_call true (TelemetryInit 4096 8192 8192) stale_machine with Done _ w => w | _ => stale_machine end.

Lemma stale_machine_wf : mem_wf (mem stale_machine).
Proof. by split; cbn; setoid_rewrite lookup_empty. Qed.


End RtosTyped.
