(* ===== verification/RtosObjects.v ===== *)
(** The invariant of the objects the rtos entry points manage in the host's memory.

    A handle (scheduler, pool, queue, ...) is [good] when its component's invariant
    holds for it and the storage it is bound to; [machine_ok] says so for every handle
    at once, and that no two handles share their backing. The lemmas on single changes
    (update in place, update with the backing, placing in vacant storage, binding,
    removal) carry the proofs about calls. *)

From stdpp Require Import gmap.
From S2P Require Import Prelude CMemory RtosHost Fifo Spsc RingBuffer Scheduler DmaPool StateMachine Latency RtosTypes RtosFfi RtosFfiTyped.
Local Open Scope Z_scope.

Module RtosObj.
Import RtosC RtosTyped.

(** * Component operations leave the callbacks registered *)

Section registry.
Variable h0 : Host.

Lemma call_host_registry {A} (slot : Host -> option FnPtr) (call : FnPtr -> M Host A) :
  (forall cb, keeps (same_registry h0) (call cb)) -> keeps (same_registry h0) (call_host slot call).
Proof.
  intros Hc h Hh. unfold call_host. destruct (slot h); [by apply Hc|].
  unfold invoke_panic_hook. msimpl. destruct (PANIC_CALLBACK h); [|done].
  by etransitivity; [|apply log_same_registry].
Qed.

Lemma log_registry (e : event) : keeps (same_registry h0) (fun h => Done tt (log e h)).
Proof. intros h Hh. by etransitivity; [|apply log_same_registry]. Qed.

(** For a queue also: it stays bound to the same slots. *)
Definition spsc_host {T} (w : Spsc.world T) : Prop := same_registry h0 (Spsc.host w).
Definition spsc_reg {T} (b : Z) (w : Spsc.world T) : Prop :=
  spsc_host w /\ Spsc.buffer (Spsc.queue w) = b.
Definition dma_reg (w : Dma.world) : Prop := same_registry h0 (Dma.host w).

Lemma spsc_on_host_registry {T A} (b : Z) (m : M Host A) :
  keeps (same_registry h0) m -> keeps (spsc_reg (T := T) b) (Spsc.on_host m).
Proof.
  intros Hm. apply (keeps_zoom _ (same_registry h0)); [done| |]; unfold spsc_reg; naive_solver.
Qed.

Lemma dma_on_host_registry {A} (m : M Host A) :
  keeps (same_registry h0) m -> keeps dma_reg (zoom Dma.host Dma.set_host m).
Proof. intros Hm. by apply (keeps_zoom _ (same_registry h0)). Qed.
End registry.

#[local] Hint Unfold Spsc.push Spsc.pop RB.push RB.pop RB.peek Spsc.load_slot Spsc.store_sequence
  Spsc.store_data Spsc.read_data host_cache_flush host_cache_invalidate
  Dma.free Dma.allocate Dma.claim Dma.on_pool
  Dma.load_next Dma.load_ownership Dma.write_next Dma.write_ownership Dma.cas_ownership
  Dma.cas_head_weak Dma.write_byte Dma.write_zero_word Dma.wipe : keep.

(** Descend through the code of an operation; what is left changes no callback. *)
Ltac registry :=
  autounfold with keep;
  repeat match goal with
  | |- keeps _ (mbind _ get) => apply keeps_get; intros ? ?
  | |- keeps _ (mbind _ _) => apply keeps_bind; [|intros ?]
  | |- keeps _ (if _ then _ else _) => apply keeps_if; intros _
  | |- keeps _ (match ?x with _ => _ end) => destruct x
  | |- keeps _ (modify _) => apply keeps_modify; intros ? ?
  | |- keeps _ (for_range _ _ _) => apply keeps_for_range; intros ?
  | |- keeps _ (Spsc.on_host _) => apply spsc_on_host_registry
  | |- keeps _ (zoom Dma.host Dma.set_host _) => apply dma_on_host_registry
  | |- keeps _ (call_host _ _) => apply call_host_registry; intros ?; apply log_registry
  end; eauto with keep.

Lemma spsc_push_registry {T} `{Elem T} (h0 : Host) (b N : Z) (x : T) : keeps (spsc_reg h0 b) (Spsc.push N x).
Proof. registry. Qed.
Lemma spsc_pop_registry {T} `{Elem T} (h0 : Host) (b N : Z) : keeps (spsc_reg h0 b) (Spsc.pop (T := T) N).
Proof. registry. Qed.
Lemma rb_peek_registry {T} `{Elem T} (h0 : Host) (b N : Z) : keeps (spsc_reg h0 b) (RB.peek (T := T) N).
Proof. registry. Qed.

Lemma spsc_init_host {T} `{Elem T} (h0 : Host) (N base size : Z) :
  keeps (spsc_host (T := T) h0) (Spsc.init N base size).
Proof. unfold Spsc.init. registry. Qed.

Lemma dma_init_host `{Dma.Layout} (h0 : Host) (N words base size : Z) :
  keeps (dma_reg h0) (Dma.init N words base size).
Proof. unfold Dma.init. registry. Qed.

Lemma dma_allocate_loop_registry `{Dma.Layout} (h0 : Host) (debug : bool) (fuel : nat)
    (sp : list bool) (base obs : Z) : keeps (dma_reg h0) (Dma.allocate_loop debug fuel sp base obs).
Proof.
  revert sp obs. induction fuel as [|fuel IH]; intros sp obs; cbn [Dma.allocate_loop]; [apply keeps_halt|].
  destruct (Dma.unpack_head obs). registry.
Qed.

Lemma dma_allocate_registry `{Dma.Layout} (h0 : Host) (debug : bool) (fuel : nat) (sp : list bool) :
  keeps (dma_reg h0) (Dma.allocate debug fuel sp).
Proof. pose proof dma_allocate_loop_registry. registry. Qed.

Lemma dma_free_loop_registry (h0 : Host) (fuel : nat) (sp : list bool) (i obs : Z) :
  keeps (dma_reg h0) (Dma.free_loop fuel sp i obs).
Proof.
  revert sp obs. induction fuel as [|fuel IH]; intros sp obs; cbn [Dma.free_loop]; [apply keeps_halt|].
  destruct (Dma.unpack_head obs). registry.
Qed.

Lemma dma_wipe_prefix_registry (h0 : Host) (fuel : nat) (p l o : Z) :
  keeps (dma_reg h0) (Dma.wipe_prefix fuel p l o).
Proof. revert o. induction fuel; intros o; cbn [Dma.wipe_prefix]; registry. Qed.
Lemma dma_wipe_words_registry (h0 : Host) (fuel : nat) (p l o : Z) :
  keeps (dma_reg h0) (Dma.wipe_words fuel p l o).
Proof. revert o. induction fuel; intros o; cbn [Dma.wipe_words]; registry. Qed.
Lemma dma_wipe_tail_registry (h0 : Host) (fuel : nat) (p l o : Z) :
  keeps (dma_reg h0) (Dma.wipe_tail fuel p l o).
Proof. revert o. induction fuel; intros o; cbn [Dma.wipe_tail]; registry. Qed.
#[local] Hint Resolve dma_free_loop_registry dma_wipe_prefix_registry dma_wipe_words_registry
  dma_wipe_tail_registry : keep.

Lemma dma_free_registry `{Dma.Layout} (h0 : Host) (N : Z) (fuel : nat) (sp : list bool) (i g : Z) :
  keeps (dma_reg h0) (Dma.free N fuel sp i g).
Proof. registry. Qed.

(** * Objects that keep their component's invariant *)

Definition queue_backing {T} (q : Queue T) : option Z :=
  if Spsc.is_initialized (raw_queue q) then Some (Spsc.buffer (raw_queue q)) else None.

(** Where the storage a handle depends on starts. *)
Definition backing (o : object) : option Z :=
  match o with
  | OPool d => if Dma.is_initialized d then Some (Dma.memory d) else None
  | OTelemetryQueue q => queue_backing q
  | OEwRing q => queue_backing q
  | OFftQueue q => queue_backing q
  | _ => None
  end.

(** A queue that is initialised represents some sequence of items in its slots. *)
Definition queue_good {T} `{Elem T, !CType object (Slots T)} (N : Z) (q : Queue T)
    (back : option object) (h : Host) : Prop :=
  Spsc.is_initialized (raw_queue q) = true ->
  exists s items, back = Some (wrap s) /\
    spsc_repr N (Spsc.MkWorld (raw_queue q) (cells s) h) items.

Definition pool_good (d : Dma.StaticDmaPool) (back : option object) (h : Host) : Prop :=
  Dma.is_initialized d = true ->
  exists r sp, back = Some (ORegion r) /\
    Dma.pool_repr 256 (Dma.MkWorld d (region_bytes r) h) sp.

Definition good (o : object) (back : option object) (st : gmap Z Z) (h : Host) : Prop :=
  match o with
  | OScheduler s => Sched.wf (Sched.MkWorld s st h)
  | OPool d => pool_good d back h
  | OTelemetryQueue q => queue_good 64 q back h
  | OEwRing q => queue_good 1024 q back h
  | OFftQueue q => queue_good 256 q back h
  | _ => True
  end.

Definition backing_of (o : object) (m : cmem object) : option object := backing o ≫= fun b => objects m !! b.

Definition callbacks (h : Host) : Prop :=
  is_Some (CACHE_FLUSH_CB h) /\ is_Some (CACHE_INVALIDATE_CB h) /\ is_Some (PET_WATCHDOG_CB h).

(** Memory is well typed, the callbacks are there, every object is good, and no two
    handles share their backing. *)
Record machine_ok (w : machine) : Prop := {
  ok_typed : mem_wf (mem w);
  ok_callbacks : callbacks (platform w);
  ok_good : forall p o, objects (mem w) !! p = Some o ->
    good o (backing_of o (mem w)) (stacks w) (platform w);
  ok_own : forall p o q o' b, objects (mem w) !! p = Some o -> objects (mem w) !! q = Some o' ->
    backing o = Some b -> backing o' = Some b -> p = q
}.

(** Objects the caller must leave alone: handles, and what a handle depends on. *)
Definition is_handle (o : object) : bool :=
  match o with
  | OScheduler _ | OPool _ | OTelemetryQueue _ | OEwRing _ | OFftQueue _ | OMachine _ | OTracker _ => true
  | _ => false
  end.

Definition in_use (w : machine) (q : Z) (o : object) : Prop :=
  is_handle o = true \/
  exists p o', objects (mem w) !! p = Some o' /\ backing o' = Some q.

(** Storage the caller may hand over: its own, and free of objects in use. *)
Definition vacant (w : machine) (p n : Z) : Prop :=
  mapped p n (mem w) = true /\
  forall q o, objects (mem w) !! q = Some o -> in_use w q o -> ~ meets p n q (extent o).

(** ** Stability *)

Definition grows (st st' : gmap Z Z) : Prop := forall a, is_Some (st !! a) -> is_Some (st' !! a).

#[export] Instance grows_refl : Reflexive grows.
Proof. by intros st a. Qed.

Lemma queue_good_stable {T} `{Elem T, !CType object (Slots T)} (N : Z) (q : Queue T)
    (back : option object) (h h' : Host) :
  callbacks h' -> queue_good N q back h -> queue_good N q back h'.
Proof.
  intros (Hf & Hi & _) Hg Hq. destruct (Hg Hq) as (s & items & -> & R).
  exists s, items. split; [done|]. by destruct R.
Qed.

Lemma good_stable (o : object) (back : option object) (st st' : gmap Z Z) (h h' : Host) :
  grows st st' -> callbacks h' -> good o back st h -> good o back st' h'.
Proof.
  intros Hst Hh. destruct o; cbn; try done; try by apply queue_good_stable.
  - intros [Hl Hc Hb Hm Hk Ht Ho He]. split; try done.
    intros i t Hi Hr. destruct (Ht i t Hi Hr). split; try done. by apply Hst.
  - intros Hg Hd. destruct (Hg Hd) as (r & sp & -> & R). exists r, sp. split; [done|].
    destruct Hh. by destruct R.
Qed.

Lemma callbacks_registry (h h' : Host) : same_registry h h' -> callbacks h -> callbacks h'.
Proof. unfold same_registry, callbacks. intros (_ & _ & _ & _ & -> & -> & ->). done. Qed.

(** Changing memory keeps the machine good when every handle of the new memory is one of
    the old memory with its backing intact, or is good by itself. *)
Lemma machine_ok_change (w w' : machine) :
  machine_ok w -> mem_wf (mem w') -> callbacks (platform w') -> grows (stacks w) (stacks w') ->
  (forall p o, objects (mem w') !! p = Some o ->
     (objects (mem w) !! p = Some o /\ backing_of o (mem w') = backing_of o (mem w)) \/
     good o (backing_of o (mem w')) (stacks w') (platform w')) ->
  (forall p o b, objects (mem w') !! p = Some o -> backing o = Some b ->
     exists o', objects (mem w) !! p = Some o' /\ backing o' = Some b) ->
  machine_ok w'.
Proof.
  intros [Ht Hc Hg Ho] Ht' Hc' Hst Hgood Hback. split; [done|done| |].
  - intros p o Hp. destruct (Hgood p o Hp) as [[Hp0 ->]|]; [|done].
    by eapply good_stable; [..|apply (Hg p)].
  - intros p o q o' b Hp Hq Hb Hb'.
    destruct (Hback p o b Hp Hb) as (o1 & H1 & B1), (Hback q o' b Hq Hb') as (o2 & H2 & B2).
    by eapply Ho.
Qed.

(** Storage stays vacant when objects change but keep their place, kind and backing. *)
Definition same_shape (o o' : object) : Prop :=
  extent o' = extent o /\ is_handle o' = is_handle o /\ backing o' = backing o.

Lemma vacant_transfer (w w' : machine) (p n : Z) :
  storage (mem w') = storage (mem w) ->
  (forall q o', objects (mem w') !! q = Some o' ->
     exists o, objects (mem w) !! q = Some o /\ same_shape o o') ->
  vacant w p n -> vacant w' p n.
Proof.
  intros Hst Hsh [Hm Hv]. split; [unfold mapped; by rewrite Hst|].
  intros q o' Hq Hu. destruct (Hsh q o' Hq) as (o & Ho & -> & Hh & _). apply Hv; [done|].
  destruct Hu as [Hu|(r & x & Hr & Hb)]; [left; congruence|right].
  destruct (Hsh r x Hr) as (y & Hy & _ & _ & Hby). exists r, y. by rewrite <- Hby.
Qed.

(** ** Changing one object *)

Definition is_backing (o : object) : bool :=
  match o with ORegion _ | OTelemetrySlots _ | OEwSlots _ | OFftSlots _ => true | _ => false end.

Definition same_layout (o o' : object) : Prop := extent o' = extent o /\ alignment o' = alignment o.

Lemma backing_not_handle (o : object) : is_backing o = true -> backing o = None.
Proof. by destruct o. Qed.

Lemma backing_good (o : object) (back : option object) (st : gmap Z Z) (h : Host) :
  is_backing o = true -> good o back st h.
Proof. by destruct o. Qed.

Section changes.
Variable w : machine.
Hypothesis Hw : machine_ok w.

(** A handle's backing is there, and it is raw slots or a raw region. *)
Lemma backing_present (p b : Z) (o : object) :
  objects (mem w) !! p = Some o -> backing o = Some b ->
  exists v, objects (mem w) !! b = Some v /\ is_backing v = true.
Proof.
  intros Hp Hb. pose proof (ok_good w Hw p o Hp) as Hg. unfold backing_of in Hg.
  destruct o; cbn in *; try done; unfold queue_good, pool_good, queue_backing in *;
    (case_match; [|done]); simplify_eq; destruct (Hg eq_refl) as (s & ? & E & _); cbn in E; eauto.
Qed.

Lemma ok_put (p : Z) (u u' : object) (st' : gmap Z Z) (h' : Host) :
  objects (mem w) !! p = Some u -> is_backing u = false -> same_layout u u' ->
  backing u' = backing u -> callbacks h' -> grows (stacks w) st' ->
  good u' (backing_of u' (mem w)) st' h' ->
  machine_ok (MkMachine (put_object p u' (mem w)) st' h').
Proof.
  intros Hp Hnb [He Ha] Hbk Hcb Hst Hgood.
  assert (Hof : forall q o, objects (mem w) !! q = Some o ->
    backing_of o (put_object p u' (mem w)) = backing_of o (mem w)).
  { intros q o Hq. unfold backing_of. destruct (backing o) as [b|] eqn:Eb; [|done]. cbn.
    destruct (backing_present q b o Hq Eb) as (v & Hv & Hvb).
    rewrite lookup_insert_ne by congruence. done. }
  assert (Hof' : backing_of u' (put_object p u' (mem w)) = backing_of u' (mem w)).
  { specialize (Hof p u Hp). unfold backing_of in *. by rewrite Hbk. }
  apply (machine_ok_change w); cbn; try done.
  - eapply mem_wf_put; [apply Hw|done..].
  - intros q o. destruct (decide (q = p)) as [->|Hne].
    + rewrite lookup_insert_eq. intros [= <-]. right. by rewrite Hof'.
    + rewrite lookup_insert_ne by done. intros Hq. left. split; [done|]. by eapply Hof.
  - intros q o b. destruct (decide (q = p)) as [->|Hne].
    + rewrite lookup_insert_eq. intros [= <-] Hb. exists u. by rewrite <- Hbk.
    + rewrite lookup_insert_ne by done. eauto.
Qed.

(** A handle and the backing it owns change together; the handle may be adopting it. *)
Lemma ok_put_backing (p b : Z) (u u' v v' : object) (st' : gmap Z Z) (h' : Host) :
  objects (mem w) !! p = Some u -> is_backing u = false -> same_layout u u' ->
  objects (mem w) !! b = Some v -> is_backing v' = true -> is_backing v = true -> same_layout v v' ->
  backing u' = Some b ->
  (forall q o, objects (mem w) !! q = Some o -> backing o = Some b -> q = p) ->
  (backing u = None \/ backing u = Some b) ->
  callbacks h' -> grows (stacks w) st' -> good u' (Some v') st' h' ->
  machine_ok (MkMachine (put_object b v' (put_object p u' (mem w))) st' h').
Proof.
  intros Hp Hnb [He Ha] Hb Hv' Hv [He' Ha'] Hbk Hown Hu Hcb Hst Hgood.
  assert (Hne : p <> b) by congruence.
  assert (Hlk : forall q o, objects (put_object b v' (put_object p u' (mem w))) !! q = Some o ->
    q = b /\ o = v' \/ q = p /\ o = u' \/ q <> b /\ q <> p /\ objects (mem w) !! q = Some o).
  { intros q o. cbn. destruct (decide (q = b)) as [->|]; [rewrite lookup_insert_eq; naive_solver|].
    rewrite lookup_insert_ne by done.
    destruct (decide (q = p)) as [->|]; [rewrite lookup_insert_eq; naive_solver|].
    rewrite lookup_insert_ne by done. naive_solver. }
  assert (Hown' : forall q o c, q <> b -> q <> p -> objects (mem w) !! q = Some o ->
    backing o = Some c -> c <> b /\ c <> p).
  { intros q o c Hqb Hqp Hq Hc. split; [intros ->; by eapply Hqp, Hown|].
    intros ->. destruct (backing_present q p o Hq Hc) as (x & Hx & ?). congruence. }
  split; cbn [mem stacks platform].
  - eapply mem_wf_put; [|cbn; by rewrite lookup_insert_ne|done..].
    eapply mem_wf_put; [apply Hw|done..].
  - done.
  - intros q o [[-> ->]|[[-> ->]|(Hqb & Hqp & Hq)]]%Hlk.
    + by apply backing_good.
    + unfold backing_of. rewrite Hbk. cbn. by rewrite lookup_insert_eq.
    + eapply good_stable; [done|done|].
      assert (backing_of o (put_object b v' (put_object p u' (mem w))) = backing_of o (mem w)) as ->.
      { unfold backing_of. destruct (backing o) as [c|] eqn:Ec; [|done]. cbn.
        destruct (Hown' q o c Hqb Hqp Hq Ec). by rewrite !lookup_insert_ne by done. }
      by apply (ok_good w Hw q).
  - intros q o r o' c Hq Hr Hc Hc'.
    destruct (Hlk q o Hq) as [[-> ->]|[[-> ->]|(Hqb & Hqp & Hq0)]];
      [by rewrite (backing_not_handle v') in Hc| |];
      destruct (Hlk r o' Hr) as [[-> ->]|[[-> ->]|(Hrb & Hrp & Hr0)]];
      try (by rewrite (backing_not_handle v') in Hc'); [done| | |by eapply (ok_own w Hw)].
    + simplify_eq. by destruct (Hown' r o' _ Hrb Hrp Hr0 Hc').
    + simplify_eq. by destruct (Hown' q o _ Hqb Hqp Hq0 Hc).
Qed.

(** A write to vacant storage disturbs no handle and no backing. *)
Lemma vacant_keeps (p n q : Z) (o : object) :
  0 < n -> vacant w p n -> objects (mem w) !! q = Some o -> in_use w q o ->
  q <> p /\ ~ meets p n q (extent o).
Proof.
  intros Hn [_ Hv] Hq Hu. specialize (Hv q o Hq Hu). split; [|done]. intros ->.
  destruct (mw_object _ (ok_typed w Hw) _ _ Hq) as (_ & He & _).
  apply Hv, meets_iff; lia.
Qed.

Lemma vacant_place_lookup (p q : Z) (u o : object) :
  0 < extent u -> vacant w p (extent u) -> objects (mem w) !! q = Some o -> in_use w q o ->
  objects (place p u (mem w)) !! q = Some o.
Proof.
  intros Hn Hv Hq Hu. destruct (vacant_keeps p (extent u) q o Hn Hv Hq Hu). by apply place_lookup_ne.
Qed.

(** What is in use stays so beside a write to vacant storage. *)
Lemma vacant_place_in_use (p q : Z) (u o : object) :
  0 < extent u -> vacant w p (extent u) -> objects (mem w) !! q = Some o -> in_use w q o ->
  in_use (set_mem (place p u (mem w)) w) q o.
Proof.
  intros Hn Hv Hq [Hh|(r & x & Hr & Hb)]; [by left|]. right. exists r, x. split; [|done].
  apply vacant_place_lookup; try done. left. by destruct x.
Qed.

Lemma vacant_place_backing (p q : Z) (u o : object) :
  0 < extent u -> vacant w p (extent u) -> objects (mem w) !! q = Some o ->
  backing_of o (place p u (mem w)) = backing_of o (mem w).
Proof.
  intros Hn Hv Hq. unfold backing_of. destruct (backing o) as [b|] eqn:Eb; [|done].
  cbn [mbind option_bind].
  destruct (backing_present q b o Hq Eb) as (v & Hbv & _).
  destruct (vacant_keeps p (extent u) b v Hn Hv Hbv) as [Hne Hm]; [right; eauto|].
  rewrite Hbv. by apply place_lookup_ne.
Qed.

Definition placeable (p : Z) (u : object) : Prop :=
  0 < p /\ 0 < extent u /\ vacant w p (extent u) /\ is_multiple_of p (alignment u) = true.

Lemma ok_place (p : Z) (u : object) :
  placeable p u -> backing u = None -> good u None (stacks w) (platform w) ->
  machine_ok (set_mem (place p u (mem w)) w).
Proof.
  intros (Hp & Hn & Hv & Ha) Hb Hg. apply (machine_ok_change w); try done.
  - apply mem_wf_place; [apply Hw|done|done|apply Hv|done].
  - apply Hw.
  - intros q o. cbn [mem set_mem]. destruct (decide (q = p)) as [->|Hne].
    + rewrite place_lookup. intros [= <-]. right. unfold backing_of. by rewrite Hb.
    + intros [Hq _]%place_lookup_ne; [|done]. left. split; [done|]. by eapply vacant_place_backing.
  - intros q o b. cbn [mem set_mem]. destruct (decide (q = p)) as [->|Hne].
    + rewrite place_lookup. intros [= <-]. congruence.
    + intros [Hq _]%place_lookup_ne; eauto.
Qed.

(** What is vacant stays vacant beside a fresh handle without backing. *)
Lemma vacant_place (p : Z) (u : object) (q n : Z) :
  0 < extent u -> vacant w p (extent u) -> backing u = None ->
  vacant w q n -> ~ meets q n p (extent u) -> vacant (set_mem (place p u (mem w)) w) q n.
Proof.
  intros Hu Hp Hb [Hm Hq] Hnm. split; [done|]. cbn [mem set_mem]. intros r o Hr Huse.
  destruct (decide (r = p)) as [->|Hne].
  - rewrite place_lookup in Hr. by injection Hr as <-.
  - apply place_lookup_ne in Hr as [Hr _]; [|done]. apply Hq; [done|].
    destruct Huse as [?|(s & o' & Hs & Hbs)]; [by left|right]. cbn [mem set_mem] in Hs.
    destruct (decide (s = p)) as [->|Hsp]; [rewrite place_lookup in Hs; congruence|].
    apply place_lookup_ne in Hs as [Hs _]; eauto.
Qed.

(** Plain data never occupies storage: what is vacant stays vacant. *)
Lemma vacant_place_plain (p : Z) (u : object) (q n : Z) :
  0 < extent u -> vacant w p (extent u) -> is_handle u = false -> vacant w q n ->
  vacant (set_mem (place p u (mem w)) w) q n.
Proof.
  intros Hu Hp Hh [Hm Hq]. split; [done|]. cbn [mem set_mem]. intros r o Hr Huse.
  assert (Hb : backing u = None) by by destruct u.
  assert (Hown : forall s o' b, objects (place p u (mem w)) !! s = Some o' -> backing o' = Some b ->
    objects (mem w) !! s = Some o' /\ b <> p).
  { intros s o' b Hs Hbs. destruct (decide (s = p)) as [->|Hsp]; [rewrite place_lookup in Hs; congruence|].
    apply place_lookup_ne in Hs as [Hs _]; [|done]. split; [done|].
    destruct (backing_present s b o' Hs Hbs) as (v & Hv & _).
    apply (vacant_keeps p (extent u) b v); try done. right. eauto. }
  destruct (decide (r = p)) as [->|Hne].
  - exfalso. rewrite place_lookup in Hr. injection Hr as <-.
    destruct Huse as [?|(s & o' & Hs & Hbs)]; [congruence|]. by destruct (Hown s o' p Hs Hbs).
  - apply place_lookup_ne in Hr as [Hr _]; [|done]. apply Hq; [done|].
    destruct Huse as [?|(s & o' & Hs & Hbs)]; [by left|right]. exists s, o'. split; [|done].
    by destruct (Hown s o' r Hs Hbs).
Qed.

(** A handle is bound to vacant storage, which becomes its backing. *)
Lemma ok_bind (p b : Z) (u u' v : object) (h' : Host) :
  objects (mem w) !! p = Some u -> is_handle u = true -> is_backing u = false -> same_layout u u' ->
  backing u = None -> backing u' = Some b -> is_backing v = true -> placeable b v ->
  callbacks h' -> good u' (Some v) (stacks w) h' ->
  machine_ok (MkMachine (place b v (put_object p u' (mem w))) (stacks w) h').
Proof.
  intros Hp Hh Hnb [He Ha] Hbk Hbk' Hv (Hb0 & Hn & Hvac & Hal) Hcb Hgood.
  destruct (vacant_keeps b (extent v) p u Hn Hvac Hp) as [Hpb Hmeet]; [by left|].
  assert (Hlk : forall q o, objects (place b v (put_object p u' (mem w))) !! q = Some o ->
    q = b /\ o = v \/ q = p /\ o = u' \/ q <> b /\ q <> p /\ objects (mem w) !! q = Some o).
  { intros q o. destruct (decide (q = b)) as [->|]; [rewrite place_lookup; naive_solver|].
    intros [Hq _]%place_lookup_ne; [|done]. cbn in Hq.
    destruct (decide (q = p)) as [->|]; [rewrite lookup_insert_eq in Hq; naive_solver|].
    rewrite lookup_insert_ne in Hq by done. naive_solver. }
  assert (Hsurv : forall q o c, objects (mem w) !! q = Some o -> backing o = Some c ->
    c <> b /\ c <> p /\ objects (place b v (put_object p u' (mem w))) !! c = objects (mem w) !! c).
  { intros q o c Hq Hc. destruct (backing_present q c o Hq Hc) as (x & Hx & Hxb).
    destruct (vacant_keeps b (extent v) c x Hn Hvac Hx) as [Hcb' Hm]; [right; eauto|].
    assert (c <> p) by congruence. split_and!; [done|done|]. rewrite Hx.
    apply place_lookup_ne; [done|]. cbn. by rewrite lookup_insert_ne. }
  split; cbn [mem stacks platform].
  - apply mem_wf_place; [eapply mem_wf_put; [apply Hw|done..]|done|done|apply Hvac|done].
  - done.
  - intros q o [[-> ->]|[[-> ->]|(Hqb & Hqp & Hq)]]%Hlk.
    + by apply backing_good.
    + unfold backing_of. rewrite Hbk'. cbn [mbind option_bind]. by rewrite place_lookup.
    + eapply good_stable; [by intros ?|done|].
      assert (backing_of o (place b v (put_object p u' (mem w))) = backing_of o (mem w)) as ->.
      { unfold backing_of. destruct (backing o) as [c|] eqn:Ec; [|done]. by apply (Hsurv q o c). }
      by apply (ok_good w Hw q).
  - intros q o r o' c Hq Hr Hc Hc'.
    destruct (Hlk q o Hq) as [[-> ->]|[[-> ->]|(Hqb & Hqp & Hq0)]];
      [by rewrite (backing_not_handle v) in Hc| |];
      destruct (Hlk r o' Hr) as [[-> ->]|[[-> ->]|(Hrb & Hrp & Hr0)]];
      try (by rewrite (backing_not_handle v) in Hc'); [done| | |by eapply (ok_own w Hw)].
    + simplify_eq. by destruct (Hsurv r o' _ Hr0 Hc').
    + simplify_eq. by destruct (Hsurv q o _ Hq0 Hc).
Qed.

(** Binding leaves the rest of the vacant storage vacant. *)
Lemma vacant_bind (p b : Z) (u u' v : object) (h' : Host) (a n : Z) :
  objects (mem w) !! p = Some u -> extent u' = extent u -> backing u' = Some b ->
  is_backing v = true -> vacant w a n -> ~ meets a n p (extent u) -> ~ meets a n b (extent v) ->
  vacant (MkMachine (place b v (put_object p u' (mem w))) (stacks w) h') a n.
Proof.
  intros Hp He Hb Hv [Hm Hq] Hnp Hnb. split; [done|]. cbn [mem]. intros r o Hr Huse.
  destruct (decide (r = b)) as [->|Hrb]; [rewrite place_lookup in Hr; by injection Hr as <-|].
  apply place_lookup_ne in Hr as [Hr _]; [|done]. cbn in Hr.
  destruct (decide (r = p)) as [->|Hrp].
  { rewrite lookup_insert_eq in Hr. injection Hr as <-. by rewrite He. }
  rewrite lookup_insert_ne in Hr by done. apply Hq; [done|].
  destruct Huse as [?|(s & o' & Hs & Hbs)]; [by left|right]. cbn [mem] in Hs.
  destruct (decide (s = b)) as [->|Hsb].
  { rewrite place_lookup in Hs. injection Hs as <-. by rewrite (backing_not_handle v) in Hbs. }
  apply place_lookup_ne in Hs as [Hs _]; [|done]. cbn in Hs.
  destruct (decide (s = p)) as [->|Hsp]; [rewrite lookup_insert_eq in Hs; congruence|].
  rewrite lookup_insert_ne in Hs by done. eauto.
Qed.

(** The same when the backing is already there. *)
Lemma vacant_adopt (p b : Z) (u u' v v' : object) (h' : Host) (a n : Z) :
  objects (mem w) !! p = Some u -> extent u' = extent u -> backing u' = Some b ->
  objects (mem w) !! b = Some v -> extent v' = extent v -> is_backing v' = true ->
  vacant w a n -> ~ meets a n p (extent u) -> ~ meets a n b (extent v) ->
  vacant (MkMachine (put_object b v' (put_object p u' (mem w))) (stacks w) h') a n.
Proof.
  intros Hp He Hb Hv He' Hv' [Hm Hq] Hnp Hnb. split; [done|]. cbn [mem put_object objects]. intros r o Hr Huse.
  destruct (decide (r = b)) as [->|Hrb].
  { rewrite lookup_insert_eq in Hr. injection Hr as <-. by rewrite He'. }
  rewrite lookup_insert_ne in Hr by done. destruct (decide (r = p)) as [->|Hrp].
  { rewrite lookup_insert_eq in Hr. injection Hr as <-. by rewrite He. }
  rewrite lookup_insert_ne in Hr by done. apply Hq; [done|].
  destruct Huse as [?|(s & o' & Hs & Hbs)]; [by left|right]. cbn in Hs.
  destruct (decide (s = b)) as [->|Hsb].
  { rewrite lookup_insert_eq in Hs. injection Hs as <-. by rewrite (backing_not_handle v') in Hbs. }
  rewrite lookup_insert_ne in Hs by done.
  destruct (decide (s = p)) as [->|Hsp]; [rewrite lookup_insert_eq in Hs; congruence|].
  rewrite lookup_insert_ne in Hs by done. eauto.
Qed.

Lemma ok_remove (p : Z) (u : object) :
  objects (mem w) !! p = Some u -> is_backing u = false -> machine_ok (set_mem (remove p (mem w)) w).
Proof.
  intros Hp Hnb. apply (machine_ok_change w); try done.
  - apply mem_wf_remove, Hw.
  - apply Hw.
  - intros q o. cbn. intros [Hne Hq]%lookup_delete_Some. left. split; [done|]. unfold backing_of.
    destruct (backing o) as [b|] eqn:Eb; [|done]. cbn.
    destruct (backing_present q b o Hq Eb) as (v & Hv & ?). rewrite lookup_delete_ne by congruence. done.
  - intros q o b. cbn. intros [_ Hq]%lookup_delete_Some; eauto.
Qed.

End changes.

End RtosObj.
