(* ===== verification/RtosFfiRun.v ===== *)
(** The C entry points of shawncore-rtos-sync under the contract their headers document.

    [call_ok] is that contract: a pointer that passes the checks names an object of its
    type, or storage of the right size that nothing in use occupies. Under it no
    sequence of calls is undefined or stuck and every object keeps its component's
    invariant; and what the queue and pool calls answer is what their abstract
    specifications say. *)

From stdpp Require Import gmap.
From S2P Require Import Prelude CMemory RtosHost Fifo Spsc RingBuffer Scheduler DmaPool StateMachine Latency RtosTypes RtosFfi RtosFfiTyped RtosObjects.
Local Open Scope Z_scope.

Module RtosRun.
Import RtosC RtosTyped RtosObj.

(** * Contract *)

(** An object of type [T] is at [p]. *)
Definition holds (T : Type) `{!CType object T} (w : machine) (p : Z) : Prop :=
  exists x : T, objects (mem w) !! p = Some (wrap x).

(** A byte region of the pool's size that no pool is bound to. *)
Definition free_region (w : machine) (b : Z) : Prop :=
  (exists r, objects (mem w) !! b = Some (ORegion r) /\ zlen (region_bytes r) = 256 * 2048) /\
  (forall p o, objects (mem w) !! p = Some o -> backing o <> Some b).

(** A stack the host has mapped, for a control block the pointer names. *)
Definition task_ready (w : machine) (t : Z) : Prop :=
  exists tcb, tcb_at t (mem w) = Some tcb /\ in_width 8 (Sched.priority tcb) /\
    is_Some (stacks w !! Sched.stack_base tcb).

Definition call_ok (w : machine) (c : call) : Prop :=
  match c with
  | SchedulerInit p => vacant w p scheduler_size
  | SchedulerDestroy p | Tick p _ => holds Sched.PerCoreScheduler w p
  | SetCriticalTaskMask p m => holds Sched.PerCoreScheduler w p /\ in_width 16 m
  | TaskCheckIn p prio => holds Sched.PerCoreScheduler w p /\ in_width 8 prio
  | CreateTask s t _ => holds Sched.PerCoreScheduler w s /\ task_ready w t
  | TcbNew _ _ _ _ _ out => vacant w out tcb_size
  | TcbGetRsp t => is_Some (tcb_at t (mem w))
  | TcbSetRsp t _ => holds Sched.Tcb w t
  | PoolInit p b _ => vacant w p pool2k_size /\ free_region w b
  | PoolDestroy p => holds Dma.StaticDmaPool w p
  | PoolFree _ p i g => holds Dma.StaticDmaPool w p /\ 0 <= i /\ in_width 64 g
  | PoolAllocate _ p i g o =>
      holds Dma.StaticDmaPool w p /\ vacant w i 8 /\ vacant w g 8 /\ vacant w o 8
  | TelemetryInit q b _ => vacant w q queue_size /\ vacant w b (slots_extent TelemetryEvent 64)
  | TelemetryDestroy q => holds (Queue TelemetryEvent) w q
  | TelemetryPush q e => holds (Queue TelemetryEvent) w q /\ holds TelemetryEvent w e
  | TelemetryPop q o => holds (Queue TelemetryEvent) w q /\ vacant w o telemetry_size
  | EwInit q b _ => vacant w q queue_size /\ vacant w b (slots_extent EwCommand 1024)
  | EwDestroy q => holds (Queue EwCommand) w q
  | EwPush q e => holds (Queue EwCommand) w q /\ holds EwCommand w e
  | EwPop q o | EwPeek q o => holds (Queue EwCommand) w q /\ vacant w o ew_size
  | FftInit q b _ => vacant w q queue_size /\ vacant w b (slots_extent FftResult 256)
  | FftDestroy q => holds (Queue FftResult) w q
  | FftPush q e => holds (Queue FftResult) w q /\ holds FftResult w e
  | FftPop q o => holds (Queue FftResult) w q /\ vacant w o fft_size
  | MachineInit p => vacant w p machine_size
  | MachineDestroy p | TryAdvance _ p _ => holds SM.StateMachine w p
  | TrackerInit p => vacant w p tracker_size
  | TrackerDestroy p | MarkStart p _ | MarkEnd _ _ p _ => holds Lat.LatencyTracker w p
  end.

(** Every call of the program meets the contract in the state it is made in. *)
Fixpoint contract (debug : bool) (cs : list call) (w : machine) : Prop :=
  match cs with
  | [] => True
  | c :: cs' =>
      args_in_range c /\ (pointers_valid c -> call_ok w c) /\
      (forall r w', run_call debug c w = Done r w' -> contract debug cs' w')
  end.

(** [m] returns from [w], and leaves the machine good. *)
Definition safe {A} (m : M machine A) (w : machine) : Prop :=
  exists a w', m w = Done a w' /\ machine_ok w'.

Lemma safe_ret {A} (a : A) (w : machine) : machine_ok w -> safe (mret a) w.
Proof. intros Hw. by exists a, w. Qed.

Lemma safe_bind {A B} (m : M machine A) (f : A -> M machine B) (w : machine) :
  safe m w -> (forall a w', m w = Done a w' -> machine_ok w' -> safe (f a) w') -> safe (m ≫= f) w.
Proof.
  intros (a & w1 & E & H1) Hf. destruct (Hf a w1 E H1) as (b & w2 & E2 & H2).
  exists b, w2. by rewrite (mbind_done _ _ _ _ _ E).
Qed.

(** * Plain objects *)

Section plain.
Context {T : Type} `{!CType object T}.
Variable w : machine.
Hypothesis Hw : machine_ok w.

Lemma safe_write (p : Z) (x : T) :
  0 < p -> 0 < csize T -> is_multiple_of p (calign T) = true -> vacant w p (csize T) ->
  backing (wrap x) = None -> good (wrap x) None (stacks w) (platform w) ->
  on_mem (ptr_write p x) w = Done tt (set_mem (place p (wrap x) (mem w)) w) /\
  machine_ok (set_mem (place p (wrap x) (mem w)) w).
Proof.
  intros Hp Hs Ha Hv Hb Hg. split; [apply write_run, Hv|].
  apply ok_place; [done| |done|done]. unfold placeable. by rewrite wrap_extent, wrap_alignment.
Qed.

Lemma safe_init_object (p : Z) (x : T) :
  0 <= p -> p <> 0 -> p mod calign T = 0 -> 0 < calign T -> 0 < csize T -> vacant w p (csize T) ->
  backing (wrap x) = None -> good (wrap x) None (stacks w) (platform w) ->
  safe (init_object x p) w.
Proof.
  intros H0 Hp Ha Hal Hs Hv Hb Hg. unfold init_object.
  rewrite (proj2 (is_null_spec _) Hp), aligned_true by done. cbn [negb].
  destruct (safe_write p x) as [E Hok]; try (done || lia); [by apply aligned_true|].
  eexists _, _. split; [|exact Hok]. by rewrite (mbind_done _ _ _ _ _ E).
Qed.

Lemma safe_destroy_object (p : Z) (x : T) :
  p <> 0 -> p mod calign T = 0 -> 0 < calign T -> objects (mem w) !! p = Some (wrap x) ->
  is_backing (wrap x) = false -> safe (destroy_object (T := T) p) w.
Proof.
  intros Hp Ha Hal Hx Hnb. unfold destroy_object.
  rewrite (proj2 (is_null_spec _) Hp), aligned_true by done. cbn [negb].
  eexists _, _. split; [|exact (ok_remove w Hw p (wrap x) Hx Hnb)].
  unfold on_mem, zoom, ptr_drop, ptr_read. msimpl. by rewrite (proj2 (object_at_Some _ _ _) Hx).
Qed.

(** An operation on an object that depends on nothing else. *)
Lemma safe_with_object {A} (p : Z) (x : T) (op : M T A) (a : A) (x' : T) :
  objects (mem w) !! p = Some (wrap x) -> op x = Done a x' ->
  is_backing (wrap x) = false -> backing (wrap x') = backing (wrap x) ->
  good (wrap x') (backing_of (wrap x') (mem w)) (stacks w) (platform w) ->
  with_object p op w = Done a (set_mem (put_object p (wrap x') (mem w)) w) /\
  machine_ok (set_mem (put_object p (wrap x') (mem w)) w).
Proof.
  intros Hx E Hnb Hb Hg. split.
  - unfold with_object. erewrite mbind_done by by apply read_run, object_at_Some.
    unfold zoom. by rewrite E.
  - apply (ok_put w Hw p (wrap x)); try done.
    + split; by rewrite ?wrap_extent, ?wrap_alignment.
    + apply Hw.
Qed.

End plain.

(** * Scheduler *)

(** The scheduler operations of the interface as operations of Scheduler.v. *)
Lemma run_op_result {A} (m : M Sched.world A) (v v' : Sched.world) :
  (m ;; mret tt) v = Done tt v' -> exists a, m v = Done a v'.
Proof. msimpl. destruct (m v); intros [=]; subst; eauto. Qed.

Lemma safe_with_scheduler {A} (w : machine) (p : Z) (s : Sched.PerCoreScheduler) (op : M Sched.world A)
    (a : A) (v : Sched.world) :
  machine_ok w -> objects (mem w) !! p = Some (OScheduler s) ->
  op (sched_view s w) = Done a v -> Sched.wf v -> Sched.extends (sched_view s w) v ->
  with_scheduler p op w = Done a (sched_back p v w) /\ machine_ok (sched_back p v w).
Proof.
  intros Hw Hp E Hv [Hr Hm]. split.
  - unfold with_scheduler. erewrite mbind_done by by apply read_run, (object_at_Some (T := Sched.PerCoreScheduler)).
    unfold zoom. by rewrite E.
  - apply (ok_put w Hw p (OScheduler s)); try done.
    + by eapply callbacks_registry, (ok_callbacks w Hw).
    + by destruct v.
Qed.

Section scheduler.
Variables (w : machine) (p : Z) (s : Sched.PerCoreScheduler).
Hypothesis Hw : machine_ok w.
Hypothesis Hp : objects (mem w) !! p = Some (OScheduler s).

Lemma sched_op_ok (o : Sched.op) :
  Sched.op_ok (sched_view s w) o ->
  exists v, Sched.run_op o (sched_view s w) = Done tt v /\ Sched.wf v /\
    Sched.extends (sched_view s w) v.
Proof.
  intros Ho. destruct (ok_callbacks w Hw) as (_ & _ & [cb Hcb]).
  apply (Sched.wf_run_op o _ cb); [|done|done]. exact (ok_good w Hw p _ Hp).
Qed.

(** Any operation that [Sched.run_op] runs. *)
Lemma safe_scheduler_op {A} (op : M Sched.world A) (o : Sched.op) :
  (forall v, Sched.run_op o v = (op ;; mret tt) v) -> Sched.op_ok (sched_view s w) o ->
  safe (with_scheduler p op) w.
Proof.
  intros Hrun Hok. destruct (sched_op_ok o Hok) as (v & E & Hv & Hx).
  rewrite Hrun in E. destruct (run_op_result op _ _ E) as [a Ea].
  destruct (safe_with_scheduler w p s op a v) as [E1 H1]; [done..|]. by exists a, (sched_back p v w).
Qed.
End scheduler.

(** [m; Ok(tt)] runs like [m] when [m] answers the unit. *)
Lemma seq_unit {S} (m : M S unit) (s : S) : (m ;; mret tt) s = m s.
Proof. msimpl. by destruct (m s) as [[]| |]. Qed.

(** * DMA pool *)

Lemma dma_step_of_allocate (debug : bool) (sp : list bool) (v : Dma.world) :
  Dma.dma_step 256 debug (Dma.DAlloc sp) v =
    (r ← Dma.allocate debug (S (length sp)) sp; mret (Dma.RAlloc r)) v.
Proof. done. Qed.

Section pool.
Variables (w : machine) (p : Z) (d : Dma.StaticDmaPool).
Hypothesis Hw : machine_ok w.
Hypothesis Hp : objects (mem w) !! p = Some (OPool d).

(** A pool operation that follows the abstract pool. *)
Lemma safe_with_pool {A} (op : M Dma.world A) (a : A) (v : Dma.world) (r : region) (sp : Dma.spec) :
  Dma.is_initialized d = true -> objects (mem w) !! Dma.memory d = Some (ORegion r) ->
  op (Dma.MkWorld d (region_bytes r) (platform w)) = Done a v ->
  Dma.pool_repr 256 v sp -> Dma.memory (Dma.pool v) = Dma.memory d ->
  same_registry (platform w) (Dma.host v) ->
  let w' := MkMachine (put_object (Dma.memory d) (ORegion (MkRegion (Dma.region v)))
                        (put_object p (OPool (Dma.pool v)) (mem w))) (stacks w) (Dma.host v) in
  with_pool p op w = Done a w' /\ machine_ok w'.
Proof.
  intros Hd Hr E R Hm Hreg w'. assert (Hne : Dma.memory d <> p) by congruence. split.
  - unfold with_pool. erewrite mbind_done by by apply read_run, (object_at_Some (T := Dma.StaticDmaPool)).
    unfold zoom, pool_view, region_at.
    erewrite (proj2 (object_at_Some (T := region) _ _ _)) by exact Hr. rewrite E.
    unfold pool_back, put_region, object_at. cbn. by rewrite lookup_insert_ne, Hr.
  - apply (ok_put_backing w Hw p (Dma.memory d) (OPool d) _ (ORegion r)); try done.
    + cbn. by rewrite (Dma.pr_init _ _ _ R), Hm.
    + intros q o Hq Hb. eapply (ok_own w Hw); [done|exact Hp|done|]. cbn. by rewrite Hd.
    + right. cbn. by rewrite Hd.
    + by eapply callbacks_registry, (ok_callbacks w Hw).
    + intros _. exists (MkRegion (Dma.region v)), sp. split; [done|]. by destruct v.
Qed.

(** The abstract state of an initialised pool. *)
Lemma pool_state :
  Dma.is_initialized d = true ->
  exists r sp, objects (mem w) !! Dma.memory d = Some (ORegion r) /\
    Dma.pool_repr 256 (Dma.MkWorld d (region_bytes r) (platform w)) sp.
Proof.
  intros Hd. destruct (ok_good w Hw p _ Hp Hd) as (r & sp & E & R). unfold backing_of in E.
  cbn in E. rewrite Hd in E. eauto.
Qed.

(** A step of the pool, through its entry point's view of the memory. *)
Lemma pool_step (debug : bool) (o : Dma.dma_op) (r : region) (sp : Dma.spec) :
  Dma.pool_repr 256 (Dma.MkWorld d (region_bytes r) (platform w)) sp -> Dma.op_in_range o ->
  exists v, Dma.dma_step 256 debug o (Dma.MkWorld d (region_bytes r) (platform w)) =
      Done (Dma.spec_step 256 (Dma.memory d) o sp).1 v /\
    Dma.pool_repr 256 v (Dma.spec_step 256 (Dma.memory d) o sp).2 /\
    Dma.memory (Dma.pool v) = Dma.memory d /\ same_registry (platform w) (Dma.host v).
Proof.
  intros R Ho.
  destruct (Dma.dma_step_refines 256 ltac:(done) ltac:(done) debug o _ _ R Ho) as (v & E & R' & M).
  exists v. split_and!; [done|done|done|].
  assert (K : keeps (dma_reg (platform w)) (Dma.dma_step 256 debug o)).
  { destruct o; (apply keeps_bind; [|intros; apply keeps_ret]);
      [apply dma_allocate_registry|apply dma_free_registry]. }
  specialize (K (Dma.MkWorld d (region_bytes r) (platform w))). rewrite E in K. by apply K.
Qed.

(** A pool that is not initialised refuses and stays as it is. *)
Lemma with_pool_idle {A} (op : M Dma.world A) (a : A) :
  (forall v, Dma.pool v = d -> op v = Done a v) ->
  Dma.is_initialized d = false ->
  exists w', with_pool p op w = Done a w' /\ machine_ok w'.
Proof.
  intros Hop Hd. unfold with_pool.
  erewrite mbind_done by by apply read_run, (object_at_Some (T := Dma.StaticDmaPool)).
  unfold zoom. rewrite Hop by done. eexists. split; [done|].
  unfold pool_back. cbn. assert (put_region (Dma.memory d) (region_at (Dma.memory d) (mem w))
    (put_object p (OPool d) (mem w)) = mem w) as ->; [|by destruct w].
  unfold put_object. rewrite insert_id by done. unfold put_region, region_at.
  destruct (mem w) as [st ob by_]. cbn in *.
  destruct (object_at (Dma.memory d) (MkMem st ob by_)) as [r|] eqn:E; [|done].
  apply object_at_Some in E. cbn in E. unfold put_object. cbn. rewrite insert_id; [done|].
  rewrite E. by destruct r.
Qed.
End pool.

(** * Queues

    What the invariant needs to know of a queue type; the three queues of the interface
    are its instances. *)

Class QueueKind (T : Type) (N : Z) `{Elem T, !CType object T, !CType object (Queue T), !CType object (Slots T)}
  : Type := {
  qk_capacity : Capacity N;
  qk_backing : forall q : Queue T, backing (wrap q) = queue_backing q;
  qk_good : forall (q : Queue T) back st h, good (wrap q) back st h <-> queue_good N q back h;
  qk_handle : forall q : Queue T, is_handle (wrap q) = true /\ is_backing (wrap q) = false;
  qk_slots : forall s : Slots T, is_backing (wrap s) = true;
  qk_plain : forall s : Slots T, is_handle (wrap s) = false;
  qk_item_plain : forall x : T, is_handle (wrap x) = false;
  qk_item : forall x : T, backing (wrap x) = None /\ is_backing (wrap x) = false /\
    forall back st h, good (wrap x) back st h;
  qk_extents : csize (Slots T) = N * slot_size /\ calign (Slots T) = slot_align;
  qk_sizes : 0 < csize T /\ 0 < calign T /\ 0 < csize (Queue T) /\ 0 < calign (Queue T) /\
    0 < slot_size (T := T) /\ 0 < slot_align (T := T)
}.

#[export] Instance telemetry_kind : QueueKind TelemetryEvent 64.
Proof. by split. Qed.
#[export] Instance ew_kind : QueueKind EwCommand 1024.
Proof. by split. Qed.
#[export] Instance fft_kind : QueueKind FftResult 256.
Proof. by split. Qed.

Section queue.
Context {T : Type} {N : Z} `{Elem T, !CType object T, !CType object (Queue T), !CType object (Slots T)}.
Context `{QK : !QueueKind T N}.
#[local] Instance kind_capacity : Capacity N := qk_capacity.

Variables (w : machine) (p : Z) (q : Queue T).
Hypothesis Hw : machine_ok w.
Hypothesis Hp : objects (mem w) !! p = Some (wrap q).

(** The machine after an operation that left the queue and its slots as in [v]. *)
Definition queue_after (v : Spsc.world T) : machine :=
  MkMachine (put_object (Spsc.buffer (raw_queue q)) (wrap (MkSlots (Spsc.slots v)))
              (put_object p (wrap (MkQueueOf (T := T) (Spsc.queue v))) (mem w)))
            (stacks w) (Spsc.host v).

Lemma queue_state :
  Spsc.is_initialized (raw_queue q) = true ->
  exists s items, objects (mem w) !! Spsc.buffer (raw_queue q) = Some (wrap s) /\
    spsc_repr N (Spsc.MkWorld (raw_queue q) (cells s) (platform w)) items.
Proof.
  intros Hq. pose proof (ok_good w Hw p _ Hp) as Hg. apply qk_good in Hg.
  destruct (Hg Hq) as (s & items & E & R). unfold backing_of in E.
  rewrite qk_backing in E. unfold queue_backing in E. rewrite Hq in E. cbn in E. eauto.
Qed.

Lemma queue_after_vacant (v : Spsc.world T) (s : Slots T) (o n : Z) :
  Spsc.is_initialized (raw_queue q) = true -> Spsc.is_initialized (Spsc.queue v) = true ->
  Spsc.buffer (Spsc.queue v) = Spsc.buffer (raw_queue q) ->
  objects (mem w) !! Spsc.buffer (raw_queue q) = Some (wrap s) ->
  vacant w o n -> vacant (queue_after v) o n.
Proof.
  intros Hq Hq' Hb Hs. apply vacant_transfer; [done|]. intros r x. cbn.
  destruct (decide (r = Spsc.buffer (raw_queue q))) as [->|Hr].
  - rewrite lookup_insert_eq. intros [= <-]. eexists. split; [done|].
    unfold same_shape. rewrite !wrap_extent, !backing_not_handle by apply qk_slots.
    by rewrite !qk_plain.
  - rewrite lookup_insert_ne by done. destruct (decide (r = p)) as [->|Hrp].
    + rewrite lookup_insert_eq. intros [= <-]. eexists. split; [done|].
      unfold same_shape. rewrite !wrap_extent, !qk_backing, !(proj1 (qk_handle _)).
      unfold queue_backing. cbn. by rewrite Hq, Hq', Hb.
    + rewrite lookup_insert_ne by done. intros Hx. by exists x.
Qed.

Lemma safe_with_queue {A} (op : M (Spsc.world T) A) (a : A) (v : Spsc.world T) (s : Slots T)
    (items : list T) :
  Spsc.is_initialized (raw_queue q) = true ->
  objects (mem w) !! Spsc.buffer (raw_queue q) = Some (wrap s) ->
  (forall b, keeps (spsc_reg (platform w) b) op) ->
  op (Spsc.MkWorld (raw_queue q) (cells s) (platform w)) = Done a v -> spsc_repr N v items ->
  with_queue p op w = Done a (queue_after v) /\ machine_ok (queue_after v) /\
  Spsc.buffer (Spsc.queue v) = Spsc.buffer (raw_queue q).
Proof.
  intros Hq Hs Hk E R.
  specialize (Hk (Spsc.buffer (raw_queue q)) (Spsc.MkWorld (raw_queue q) (cells s) (platform w))).
  rewrite E in Hk. destruct Hk as [Hreg Hbuf]; [done|].
  assert (Hne : Spsc.buffer (raw_queue q) <> p).
  { intros Ebp. rewrite Ebp, Hp in Hs. injection Hs as Hs. pose proof (qk_slots s) as Hsl.
    rewrite <- Hs in Hsl. by rewrite (proj2 (qk_handle q)) in Hsl. }
  split_and!; [| |done].
  - unfold with_queue. erewrite mbind_done by by apply read_run, object_at_Some.
    unfold zoom, queue_view, cells_at. rewrite (proj2 (object_at_Some _ _ _) Hs), E.
    unfold queue_back, put_cells, object_at. cbn. rewrite lookup_insert_ne, Hs by done.
    cbn. by rewrite unwrap_wrap.
  - apply (ok_put_backing w Hw p _ (wrap q) _ (wrap s)); try done.
    + apply qk_handle.
    + split; by rewrite ?wrap_extent, ?wrap_alignment.
    + apply qk_slots.
    + apply qk_slots.
    + split; by rewrite ?wrap_extent, ?wrap_alignment.
    + rewrite qk_backing. unfold queue_backing. cbn. by rewrite (repr_init _ _ _ R), Hbuf.
    + intros r o Hr Hb. eapply (ok_own w Hw); [done|exact Hp|done|].
      rewrite qk_backing. unfold queue_backing. by rewrite Hq.
    + right. rewrite qk_backing. unfold queue_backing. by rewrite Hq.
    + by eapply callbacks_registry, (ok_callbacks w Hw).
    + apply qk_good. intros _. exists (MkSlots (Spsc.slots v)), items. split; [done|]. by destruct v.
Qed.

(** A queue that is not initialised answers without a change. *)
Lemma with_queue_idle {A} (op : M (Spsc.world T) A) (a : A) :
  (forall v, Spsc.queue v = raw_queue q -> op v = Done a v) ->
  exists w', with_queue p op w = Done a w' /\ machine_ok w'.
Proof.
  intros Hop. unfold with_queue. erewrite mbind_done by by apply read_run, object_at_Some.
  unfold zoom. rewrite Hop by done. eexists. split; [done|].
  unfold queue_back. cbn.
  assert (put_cells (Spsc.buffer (raw_queue q)) (cells_at (Spsc.buffer (raw_queue q)) (mem w))
    (put_object p (wrap (MkQueueOf (raw_queue q))) (mem w)) = mem w) as ->; [|by destruct w].
  unfold put_object at 1. rewrite insert_id by (rewrite Hp; by destruct q).
  unfold put_cells, cells_at. destruct (mem w) as [st ob by_]. cbn in *.
  destruct (object_at _ (MkMem st ob by_)) as [s|] eqn:E; [|done].
  apply object_at_Some in E. cbn in E. unfold put_object. cbn. rewrite insert_id; [done|].
  rewrite E. by destruct s.
Qed.

(** ** Functional behaviour through the entry points *)

Lemma queue_checks (e : Z) :
  p <> 0 -> p mod calign (Queue T) = 0 -> e <> 0 -> e mod calign T = 0 ->
  (is_null p || is_null e = false) /\
  (negb (ptr_is_aligned (Queue T) p) || negb (ptr_is_aligned T e) = false).
Proof.
  intros. destruct (qk_sizes (T := T) (N := N)) as (_ & ? & _ & ? & _).
  by rewrite !(proj2 (is_null_spec _)), !aligned_true by done.
Qed.

(** Pushing on an initialised queue that holds [items]. *)
Lemma queue_push_run (e : Z) (x : T) (s : Slots T) (items : list T) :
  p <> 0 -> p mod calign (Queue T) = 0 -> e <> 0 -> e mod calign T = 0 ->
  objects (mem w) !! e = Some (wrap x) ->
  objects (mem w) !! Spsc.buffer (raw_queue q) = Some (wrap s) ->
  spsc_repr N (Spsc.MkWorld (raw_queue q) (cells s) (platform w)) items ->
  exists v, queue_push (Spsc.push N) p e w =
      Done (if decide (length items < Z.to_nat N)%nat then RtosSuccess else RtosQueueFull) (queue_after v) /\
    spsc_repr N v (if decide (length items < Z.to_nat N)%nat then items ++ [x] else items) /\
    Spsc.buffer (Spsc.queue v) = Spsc.buffer (raw_queue q) /\ machine_ok (queue_after v).
Proof.
  intros Hp0 Hpa He Hea Hx Hs R. destruct (queue_checks e Hp0 Hpa He Hea) as [C1 C2].
  unfold queue_push. rewrite C1, C2. erewrite mbind_done by by apply read_run, object_at_Some.
  pose proof (fifo_cap_bound (Fifo := spsc_fifo N) _ _ R) as Hcap. cbn in Hcap.
  case_decide as Hroom.
  - destruct (spsc_push_room N _ items x R Hroom) as (v & E & R').
    destruct (safe_with_queue (Spsc.push N x) (Ok tt) v s (items ++ [x])) as (E1 & H1 & Hb); try done.
    + apply (repr_init _ _ _ R).
    + intros b. apply spsc_push_registry.
    + exists v. by rewrite (mbind_done _ _ _ _ _ E1).
  - exists (Spsc.MkWorld (raw_queue q) (cells s) (platform w)).
    assert (E := fifo_push_full (Fifo := spsc_fifo N) _ items x R). cbn in E.
    destruct (safe_with_queue (Spsc.push N x) _ _ s items (repr_init _ _ _ R) Hs
                (fun b => spsc_push_registry _ b N x) (E ltac:(lia)) R) as (E1 & H1 & Hb).
    by rewrite (mbind_done _ _ _ _ _ E1).
Qed.

(** Taking (popping or peeking) from an initialised queue: [op] answers the oldest item
    of [items], and what is left is [rest items]. *)
Lemma queue_take_run (op : M (Spsc.world T) (option T)) (rest : list T -> list T) (o : Z)
    (s : Slots T) (items : list T) (v : Spsc.world T) :
  0 <= p -> p <> 0 -> p mod calign (Queue T) = 0 -> 0 <= o -> o <> 0 -> o mod calign T = 0 ->
  ranges_overlap p (csize (U := object) (Queue T)) o (csize (U := object) T) = false ->
  vacant w o (csize (U := object) T) ->
  objects (mem w) !! Spsc.buffer (raw_queue q) = Some (wrap s) ->
  spsc_repr N (Spsc.MkWorld (raw_queue q) (cells s) (platform w)) items ->
  (forall b, keeps (spsc_reg (platform w) b) op) ->
  op (Spsc.MkWorld (raw_queue q) (cells s) (platform w)) = Done (list.head items) v ->
  spsc_repr N v (rest items) ->
  exists w',
    queue_take op p o w = Done (match items with [] => RtosQueueEmpty | _ => RtosSuccess end) w' /\
    w' = match items with
         | [] => queue_after v
         | x :: _ => set_mem (place o (wrap x) (mem (queue_after v))) (queue_after v)
         end /\
    Spsc.buffer (Spsc.queue v) = Spsc.buffer (raw_queue q) /\ machine_ok (queue_after v) /\ machine_ok w'.
Proof.
  intros Hp1 Hp0 Hpa Ho Ho0 Hoa Hno Hv Hs R Hk E R'. destruct (queue_checks o Hp0 Hpa Ho0 Hoa) as [C1 C2].
  unfold queue_take. rewrite C1, C2, Hno. pose proof (repr_init _ _ _ R) as Hi. cbn in Hi.
  erewrite mbind_done by by apply read_run, object_at_Some. rewrite Hi. cbn [negb].
  destruct (safe_with_queue op _ v s _ Hi Hs Hk E R') as (E1 & H1 & Hb).
  rewrite (mbind_done _ _ _ _ _ E1). destruct items as [|x items]; cbn [list.head].
  { eexists. by split_and!. }
  destruct (qk_sizes (T := T) (N := N)) as (Hsz & Hal & _).
  destruct (qk_item x) as (Hxb & _ & Hxg).
  destruct (safe_write (queue_after v) H1 o x) as [E2 H2];
    [lia|done|by apply aligned_true| |done|apply Hxg|].
  { by eapply queue_after_vacant; [|apply (repr_init _ _ _ R')|..]. }
  eexists. by rewrite (mbind_done _ _ _ _ _ E2).
Qed.

End queue.


(** ** Initialisation *)

Section queue_init.
Context {T : Type} {N : Z} `{Elem T, !CType object T, !CType object (Queue T), !CType object (Slots T)}.
Context `{QK : !QueueKind T N}.
#[local] Existing Instance kind_capacity.
Variables (p base n : Z).
Hypothesis Hb1 : 0 <= base.
Hypothesis Hregion : region_ok (T := T) N base n.

Lemma slots_positive : 0 < N * slot_size (T := T).
Proof.
  pose proof (capacity_range N). destruct (qk_sizes (T := T) (N := N)) as (_ & _ & _ & _ & ? & _). nia.
Qed.

Definition fresh_queue : Queue T := MkQueueOf Spsc.new.

(** Binding a fresh queue at [p] to vacant slots at [base]. *)
Lemma queue_bind_run (w : machine) :
  machine_ok w -> objects (mem w) !! p = Some (wrap fresh_queue) ->
  vacant w base (N * slot_size (T := T)) ->
  exists v, zoom (init_view (T := T) N Spsc.new base) (init_back p base) (Spsc.init N base n) w =
      Done (Ok tt) (MkMachine (place base (wrap (MkSlots (Spsc.slots v)))
        (put_object p (wrap (MkQueueOf (T := T) (Spsc.queue v))) (mem w))) (stacks w) (Spsc.host v)) /\
    spsc_repr N v [] /\ Spsc.buffer (Spsc.queue v) = base /\ callbacks (Spsc.host v).
Proof.
  intros Hw Hp Hv. set (v0 := init_view (T := T) N Spsc.new base w).
  destruct (ok_callbacks w Hw) as (Hcf & Hci & Hwd).
  destruct (spsc_init_exact N base n v0) as (_ & _ & Hinit); try done.
  { cbn. unfold raw_slots. by rewrite (proj1 Hv), length_map, length_seq. }
  destruct (Hinit Hregion eq_refl) as (v & Ev & R & Hbuf & _). exists v. split_and!; [|done|done|].
  - unfold zoom. fold v0. rewrite Ev. unfold init_back. by rewrite (repr_init _ _ _ R).
  - pose proof (spsc_init_host (T := T) (platform w) N base n v0) as K. rewrite Ev in K.
    eapply callbacks_registry; [apply K; by unfold spsc_host|done].
Qed.

Lemma queue_bind_ok (w : machine) (v : Spsc.world T) :
  machine_ok w -> objects (mem w) !! p = Some (wrap fresh_queue) ->
  vacant w base (N * slot_size (T := T)) ->
  spsc_repr N v [] -> Spsc.buffer (Spsc.queue v) = base -> callbacks (Spsc.host v) ->
  machine_ok (MkMachine (place base (wrap (MkSlots (Spsc.slots v)))
    (put_object p (wrap (MkQueueOf (T := T) (Spsc.queue v))) (mem w))) (stacks w) (Spsc.host v)).
Proof.
  intros Hw Hp Hv R Hbuf Hcb. pose proof slots_positive. destruct Hregion as (Hb0 & _ & _ & _ & Hba).
  destruct (qk_extents (T := T) (N := N)) as [Hex Hal].
  destruct (qk_sizes (T := T) (N := N)) as (_ & _ & _ & _ & _ & Hsa).
  apply (ok_bind w Hw p base (wrap fresh_queue)); try done.
  - apply qk_handle.
  - apply qk_handle.
  - split; by rewrite ?wrap_extent, ?wrap_alignment.
  - by rewrite qk_backing.
  - rewrite qk_backing. unfold queue_backing. cbn. by rewrite (repr_init _ _ _ R), Hbuf.
  - apply qk_slots.
  - unfold placeable. rewrite wrap_extent, wrap_alignment, Hex, Hal.
    split_and!; [lia|done|done|]. unfold is_multiple_of.
    rewrite (proj2 (Z.eqb_neq _ 0)) by lia. by apply Z.eqb_eq.
  - apply qk_good. intros _. exists (MkSlots (Spsc.slots v)), []. split; [done|]. by destruct v.
Qed.

(** A successful initialisation leaves an empty queue bound to the region. *)
Lemma queue_init_run (w : machine) :
  machine_ok w -> 0 <= p -> p <> 0 -> p mod calign (U := object) (Queue T) = 0 ->
  base + N * slot_size (T := T) < 2 ^ 64 ->
  ranges_overlap p (csize (U := object) (Queue T)) base n = false ->
  vacant w p (csize (U := object) (Queue T)) -> vacant w base (N * slot_size (T := T)) ->
  exists w' q s, queue_init (T := T) N Spsc.new (Spsc.init N) p base n w = Done RtosSuccess w' /\
    machine_ok w' /\ objects (mem w') !! p = Some (wrap q) /\ Spsc.buffer (raw_queue q) = base /\
    objects (mem w') !! base = Some (wrap s) /\
    spsc_repr N (Spsc.MkWorld (raw_queue q) (cells s) (platform w')) [] /\
    (forall a k, 0 < k -> vacant w a k -> ~ meets a k p (csize (U := object) (Queue T)) ->
       ~ meets a k base (N * slot_size (T := T)) -> vacant w' a k).
Proof.
  intros Hw Hp1 Hp0 Hpa Hfit Hno Hvp Hvb. pose proof slots_positive as Hpos.
  destruct (qk_sizes (T := T) (N := N)) as (_ & _ & Hqs & Hqa & _ & Hsa).
  destruct (qk_extents (T := T) (N := N)) as [Hex Hal].
  pose proof Hregion as (Hb0 & _ & Hn & Hb4 & Hba).
  assert (Hap : ~ meets base (N * slot_size (T := T)) p (csize (U := object) (Queue T))).
  { apply ranges_overlap_spec in Hno as (_ & _ & Hap); [|done|lia]. rewrite meets_iff in * by lia. lia. }
  assert (Hvr : valid_dma_region slot_size (slot_align (T := T)) base n N = true)
    by by apply valid_dma_region_spec; [..|split_and!]; try lia.
  unfold queue_init, object_overlaps_backing.
  rewrite (proj2 (is_null_spec _) Hp0), Hvr, Hno, aligned_true by done. cbn [negb orb].
  destruct (safe_write w Hw p fresh_queue) as [E1 H1]; try done;
    [lia|by apply aligned_true|by rewrite qk_backing|by apply qk_good|].
  rewrite (mbind_done _ _ _ _ _ E1). set (w1 := set_mem _ w) in *.
  assert (Hat : objects (mem w1) !! p = Some (wrap fresh_queue)) by apply place_lookup.
  erewrite mbind_done by by apply read_run, object_at_Some.
  assert (Hvb1 : vacant w1 base (N * slot_size (T := T))).
  { apply vacant_place; rewrite ?wrap_extent; try done. by rewrite qk_backing. }
  destruct (queue_bind_run w1 H1 Hat Hvb1) as (v & E2 & R & Hbuf & Hcb).
  rewrite (mbind_done _ _ _ _ _ E2).
  eexists _, (MkQueueOf (Spsc.queue v)), (MkSlots (Spsc.slots v)).
  split; [done|]. split; [by apply queue_bind_ok|]. cbn [mem platform raw_queue cells].
  split_and!; [|done|apply place_lookup|by destruct v|].
  - apply place_lookup_ne; [|split; [cbn; apply lookup_insert_eq|by rewrite !wrap_extent, Hex]].
    intros ->. apply Hap, meets_iff; lia.
  - intros a k Hk Ha Hap1 Hap2.
    eapply (vacant_bind w1 p base (wrap fresh_queue)); rewrite ?wrap_extent, ?Hex; try done.
    + rewrite qk_backing. unfold queue_backing. cbn. by rewrite (repr_init _ _ _ R), Hbuf.
    + apply qk_slots.
    + apply vacant_place; rewrite ?wrap_extent; try done. by rewrite qk_backing.
Qed.

End queue_init.

(** * DMA pool entry points *)

(** The pool at [p] follows the abstract pool [sp]. *)
Definition pool_holds (w : machine) (p : Z) (base : Z) (sp : Dma.spec) : Prop :=
  exists d r, objects (mem w) !! p = Some (OPool d) /\ Dma.memory d = base /\
    objects (mem w) !! base = Some (ORegion r) /\
    Dma.pool_repr 256 (Dma.MkWorld d (region_bytes r) (platform w)) sp.

(** Both the pool and its region are in use. *)
Lemma pool_holds_write (w : machine) (p base o v : Z) (sp : Dma.spec) :
  machine_ok w -> pool_holds w p base sp -> 0 < o -> is_multiple_of o 8 = true -> vacant w o 8 ->
  let w' := set_mem (place o (OWord (MkWord v)) (mem w)) w in
  on_mem (ptr_write o (MkWord v)) w = Done tt w' /\ machine_ok w' /\ pool_holds w' p base sp /\
  objects (mem w') !! o = Some (OWord (MkWord v)) /\
  (forall q n, vacant w q n -> vacant w' q n) /\
  (forall q x, objects (mem w) !! q = Some (OWord x) -> ~ meets o 8 q 8 ->
     objects (mem w') !! q = Some (OWord x)).
Proof.
  intros Hw (d & r & Hd & Hm & Hr & R) Ho Ha Hv w'.
  destruct (safe_write w Hw o (MkWord v)) as [E Hok]; try done.
  assert (Hud : in_use w p (OPool d)) by by left.
  assert (Hur : in_use w base (ORegion r)).
  { right. exists p, (OPool d). pose proof (Dma.pr_init _ _ _ R) as Hi. cbn in *. by rewrite Hi, Hm. }
  split_and!; [done|done| |apply place_lookup| |].
  - exists d, r. split_and!; [by apply vacant_place_lookup|done|by apply vacant_place_lookup|done].
  - intros q n Hq. by apply vacant_place_plain.
  - intros q x Hq Hnm. destruct (decide (q = o)) as [->|Hne].
    + exfalso. apply Hnm, meets_iff; lia.
    + by apply place_lookup_ne.
Qed.

Definition word_at (w : machine) (p v : Z) : Prop := objects (mem w) !! p = Some (OWord (MkWord v)).

Lemma pool_checks (p : Z) :
  p <> 0 -> p mod 64 = 0 -> is_null p = false /\ ptr_is_aligned (U := object) Dma.StaticDmaPool p = true.
Proof. intros. split; [by apply is_null_spec|by apply aligned_true]. Qed.

Lemma word_checks (p : Z) :
  p <> 0 -> p mod 8 = 0 -> is_null p = false /\ ptr_is_aligned (U := object) word p = true.
Proof. intros. split; [by apply is_null_spec|by apply aligned_true]. Qed.

(** Pool calls follow the abstract pool. *)
Lemma pool_op_run {A} (debug : bool) (w : machine) (p base : Z) (sp : Dma.spec) (o : Dma.dma_op)
    (op : M Dma.world A) (ret : A -> Dma.dma_ret) :
  machine_ok w -> pool_holds w p base sp -> Dma.op_in_range o ->
  (forall v, Dma.dma_step 256 debug o v = (a ← op; mret (ret a)) v) ->
  exists a w', with_pool p op w = Done a w' /\ ret a = (Dma.spec_step 256 base o sp).1 /\
    machine_ok w' /\ pool_holds w' p base (Dma.spec_step 256 base o sp).2 /\
    (forall q n, vacant w q n -> vacant w' q n).
Proof.
  intros Hw (d & r & Hd & Hm & Hr & R) Ho Hstep. subst base.
  destruct (pool_step w d debug o r sp R Ho) as (v & E & R' & Hm & Hreg).
  rewrite Hstep in E. unfold mbind, M_bind in E.
  destruct (op _) as [a v1| |] eqn:Eop; try done. unfold mret, M_ret in E. injection E as Ea ->.
  destruct (safe_with_pool w p d Hw Hd op a v r _ (Dma.pr_init _ _ _ R) Hr Eop R' Hm Hreg) as [E1 H1].
  assert (Hne : Dma.memory d <> p) by congruence.
  eexists a, _. split_and!; [exact E1|done|exact H1| |].
  - exists (Dma.pool v), (MkRegion (Dma.region v)). cbn. rewrite lookup_insert_ne, lookup_insert_eq by done.
    rewrite lookup_insert_eq. split_and!; [done..|]. by destruct v.
  - intros q n. apply vacant_transfer; [done|]. intros x o'. cbn.
    destruct (decide (x = Dma.memory d)) as [->|Hx]; [rewrite lookup_insert_eq; intros [= <-]; by eexists|].
    rewrite lookup_insert_ne by done. destruct (decide (x = p)) as [->|Hxp].
    + rewrite lookup_insert_eq. intros [= <-]. eexists. split; [done|]. unfold same_shape.
      pose proof (Dma.pr_init _ _ _ R) as Hi. pose proof (Dma.pr_init _ _ _ R') as Hi'.
      cbn in *. by rewrite Hi, Hi', Hm.
    + rewrite lookup_insert_ne by done. intros Hxo. by exists o'.
Qed.

Definition alloc_code (r : result (Z * Z) AllocatorError) : ShawncoreRtosErr :=
  match r with Ok _ => RtosSuccess | Err e => rtos_of_allocator e end.
Definition free_code (r : result unit AllocatorError) : ShawncoreRtosErr :=
  match r with Ok _ => RtosSuccess | Err e => rtos_of_allocator e end.

(** The three output writes of an allocation. *)
Lemma pool_outputs (w : machine) (p base i g o vi vg vo : Z) (sp : Dma.spec) :
  machine_ok w -> pool_holds w p base sp ->
  0 < i -> 0 < g -> 0 < o -> i mod 8 = 0 -> g mod 8 = 0 -> o mod 8 = 0 ->
  vacant w i 8 -> vacant w g 8 -> vacant w o 8 ->
  ~ meets i 8 g 8 -> ~ meets i 8 o 8 -> ~ meets g 8 o 8 ->
  exists w', (on_mem (ptr_write i (MkWord vi)) ;; on_mem (ptr_write g (MkWord vg)) ;;
      on_mem (ptr_write o (MkWord vo)) ;; mret RtosSuccess) w = Done RtosSuccess w' /\
    machine_ok w' /\ pool_holds w' p base sp /\ (forall q n, vacant w q n -> vacant w' q n) /\
    word_at w' i vi /\ word_at w' g vg /\ word_at w' o vo.
Proof.
  intros Hw Hd Hi Hg Ho Ai Ag Ao Vi Vg Vo Nig Nio Ngo.
  assert (A : forall x, x mod 8 = 0 -> is_multiple_of x 8 = true) by (intros; by apply Z.eqb_eq).
  destruct (pool_holds_write w p base i vi sp) as (E1 & H1 & D1 & W1 & V1 & K1); auto.
  destruct (pool_holds_write _ p base g vg sp H1 D1) as (E2 & H2 & D2 & W2 & V2 & K2); auto.
  destruct (pool_holds_write _ p base o vo sp H2 D2) as (E3 & H3 & D3 & W3 & V3 & K3); auto.
  eexists. rewrite (mbind_done _ _ _ _ _ E1), (mbind_done _ _ _ _ _ E2), (mbind_done _ _ _ _ _ E3).
  split; [done|]. split_and!; [done|done|auto| |apply K3|done].
  - apply K3; [|by rewrite meets_sym]. apply K2; [done|by rewrite meets_sym].
  - done.
  - by rewrite meets_sym.
Qed.

(** An allocation behind its checks. *)
Lemma allocate_body (debug : bool) (fuel : nat) (spu : list bool) (p i g o : Z) :
  pointers_valid (PoolAllocate spu p i g o) ->
  shawncore_rtos_dmapool2k_allocate debug fuel spu p i g o =
    (r ← with_pool p (Dma.allocate debug fuel spu);
     match r with
     | Ok (idx, generation, buf_ptr) =>
         on_mem (ptr_write i (MkWord idx)) ;; on_mem (ptr_write g (MkWord generation)) ;;
         on_mem (ptr_write o (MkWord buf_ptr)) ;; mret RtosSuccess
     | Err e => mret (rtos_of_allocator e)
     end).
Proof.
  intros (Hwp & Hap & _). specialize (Hap eq_refl). cbn in Hwp, Hap.
  rewrite !Forall_cons in Hwp. destruct Hwp as ([Wp Ap] & [Wi Ai] & [Wg Ag] & [Wo Ao] & _).
  rewrite !ForallOrdPairs_cons_iff, !Forall_cons in Hap.
  destruct Hap as ((A1 & A1' & A1'' & _) & (A3 & A3' & _) & (A5 & _) & _).
  unfold shawncore_rtos_dmapool2k_allocate.
  destruct (pool_checks p Wp Ap) as [-> ->], (word_checks i Wi Ai) as [-> ->],
    (word_checks g Wg Ag) as [-> ->], (word_checks o Wo Ao) as [-> ->].
  cbn [orb negb csize ct_pool ct_word].
  by rewrite (apart_overlap _ _ _ _ _ _ A1), (apart_overlap _ _ _ _ _ _ A1'),
    (apart_overlap _ _ _ _ _ _ A1''), (apart_overlap _ _ _ _ _ _ A3), (apart_overlap _ _ _ _ _ _ A3'),
    (apart_overlap _ _ _ _ _ _ A5) by done.
Qed.

Lemma pool_allocate_run (debug : bool) (spu : list bool) (w : machine) (p base i g o : Z) (sp : Dma.spec) :
  machine_ok w -> pool_holds w p base sp ->
  pointers_valid (PoolAllocate spu p i g o) -> args_in_range (PoolAllocate spu p i g o) ->
  vacant w i 8 -> vacant w g 8 -> vacant w o 8 ->
  exists w', shawncore_rtos_dmapool2k_allocate debug (S (length spu)) spu p i g o w =
      Done (alloc_code (Dma.spec_alloc sp).1) w' /\
    machine_ok w' /\ pool_holds w' p base (Dma.spec_alloc sp).2 /\
    (forall idx gen, (Dma.spec_alloc sp).1 = Ok (idx, gen) ->
       word_at w' i idx /\ word_at w' g gen /\ word_at w' o (base + idx * 2048)) /\
    (forall q n, vacant w q n -> vacant w' q n).
Proof.
  intros Hw Hd Hv [Hr _] Vi Vg Vo. rewrite allocate_body by done. destruct Hv as (Hwp & Hap & _).
  specialize (Hap eq_refl). cbn in Hwp, Hap, Hr.
  rewrite !Forall_cons in Hwp, Hr. destruct Hwp as (_ & [] & [] & [] & _), Hr as (_ & Ri & Rg & Ro & _).
  rewrite !ForallOrdPairs_cons_iff, !Forall_cons in Hap.
  destruct Hap as (_ & ((_ & _ & ?) & (_ & _ & ?) & _) & ((_ & _ & ?) & _) & _).
  destruct (pool_op_run debug w p base sp (Dma.DAlloc spu) (Dma.allocate debug (S (length spu)) spu)
              Dma.RAlloc Hw Hd I ltac:(done)) as (a & w1 & E1 & Ea & Hok1 & D1 & V1).
  rewrite (mbind_done _ _ _ _ _ E1). cbn in Ea, D1.
  destruct (Dma.spec_alloc sp) as [[[idx gen]|e] sp'] eqn:Es; cbn in Ea, D1 |- *; injection Ea as ->.
  - destruct (pool_outputs w1 p base i g o idx gen (base + idx * 2048) sp') as (w2 & E2 & ? & ? & ? & ? & ? & ?);
      auto; try lia.
    exists w2. split_and!; [exact E2|done|done| |auto]. by intros ? ? [= <- <-].
  - exists w1. split_and!; [done|done|done| |auto]. by intros ? ? [=].
Qed.

Lemma pool_free_run (spu : list bool) (w : machine) (p base idx gen : Z) (sp : Dma.spec) :
  machine_ok w -> pool_holds w p base sp -> p <> 0 -> p mod 64 = 0 -> 0 <= idx -> in_width 64 gen ->
  exists w', shawncore_rtos_dmapool2k_free (S (length spu)) spu p idx gen w =
      Done (free_code (Dma.spec_free 256 sp idx gen).1) w' /\
    machine_ok w' /\ pool_holds w' p base (Dma.spec_free 256 sp idx gen).2 /\
    (forall q n, vacant w q n -> vacant w' q n).
Proof.
  intros Hw Hd Hp Ha Hi Hg. unfold shawncore_rtos_dmapool2k_free.
  destruct (pool_checks p Hp Ha) as [-> ->]. cbn [negb].
  destruct (pool_op_run true w p base sp (Dma.DFree idx gen spu)
              (Dma.free 256 (S (length spu)) spu idx gen) Dma.RFree Hw Hd) as (a & w1 & E1 & Ea & H1 & D1 & V1);
    [done|done|].
  rewrite (mbind_done _ _ _ _ _ E1). cbn in Ea, D1.
  destruct (Dma.spec_free 256 sp idx gen) as [r sp']. cbn in *. injection Ea as ->.
  exists w1. by destruct r.
Qed.

(** A successful initialisation leaves every slot free. *)
Lemma pool_init_run (w : machine) (p b n : Z) :
  machine_ok w -> pointers_valid (PoolInit p b n) -> args_in_range (PoolInit p b n) ->
  vacant w p pool2k_size -> free_region w b ->
  exists w', shawncore_rtos_dmapool2k_init p b n w = Done RtosSuccess w' /\
    machine_ok w' /\ pool_holds w' p b (Dma.fresh 256) /\
    (forall a k, vacant w a k -> ~ meets a k p pool2k_size -> ~ meets a k b (256 * 2048) -> vacant w' a k).
Proof.
  intros Hw (Hwp & _ & Hfit) [Hr [Hb Hn]] Hv [(r & Hreg & Hlen) Hfree]. cbn in Hwp, Hfit, Hr.
  rewrite Forall_singleton in Hwp, Hr. destruct Hwp as [Hp Ha], Hfit as (Hb0 & Hb4 & Hb1 & Hreq & Htop & Hap).
  rewrite Forall_singleton in Hap. assert (Hno := apart_overlap _ _ _ _ _ _ Hap ltac:(done) ltac:(lia)).
  assert (Hvr : valid_dma_region 2048 1 b n 256 = true) by by apply valid_dma_region_spec.
  unfold shawncore_rtos_dmapool2k_init, object_overlaps_backing. cbn [csize ct_pool].
  destruct (pool_checks p Hp Ha) as [-> ->]. rewrite Hvr, Hno. cbn [orb negb].
  destruct (safe_write w Hw p pool_new) as [E1 H1]; try done; [lia|by apply Z.eqb_eq|].
  rewrite (mbind_done _ _ _ _ _ E1). set (w1 := set_mem _ w) in *.
  assert (Hat : objects (mem w1) !! p = Some (OPool pool_new)) by apply place_lookup.
  erewrite mbind_done by by apply read_run, (object_at_Some (T := Dma.StaticDmaPool)).
  assert (Hb1' : objects (mem w1) !! b = Some (ORegion r)).
  { destruct Hap as (_ & _ & Hap). change pool2k_size with 4160 in Hap. rewrite meets_iff in Hap by lia.
    apply place_lookup_ne; [intros ->; lia|]. split; [done|]. rewrite meets_iff by done.
    change (extent (wrap pool_new)) with 4160. change (extent (ORegion r)) with (256 * 2048). lia. }
  destruct (ok_callbacks w Hw) as (Hcf & Hci & Hwd).
  destruct (Dma.init_ready 256 ltac:(done) ltac:(done) 4 b n (Dma.MkWorld pool_new (region_bytes r) (platform w)))
    as (v & Ev & R & Hm & Hrg); try done.
  assert (Hh : same_registry (platform w) (Dma.host v)).
  { pose proof (dma_init_host (platform w) 256 4 b n (Dma.MkWorld pool_new (region_bytes r) (platform w))) as K.
    rewrite Ev in K. by apply K. }
  assert (E2 : zoom (pool_view pool_new b) (pool_back p b) (Dma.init 256 4 b n) w1 =
    Done (Ok tt) (MkMachine (put_object b (ORegion (MkRegion (Dma.region v)))
                    (put_object p (OPool (Dma.pool v)) (mem w1))) (stacks w1) (Dma.host v))).
  { unfold zoom, pool_view, region_at.
    erewrite (proj2 (object_at_Some (T := region) _ _ _)) by exact Hb1'. cbn [platform w1 set_mem].
    rewrite Ev. unfold pool_back, put_region, object_at. cbn [put_object objects].
    by rewrite lookup_insert_ne, Hb1' by congruence. }
  rewrite (mbind_done _ _ _ _ _ E2). eexists. split; [done|]. split_and!.
  - apply (ok_put_backing w1 H1 p b (OPool pool_new) _ (ORegion r)); try done.
    + cbn. by rewrite (Dma.pr_init _ _ _ R), Hm.
    + intros q o Hq Hbk. destruct (decide (q = p)) as [->|Hne]; [done|].
      apply place_lookup_ne in Hq as [Hq _]; [|done]. by destruct (Hfree q o Hq).
    + by left.
    + by eapply callbacks_registry, (ok_callbacks w Hw).
    + intros _. exists (MkRegion (Dma.region v)), (Dma.fresh 256). split; [done|]. by destruct v.
  - exists (Dma.pool v), (MkRegion (Dma.region v)). cbn -[place].
    rewrite lookup_insert_ne, !lookup_insert_eq by congruence. split_and!; [done..|]. by destruct v.
  - intros a k Hak Hap1 Hap2. apply (vacant_adopt w1 p b (OPool pool_new) _ (ORegion r)); try done.
    + cbn. by rewrite (Dma.pr_init _ _ _ R), Hm.
    + by apply (vacant_place w p (OPool pool_new)).
Qed.

(** * Every call is safe under the contract *)

Lemma safe_code (m : M machine ShawncoreRtosErr) (w : machine) : safe m w -> safe (code m) w.
Proof. intros Hm. apply safe_bind; [done|]. intros. by apply safe_ret. Qed.

Lemma safe_pointer (m : M machine Z) (w : machine) : safe m w -> safe (pointer m) w.
Proof. intros Hm. apply safe_bind; [done|]. intros. by apply safe_ret. Qed.

Section queue_calls.
Context {T : Type} {N : Z} `{Elem T, !CType object T, !CType object (Queue T), !CType object (Slots T)}.
Context `{QK : !QueueKind T N}.
#[local] Existing Instance kind_capacity.
Variables (w : machine) (p e : Z).
Hypothesis Hw : machine_ok w.
Hypothesis Hp0 : p <> 0.
Hypothesis Hpa : p mod calign (U := object) (Queue T) = 0.
Hypothesis He0 : e <> 0.
Hypothesis Hea : e mod calign (U := object) T = 0.
Hypothesis Hq : holds (Queue T) w p.

Lemma safe_queue_push : holds T w e -> safe (queue_push (T := T) (Spsc.push N) p e) w.
Proof.
  intros [x Hx]. destruct Hq as [q Hqp].
  destruct (Spsc.is_initialized (raw_queue q)) eqn:Ei.
  - destruct (queue_state w p q Hw Hqp Ei) as (s & items & Hs & R).
    destruct (queue_push_run w p q Hw Hqp e x s items) as (v & E & _ & _ & Hok); try done.
    by eexists _, _.
  - unfold queue_push. destruct (queue_checks (N := N) p e) as [-> ->]; try done.
    destruct (with_queue_idle w p q Hw Hqp (Spsc.push N x) (Err IpcNotInitialized)) as (w' & E & Hok).
    { intros v Hv. unfold Spsc.push. msimpl. by rewrite Hv, Ei. }
    eexists _, w'. split; [|done]. erewrite mbind_done by by apply read_run, object_at_Some.
    by rewrite (mbind_done _ _ _ _ _ E).
Qed.

Lemma safe_queue_take (op : M (Spsc.world T) (option T)) (rest : list T -> list T) :
  0 <= p -> 0 <= e ->
  ranges_overlap p (csize (U := object) (Queue T)) e (csize (U := object) T) = false ->
  vacant w e (csize (U := object) T) ->
  (forall b, keeps (spsc_reg (platform w) b) op) ->
  (forall v items, spsc_repr N v items -> exists v', op v = Done (list.head items) v' /\ spsc_repr N v' (rest items)) ->
  safe (queue_take (T := T) op p e) w.
Proof.
  intros Hp1 He1 Hno Hv Hk Hop. destruct Hq as [q Hqp].
  destruct (Spsc.is_initialized (raw_queue q)) eqn:Ei.
  - destruct (queue_state w p q Hw Hqp Ei) as (s & items & Hs & R).
    destruct (Hop _ _ R) as (v & E & R').
    destruct (queue_take_run w p q Hw Hqp op rest e s items v) as (w' & E' & _ & _ & _ & Hok); try done.
    by eexists _, _.
  - unfold queue_take. destruct (queue_checks (N := N) p e) as [-> ->]; try done. rewrite Hno.
    eexists _, w. split; [|done]. erewrite mbind_done by by apply read_run, object_at_Some. by rewrite Ei.
Qed.
End queue_calls.

(** What popping and peeking make of the items. *)
Lemma spsc_pop_takes {T} `{Elem T} (N : Z) `{!Capacity N} (v : Spsc.world T) (items : list T) :
  spsc_repr N v items -> exists v', Spsc.pop N v = Done (list.head items) v' /\ spsc_repr N v' (list.tail items).
Proof.
  intros R. destruct items as [|x items].
  - exists v. by rewrite (spsc_pop_empty N v R).
  - exact (fifo_pop_item (Fifo := spsc_fifo N) v x items R).
Qed.

Lemma rb_peek_takes {T} `{Elem T} (N : Z) `{!Capacity N} (v : Spsc.world T) (items : list T) :
  spsc_repr N v items -> exists v', RB.peek N v = Done (list.head items) v' /\ spsc_repr N v' items.
Proof.
  intros R. destruct items as [|x items].
  - exists v. by rewrite (RB.peek_empty N v R).
  - destruct (RB.peek_item N v x items R) as [e E]. eexists. split; [exact E|]. by destruct R.
Qed.

(** The pointers of a valid call, one by one. *)
Ltac pointers :=
  repeat match goal with
  | H : pointers_valid _ |- _ => destruct H as (? & ? & ?)
  | H : args_in_range _ |- _ => destruct H as [? ?]
  | H : has_outputs _ = true -> _ |- _ => specialize (H eq_refl)
  | H : context [targets _] |- _ => cbn [targets] in H
  | H : Forall _ (_ :: _) |- _ => rewrite Forall_cons in H
  | H : ForallOrdPairs _ (_ :: _) |- _ => rewrite ForallOrdPairs_cons_iff in H
  | H : well_placed _ |- _ => destruct H as [? ?]
  | H : _ /\ _ |- _ => destruct H
  end.

Lemma safe_try_advance (w : machine) (sp : list bool) (p t : Z) :
  machine_ok w -> p <> 0 -> p mod 64 = 0 -> holds SM.StateMachine w p ->
  safe (shawncore_rtos_state_machine_try_advance (S (length sp)) sp p t) w.
Proof.
  intros Hw Hp Ha [m Hm]. unfold shawncore_rtos_state_machine_try_advance.
  rewrite (proj2 (is_null_spec _) Hp), aligned_true by done. cbn [negb].
  assert (G : forall target, safe (r ← with_object p (SM.try_advance (S (length sp)) sp target);
    match r with Ok _ => mret RtosSuccess | Err _ => mret RtosInvalidState end) w).
  { intros target. apply safe_bind; [|intros [] ? _ ?; by apply safe_ret].
    assert (exists r m', SM.try_advance (S (length sp)) sp target m = Done r m') as (r & m' & E).
    { unfold SM.try_advance. msimpl. rewrite SM.advance_loop_run by lia. case_match; eauto. }
    destruct (safe_with_object w Hw p m _ r m' Hm E) as [E1 H1]; try done. by eexists _, _. }
  destruct t as [|[[[]|[]|]|[[]|[]|]|]|]; try apply G; by apply safe_ret.
Qed.

Lemma safe_scheduler_create (w : machine) (s t c : Z) :
  machine_ok w -> pointers_valid (CreateTask s t c) -> holds Sched.PerCoreScheduler w s -> task_ready w t ->
  safe (shawncore_rtos_scheduler_create_task s t c) w.
Proof.
  intros Hw Hv [sc Hs] (tcb & Ht & Hpr & Hst). pointers. unfold shawncore_rtos_scheduler_create_task.
  rewrite !valid_aligned_true, !aligned_true by done. cbn [negb orb].
  apply safe_bind.
  { exists tcb, w. split; [|done]. unfold read_tcb. msimpl. by rewrite Ht. }
  intros a w' E Hw'. unfold read_tcb in E. msimpl. rewrite Ht in E. injection E as <- <-.
  apply safe_bind; [|intros [] ? _ ?; by apply safe_ret].
  by apply (safe_scheduler_op w s sc Hw Hs _ (Sched.OpCreate tcb c)).
Qed.

(** Calls on a scheduler that is there. *)
Lemma safe_scheduler_calls (debug : bool) (w : machine) (c : call) :
  machine_ok w -> args_in_range c -> pointers_valid c -> refusal c = None -> call_ok w c ->
  match c with
  | SchedulerInit _ | SchedulerDestroy _ | TcbNew _ _ _ _ _ _ | TcbGetRsp _ | TcbSetRsp _ _
  | CreateTask _ _ _ | Tick _ _ | SetCriticalTaskMask _ _ | TaskCheckIn _ _ => safe (run_call debug c) w
  | _ => True
  end.
Proof.
  intros Hw Hr Hv Href Hok. destruct c; try done; cbn [run_call call_ok] in *.
  6: { apply safe_code, safe_scheduler_create; naive_solver. }
  all: revert Hok; pointers; intros Hok; (apply safe_code || apply safe_pointer); autounfold with entry.
  all: rewrite valid_aligned_true, aligned_true by done; cbn [negb orb].
  - destruct (safe_write w Hw scheduler Sched.new) as [E H']; try done;
      [lia|by apply aligned_true|apply Sched.wf_new|]. eexists _, _. split; [|exact H'].
    by rewrite (mbind_done _ _ _ _ _ E).
  - destruct Hok as [x Hx]. eexists _, _. split; [|exact (ok_remove w Hw scheduler _ Hx eq_refl)].
    unfold on_mem, zoom, ptr_drop, ptr_read. msimpl. by rewrite (proj2 (object_at_Some _ _ _) Hx).
  - destruct (safe_write w Hw out_tcb (Sched.new_task entry_point stack_base stack_size initial_rsp priority))
      as [E H']; try done; [lia|by apply aligned_true|]. destruct (entry_point =? 0); [by apply safe_ret|].
    eexists _, _. split; [|exact H']. by rewrite (mbind_done _ _ _ _ _ E).
  - destruct Hok as [t Ht]. eexists _, w. split; [|done]. unfold read_tcb. msimpl. by rewrite Ht.
  - destruct Hok as [t Ht]. assert (Ht' : object_at tcb (mem w) = Some t) by by apply object_at_Some.
    eexists _, _. split.
    + unfold read_tcb, tcb_at. msimpl. by rewrite Ht'.
    + unfold on_mem, zoom, put_tcb. cbn. rewrite Ht'.
      apply (ok_put w Hw tcb (OTcb t)); try done. apply Hw.
  - destruct Hok as [s Hs]. by apply (safe_scheduler_op w scheduler s Hw Hs _ (Sched.OpTick current_rsp)).
  - destruct Hok as [[s Hs] Hm]. apply safe_bind; [|intros; by apply safe_ret].
    apply (safe_scheduler_op w scheduler s Hw Hs _ (Sched.OpCritical critical_task_mask)); [|done].
    intros v. by rewrite seq_unit.
  - destruct Hok as [[s Hs] Hm]. cbn in Href. destruct (16 <=? priority); [done|].
    apply safe_bind; [|intros; by apply safe_ret].
    apply (safe_scheduler_op w scheduler s Hw Hs _ (Sched.OpCheckIn priority)); [|done].
    intros v. by rewrite seq_unit.
Qed.

(** A pool in a good machine is not initialised, or it follows some abstract pool. *)
Lemma pool_cases (w : machine) (p : Z) :
  machine_ok w -> holds Dma.StaticDmaPool w p ->
  (exists d, objects (mem w) !! p = Some (OPool d) /\ Dma.is_initialized d = false) \/
  (exists base sp, pool_holds w p base sp).
Proof.
  intros Hw [d Hd]. destruct (Dma.is_initialized d) eqn:Ei; [right|left; eauto].
  destruct (pool_state w p d Hw Hd Ei) as (r & sp & Hr & R). exists (Dma.memory d), sp, d, r. eauto.
Qed.

Lemma safe_pool_calls (debug : bool) (w : machine) (c : call) :
  machine_ok w -> args_in_range c -> pointers_valid c -> call_ok w c ->
  match c with
  | PoolInit _ _ _ | PoolDestroy _ | PoolAllocate _ _ _ _ _ | PoolFree _ _ _ _ => safe (run_call debug c) w
  | _ => True
  end.
Proof.
  intros Hw Hr Hv Hok. destruct c; try done; cbn [run_call call_ok] in *; apply safe_code.
  - destruct Hok as [Hvac Hfr]. destruct (pool_init_run w pool memory_base size_in_bytes) as (w' & E & H' & _);
      try done. by eexists _, _.
  - destruct Hok as [d Hd]. pointers. by eapply safe_destroy_object.
  - destruct Hok as (Hd & V1 & V2 & V3).
    destruct (pool_cases w pool Hw Hd) as [(d & Hp & Hi)|(base & sp & Hh)].
    + rewrite allocate_body by done.
      destruct (with_pool_idle w pool d Hw Hp (Dma.allocate debug (S (length spurious)) spurious)
                  (Err AllocNotInitialized)) as (w' & E & H'); [|done|].
      { intros v Hvd. unfold Dma.allocate. msimpl. by rewrite Hvd, Hi. }
      eexists _, w'. split; [|done]. by rewrite (mbind_done _ _ _ _ _ E).
    + destruct (pool_allocate_run debug spurious w pool base out_idx out_generation out_ptr sp)
        as (w' & E & H' & _); try done. by eexists _, _.
  - destruct Hok as (Hd & Hi & Hg). pointers.
    destruct (pool_cases w pool Hw Hd) as [(d & Hp & Hin)|(base & sp & Hh)].
    + unfold shawncore_rtos_dmapool2k_free. destruct (pool_checks pool) as [-> ->]; [done..|]. cbn [negb].
      destruct (with_pool_idle w pool d Hw Hp (Dma.free 256 (S (length spurious)) spurious buffer_idx generation)
                  (Err AllocNotInitialized)) as (w' & E & H'); [|done|].
      { intros v Hvd. unfold Dma.free. msimpl. by rewrite Hvd, Hin. }
      eexists _, w'. split; [|done]. by rewrite (mbind_done _ _ _ _ _ E).
    + destruct (pool_free_run spurious w pool base buffer_idx generation sp) as (w' & E & H' & _); try done.
      by eexists _, _.
Qed.

(** Initialising a queue with acceptable pointers. *)
Lemma safe_queue_init {T : Type} {N : Z}
    `{Elem T, !CType object T, !CType object (Queue T), !CType object (Slots T), !QueueKind T N}
    (w : machine) (p b n align : Z) :
  machine_ok w -> 0 <= p -> 0 <= b -> p <> 0 -> p mod calign (U := object) (Queue T) = 0 ->
  slot_align (T := T) = align -> N * slot_size (T := T) < 2 ^ 64 ->
  b <> 0 /\ b mod 4096 = 0 /\ b mod align = 0 /\ N * slot_size (T := T) <= n /\
    b + N * slot_size (T := T) < 2 ^ 64 /\
    Forall (fun t => apart t (b, n, align)) [(p, csize (U := object) (Queue T), calign (U := object) (Queue T))] ->
  vacant w p (csize (U := object) (Queue T)) -> vacant w b (N * slot_size (T := T)) ->
  safe (queue_init (T := T) N Spsc.new (Spsc.init N) p b n) w.
Proof.
  intros Hw Hp1 Hb1 Hp Hpa <- Hs (Hb0 & Hb4 & Hba & Hn & Htop & Hap) Hvp Hvb.
  rewrite Forall_singleton in Hap. destruct (qk_sizes (T := T) (N := N)) as (_ & _ & Hqs & _).
  pose proof (slots_positive (T := T) (N := N)) as Hpos.
  destruct (queue_init_run (T := T) (N := N) p b n Hb1) with (w := w) as (w' & q & s & E & H' & _); try done.
  - eapply apart_overlap; [exact Hap|done|lia].
  - by eexists _, _.
Qed.

Lemma safe_queue_calls (debug : bool) (w : machine) (c : call) :
  machine_ok w -> args_in_range c -> pointers_valid c -> call_ok w c ->
  match c with
  | TelemetryInit _ _ _ | TelemetryDestroy _ | TelemetryPush _ _ | TelemetryPop _ _
  | EwInit _ _ _ | EwDestroy _ | EwPush _ _ | EwPop _ _ | EwPeek _ _
  | FftInit _ _ _ | FftDestroy _ | FftPush _ _ | FftPop _ _ => safe (run_call debug c) w
  | _ => True
  end.
Proof.
  intros Hw Hr Hv Hok. destruct c; try done; cbn [run_call call_ok] in *; apply safe_code;
    autounfold with entry; revert Hok; pointers; intros Hok.
  all: lazymatch goal with
       | |- safe (destroy_object _) _ => destruct Hok; by eapply safe_destroy_object
       | |- safe (queue_push _ _ _) _ => destruct Hok; by apply safe_queue_push
       | |- safe (queue_init _ _ _ _ _ _) _ => destruct Hok; by eapply safe_queue_init
       | |- safe (queue_take (RB.peek _) _ _) _ =>
           destruct Hok; eapply safe_queue_take with (rest := fun l => l); try done;
             [by eapply apart_overlap|intros; apply rb_peek_registry|intros; by apply rb_peek_takes]
       | |- safe (queue_take _ _ _) _ =>
           destruct Hok; eapply safe_queue_take with (rest := list.tail); try done;
             [by eapply apart_overlap|intros; apply spsc_pop_registry|intros; by apply spsc_pop_takes]
       end.
Qed.

Lemma safe_other_calls (debug : bool) (w : machine) (c : call) :
  machine_ok w -> args_in_range c -> pointers_valid c -> call_ok w c ->
  match c with
  | MachineInit _ | MachineDestroy _ | TryAdvance _ _ _
  | TrackerInit _ | TrackerDestroy _ | MarkStart _ _ | MarkEnd _ _ _ _ => safe (run_call debug c) w
  | _ => True
  end.
Proof.
  intros Hw Hr Hv Hok. destruct c; try done; cbn [run_call call_ok] in *; apply safe_code; pointers.
  - by apply safe_init_object.
  - destruct Hok. by eapply safe_destroy_object.
  - by apply safe_try_advance.
  - by apply safe_init_object.
  - destruct Hok. by eapply safe_destroy_object.
  - destruct Hok as [t Ht]. unfold shawncore_rtos_latency_tracker_mark_start.
    rewrite (proj2 (is_null_spec _)), aligned_true by done. cbn [negb].
    apply safe_bind; [|intros; by apply safe_ret].
    destruct (safe_with_object w Hw tracker t (Lat.mark_start current_timestamp) tt
      (Lat.set_started true (Lat.set_start_time current_timestamp t)) Ht) as [E H']; try done.
    by eexists _, _.
  - destruct Hok as [t Ht]. unfold shawncore_rtos_latency_tracker_mark_end.
    rewrite (proj2 (is_null_spec _)), aligned_true by done. cbn [negb].
    apply safe_bind; [|intros; by apply safe_ret].
    pose proof (Lat.mark_end_run (S (length spurious1 + length spurious2)) spurious1 spurious2
                  current_timestamp t ltac:(lia)) as Hrun.
    destruct (safe_with_object w Hw tracker t _ tt _ Ht Hrun) as [E H']; try done.
    by eexists _, _.
Qed.

Lemma safe_call (debug : bool) (w : machine) (c : call) :
  machine_ok w -> args_in_range c -> (pointers_valid c -> call_ok w c) -> safe (run_call debug c) w.
Proof.
  intros Hw Hr Hok. destruct (decide (pointers_valid c)) as [Hv|Hv].
  - specialize (Hok Hv). destruct (refusal c) as [r|] eqn:Href.
    { exists r, w. split; [by apply refuses|done]. }
    pose proof (safe_scheduler_calls debug w c Hw Hr Hv Href Hok).
    pose proof (safe_pool_calls debug w c Hw Hr Hv Hok).
    pose proof (safe_queue_calls debug w c Hw Hr Hv Hok).
    pose proof (safe_other_calls debug w c Hw Hr Hv Hok). by destruct c.
  - exists (pointer_error c), w. split; [by apply rejects|done].
Qed.

Lemma safe_calls (debug : bool) (cs : list call) (w : machine) :
  machine_ok w -> contract debug cs w -> safe (run_calls debug cs) w.
Proof.
  revert w. induction cs as [|c cs IH]; intros w Hw Hc; cbn [run_calls contract] in *; [by apply safe_ret|].
  destruct Hc as (Hr & Hok & Hnext). apply safe_bind; [by apply safe_call|]. intros r w' E Hw'.
  apply safe_bind; [apply IH; [done|by eapply Hnext]|]. intros. by apply safe_ret.
Qed.

End RtosRun.
