(* ===== verification/RtosClient.v ===== *)
(** C programs over the entry points of shawncore-rtos-sync.

    A client stores events in a variable of its own and pushes them, pops into another,
    allocates DMA buffers into three output variables and frees them. What it observes
    is what the abstract queue and the abstract pool say, and any program that keeps the
    documented contract runs to its end. *)

From stdpp Require Import gmap.
From S2P Require Import Prelude CMemory RtosHost Fifo Spsc RingBuffer Scheduler DmaPool StateMachine Latency RtosTypes RtosFfi RtosFfiTyped RtosObjects RtosFfiRun.
Local Open Scope Z_scope.

Module RtosClient.
Import RtosC RtosTyped RtosObj RtosRun.

(** * A queue client *)

Section queue_client.
Context {T : Type} `{Elem T, !CType object T, !CType object (Queue T), !CType object (Slots T)}.
Variables (push pop : Z -> Z -> M machine ShawncoreRtosErr).
Variables (q e o : Z).

(** [*e = x; push(q, e)], and [pop(q, o)] followed by a read of [*o]. *)
Definition client_step (op : fifo_op T) : M machine (ShawncoreRtosErr * option T) :=
  match op with
  | OpPush x =>
      on_mem (ptr_write e x) ;;
      c ← push q e;
      mret (c, None)
  | OpPop =>
      c ← pop q o;
      match c with
      | RtosSuccess => x ← on_mem (ptr_read o); mret (c, Some x)
      | _ => mret (c, None)
      end
  end.

Fixpoint client_run (ops : list (fifo_op T)) : M machine (list (ShawncoreRtosErr * option T)) :=
  match ops with
  | [] => mret []
  | op :: ops' => r ← client_step op; rs ← client_run ops'; mret (r :: rs)
  end.

End queue_client.

(** An answer of the abstract queue as the C side sees it. *)
Definition c_answer {T} (r : fifo_ret T IpcError) : ShawncoreRtosErr * option T :=
  match r with
  | RetPush (Ok _) => (RtosSuccess, None)
  | RetPush (Err e) => (rtos_of_ipc e, None)
  | RetPop (Some x) => (RtosSuccess, Some x)
  | RetPop None => (RtosQueueEmpty, None)
  end.

(** The queue object at [p], bound to the slots at [base], holds [items]. *)
Definition queue_holds {T} `{Elem T, !CType object T, !CType object (Queue T), !CType object (Slots T)}
    (N : Z) (w : machine) (p base : Z) (items : list T) : Prop :=
  exists q s, objects (mem w) !! p = Some (wrap q) /\ Spsc.buffer (raw_queue q) = base /\
    objects (mem w) !! base = Some (wrap s) /\
    spsc_repr N (Spsc.MkWorld (raw_queue q) (cells s) (platform w)) items.

(** The client's pointers: the queue, its event variable and its output variable. *)
Record client_ready {T} `{Elem T, !CType object T, !CType object (Queue T), !CType object (Slots T)}
    (w : machine) (q e o : Z) : Prop := {
  cr_queue : 0 <= q /\ q <> 0 /\ q mod calign (U := object) (Queue T) = 0;
  cr_event : 0 <= e /\ e <> 0 /\ e mod calign (U := object) T = 0 /\ vacant w e (csize (U := object) T);
  cr_out : 0 <= o /\ o <> 0 /\ o mod calign (U := object) T = 0 /\ vacant w o (csize (U := object) T);
  cr_apart : ranges_overlap q (csize (U := object) (Queue T)) o (csize (U := object) T) = false
}.
Arguments client_ready T {_ _ _ _} w q e o.

Section refinement.
Context {T : Type} {N : Z} `{Elem T, !CType object T, !CType object (Queue T), !CType object (Slots T)}.
Context `{QK : !QueueKind T N}.
#[local] Existing Instance kind_capacity.
Variables (q base e o : Z).

Lemma ready_transfer (w w' : machine) :
  (forall a n, vacant w a n -> vacant w' a n) -> client_ready T w q e o -> client_ready T w' q e o.
Proof. intros Hv [? (? & ? & ? & ?) (? & ? & ? & ?) ?]. split; [done| | |done]; split_and!; auto. Qed.

(** Both the queue and its slots are in use, so storing an item disturbs neither. *)
Lemma store_run (w : machine) (a : Z) (x : T) (items : list T) :
  machine_ok w -> queue_holds N w q base items -> 0 <= a -> a <> 0 ->
  a mod calign (U := object) T = 0 -> vacant w a (csize (U := object) T) ->
  let w' := set_mem (place a (wrap x) (mem w)) w in
  on_mem (ptr_write a x) w = Done tt w' /\ machine_ok w' /\ queue_holds N w' q base items /\
  objects (mem w') !! a = Some (wrap x) /\ (forall b n, vacant w b n -> vacant w' b n).
Proof.
  intros Hw (qu & s & Hq & Hb & Hs & R) Ha1 Ha0 Haa Hv w'.
  destruct (qk_sizes (T := T) (N := N)) as (Hsz & Hal & _), (qk_item x) as (Hxb & Hxk & Hxg).
  destruct (safe_write w Hw a x) as [E Hok]; [lia|done|by apply aligned_true|done|done|apply Hxg|].
  assert (Hsz' : 0 < extent (wrap x)) by by rewrite wrap_extent.
  assert (Hv' : vacant w a (extent (wrap x))) by by rewrite wrap_extent.
  split_and!; [done|done| |apply place_lookup|].
  - exists qu, s. split_and!; [|done| |done]; apply (vacant_place_lookup w Hw); try done.
    + left. apply qk_handle.
    + right. exists q, (wrap qu). split; [done|]. rewrite qk_backing. unfold queue_backing.
      pose proof (repr_init _ _ _ R) as Hi. cbn in Hi. by rewrite Hi, Hb.
  - intros b n Hbn. apply (vacant_place_plain w Hw); try done. apply qk_item_plain.
Qed.

Lemma queue_base_ne (w : machine) (qu : Queue T) (s : Slots T) :
  objects (mem w) !! q = Some (wrap qu) -> objects (mem w) !! base = Some (wrap s) -> base <> q.
Proof.
  intros Hq Hs ->. rewrite Hq in Hs. injection Hs as Hs. pose proof (qk_slots s) as Hsl.
  rewrite <- Hs in Hsl. by rewrite (proj2 (qk_handle qu)) in Hsl.
Qed.

Lemma queue_after_holds (w : machine) (qu : Queue T) (v : Spsc.world T) (items : list T) :
  spsc_repr N v items -> Spsc.buffer (Spsc.queue v) = base -> base <> q -> Spsc.buffer (raw_queue qu) = base ->
  queue_holds N (queue_after w q qu v) q base items.
Proof.
  intros R Hb Hne Hqb. exists (MkQueueOf (Spsc.queue v)), (MkSlots (Spsc.slots v)). cbn. rewrite Hqb.
  rewrite lookup_insert_ne, !lookup_insert_eq by done. split_and!; [done..|]. by destruct v.
Qed.

(** One step of the client. *)
Lemma client_step_run (w : machine) (op : fifo_op T) (items : list T) :
  machine_ok w -> queue_holds N w q base items -> client_ready T w q e o ->
  let spec := Fifo.spec_step (Z.to_nat N) IpcQueueFull op items in
  exists w', client_step (queue_push (Spsc.push N)) (queue_take (Spsc.pop N)) q e o op w =
      Done (c_answer spec.1) w' /\
    machine_ok w' /\ queue_holds N w' q base spec.2 /\ client_ready T w' q e o.
Proof.
  intros Hw Hh Hr. pose proof Hr as [(Hq1 & Hq0 & Hqa) (He1 & He0 & Hea & Hev) (Ho1 & Ho0 & Hoa & Hov) Hno].
  destruct op as [x|]; cbn [client_step Fifo.spec_step].
  - destruct (store_run w e x items) as (E1 & H1 & Hh1 & Hx & V1); [done..|].
    destruct Hh1 as (qu & s & Hq & Hb & Hs & R).
    destruct (queue_push_run _ q qu H1 Hq e x s items) as (v & E2 & R' & Hb' & H2); try done;
      [by rewrite Hb|].
    assert (Hne : base <> q) by by eapply queue_base_ne.
    rewrite (mbind_done _ _ _ _ _ E1), (mbind_done _ _ _ _ _ E2). eexists. split_and!; [|done| |].
    + by case_decide.
    + case_decide; (eapply queue_after_holds; [exact R'|congruence|done|done]).
    + eapply ready_transfer; [|done]. intros a n Ha%V1. by eapply queue_after_vacant;
        [exact Hq|apply (repr_init _ _ _ R)|apply (repr_init _ _ _ R')|done|rewrite Hb|].
  - destruct Hh as (qu & s & Hq & Hb & Hs & R). assert (Hne : base <> q) by by eapply queue_base_ne.
    destruct (spsc_pop_takes N _ items R) as (v & Ev & R').
    destruct (queue_take_run w q qu Hw Hq (Spsc.pop N) list.tail o s items v)
      as (w' & E & Ew & Hb' & Hok1 & Hok); try done; [by rewrite Hb|intros; apply spsc_pop_registry|].
    rewrite (mbind_done _ _ _ _ _ E).
    assert (Hh1 : queue_holds N (queue_after w q qu v) q base (list.tail items)).
    { eapply queue_after_holds; [done|congruence|done|done]. }
    assert (V1 : forall a n, vacant w a n -> vacant (queue_after w q qu v) a n).
    { intros a n Ha. by eapply queue_after_vacant;
        [exact Hq|apply (repr_init _ _ _ R)|apply (repr_init _ _ _ R')|done|rewrite Hb|]. }
    destruct items as [|x items]; subst w'.
    + eexists. split_and!; [done|done|done|by eapply ready_transfer].
    + destruct (store_run (queue_after w q qu v) o x items) as (_ & _ & Hh2 & Hx & V2); try done; [by apply V1|].
      erewrite mbind_done by by apply read_run, object_at_Some.
      eexists. split_and!; [done|done|done|]. eapply ready_transfer; [|done]. auto.
Qed.

Lemma client_run_refines (ops : list (fifo_op T)) (w : machine) (items : list T) :
  machine_ok w -> queue_holds N w q base items -> client_ready T w q e o ->
  let spec := Fifo.spec_run (Z.to_nat N) IpcQueueFull ops items in
  exists w', client_run (queue_push (Spsc.push N)) (queue_take (Spsc.pop N)) q e o ops w =
      Done (c_answer <$> spec.1) w' /\
    machine_ok w' /\ queue_holds N w' q base spec.2 /\ client_ready T w' q e o.
Proof.
  revert w items. induction ops as [|op ops IH]; intros w items Hw Hh Hr; cbn [client_run Fifo.spec_run].
  - by exists w.
  - destruct (client_step_run w op items Hw Hh Hr) as (w1 & E1 & H1 & Hh1 & Hr1).
    rewrite (mbind_done _ _ _ _ _ E1).
    destruct (Fifo.spec_step (Z.to_nat N) IpcQueueFull op items) as [r items1]. cbn [fst snd] in *.
    destruct (IH w1 items1 H1 Hh1 Hr1) as (w2 & E2 & H2 & Hh2 & Hr2). rewrite (mbind_done _ _ _ _ _ E2).
    destruct (Fifo.spec_run (Z.to_nat N) IpcQueueFull ops items1). by exists w2.
Qed.

End refinement.

(** * A pool client *)

Section pool_client.
Variables (debug : bool) (p i g o : Z).

(** [allocate(p, &i, &g, &o)] followed by reads of the three outputs, and [free]. *)
Definition pool_client_step (op : Dma.dma_op) : M machine (ShawncoreRtosErr * option (Z * Z * Z)) :=
  match op with
  | Dma.DAlloc sp =>
      c ← shawncore_rtos_dmapool2k_allocate debug (S (length sp)) sp p i g o;
      match c with
      | RtosSuccess =>
          idx ← on_mem (ptr_read i);
          gen ← on_mem (ptr_read g);
          ptr ← on_mem (ptr_read o);
          mret (c, Some (word_val idx, word_val gen, word_val ptr))
      | _ => mret (c, None)
      end
  | Dma.DFree idx gen sp =>
      c ← shawncore_rtos_dmapool2k_free (S (length sp)) sp p idx gen;
      mret (c, None)
  end.

Fixpoint pool_client_run (ops : list Dma.dma_op)
  : M machine (list (ShawncoreRtosErr * option (Z * Z * Z))) :=
  match ops with
  | [] => mret []
  | op :: ops' => r ← pool_client_step op; rs ← pool_client_run ops'; mret (r :: rs)
  end.

(** An answer of the abstract pool as the C side sees it. *)
Definition pool_answer (r : Dma.dma_ret) : ShawncoreRtosErr * option (Z * Z * Z) :=
  match r with
  | Dma.RAlloc (Ok t) => (RtosSuccess, Some t)
  | Dma.RAlloc (Err e) => (rtos_of_allocator e, None)
  | Dma.RFree (Ok _) => (RtosSuccess, None)
  | Dma.RFree (Err e) => (rtos_of_allocator e, None)
  end.

Definition outputs_ready (w : machine) : Prop :=
  pointers_valid (PoolAllocate [] p i g o) /\ args_in_range (PoolAllocate [] p i g o) /\
  vacant w i 8 /\ vacant w g 8 /\ vacant w o 8.

Lemma pool_client_step_run (w : machine) (base : Z) (op : Dma.dma_op) (sp : Dma.spec) :
  machine_ok w -> pool_holds w p base sp -> outputs_ready w -> Dma.op_in_range op ->
  let spec := Dma.spec_step 256 base op sp in
  exists w', pool_client_step op w = Done (pool_answer spec.1) w' /\
    machine_ok w' /\ pool_holds w' p base spec.2 /\ outputs_ready w'.
Proof.
  intros Hw Hh (Hv & Hr & Vi & Vg & Vo) Hop.
  destruct op as [spu|idx gen spu]; cbn [pool_client_step Dma.spec_step].
  - destruct (pool_allocate_run debug spu w p base i g o sp) as (w' & E & H' & Hh' & Hout & V'); [done..|].
    rewrite (mbind_done _ _ _ _ _ E).
    assert (Ho' : outputs_ready w') by (unfold outputs_ready; split_and!; auto).
    destruct (Dma.spec_alloc sp) as [[[idx gen]|err] sp']; cbn in *.
    + destruct (Hout idx gen eq_refl) as (Wi & Wg & Wo).
      do 3 (erewrite mbind_done by by apply read_run, (object_at_Some (T := word))). by exists w'.
    + exists w'. split_and!; try done. by destruct err.
  - destruct Hop as [Hi Hg]. destruct Hv as (Hwp & ? & ?). pose proof Hwp as Hwp'. cbn in Hwp'.
    rewrite !Forall_cons in Hwp'. destruct Hwp' as ([Hp Ha] & _).
    destruct (pool_free_run spu w p base idx gen sp) as (w' & E & H' & Hh' & V'); [done..|].
    rewrite (mbind_done _ _ _ _ _ E). destruct (Dma.spec_free 256 sp idx gen) as [r sp']. cbn in *.
    exists w'. split_and!; [by destruct r|done|done|]. by unfold outputs_ready; split_and!; auto.
Qed.

Lemma pool_client_run_refines (ops : list Dma.dma_op) (w : machine) (base : Z) (sp : Dma.spec) :
  machine_ok w -> pool_holds w p base sp -> outputs_ready w -> Forall Dma.op_in_range ops ->
  let spec := Dma.spec_run 256 base ops sp in
  exists w', pool_client_run ops w = Done (pool_answer <$> spec.1) w' /\
    machine_ok w' /\ pool_holds w' p base spec.2 /\ outputs_ready w'.
Proof.
  revert w sp. induction ops as [|op ops IH]; intros w sp Hw Hh Ho Hops;
    cbn [pool_client_run Dma.spec_run]; [by exists w|].
  apply Forall_cons in Hops as [Hop Hops].
  destruct (pool_client_step_run w base op sp Hw Hh Ho Hop) as (w1 & E1 & H1 & Hh1 & Ho1).
  rewrite (mbind_done _ _ _ _ _ E1). destruct (Dma.spec_step 256 base op sp) as [r sp1]. cbn [fst snd] in *.
  destruct (IH w1 sp1 H1 Hh1 Ho1 Hops) as (w2 & E2 & H2 & Hh2 & Ho2). rewrite (mbind_done _ _ _ _ _ E2).
  destruct (Dma.spec_run 256 base ops sp1). by exists w2.
Qed.

End pool_client.

(** * Claims *)

(** Where a client of a queue puts things: the queue object, the region for its slots
    ([n] bytes at [base]), an event variable and an output variable, all in storage of
    its own, apart from each other. *)
Definition client_layout (T : Type) (N : Z)
    `{Elem T, !CType object T, !CType object (Queue T), !CType object (Slots T)}
    (w : machine) (q base n e o : Z) : Prop :=
  let qs := csize (U := object) (Queue T) in
  let ts := csize (U := object) T in
  let ss := N * slot_size (T := T) in
  (0 <= q /\ q <> 0 /\ q mod calign (U := object) (Queue T) = 0 /\ vacant w q qs) /\
  (0 <= base /\ region_ok (T := T) N base n /\ base + ss < 2 ^ 64 /\ vacant w base ss) /\
  (0 <= e /\ e <> 0 /\ e mod calign (U := object) T = 0 /\ vacant w e ts) /\
  (0 <= o /\ o <> 0 /\ o mod calign (U := object) T = 0 /\ vacant w o ts) /\
  (ranges_overlap q qs base n = false /\ ranges_overlap q qs o ts = false) /\
  (~ meets e ts q qs /\ ~ meets e ts base ss /\ ~ meets o ts base ss).

Definition fifo_through_c (T : Type) (N : Z)
    `{Elem T, !CType object T, !CType object (Queue T), !CType object (Slots T)}
    (init : Z -> Z -> Z -> M machine ShawncoreRtosErr) (push pop : Z -> Z -> M machine ShawncoreRtosErr)
  : Prop :=
  forall (w : machine) (q base n e o : Z) (ops : list (fifo_op T)),
  machine_ok w -> client_layout T N w q base n e o ->
  let spec := Fifo.spec_run (Z.to_nat N) IpcQueueFull ops [] in
  exists w',
    (c ← init q base n; rs ← client_run push pop q e o ops; mret (c, rs)) w =
      Done (RtosSuccess, c_answer <$> spec.1) w' /\
    machine_ok w' /\ queue_holds N w' q base spec.2.

Lemma queue_refines_through_c {T : Type} {N : Z}
    `{Elem T, !CType object T, !CType object (Queue T), !CType object (Slots T), !QueueKind T N} :
  fifo_through_c T N (queue_init N Spsc.new (Spsc.init N)) (queue_push (Spsc.push N)) (queue_take (Spsc.pop N)).
Proof.
  intros w q base n e o ops Hw ((Hq1 & Hq0 & Hqa & Hqv) & (Hb1 & Hreg & Htop & Hbv) &
    (He1 & He0 & Hea & Hev) & (Ho1 & Ho0 & Hoa & Hov) & (Hno & Hno') & (Ne & Ne' & No')).
  destruct (qk_sizes (T := T) (N := N)) as (Hsz & _ & Hqs & _).
  destruct (queue_init_run (T := T) (N := N) q base n Hb1 Hreg w) as (w1 & qu & s & E1 & H1 & L1 & B1 & L2 & R & V);
    [done..|].
  assert (Hr : client_ready T w1 q e o).
  { split; split_and?; try done; apply V; try done.
    apply ranges_overlap_spec in Hno' as (_ & _ & Hm); [|done..]. by rewrite meets_sym. }
  destruct (client_run_refines (T := T) (N := N) q base e o ops w1 []) as (w2 & E2 & H2 & Hh2 & _);
    [done|by exists qu, s|done|].
  exists w2. rewrite (mbind_done _ _ _ _ _ E1), (mbind_done _ _ _ _ _ E2). done.
Qed.

(** C17: through the C interface each of the three queues is a bounded first-in first-out
    list. A client initialises the queue in storage of its own and then stores events
    and pushes them, and pops into a variable, in any order: initialisation succeeds,
    every call returns the code the abstract queue of that capacity (64, 1024, 256)
    prescribes - success, queue full or queue empty - and every event that comes out is
    the one the abstract queue answers. *)
Theorem ffi_queues_refine :
  fifo_through_c TelemetryEvent 64 shawncore_rtos_spsc_telemetry_init
    shawncore_rtos_spsc_telemetry_push shawncore_rtos_spsc_telemetry_pop /\
  fifo_through_c EwCommand 1024 shawncore_rtos_ringbuffer_ew_init
    shawncore_rtos_ringbuffer_ew_push shawncore_rtos_ringbuffer_ew_pop /\
  fifo_through_c FftResult 256 shawncore_rtos_spsc_fft_init
    shawncore_rtos_spsc_fft_push shawncore_rtos_spsc_fft_pop.
Proof. split_and!; exact queue_refines_through_c. Qed.

(** Where a client of the pool puts things: the pool object, the region of [n] bytes at
    [b], and three output variables. *)
Definition pool_layout (w : machine) (p b n i g o : Z) : Prop :=
  (pointers_valid (PoolInit p b n) /\ args_in_range (PoolInit p b n)) /\
  (vacant w p pool2k_size /\ free_region w b) /\
  (pointers_valid (PoolAllocate [] p i g o) /\ args_in_range (PoolAllocate [] p i g o)) /\
  Forall (fun x => vacant w x 8 /\ ~ meets x 8 b (256 * 2048)) [i; g; o].

(** Through the C interface the DMA pool is the abstract pool. A client initialises
    the pool over a region of its own and then allocates, into three output variables,
    and frees, in any order: initialisation succeeds, each call returns the code the
    abstract pool prescribes, an allocation leaves exactly the index, the token and the
    address of the slot in the outputs, and the pool ends up as the abstract pool does. *)
Theorem ffi_pool_refines (debug : bool) (p b n i g o : Z) (ops : list Dma.dma_op) (w : machine) :
  machine_ok w -> pool_layout w p b n i g o -> Forall Dma.op_in_range ops ->
  exists w',
    (c ← shawncore_rtos_dmapool2k_init p b n; rs ← pool_client_run debug p i g o ops; mret (c, rs)) w =
      Done (RtosSuccess, pool_answer <$> (Dma.spec_run 256 b ops (Dma.fresh 256)).1) w' /\
    machine_ok w' /\ pool_holds w' p b (Dma.spec_run 256 b ops (Dma.fresh 256)).2.
Proof.
  intros Hw ((Hv & Hr) & (Hvac & Hfr) & (Hv' & Hr') & Hout) Hops.
  destruct (pool_init_run w p b n Hw Hv Hr Hvac Hfr) as (w1 & E1 & H1 & Hh1 & V1).
  rewrite !Forall_cons in Hout. destruct Hout as ([Vi Ni] & [Vg Ng] & [Vo No] & _).
  assert (Hap := proj1 (proj2 Hv') eq_refl). cbn in Hap.
  rewrite !ForallOrdPairs_cons_iff, !Forall_cons in Hap.
  destruct Hap as (((_ & _ & ?) & (_ & _ & ?) & (_ & _ & ?) & _) & _).
  destruct (pool_client_run_refines debug p i g o ops w1 b (Dma.fresh 256) H1 Hh1) as (w2 & E2 & Hok2 & Hh2 & _).
  - split_and!; try done; apply V1; try done; by rewrite meets_sym.
  - done.
  - exists w2. by rewrite (mbind_done _ _ _ _ _ E1), (mbind_done _ _ _ _ _ E2).
Qed.

(** C14: a C program that keeps the documented contract is safe. Whenever each call's
    acceptable pointers name what the headers ask for - an object of its type, or storage
    that nothing in use occupies - every call of the program returns (no undefined
    behaviour, no panic), and afterwards memory is well typed, every scheduler is well
    formed, every initialised queue and pool follows an abstract queue and pool, and no
    two of them share their backing. Pointers that are null, misaligned or overlapping
    need not name anything. *)
Theorem ffi_contract_safe (debug : bool) (cs : list call) (w : machine) :
  machine_ok w -> contract debug cs w ->
  exists rs w', run_calls debug cs w = Done rs w' /\ machine_ok w'.
Proof. exact (safe_calls debug cs w). Qed.

(** ** Witnesses: 128 KiB of storage at address 4096 *)

Definition sample_storage : list (Z * Z) := [(4096, 131072)].
Definition sample_machine : machine := MkMachine (MkMem sample_storage ∅ ∅) ∅ sample_host.

Lemma sample_ok : machine_ok sample_machine.
Proof.
  split; [split| |..]; cbn; try by setoid_rewrite lookup_empty. by unfold callbacks.
Qed.

Lemma sample_vacant (p n : Z) : mapped p n (mem sample_machine) = true -> vacant sample_machine p n.
Proof. intros Hm. split; [done|]. intros q o Hq. cbn in Hq. by rewrite lookup_empty in Hq. Qed.

Definition sample_event : TelemetryEvent := MkTelemetry 7 (zeros 4) 99 (zeros 48).

Lemma ffi_queues_refine_witness :
  exists w', (c ← shawncore_rtos_spsc_telemetry_init 4096 8192 8192;
     rs ← client_run shawncore_rtos_spsc_telemetry_push shawncore_rtos_spsc_telemetry_pop 4096 20480 20544
            [OpPop; OpPush sample_event; OpPop];
     mret (c, rs)) sample_machine =
   Done (RtosSuccess, [(RtosQueueEmpty, None); (RtosSuccess, None); (RtosSuccess, Some sample_event)]) w'.
Proof.
  destruct (proj1 ffi_queues_refine sample_machine 4096 8192 8192 20480 20544
    [OpPop; OpPush sample_event; OpPop] sample_ok) as (w' & E & _).
  - split_and!; first
      [ done
      | apply sample_vacant; vm_compute; reflexivity
      | unfold region_ok; split_and!; vm_compute; congruence
      | rewrite meets_iff by done; vm_compute; intuition congruence ].
  - exists w'. exact E.
Defined.

(** A byte region of 512 KiB at 16384; the pool goes to 4096, the outputs to 8704. *)
Definition region_machine (r : region) : machine :=
  MkMachine (MkMem [(4096, 1048576)] {[ 16384 := ORegion r ]} ∅) ∅ sample_host.

Lemma region_lookup (r : region) (p : Z) (o : object) :
  objects (mem (region_machine r)) !! p = Some o -> p = 16384 /\ o = ORegion r.
Proof. cbn [region_machine mem objects]. rewrite lookup_singleton_Some. naive_solver. Qed.

Lemma region_machine_ok (r : region) : machine_ok (region_machine r).
Proof.
  split; [split| |..].
  - intros p o [-> ->]%region_lookup. done.
  - intros p o q o' [-> _]%region_lookup [-> _]%region_lookup. done.
  - intros p o a b _. cbn. by rewrite lookup_empty.
  - by unfold callbacks.
  - intros p o [_ ->]%region_lookup. done.
  - intros p o q o' b [-> _]%region_lookup [-> _]%region_lookup. done.
Qed.

Lemma region_vacant (r : region) (p n : Z) :
  mapped p n (mem (region_machine r)) = true -> 0 < n -> p + n <= 16384 -> vacant (region_machine r) p n.
Proof.
  intros Hm Hn Hp. split; [done|]. intros q o [-> ->]%region_lookup _. rewrite meets_iff by done. lia.
Qed.

Lemma region_free (r : region) : zlen (region_bytes r) = 256 * 2048 -> free_region (region_machine r) 16384.
Proof.
  intros Hr. split; [exists r; split; [|done]; apply lookup_singleton_eq|].
  intros p o [_ ->]%region_lookup. done.
Qed.

Definition zero_region : region := MkRegion (replicate (Z.to_nat (256 * 2048)) x00).

Lemma zero_region_len : zlen (region_bytes zero_region) = 256 * 2048.
Proof. unfold zlen, zero_region. cbn [region_bytes]. rewrite length_replicate. lia. Qed.
#[local] Opaque zero_region.

(** The pointers of the sample client. *)
Lemma sample_outputs : pointers_valid (PoolAllocate [] 4096 8704 8712 8720) /\
  args_in_range (PoolAllocate [] 4096 8704 8712 8720).
Proof. split; [apply (bool_decide_unpack _); vm_compute; exact I|]. split; [by repeat constructor|done]. Qed.

Lemma sample_pool_init : pointers_valid (PoolInit 4096 16384 524288) /\ args_in_range (PoolInit 4096 16384 524288).
Proof. split; [apply (bool_decide_unpack _); vm_compute; exact I|]. split; [by repeat constructor|done]. Qed.

Definition sample_calls : list Dma.dma_op :=
  [Dma.DAlloc [true]; Dma.DAlloc []; Dma.DFree 0 1 []; Dma.DFree 0 1 []; Dma.DFree 300 1 []; Dma.DAlloc []].

Lemma ffi_pool_refines_witness :
  exists w', (c ← shawncore_rtos_dmapool2k_init 4096 16384 524288;
      rs ← pool_client_run true 4096 8704 8712 8720 sample_calls; mret (c, rs)) (region_machine zero_region) =
    Done (RtosSuccess, [(RtosSuccess, Some (0, 1, 16384)); (RtosSuccess, Some (1, 1, 18432));
           (RtosSuccess, None); (RtosDoubleFree, None); (RtosAddressOutOfBounds, None);
           (RtosSuccess, Some (0, 2, 16384))]) w'.
Proof.
  destruct (ffi_pool_refines true 4096 16384 524288 8704 8712 8720 sample_calls (region_machine zero_region)
    (region_machine_ok zero_region)) as (w' & E & _).
  - split; [apply sample_pool_init|]. split; [split|split; [apply sample_outputs|]].
    + by apply region_vacant.
    + apply region_free, zero_region_len.
    + repeat apply Forall_cons_2; [..|apply Forall_nil_2]; (split; [by apply region_vacant|]);
        rewrite meets_iff by done; vm_compute; intuition congruence.
  - repeat constructor; vm_compute; congruence.
  - exists w'. rewrite E. vm_compute. reflexivity.
Defined.

(** A misaligned tracker, a tick on a null scheduler and an unknown state are refused. *)
Definition sample_program : list call :=
  [MachineInit 4096; TryAdvance [true] 4096 1; TryAdvance [] 4096 9; TrackerInit 4100; Tick 0 77;
   MachineDestroy 4096].

Lemma ffi_contract_safe_witness :
  exists rs w', run_calls true sample_program sample_machine = Done rs w' /\ machine_ok w' /\
    rs = [Code RtosSuccess; Code RtosSuccess; Code RtosInvalidState; Code RtosInvalidMemory;
          StackPointer 77; Code RtosSuccess].
Proof.
  destruct (ffi_contract_safe true sample_program sample_machine sample_ok) as (rs & w' & E & Hok).
  - cbn [sample_program contract]. 
    split; [by repeat constructor|]. split; [intros _; by apply sample_vacant|].
    intros r1 w1 E1. vm_compute in E1. injection E1 as <- <-.
    split; [by repeat constructor|]. split; [intros _; by exists (SM.MkSM 0)|].
    intros r2 w2 E2. vm_compute in E2. injection E2 as <- <-.
    split; [by repeat constructor|]. split; [intros _; by exists (SM.MkSM 1)|].
    intros r3 w3 E3. vm_compute in E3. injection E3 as <- <-.
    split; [by repeat constructor|]. split; [intros (Hp & _)|].
    { exfalso. cbn in Hp. rewrite Forall_singleton in Hp. by destruct Hp as [_ Hp]. }
    intros r4 w4 E4. vm_compute in E4. injection E4 as <- <-.
    split; [by repeat constructor|]. split; [intros (Hp & _)|].
    { exfalso. cbn in Hp. rewrite Forall_singleton in Hp. by destruct Hp as [Hp _]. }
    intros r5 w5 E5. vm_compute in E5. injection E5 as <- <-.
    split; [by repeat constructor|]. split; [intros _; by exists (SM.MkSM 1)|]. done.
  - exists rs, w'. split_and!; [done|done|]. vm_compute in E. by injection E as <- _.
Defined.

End RtosClient.
