(* ===== verification/Spinlock.v ===== *)
(** interrupt_spinlock.rs (and the same lock in entropy_pool.rs): a spinlock that
    masks interrupts before it spins.

    [lock] and the guard's [drop] are cut at each shared access and each host
    call; between them the owner reads and writes the protected value through the
    guard ([deref], [deref_mut]). The flags the disable callback answers are the
    host's choice, and a weak exchange may fail although the lock is free. Every
    host call, every change of the lock flag and every access to the protected
    value is recorded, with its core, in one trace in the order in which they
    happen. The specification reads only that trace: [protocol] is what one core
    may do, [hand_over] is who owns the lock. *)

From S2P Require Import Prelude.
Local Open Scope Z_scope.

Module Spin.

Inductive event (T : Type) : Type :=
| Disabled (flags : Z)
| Acquired
| ReadData (v : T)
| WroteData (v : T)
| Released
| Restored (flags : Z).
Arguments Disabled {T}.
Arguments Acquired {T}.
Arguments ReadData {T}.
Arguments WroteData {T}.
Arguments Released {T}.
Arguments Restored {T}.

Inductive pc : Type :=
| Outside
| CallDisable
| TryLock (saved_flags : Z)
| SpinRead (saved_flags : Z)
| Held (saved_flags : Z)
| CallRestore (saved_flags : Z).

Record conc (T : Type) : Type := MkConc {
  locked : bool;
  data : T;
  cores : list pc;
  trace : list (nat * event T)
}.
Arguments MkConc {T}.
Arguments locked {T}.
Arguments data {T}.
Arguments cores {T}.
Arguments trace {T}.

Inductive step {T : Type} : conc T -> conc T -> Prop :=
| step_enter l d cs tr t : cs !! t = Some Outside ->
    step (MkConc l d cs tr) (MkConc l d (<[t := CallDisable]> cs) tr)
| step_disable l d cs tr t flags : cs !! t = Some CallDisable ->
    step (MkConc l d cs tr) (MkConc l d (<[t := TryLock flags]> cs) (tr ++ [(t, Disabled flags)]))
| step_acquire d cs tr t flags : cs !! t = Some (TryLock flags) ->
    step (MkConc false d cs tr) (MkConc true d (<[t := Held flags]> cs) (tr ++ [(t, Acquired)]))
| step_fail l d cs tr t flags : cs !! t = Some (TryLock flags) ->
    step (MkConc l d cs tr) (MkConc l d (<[t := SpinRead flags]> cs) tr)
| step_spin l d cs tr t flags : cs !! t = Some (SpinRead flags) ->
    step (MkConc l d cs tr) (MkConc l d (<[t := if l then SpinRead flags else TryLock flags]> cs) tr)
| step_deref l d cs tr t flags : cs !! t = Some (Held flags) ->
    step (MkConc l d cs tr) (MkConc l d cs (tr ++ [(t, ReadData d)]))
| step_deref_mut l d cs tr t flags v : cs !! t = Some (Held flags) ->
    step (MkConc l d cs tr) (MkConc l v cs (tr ++ [(t, WroteData v)]))
| step_unlock l d cs tr t flags : cs !! t = Some (Held flags) ->
    step (MkConc l d cs tr) (MkConc false d (<[t := CallRestore flags]> cs) (tr ++ [(t, Released)]))
| step_restore l d cs tr t flags : cs !! t = Some (CallRestore flags) ->
    step (MkConc l d cs tr) (MkConc l d (<[t := Outside]> cs) (tr ++ [(t, Restored flags)])).

(** [InterruptSafeSpinlock::new], with [n] cores that have not called [lock] yet. *)
Definition new {T : Type} (n : nat) (d : T) : conc T := MkConc false d (replicate n Outside) [].

(** * Specification over the trace *)

(** What one core has done so far: nothing open, interrupts masked with the saved
    flags, owner of the lock with interrupts masked, lock given up with interrupts
    still masked. *)
Inductive phase : Type :=
| Open
| Masked (flags : Z)
| Owning (flags : Z)
| Freed (flags : Z).

(** One core: disable, acquire, any accesses, release, restore the same flags. *)
Definition protocol {T : Type} (ph : phase) (e : event T) : option phase :=
  match ph, e with
  | Open, Disabled f => Some (Masked f)
  | Masked f, Acquired => Some (Owning f)
  | Owning f, (ReadData _ | WroteData _) => Some (Owning f)
  | Owning f, Released => Some (Freed f)
  | Freed f, Restored g => if f =? g then Some Open else None
  | _, _ => None
  end.

(** All cores: the lock goes from free to an owner and back, only the owner gives
    it up, and only the owner touches the protected value. *)
Definition hand_over {T : Type} (owner : option nat) (x : nat * event T) : option (option nat) :=
  match snd x with
  | Disabled _ | Restored _ => Some owner
  | Acquired => match owner with None => Some (Some (fst x)) | Some _ => None end
  | ReadData _ | WroteData _ => if decide (owner = Some (fst x)) then Some owner else None
  | Released => if decide (owner = Some (fst x)) then Some None else None
  end.

Definition fold_opt {A E : Type} (f : A -> E -> option A) (a : A) (l : list E) : option A :=
  fold_left (fun acc e => acc ≫= fun x => f x e) l (Some a).

Definition core_phase {T : Type} (t : nat) (tr : list (nat * event T)) : option phase :=
  fold_opt protocol Open (map snd (filter (fun x => fst x = t) tr)).

Definition lock_owner {T : Type} (tr : list (nat * event T)) : option (option nat) :=
  fold_opt hand_over None tr.

(** The value last written, or the one the lock was made with. *)
Definition last_written {T : Type} (d : T) (tr : list (nat * event T)) : T :=
  fold_left (fun v x => match snd x with WroteData w => w | _ => v end) tr d.

(** The phase a core at a program point must be in. *)
Definition phase_at (p : pc) : phase :=
  match p with
  | Outside | CallDisable => Open
  | TryLock f | SpinRead f => Masked f
  | Held f => Owning f
  | CallRestore f => Freed f
  end.

Arguments core_phase : simpl never.
Arguments lock_owner : simpl never.
Arguments last_written : simpl never.

(** * Lemmas *)

Lemma fold_opt_snoc {A E : Type} (f : A -> E -> option A) (a : A) (l : list E) (e : E) :
  fold_opt f a (l ++ [e]) = fold_opt f a l ≫= fun x => f x e.
Proof. unfold fold_opt. by rewrite fold_left_app. Qed.

Lemma core_phase_other {T : Type} (t u : nat) (tr : list (nat * event T)) (e : event T) :
  u <> t -> core_phase t (tr ++ [(u, e)]) = core_phase t tr.
Proof.
  intros Hne. unfold core_phase. rewrite filter_app, filter_cons_False by (cbn; done).
  by rewrite filter_nil, app_nil_r.
Qed.

Lemma core_phase_self {T : Type} (t : nat) (tr : list (nat * event T)) (e : event T) :
  core_phase t (tr ++ [(t, e)]) = core_phase t tr ≫= fun ph => protocol ph e.
Proof.
  unfold core_phase. rewrite filter_app, filter_cons_True by (cbn; done).
  rewrite filter_nil, map_app. cbn. apply fold_opt_snoc.
Qed.

Record inv {T : Type} (d0 : T) (c : conc T) : Prop := {
  inv_phase : forall t p, cores c !! t = Some p -> core_phase t (trace c) = Some (phase_at p);
  inv_owner : exists o, lock_owner (trace c) = Some o /\
    locked c = bool_decide (is_Some o) /\
    (forall t f, cores c !! t = Some (Held f) -> o = Some t) /\
    (forall t, o = Some t -> exists f, cores c !! t = Some (Held f));
  inv_data : data c = last_written d0 (trace c)
}.

Lemma spin_inv_start {T : Type} (n : nat) (d0 : T) : inv d0 (new n d0).
Proof.
  split; cbn.
  - intros t p H. by apply lookup_replicate in H as [-> _].
  - exists None. split_and!; [done|done| |done]. intros t f H. by apply lookup_replicate in H as [? _].
  - done.
Qed.

Section Step.
Context {T : Type}.
Implicit Types (l : bool) (d : T) (cs : list pc) (tr : list (nat * event T)) (t : nat).

(** A core that moves without a record keeps its phase. *)
Lemma phase_silent cs tr t p p' :
  (forall u q, cs !! u = Some q -> core_phase u tr = Some (phase_at q)) ->
  cs !! t = Some p -> phase_at p' = phase_at p ->
  forall u q, <[t := p']> cs !! u = Some q -> core_phase u tr = Some (phase_at q).
Proof.
  intros H Ht Hp u q Hu. destruct (decide (t = u)) as [<-|Hne].
  - rewrite list_lookup_insert_eq in Hu by (by eapply lookup_lt_Some). simplify_eq.
    rewrite Hp. by apply H.
  - rewrite list_lookup_insert_ne in Hu by done. by apply H.
Qed.

(** A recorded event takes its core through the protocol and leaves the others. *)
Lemma phase_record cs tr t p p' e :
  (forall u q, cs !! u = Some q -> core_phase u tr = Some (phase_at q)) ->
  cs !! t = Some p -> protocol (phase_at p) e = Some (phase_at p') ->
  forall u q, <[t := p']> cs !! u = Some q -> core_phase u (tr ++ [(t, e)]) = Some (phase_at q).
Proof.
  intros H Ht Hp u q Hu. destruct (decide (t = u)) as [<-|Hne].
  - rewrite list_lookup_insert_eq in Hu by (by eapply lookup_lt_Some). simplify_eq.
    rewrite core_phase_self, (H t p Ht). exact Hp.
  - rewrite list_lookup_insert_ne in Hu by done. rewrite core_phase_other by done. by apply H.
Qed.

Definition owner_ok (l : bool) (cs : list pc) (o : option nat) : Prop :=
  l = bool_decide (is_Some o) /\
  (forall t f, cs !! t = Some (Held f) -> o = Some t) /\
  (forall t, o = Some t -> exists f, cs !! t = Some (Held f)).

Definition holder (p : pc) : bool := match p with Held _ => true | _ => false end.

(** A move between two points that do not hold the lock keeps its owner. *)
Lemma owner_keep l cs o t p p' :
  owner_ok l cs o -> cs !! t = Some p -> holder p = false -> holder p' = false ->
  owner_ok l (<[t := p']> cs) o.
Proof.
  intros (Hl & Hh & Ho) Ht Hp Hp'. split_and!; [done| |].
  - intros u f Hu. destruct (decide (t = u)) as [<-|Hne].
    + rewrite list_lookup_insert_eq in Hu by (by eapply lookup_lt_Some). by simplify_eq.
    + rewrite list_lookup_insert_ne in Hu by done. by eapply Hh.
  - intros u Hu. destruct (Ho u Hu) as [f Hf]. exists f. destruct (decide (t = u)) as [<-|Hne].
    + by simplify_eq.
    + by rewrite list_lookup_insert_ne.
Qed.

Lemma owner_gain cs o t p f :
  owner_ok false cs o -> cs !! t = Some p -> o = None /\ owner_ok true (<[t := Held f]> cs) (Some t).
Proof.
  intros (Hl & Hh & Ho) Ht. destruct o as [u|]; [done|]. split; [done|]. split_and!; [done| |].
  - intros u g Hu. destruct (decide (t = u)) as [<-|Hne]; [done|].
    rewrite list_lookup_insert_ne in Hu by done. by apply Hh in Hu.
  - intros u Hu. simplify_eq. exists f. apply list_lookup_insert_eq. by eapply lookup_lt_Some.
Qed.

Lemma owner_lose l cs o t f p' :
  owner_ok l cs o -> cs !! t = Some (Held f) -> holder p' = false ->
  o = Some t /\ owner_ok false (<[t := p']> cs) None.
Proof.
  intros (Hl & Hh & Ho) Ht Hp'. assert (Ho' : o = Some t) by (by eapply Hh). split; [done|].
  split_and!; [done| |done]. intros u g Hu. destruct (decide (t = u)) as [<-|Hne].
  - rewrite list_lookup_insert_eq in Hu by (by eapply lookup_lt_Some). by simplify_eq.
  - rewrite list_lookup_insert_ne in Hu by done. apply Hh in Hu. by simplify_eq.
Qed.

Lemma owner_record tr o x o' :
  lock_owner tr = Some o -> hand_over o x = Some o' -> lock_owner (tr ++ [x]) = Some o'.
Proof. intros H H'. unfold lock_owner in *. by rewrite fold_opt_snoc, H. Qed.

Lemma last_written_snoc (d0 : T) tr x :
  last_written d0 (tr ++ [x]) = match snd x with WroteData w => w | _ => last_written d0 tr end.
Proof. unfold last_written. by rewrite fold_left_app. Qed.

Lemma spin_inv_step (d0 : T) (c c' : conc T) : inv d0 c -> step c c' -> inv d0 c'.
Proof.
  intros [Hp (o & Hlo & How) Hd] Hst. change (owner_ok (locked c) (cores c) o) in How.
  destruct Hst as [l d cs tr t Ht|l d cs tr t f Ht|d cs tr t f Ht|l d cs tr t f Ht
    |l d cs tr t f Ht|l d cs tr t f Ht|l d cs tr t f v Ht|l d cs tr t f Ht|l d cs tr t f Ht];
    cbn in Hp, Hlo, How, Hd.
  - split; cbn; [by eapply phase_silent| |done]. exists o. split; [done|]. by eapply owner_keep.
  - split; cbn; [by eapply phase_record| |by rewrite last_written_snoc].
    exists o. split; [by eapply owner_record|]. by eapply owner_keep.
  - destruct (owner_gain cs o t _ f How Ht) as [-> How'].
    split; cbn; [by eapply phase_record| |by rewrite last_written_snoc].
    exists (Some t). split; [by eapply owner_record|exact How'].
  - split; cbn; [by eapply phase_silent| |done]. exists o. split; [done|]. by eapply owner_keep.
  - split; cbn; [eapply phase_silent; [done|exact Ht|by destruct l]| |done].
    exists o. split; [done|]. eapply owner_keep; [done|exact Ht|done|by destruct l].
  - assert (o = Some t) as -> by (by eapply (proj1 (proj2 How))).
    split; cbn; [|exists (Some t); split; [|done]|by rewrite last_written_snoc].
    + rewrite <- (list_insert_id cs t (Held f) Ht). by eapply phase_record.
    + eapply owner_record; [done|]. unfold hand_over. cbn. by rewrite decide_True.
  - assert (o = Some t) as -> by (by eapply (proj1 (proj2 How))).
    split; cbn; [|exists (Some t); split; [|done]|by rewrite last_written_snoc].
    + rewrite <- (list_insert_id cs t (Held f) Ht). by eapply phase_record.
    + eapply owner_record; [done|]. unfold hand_over. cbn. by rewrite decide_True.
  - destruct (owner_lose l cs o t f (CallRestore f) How Ht eq_refl) as [-> How'].
    split; cbn; [by eapply phase_record| |by rewrite last_written_snoc].
    exists None. split; [|exact How']. eapply owner_record; [done|]. unfold hand_over. cbn. by rewrite decide_True.
  - split; cbn; [eapply phase_record; [done|exact Ht|cbn; by rewrite Z.eqb_refl]| |by rewrite last_written_snoc].
    exists o. split; [by eapply owner_record|]. by eapply owner_keep.
Qed.

Lemma spin_inv_reachable (n : nat) (d0 : T) (c : conc T) : rtc step (new n d0) c -> inv d0 c.
Proof.
  apply (rtc_ind_r (inv d0)); [apply spin_inv_start|]. intros c1 c2 _ Hst Hi. by eapply spin_inv_step.
Qed.

End Step.

(** * Claims *)

(** C36: under every interleaving of any number of cores the recorded trace obeys
    the specification, and its state is the one the lock is in. The lock passes
    from free to one owner and back, only its owner releases it and only its owner
    reads or writes the protected value; the lock flag is set exactly while
    somebody owns it, counting from the successful exchange to the unlocking store,
    and the value is the one last written. On each core every step follows disable,
    acquire, accesses, release, restore: whoever owns the lock has its interrupts
    masked, a core that tries or spins has them masked too and has not restored
    them, the restore comes only after the unlocking store and passes back the
    flags that its own disable answered, and outside the lock code every disable
    has been paired with its restore. *)
Theorem spinlock_mutual_exclusion {T : Type} (n : nat) (d0 : T) (c : conc T) :
  rtc step (new n d0) c ->
  (exists owner, lock_owner (trace c) = Some owner /\
     locked c = bool_decide (is_Some owner) /\
     (forall t, owner = Some t <-> exists f, cores c !! t = Some (Held f)) /\
     (forall t, owner = Some t -> exists f, core_phase t (trace c) = Some (Owning f))) /\
  (forall t p, cores c !! t = Some p ->
     core_phase t (trace c) = Some
       match p with
       | Outside | CallDisable => Open
       | TryLock f | SpinRead f => Masked f
       | Held f => Owning f
       | CallRestore f => Freed f
       end) /\
  data c = last_written d0 (trace c).
Proof.
  intros Hr. destruct (spin_inv_reachable n d0 c Hr) as [Hp (o & Hlo & Hl & Hh & Ho) Hd].
  split_and!; [|exact Hp|exact Hd]. exists o. split_and!; [done|done| |].
  - intros t. split; [apply Ho|]. intros [f Hf]. by eapply Hh.
  - intros t Hot. destruct (Ho t Hot) as [f Hf]. exists f. exact (Hp t _ Hf).
Qed.

(** Core 0 wrote the value and left; core 1, which met the taken lock, has since
    acquired it and read the value; core 2 is spinning. *)
Definition sample : conc Z :=
  MkConc true 7 [Outside; Held 9; SpinRead 3]
    [(0%nat, Disabled 5); (1%nat, Disabled 9); (0%nat, Acquired); (0%nat, WroteData 7);
     (0%nat, Released); (2%nat, Disabled 3); (1%nat, Acquired); (0%nat, Restored 5); (1%nat, ReadData 7)].

Lemma spin_sample_reachable : rtc step (new 3 0) sample.
Proof.
  eapply rtc_l; [by eapply (step_enter _ _ _ _ 0)|]. eapply rtc_l; [by eapply (step_enter _ _ _ _ 1)|].
  eapply rtc_l; [by eapply (step_enter _ _ _ _ 2)|].
  eapply rtc_l; [by eapply (step_disable _ _ _ _ 0 5)|]. eapply rtc_l; [by eapply (step_disable _ _ _ _ 1 9)|].
  eapply rtc_l; [by eapply (step_acquire _ _ _ 0)|]. eapply rtc_l; [by eapply (step_fail _ _ _ _ 1)|].
  eapply rtc_l; [by eapply (step_spin _ _ _ _ 1)|]. eapply rtc_l; [by eapply (step_deref_mut _ _ _ _ 0 _ 7)|].
  eapply rtc_l; [by eapply (step_unlock _ _ _ _ 0)|]. eapply rtc_l; [by eapply (step_disable _ _ _ _ 2 3)|].
  eapply rtc_l; [by eapply (step_spin _ _ _ _ 1)|]. eapply rtc_l; [by eapply (step_acquire _ _ _ 1)|].
  eapply rtc_l; [by eapply (step_restore _ _ _ _ 0)|]. eapply rtc_l; [by eapply (step_fail _ _ _ _ 2)|].
  eapply rtc_l; [by eapply (step_spin _ _ _ _ 2)|]. eapply rtc_l; [by eapply (step_deref _ _ _ _ 1)|]. done.
Qed.

Lemma spinlock_mutual_exclusion_witness :
  rtc step (new 3 0) sample /\
  (exists owner, lock_owner (trace sample) = Some owner /\ true = bool_decide (is_Some owner) /\
     (forall t, owner = Some t -> exists f, core_phase t (trace sample) = Some (Owning f))) /\
  core_phase 0 (trace sample) = Some Open /\
  core_phase 1 (trace sample) = Some (Owning 9) /\
  core_phase 2 (trace sample) = Some (Masked 3).
Proof.
  destruct (spinlock_mutual_exclusion 3 0 sample spin_sample_reachable)
    as [(o & Ho & Hl & _ & Hm) [Hp _]].
  split; [exact spin_sample_reachable|]. split; [exists o; split; [exact Ho|split; [exact Hl|exact Hm]]|].
  split; [exact (Hp 0%nat _ eq_refl)|split; [exact (Hp 1%nat _ eq_refl)|exact (Hp 2%nat _ eq_refl)]].
Defined.

End Spin.
