(* ===== verification/CryptoHost.v ===== *)
(** The platform boundary of shawncore-pq-crypto: error.rs, ffi_error.rs,
    ffi_callbacks.rs and zeroize.rs.

    A cache flush is recorded with the bytes the range held when it was flushed, so
    that "wiped before it is flushed" is a statement about the trace. As in
    RtosHost.v, a call through an unregistered slot invokes the panic hook and
    never returns. *)

From S2P Require Import Prelude.
Local Open Scope Z_scope.

(** * Errors *)

Inductive CryptoError : Type :=
| InvalidState
| InvalidLength
| HkdfError
| VerificationFailed
| EntropyStarvation
| EntropyBusy
| KeyConfirmationFailed.

Inductive ShawncoreCryptoErr : Type :=
| CSuccess
| CInvalidState
| CInvalidLength
| CHkdfError
| CVerificationFailed
| CEntropyStarvation
| CEntropyBusy
| CKeyConfirmationFailed
| CPanic.

Definition crypto_code (e : ShawncoreCryptoErr) : Z :=
  match e with
  | CSuccess => 0
  | CInvalidState => 1
  | CInvalidLength => 2
  | CHkdfError => 3
  | CVerificationFailed => 4
  | CEntropyStarvation => 5
  | CEntropyBusy => 6
  | CKeyConfirmationFailed => 7
  | CPanic => 99
  end.

Definition crypto_of_error (err : CryptoError) : ShawncoreCryptoErr :=
  match err with
  | InvalidState => CInvalidState
  | InvalidLength => CInvalidLength
  | HkdfError => CHkdfError
  | VerificationFailed => CVerificationFailed
  | EntropyStarvation => CEntropyStarvation
  | EntropyBusy => CEntropyBusy
  | KeyConfirmationFailed => CKeyConfirmationFailed
  end.

#[export] Instance CryptoError_eq_dec : EqDecision CryptoError.
Proof. solve_decision. Defined.
#[export] Instance ShawncoreCryptoErr_eq_dec : EqDecision ShawncoreCryptoErr.
Proof. solve_decision. Defined.

(** * Callbacks *)

Definition CFnPtr : Type := Z.

Inductive cevent : Type :=
| CEvPanicHook (cb : CFnPtr)
| CEvDisable (cb : CFnPtr) (flags : Z)
| CEvRestore (cb : CFnPtr) (flags : Z)
| CEvFlush (cb : CFnPtr) (bytes : list byte).

Record CHost : Type := MkCHost {
  c_panic : option CFnPtr;
  c_disable_interrupts : option CFnPtr;
  c_restore_interrupts : option CFnPtr;
  c_cache_flush : option CFnPtr;
  c_trace : list cevent
}.

Definition chost_boot : CHost := MkCHost None None None None [].

Definition clog (e : cevent) (h : CHost) : CHost :=
  MkCHost (c_panic h) (c_disable_interrupts h) (c_restore_interrupts h) (c_cache_flush h)
    (c_trace h ++ [e]).

Definition crypto_register_panic_hook (cb : option CFnPtr) (h : CHost) : CHost :=
  MkCHost cb (c_disable_interrupts h) (c_restore_interrupts h) (c_cache_flush h) (c_trace h).
Definition crypto_register_disable_interrupts (cb : option CFnPtr) (h : CHost) : CHost :=
  MkCHost (c_panic h) cb (c_restore_interrupts h) (c_cache_flush h) (c_trace h).
Definition crypto_register_restore_interrupts (cb : option CFnPtr) (h : CHost) : CHost :=
  MkCHost (c_panic h) (c_disable_interrupts h) cb (c_cache_flush h) (c_trace h).
Definition crypto_register_cache_flush (cb : option CFnPtr) (h : CHost) : CHost :=
  MkCHost (c_panic h) (c_disable_interrupts h) (c_restore_interrupts h) cb (c_trace h).

Definition crypto_invoke_panic_hook : M CHost unit :=
  fun h =>
    match c_panic h with
    | Some cb => Done tt (clog (CEvPanicHook cb) h)
    | None => Done tt h
    end.

Definition call_chost {A} (slot : CHost -> option CFnPtr) (call : CFnPtr -> M CHost A) : M CHost A :=
  fun h =>
    match slot h with
    | None => (crypto_invoke_panic_hook ;; halt) h
    | Some cb => call cb h
    end.

(** What the host's interrupt callback answers. *)
Class InterruptAnswers : Type := saved_flags : CFnPtr -> list cevent -> Z.

Definition crypto_disable_and_save `{InterruptAnswers} : M CHost Z :=
  call_chost c_disable_interrupts (fun cb h =>
    let flags := saved_flags cb (c_trace h) in Done flags (clog (CEvDisable cb flags) h)).

Definition crypto_restore (flags : Z) : M CHost unit :=
  call_chost c_restore_interrupts (fun cb h => Done tt (clog (CEvRestore cb flags) h)).

Definition crypto_host_cache_flush (bytes : list byte) : M CHost unit :=
  call_chost c_cache_flush (fun cb h => Done tt (clog (CEvFlush cb bytes) h)).

(** * Zeroization *)

(** The buffer after [secure_zeroize]. *)
Definition secure_zeroize (data : list byte) : list byte := zeros (length data).

(** [secure_cache_flush] and [secure_cache_flush_raw] *)
Definition secure_cache_flush (data : list byte) : M CHost unit :=
  if (length data =? 0)%nat then mret tt else crypto_host_cache_flush data.

(** * Lemmas *)

(** Only the trace grows. *)
Definition cextends (h h' : CHost) : Prop :=
  c_panic h' = c_panic h /\ c_disable_interrupts h' = c_disable_interrupts h /\
  c_restore_interrupts h' = c_restore_interrupts h /\ c_cache_flush h' = c_cache_flush h /\
  c_trace h `prefix_of` c_trace h'.

#[export] Instance cextends_preorder : PreOrder cextends.
Proof.
  split.
  - by intros h.
  - unfold cextends. intros h1 h2 h3 H1 H2. destruct_and!. split_and!; try congruence. by etrans.
Qed.

Lemma clog_extends (e : cevent) (h : CHost) : cextends h (clog e h).
Proof. destruct h. unfold cextends. cbn. split_and!; try done. by apply prefix_app_r. Qed.

(** The events one flush of [data] adds. *)
Definition flush_events (cb : CFnPtr) (data : list byte) : list cevent :=
  if (length data =? 0)%nat then [] else [CEvFlush cb data].

Definition add_events (es : list cevent) (h : CHost) : CHost :=
  MkCHost (c_panic h) (c_disable_interrupts h) (c_restore_interrupts h) (c_cache_flush h)
    (c_trace h ++ es).

Lemma add_events_nil (h : CHost) : add_events [] h = h.
Proof. destruct h. unfold add_events. cbn. by rewrite app_nil_r. Qed.

Lemma add_events_app (es es' : list cevent) (h : CHost) :
  add_events es' (add_events es h) = add_events (es ++ es') h.
Proof. unfold add_events. cbn. by rewrite app_assoc. Qed.

Lemma secure_cache_flush_ok (cb : CFnPtr) (data : list byte) (h : CHost) :
  c_cache_flush h = Some cb ->
  secure_cache_flush data h = Done tt (add_events (flush_events cb data) h).
Proof.
  intros E. unfold secure_cache_flush, flush_events. destruct (length data =? 0)%nat.
  - by rewrite add_events_nil.
  - unfold crypto_host_cache_flush, call_chost. rewrite E. done.
Qed.

Lemma secure_zeroize_length (data : list byte) : length (secure_zeroize data) = length data.
Proof. apply length_zeros. Qed.
#[export] Hint Rewrite secure_zeroize_length : bytes.

(** A host with every callback registered, for concrete runs. *)
Definition sample_chost : CHost := MkCHost (Some 1) (Some 2) (Some 3) (Some 4) [].
