(* ===== verification/Facade.v ===== *)
(** shawncore-ffi/src/lib.rs: the panic handler of the static library, which holds both
    crates.

    [panic] is the handler run to its end, an endless loop, which is [halt]. The machine
    below it cuts the handler at its three actions and lets any number of callers
    interleave: cores that panic at the same time, and a host hook that panics itself,
    which is one more caller while the outer one stands still for ever. *)

From S2P Require Import Prelude RtosHost CryptoHost Testing.

Module Facade.

(** [begin_panic]: [!flag.swap(true)] *)
Definition begin_panic : M bool bool := flag ← get; put true ;; mret (negb flag).

Record process : Type := MkProcess {
  PANIC_IN_PROGRESS : bool;
  crypto : CHost;
  rtos : Host
}.

Definition set_flag (b : bool) (p : process) : process := MkProcess b (crypto p) (rtos p).
Definition set_crypto (h : CHost) (p : process) : process := MkProcess (PANIC_IN_PROGRESS p) h (rtos p).
Definition set_rtos (h : Host) (p : process) : process := MkProcess (PANIC_IN_PROGRESS p) (crypto p) h.

Definition panic : M process unit :=
  first ← zoom PANIC_IN_PROGRESS set_flag begin_panic;
  (if first : bool
   then zoom crypto set_crypto crypto_invoke_panic_hook ;; zoom rtos set_rtos invoke_panic_hook
   else mret tt) ;;
  halt.

(** * Interleaved callers *)

Inductive stage : Type := Swap | CryptoHook | RtosHook | Spin.

Record conc : Type := MkConc { proc : process; callers : list stage }.

(** The state after a computation that does not fail. *)
Definition after {S A} (m : M S A) (s : S) : S := match m s with Done _ s' | Halted s' => s' | Undefined => s end.

Definition act (s : stage) (p : process) : process * stage :=
  match s with
  | Swap => (set_flag true p, if PANIC_IN_PROGRESS p then Spin else CryptoHook)
  | CryptoHook => (set_crypto (after crypto_invoke_panic_hook (crypto p)) p, RtosHook)
  | RtosHook => (set_rtos (after invoke_panic_hook (rtos p)) p, Spin)
  | Spin => (p, Spin)
  end.

Inductive step : conc -> conc -> Prop :=
| step_enter p cs : step (MkConc p cs) (MkConc p (cs ++ [Swap]))
| step_act p cs t s p' s' : cs !! t = Some s -> act s p = (p', s') ->
    step (MkConc p cs) (MkConc p' (<[t := s']> cs)).

(** The caller that won the swap, while it has hooks left to call. *)
Definition calling (s : stage) : bool := match s with CryptoHook | RtosHook => true | _ => false end.

(** The hooks that have been called: none, the crypto one, or both. *)
Definition hooked (p0 : process) (n : nat) : process :=
  match n with
  | O => p0
  | S O => set_crypto (after crypto_invoke_panic_hook (crypto p0)) p0
  | _ => set_rtos (after invoke_panic_hook (rtos p0)) (set_crypto (after crypto_invoke_panic_hook (crypto p0)) p0)
  end.

(** [owner]: who calls the hooks and how many it has called. *)
Definition inv (p0 : process) (c : conc) : Prop :=
  (proc c = p0 /\ Forall (fun s => s = Swap \/ s = Spin) (callers c) /\
     (PANIC_IN_PROGRESS p0 = false -> Forall (eq Swap) (callers c))) \/
  (exists n, PANIC_IN_PROGRESS p0 = false /\ (n <= 2)%nat /\ proc c = set_flag true (hooked p0 n) /\
     exists t, callers c !! t = Some (match n with O => CryptoHook | S O => RtosHook | _ => Spin end) /\
       forall t' s', t' <> t -> callers c !! t' = Some s' -> s' = Swap \/ s' = Spin).

Lemma facade_inv_start (p0 : process) : inv p0 (MkConc p0 []).
Proof. left. split_and!; [done|by constructor|by constructor]. Qed.

Lemma facade_inv_enter (p0 p : process) (cs : list stage) :
  inv p0 (MkConc p cs) -> inv p0 (MkConc p (cs ++ [Swap])).
Proof.
  unfold inv. cbn [proc callers]. intros [(-> & Hcs & Hf)|(n & Hp & Hn & -> & t & Ht & Hrest)]; [left|right].
  - split_and!; [done|apply Forall_app; split; [done|repeat constructor; auto]|].
    intros E. apply Forall_app. split; [by apply Hf|repeat constructor].
  - exists n. split_and!; try done. exists t. split.
    + rewrite lookup_app_l; [done|]. by eapply lookup_lt_Some.
    + intros t' s' Hne [H|[_ H]]%lookup_app_Some; [by eapply Hrest|].
      left. destruct (t' - length cs)%nat; cbn in H; [by simplify_eq|done].
Qed.

(** Only the owner calls a hook; everyone else leaves the process as it is once the flag
    is up. *)
Lemma facade_inv_act (p0 p : process) (cs : list stage) (t : nat) (s : stage) (p' : process) (s' : stage) :
  inv p0 (MkConc p cs) -> cs !! t = Some s -> act s p = (p', s') -> inv p0 (MkConc p' (<[t := s']> cs)).
Proof.
  unfold inv. cbn [proc callers]. intros [(-> & Hcs & Hf)|(n & Hp & Hn & -> & o & Ho & Hrest)] Ht Ha.
  - destruct (PANIC_IN_PROGRESS p0) eqn:Hflag.
    + left. destruct (Forall_lookup_1 _ _ _ _ Hcs Ht) as [->| ->]; cbn in Ha; rewrite ?Hflag in Ha; simplify_eq.
      * cbn. split_and!; [by destruct p0; cbn in *; subst|by apply Forall_insert; [done|right]|done].
      * cbn. rewrite list_insert_id by done. done.
    + specialize (Hf eq_refl). assert (s = Swap) as -> by (symmetry; by eapply (Forall_lookup_1 _ _ _ _ Hf)).
      cbn in Ha. rewrite Hflag in Ha. simplify_eq. right. exists 0%nat. split_and!; [done|lia|done|].
      exists t. cbn. split; [apply list_lookup_insert_eq; by eapply lookup_lt_Some|].
      intros t' s' Hne. rewrite list_lookup_insert_ne by done. intros H'. left.
      symmetry. by eapply (Forall_lookup_1 _ _ _ _ Hf).
  - right. destruct (decide (t = o)) as [->|Hne].
    + rewrite Ho in Ht. simplify_eq. pose proof (lookup_lt_Some _ _ _ Ho) as Hlt.
      destruct n as [|[|[|n]]]; [| | |lia]; cbn in Ha; simplify_eq.
      * exists 1%nat. split_and!; [done|lia|done|]. exists o. cbn. rewrite list_lookup_insert_eq by done. split; [done|].
        intros t' s' Hne. rewrite list_lookup_insert_ne by done. by apply Hrest.
      * exists 2%nat. split_and!; [done|lia|done|]. exists o. cbn. rewrite list_lookup_insert_eq by done. split; [done|].
        intros t' s' Hne. rewrite list_lookup_insert_ne by done. by apply Hrest.
      * exists 2%nat. split_and!; [done|lia|done|]. exists o. cbn. rewrite list_lookup_insert_eq by done. split; [done|].
        intros t' s' Hne. rewrite list_lookup_insert_ne by done. by apply Hrest.
    + exists n. split_and!; [done|done| |].
      * destruct (Hrest _ _ Hne Ht) as [->| ->]; cbn in Ha; by simplify_eq.
      * exists o. cbn. rewrite list_lookup_insert_ne by done. split; [done|].
        intros t' s'' Hne'. destruct (decide (t' = t)) as [->|Hd].
        -- rewrite list_lookup_insert_eq by (by eapply lookup_lt_Some). intros [= <-].
           destruct (Hrest _ _ Hne Ht) as [->| ->]; cbn in Ha; simplify_eq; by right.
        -- rewrite list_lookup_insert_ne by done. by apply Hrest.
Qed.

Lemma facade_inv_steps (p0 : process) (c : conc) : rtc step (MkConc p0 []) c -> inv p0 c.
Proof.
  intros H. remember (MkConc p0 []) as c0 eqn:E. assert (H0 : inv p0 c0) by (subst; apply facade_inv_start).
  clear E. induction H as [c|c1 c2 c3 Hs _ IH]; [done|]. apply IH. destruct Hs.
  - by apply facade_inv_enter.
  - by eapply facade_inv_act.
Qed.

(** C40: However many callers panic and however they interleave, a host hook that panics
    among them, the process has called no hook, the crypto hook, or the crypto hook and
    then the rtos hook, each once, and at most one caller is between them. When an
    earlier panic is in progress no hook is called. When all callers have come to rest,
    both hooks have been called. *)
Theorem panic_hooks_once (p0 : process) (c : conc) :
  rtc step (MkConc p0 []) c ->
  (exists n, (n <= 2)%nat /\ set_flag true (proc c) = set_flag true (hooked p0 n)) /\
  (PANIC_IN_PROGRESS p0 = true -> proc c = p0) /\
  (forall t1 t2 s1 s2, callers c !! t1 = Some s1 -> callers c !! t2 = Some s2 ->
     calling s1 = true -> calling s2 = true -> t1 = t2) /\
  (PANIC_IN_PROGRESS p0 = false -> callers c <> [] -> Forall (eq Spin) (callers c) ->
     proc c = set_flag true (hooked p0 2)).
Proof.
  intros [(-> & Hcs & Hf)|(n & Hp & Hn & E & t & Ht & Hrest)]%facade_inv_steps; split_and!.
  - exists 0%nat. split; [lia|done].
  - done.
  - intros t1 t2 s1 s2 H1 _ C1. destruct (Forall_lookup_1 _ _ _ _ Hcs H1); by subst.
  - intros F Hne Hs. specialize (Hf F). destruct (callers c); [done|].
    apply Forall_cons_1 in Hf as [<- _]. by apply Forall_cons_1 in Hs as [? _].
  - exists n. split; [done|]. by rewrite E.
  - by rewrite Hp.
  - intros t1 t2 s1 s2 H1 H2 C1 C2.
    destruct (decide (t1 = t)) as [->|N1]; [|by destruct (Hrest _ _ N1 H1); subst].
    destruct (decide (t2 = t)) as [->|N2]; [done|by destruct (Hrest _ _ N2 H2); subst].
  - intros _ _ Hs. pose proof (Forall_lookup_1 _ _ _ _ Hs Ht) as Hspin.
    destruct n as [|[|[|n]]]; [done|done|done|lia].
Qed.

(** Two callers: the second, a hook that panics, comes in while the first is between the
    hooks. *)
Definition sample_process : process :=
  MkProcess false (crypto_register_panic_hook (Some 1%Z) chost_boot) (register_panic_hook (Some 2%Z) host_boot).
Definition sample_rest : conc := MkConc (set_flag true (hooked sample_process 2)) [Spin; Spin].

Lemma sample_run : rtc step (MkConc sample_process []) sample_rest.
Proof.
  eapply rtc_l; [apply step_enter|].
  eapply rtc_l; [by eapply (step_act _ _ 0)|].
  eapply rtc_l; [by eapply (step_act _ _ 0)|].
  eapply rtc_l; [apply step_enter|].
  eapply rtc_l; [by eapply (step_act _ _ 1)|].
  eapply rtc_l; [by eapply (step_act _ _ 0)|].
  apply rtc_refl.
Qed.

Lemma panic_hooks_once_witness :
  c_trace (crypto (proc sample_rest)) = [CEvPanicHook 1%Z] /\
  trace (rtos (proc sample_rest)) = [EvPanicHook 2%Z] /\
  proc sample_rest = set_flag true (hooked sample_process 2).
Proof.
  split; [reflexivity|]. split; [reflexivity|].
  refine (proj2 (proj2 (proj2 (panic_hooks_once sample_process sample_rest sample_run))) _ _ _).
  - reflexivity.
  - discriminate.
  - repeat constructor.
Defined.

(** The handler never returns; the first panic calls both hooks, a later one neither. *)
Theorem panic_run (p : process) :
  panic p = Halted (if PANIC_IN_PROGRESS p then p else set_flag true (hooked p 2)).
Proof.
  destruct p as [[] hc hr]; [done|]. cbn [PANIC_IN_PROGRESS]. unfold hooked, after.
  unfold panic, zoom, begin_panic, crypto_invoke_panic_hook, invoke_panic_hook. msimpl. cbn.
  destruct (c_panic hc); cbn; destruct (PANIC_CALLBACK hr); reflexivity.
Qed.

(** * Test *)

Definition only_the_first_panic_runs_the_host_hooks : M bool unit :=
  assert_eq begin_panic true ;;
  assert_eq begin_panic false ;;
  assert_eq begin_panic false.

Example facade_test_passes : passes only_the_first_panic_runs_the_host_hooks false = true.
Proof. reflexivity. Qed.

End Facade.
