(* ===== verification/Primitives.v ===== *)
(** The cryptographic crates both wrappers and protocol code call, and the wrappers
    themselves: ml_kem_wrapper.rs, ml_dsa_wrapper.rs, x25519_wrapper.rs.

    The crates are third-party code: [CryptoOps] names the functions that are
    called, with [None] where the crate's function returns an error, and
    [CryptoLaws] states the documented behaviour the results rely on. Nothing in the
    laws says that a hash, a MAC or a signature is hard to forge; results about
    forgeries are stated in terms of what the code accepts. One law is an
    idealisation: ML-KEM decapsulates an honest ciphertext to another secret with a
    probability that FIPS 203 bounds (below 2^-160 for ML-KEM-1024); [kem_correct]
    takes it to be zero. *)

From S2P Require Import Prelude CryptoHost.
Local Open Scope Z_scope.

Class CryptoOps : Type := {
  (** sha2: SHA-384 of the concatenated updates *)
  sha384_digest : list byte -> list byte;
  (** hmac: [Hmac::<Sha384>::new_from_slice(key)], then update and finalize *)
  hmac_key : Type;
  hmac_new : list byte -> option hmac_key;
  hmac_mac : hmac_key -> list byte -> list byte;
  (** hkdf *)
  Prk : Type;
  hkdf_new : list byte -> list byte -> Prk;
  hkdf_from_prk : list byte -> option Prk;
  hkdf_expand : Prk -> list byte -> nat -> option (list byte);
  (** chacha20 *)
  Cipher : Type;
  chacha20_new : list byte -> list byte -> option Cipher;
  try_apply_keystream : Cipher -> list byte -> option (list byte);
  (** subtle *)
  ct_eq : list byte -> list byte -> bool;
  (** ml-kem *)
  DecapsulationKey : Type;
  EncapsulationKey : Type;
  kem_from_seed : list byte -> DecapsulationKey;
  encapsulation_key : DecapsulationKey -> EncapsulationKey;
  encapsulate_deterministic : EncapsulationKey -> list byte -> list byte * list byte;
  decapsulate : DecapsulationKey -> list byte -> list byte;
  ek_to_bytes : EncapsulationKey -> list byte;
  ek_new : list byte -> option EncapsulationKey;
  (** ml-dsa *)
  SigningKey : Type;
  VerifyingKey : Type;
  SignatureObj : Type;
  dsa_from_seed : list byte -> SigningKey;
  verifying_key_of : SigningKey -> VerifyingKey;
  vk_encode : VerifyingKey -> list byte;
  vk_decode : list byte -> VerifyingKey;
  dsa_sign : SigningKey -> list byte -> list byte;
  dsa_sign_deterministic : SigningKey -> list byte -> list byte -> option (list byte);
  sig_parse : list byte -> option SignatureObj;
  dsa_verify : VerifyingKey -> list byte -> SignatureObj -> bool;
  dsa_verify_with_context : VerifyingKey -> list byte -> list byte -> SignatureObj -> bool;
  (** x25519-dalek *)
  StaticSecret : Type;
  DhShared : Type;
  secret_from : list byte -> StaticSecret;
  secret_to_bytes : StaticSecret -> list byte;
  public_from : StaticSecret -> list byte;
  diffie_hellman : StaticSecret -> list byte -> DhShared;
  was_contributory : DhShared -> bool;
  shared_bytes : DhShared -> list byte
}.

(** Largest output of HKDF-SHA384, and the largest ChaCha20 message under one nonce. *)
Definition hkdf_max : nat := 255 * 48.
Definition CHACHA20_MAX_BYTES : Z := u32_max * 64.

Class CryptoLaws `{CryptoOps} : Prop := {
  sha384_len : forall m, length (sha384_digest m) = 48%nat;
  hmac_any_key : forall k, is_Some (hmac_new k);
  hmac_len : forall k m, length (hmac_mac k m) = 48%nat;
  hkdf_prk_len : forall p, is_Some (hkdf_from_prk p) <-> (48 <= length p)%nat;
  hkdf_expand_ok : forall p i n, is_Some (hkdf_expand p i n) <-> (n <= hkdf_max)%nat;
  hkdf_expand_len : forall p i n o, hkdf_expand p i n = Some o -> length o = n;
  chacha20_new_ok : forall k n, length k = 32%nat -> length n = 12%nat -> is_Some (chacha20_new k n);
  keystream_ok : forall c m, zlen m <= CHACHA20_MAX_BYTES -> is_Some (try_apply_keystream c m);
  keystream_len : forall c m o, try_apply_keystream c m = Some o -> length o = length m;
  (** XOR with the same key stream undoes itself. *)
  keystream_involutive : forall c m o, try_apply_keystream c m = Some o -> try_apply_keystream c o = Some m;
  ct_eq_spec : forall a b, ct_eq a b = true <-> a = b;
  (** FIPS 203: decapsulation of an honest ciphertext gives the encapsulated secret,
      up to the negligible failure rate of the scheme, which is left out. *)
  kem_correct : forall dk m, decapsulate dk (encapsulate_deterministic (encapsulation_key dk) m).1 =
    (encapsulate_deterministic (encapsulation_key dk) m).2;
  kem_ct_len : forall ek m, length (encapsulate_deterministic ek m).1 = 1568%nat;
  kem_ss_len : forall dk ct, length (decapsulate dk ct) = 32%nat;
  kem_enc_ss_len : forall ek m, length (encapsulate_deterministic ek m).2 = 32%nat;
  ek_bytes_len : forall ek, length (ek_to_bytes ek) = 1568%nat;
  ek_roundtrip : forall ek, ek_new (ek_to_bytes ek) = Some ek;
  vk_bytes_len : forall vk, length (vk_encode vk) = 2592%nat;
  vk_roundtrip : forall vk, vk_decode (vk_encode vk) = vk;
  (** FIPS 204: what a key signs verifies under it, in the same context. *)
  sig_len : forall sk m, length (dsa_sign sk m) = 4627%nat;
  sig_ctx_ok : forall sk m c, (length c <= 255)%nat -> is_Some (dsa_sign_deterministic sk m c);
  sig_ctx_len : forall sk m c s, dsa_sign_deterministic sk m c = Some s -> length s = 4627%nat;
  sig_correct : forall sk m, exists o, sig_parse (dsa_sign sk m) = Some o /\
    dsa_verify (verifying_key_of sk) m o = true;
  sig_ctx_correct : forall sk m c s, dsa_sign_deterministic sk m c = Some s ->
    exists o, sig_parse s = Some o /\ dsa_verify_with_context (verifying_key_of sk) m c o = true;
  (** RFC 7748: both ends compute the same value. *)
  dh_commutes : forall a b, diffie_hellman a (public_from b) = diffie_hellman b (public_from a);
  dh_len : forall s, length (shared_bytes s) = 32%nat;
  public_len : forall s, length (public_from s) = 32%nat;
  secret_roundtrip : forall s, secret_from (secret_to_bytes s) = s;
  secret_len : forall b, length b = 32%nat -> length (secret_to_bytes (secret_from b)) = 32%nat
}.

Section wrappers.
Context `{CryptoOps}.

(** * ml_kem_wrapper.rs *)

Definition ML_KEM_PUBLICKEY_BYTES : nat := 1568.
Definition ML_KEM_CIPHERTEXT_BYTES : nat := 1568.

Definition PublicKey1024 : Type := EncapsulationKey.
Definition DecapsKey1024 : Type := DecapsulationKey.
Definition SharedKey1024 : Type := list byte.
Definition Ciphertext1024 : Type := list byte.

Definition PublicKey1024_to_bytes (k : PublicKey1024) : list byte := ek_to_bytes k.

Definition PublicKey1024_from_bytes (bytes : list byte) : result PublicKey1024 CryptoError :=
  if negb (length bytes =? ML_KEM_PUBLICKEY_BYTES)%nat then Err InvalidLength else
  match ek_new bytes with Some ek => Ok ek | None => Err InvalidState end.

Definition ml_kem_keygen (entropy : list byte) : result (PublicKey1024 * DecapsKey1024) CryptoError :=
  let dk := kem_from_seed entropy in
  let ek := encapsulation_key dk in
  Ok (ek, dk).

Definition ml_kem_encapsulate (ek : PublicKey1024) (entropy : list byte)
  : M CHost (result (SharedKey1024 * Ciphertext1024) CryptoError) :=
  let '(ct, ss) := encapsulate_deterministic ek entropy in
  secure_cache_flush ss ;;
  mret (Ok (ss, ct)).

Definition ml_kem_decapsulate (dk : DecapsKey1024) (ct : Ciphertext1024)
  : M CHost (result SharedKey1024 CryptoError) :=
  let ss := decapsulate dk ct in
  secure_cache_flush ss ;;
  mret (Ok ss).

(** * ml_dsa_wrapper.rs *)

Definition ML_DSA_PUBLICKEY_BYTES : nat := 2592.
Definition ML_DSA_SIGNATURE_BYTES : nat := 4627.

Definition PublicKey87 : Type := VerifyingKey.
Definition SigningKey87 : Type := SigningKey.
Definition Signature87 : Type := list byte.

Definition verifying_key (sk : SigningKey87) : PublicKey87 := verifying_key_of sk.

Definition PublicKey87_to_bytes (k : PublicKey87) : list byte := vk_encode k.

Definition PublicKey87_from_bytes (bytes : list byte) : result PublicKey87 CryptoError :=
  if negb (length bytes =? ML_DSA_PUBLICKEY_BYTES)%nat then Err InvalidLength
  else Ok (vk_decode bytes).

Definition ml_dsa_keygen (seed : list byte) : result (PublicKey87 * SigningKey87) CryptoError :=
  let sk := dsa_from_seed seed in
  Ok (verifying_key_of sk, sk).

Definition ml_dsa_sign (sk : SigningKey87) (msg : list byte)
  : M CHost (result Signature87 CryptoError) :=
  let sig_slice := dsa_sign sk msg in
  if negb (length sig_slice =? 4627)%nat then mret (Err InvalidLength) else
  secure_cache_flush sig_slice ;;
  mret (Ok sig_slice).

Definition ml_dsa_verify (pk : PublicKey87) (msg : list byte) (sig : Signature87)
  : result unit CryptoError :=
  match sig_parse sig with
  | None => Err VerificationFailed
  | Some sig_obj => if dsa_verify pk msg sig_obj then Ok tt else Err VerificationFailed
  end.

Definition ml_dsa_sign_with_context (sk : SigningKey87) (msg context : list byte)
  : M CHost (result Signature87 CryptoError) :=
  match dsa_sign_deterministic sk msg context with
  | None => mret (Err InvalidLength)
  | Some sig_slice =>
      if negb (length sig_slice =? ML_DSA_SIGNATURE_BYTES)%nat then mret (Err InvalidLength) else
      secure_cache_flush sig_slice ;;
      mret (Ok sig_slice)
  end.

Definition ml_dsa_verify_with_context (pk : PublicKey87) (msg context : list byte) (sig : Signature87)
  : result unit CryptoError :=
  match sig_parse sig with
  | None => Err VerificationFailed
  | Some sig_obj =>
      if dsa_verify_with_context pk msg context sig_obj then Ok tt else Err VerificationFailed
  end.

(** * x25519_wrapper.rs *)

Definition X25519Public : Type := list byte.
Definition X25519Secret : Type := list byte.
Definition X25519SharedSecret : Type := list byte.

Definition x25519_keygen (rng_bytes : list byte) : X25519Public * X25519Secret :=
  let secret := secret_from rng_bytes in
  (public_from secret, secret_to_bytes secret).

Definition x25519_diffie_hellman (secret : X25519Secret) (their_public : X25519Public)
  : M CHost (result X25519SharedSecret CryptoError) :=
  let sk := secret_from secret in
  if all_eq x00 their_public then mret (Err InvalidState) else
  let shared := diffie_hellman sk their_public in
  if negb (was_contributory shared) then mret (Err InvalidState) else
  let out := shared_bytes shared in
  secure_cache_flush out ;;
  mret (Ok out).

End wrappers.
