(* ===== verification/ToyCrypto.v ===== *)
(** A concrete, insecure instance of [CryptoOps] that satisfies [CryptoLaws]: it
    shows that the laws can hold together and lets the witnesses of the crypto
    results run. It stands for no code of the repository. *)

From S2P Require Import Prelude CryptoHost Primitives.
Local Open Scope Z_scope.

(** Cut or zero-extend to [n] bytes. *)
Definition fit (n : nat) (l : list byte) : list byte := take n (l ++ zeros n).

Lemma length_fit (n : nat) (l : list byte) : length (fit n l) = n.
Proof. unfold fit. rewrite length_take, length_app, length_zeros. lia. Qed.

Definition flip (b : byte) : byte := byte_of_Z (255 - bval b).

Lemma flip_flip (b : byte) : flip (flip b) = b.
Proof.
  unfold flip. apply bval_inj. pose proof (bval_range b).
  rewrite !bval_of_Z, (Z.mod_small (255 - bval b)) by lia. rewrite Z.mod_small; lia.
Qed.

Definition toy_sum (a b : list byte) : list byte :=
  zip_with (fun x y => byte_of_Z (bval x + bval y)) a b.

Lemma toy_sum_comm (a b : list byte) : toy_sum a b = toy_sum b a.
Proof.
  unfold toy_sum. revert b. induction a as [|x a IH]; intros [|y b]; cbn; try done.
  by rewrite IH, Z.add_comm.
Qed.

Lemma length_toy_sum (a b : list byte) : length a = length b -> length (toy_sum a b) = length a.
Proof. intros. unfold toy_sum. rewrite length_zip_with. lia. Qed.

#[export] Instance toy_ops : CryptoOps := {|
  sha384_digest m := fit 48 (reverse m);
  hmac_key := list byte;
  hmac_new k := Some k;
  hmac_mac k m := fit 48 (toy_sum (fit 48 (reverse m)) (fit 48 k));
  Prk := list byte;
  hkdf_new salt ikm := fit 48 (toy_sum (fit 48 salt) (fit 48 ikm));
  hkdf_from_prk p := if decide (48 <= length p)%nat then Some p else None;
  hkdf_expand p i n := if decide (n <= hkdf_max)%nat then Some (fit n (p ++ i)) else None;
  Cipher := list byte;
  chacha20_new k n := Some (k ++ n);
  try_apply_keystream _ m := if zlen m <=? CHACHA20_MAX_BYTES then Some (map flip m) else None;
  ct_eq a b := bool_decide (a = b);
  DecapsulationKey := unit;
  EncapsulationKey := unit;
  kem_from_seed _ := tt;
  encapsulation_key _ := tt;
  encapsulate_deterministic _ m := (fit 1568 m, fit 32 m);
  decapsulate _ ct := fit 32 (take 32 ct);
  ek_to_bytes _ := zeros 1568;
  ek_new _ := Some tt;
  SigningKey := byte;
  VerifyingKey := byte;
  SignatureObj := list byte;
  dsa_from_seed s := default x00 (list.head s);
  verifying_key_of sk := sk;
  vk_encode vk := vk :: zeros 2591;
  vk_decode l := default x00 (list.head l);
  dsa_sign sk m := fit 4627 (sk :: m);
  dsa_sign_deterministic sk m c := if decide (length c <= 255)%nat then Some (fit 4627 (sk :: c ++ m)) else None;
  sig_parse s := Some s;
  dsa_verify vk m s := bool_decide (s = fit 4627 (vk :: m));
  dsa_verify_with_context vk m c s := bool_decide (s = fit 4627 (vk :: c ++ m));
  StaticSecret := list byte;
  DhShared := list byte;
  secret_from b := b;
  secret_to_bytes s := s;
  public_from s := fit 32 s;
  diffie_hellman s p := toy_sum (fit 32 s) (fit 32 p);
  was_contributory _ := true;
  shared_bytes s := fit 32 s
|}.

Lemma fit_fit (n : nat) (l : list byte) : fit n (fit n l) = fit n l.
Proof.
  unfold fit at 1. rewrite take_app_length' by (by rewrite length_fit). done.
Qed.

Lemma fit_prefix (n m : nat) (l : list byte) : (n <= m)%nat -> fit n (take n (fit m l)) = fit n l.
Proof.
  intros Hn. assert (E : take n (fit m l) = fit n l).
  { unfold fit. rewrite take_take, Nat.min_l by lia.
    replace (zeros m) with (zeros n ++ zeros (m - n)).
    - rewrite app_assoc, take_app_le; [done|]. rewrite length_app, length_zeros. lia.
    - unfold zeros. rewrite <- replicate_add. f_equal. lia. }
  by rewrite E, fit_fit.
Qed.

#[export] Instance toy_laws : CryptoLaws.
Proof.
  split; cbn -[hkdf_max CHACHA20_MAX_BYTES fit zeros Nat.add Nat.mul].
  - intros. apply length_fit.
  - eauto.
  - intros. apply length_fit.
  - intros p. destruct (decide (48 <= length p)%nat); split; intros Hx; [lia|by eexists| |lia].
    by destruct Hx.
  - intros p i n. destruct (decide (n <= hkdf_max)%nat); split; intros Hx; [lia|by eexists| |lia].
    by destruct Hx.
  - intros p i n o. destruct (decide (n <= hkdf_max)%nat); [|done]. intros [= <-]. apply length_fit.
  - eauto.
  - intros c m Hm. apply Z.leb_le in Hm. rewrite Hm. eauto.
  - intros c m o. destruct (zlen m <=? CHACHA20_MAX_BYTES); [|done]. intros [= <-]. apply length_map.
  - intros c m o. destruct (zlen m <=? CHACHA20_MAX_BYTES) eqn:E; [|done]. intros [= <-].
    unfold zlen in *. rewrite length_map, E. f_equal. rewrite map_map.
    rewrite <- (map_id m) at 2. apply map_ext. apply flip_flip.
  - intros. apply bool_decide_eq_true.
  - intros _ m. apply fit_prefix. lia.
  - intros. apply length_fit.
  - intros. apply length_fit.
  - intros. apply length_fit.
  - intros. apply length_zeros.
  - by intros [].
  - intros vk. change (S (length (zeros 2591)) = 2592%nat). by rewrite length_zeros.
  - done.
  - intros. apply length_fit.
  - intros sk m c Hc. rewrite decide_True by done. eauto.
  - intros sk m c s. destruct (decide (length c <= 255)%nat); [|done]. intros [= <-]. apply length_fit.
  - intros. eexists. split; [done|]. by apply bool_decide_eq_true.
  - intros sk m c s. destruct (decide (length c <= 255)%nat); [|done]. intros [= <-].
    eexists. split; [done|]. by apply bool_decide_eq_true.
  - intros a b. rewrite !fit_fit. apply toy_sum_comm.
  - intros. apply length_fit.
  - intros. apply length_fit.
  - done.
  - done.
Qed.
