(* ===== verification/MixCrypto.v ===== *)
(** A second concrete instance of [CryptoOps] that satisfies [CryptoLaws]. It is as
    insecure as the one of ToyCrypto.v, but every output depends on every byte of every
    input, so a program that expects a changed input to be noticed can be run on it. It
    stands for no code of the repository. *)

From S2P Require Import Prelude CryptoHost Primitives ToyCrypto.
Local Open Scope Z_scope.

(** A number for a byte string, and [n] bytes for a number. *)
Definition absorb (m : list byte) : Z :=
  fold_left (fun acc b => Z.land (acc * 33 + bval b + 7) 0xFFFFF) m 1.

Fixpoint squeeze (n : nat) (x : Z) : list byte :=
  match n with
  | O => []
  | S n => byte_of_Z (Z.shiftr x 8) :: squeeze n (Z.land (x * 1029 + 49157) 0xFFFFF)
  end.

(** Two strings as one, without ambiguity. *)
Definition join (a b : list byte) : list byte := be_bytes 8 (zlen a) ++ a ++ b.

Definition xor (a b : byte) : byte := byte_of_Z (Z.lxor (bval a) (bval b)).

(** Public and secret keys are four bytes, whatever their encoded length. *)
Definition key4 : Type := byte * byte * byte * byte.
Definition key_of (seed : list byte) : key4 :=
  match squeeze 4 (absorb seed) with
  | [a; b; c; d] => (a, b, c, d)
  | _ => (x00, x00, x00, x00)
  end.
Definition key_bytes (k : key4) : list byte := let '(a, b, c, d) := k in [a; b; c; d].
Definition key_read (l : list byte) : key4 :=
  match l with a :: b :: c :: d :: _ => (a, b, c, d) | _ => (x00, x00, x00, x00) end.

Definition mix_kem_secret (ek : key4) (ct : list byte) : list byte := squeeze 32 (absorb (join (key_bytes ek) ct)).
Definition mix_sign (k : key4) (m : list byte) : list byte := squeeze 4627 (absorb (join (key_bytes k) (x00 :: m))).
Definition mix_sign_ctx (k : key4) (m c : list byte) : list byte :=
  squeeze 4627 (absorb (join (key_bytes k) (x01 :: join c m))).

Definition mix_ops : CryptoOps := {|
  sha384_digest m := squeeze 48 (absorb m);
  hmac_key := list byte;
  hmac_new k := Some k;
  hmac_mac k m := squeeze 48 (absorb (join k m));
  Prk := list byte;
  hkdf_new salt ikm := squeeze 48 (absorb (join salt ikm));
  hkdf_from_prk p := if decide (48 <= length p)%nat then Some p else None;
  hkdf_expand p i n := if decide (n <= hkdf_max)%nat then Some (squeeze n (absorb (join p i))) else None;
  Cipher := Z;
  chacha20_new k n := Some (absorb (join k n));
  try_apply_keystream c m :=
    if zlen m <=? CHACHA20_MAX_BYTES then Some (zip_with xor m (squeeze (length m) c)) else None;
  ct_eq a b := bool_decide (a = b);
  DecapsulationKey := key4;
  EncapsulationKey := key4;
  kem_from_seed := key_of;
  encapsulation_key dk := dk;
  encapsulate_deterministic ek m := (fit 1568 m, mix_kem_secret ek (fit 1568 m));
  decapsulate := mix_kem_secret;
  ek_to_bytes ek := key_bytes ek ++ zeros 1564;
  ek_new l := Some (key_read l);
  SigningKey := key4;
  VerifyingKey := key4;
  SignatureObj := list byte;
  dsa_from_seed := key_of;
  verifying_key_of sk := sk;
  vk_encode vk := key_bytes vk ++ zeros 2588;
  vk_decode := key_read;
  dsa_sign := mix_sign;
  dsa_sign_deterministic sk m c := if decide (length c <= 255)%nat then Some (mix_sign_ctx sk m c) else None;
  sig_parse s := Some s;
  dsa_verify vk m s := bool_decide (s = mix_sign vk m);
  dsa_verify_with_context vk m c s := bool_decide (s = mix_sign_ctx vk m c);
  StaticSecret := list byte;
  DhShared := list byte;
  secret_from b := b;
  secret_to_bytes s := s;
  public_from s := fit 32 s;
  diffie_hellman s p := toy_sum (fit 32 s) (fit 32 p);
  was_contributory _ := true;
  shared_bytes s := fit 32 s
|}.

Lemma length_squeeze (n : nat) (x : Z) : length (squeeze n x) = n.
Proof. revert x. induction n as [|n IH]; intros x; cbn; [done|]. by rewrite IH. Qed.

Lemma xor_xor (a b : byte) : xor (xor a b) b = a.
Proof.
  unfold xor. apply bval_inj. pose proof (bval_range a). pose proof (bval_range b).
  rewrite !bval_of_Z.
  assert (in_width 8 (Z.lxor (bval a) (bval b))) by (apply lxor_width; unfold in_width; lia).
  rewrite (Z.mod_small (Z.lxor (bval a) (bval b))) by (unfold in_width in *; lia).
  rewrite Z.lxor_assoc, Z.lxor_nilpotent, Z.lxor_0_r. apply Z.mod_small. lia.
Qed.

Lemma xor_stream (m s : list byte) : length m = length s -> zip_with xor (zip_with xor m s) s = m.
Proof.
  revert s. induction m as [|b m IH]; intros [|k s] E; cbn in *; try done.
  rewrite xor_xor, IH; [done|lia].
Qed.

Lemma key_read_bytes (k : key4) (l : list byte) : key_read (key_bytes k ++ l) = k.
Proof. by destruct k as [[[]]]. Qed.

Lemma length_key_bytes (k : key4) : length (key_bytes k) = 4%nat.
Proof. by destruct k as [[[]]]. Qed.

Lemma mix_laws : @CryptoLaws mix_ops.
Proof.
  split; cbn [mix_ops sha384_digest hmac_key hmac_new hmac_mac Prk hkdf_new hkdf_from_prk hkdf_expand Cipher chacha20_new
    try_apply_keystream ct_eq DecapsulationKey EncapsulationKey kem_from_seed encapsulation_key
    encapsulate_deterministic decapsulate ek_to_bytes ek_new SigningKey VerifyingKey SignatureObj dsa_from_seed
    verifying_key_of vk_encode vk_decode dsa_sign dsa_sign_deterministic sig_parse dsa_verify
    dsa_verify_with_context StaticSecret DhShared secret_from secret_to_bytes public_from diffie_hellman
    was_contributory shared_bytes fst snd].
  - intros. apply length_squeeze.
  - eauto.
  - intros. apply length_squeeze.
  - intros p. destruct (decide (48 <= length p)%nat); split; intros Hx; [lia|by eexists| |lia].
    by destruct Hx.
  - intros p i n. destruct (decide (n <= hkdf_max)%nat); split; intros Hx; [lia|by eexists| |lia].
    by destruct Hx.
  - intros p i n o. destruct (decide (n <= hkdf_max)%nat); [|done]. intros [= <-]. apply length_squeeze.
  - eauto.
  - intros c m Hm. apply Z.leb_le in Hm. rewrite Hm. eauto.
  - intros c m o. destruct (zlen m <=? CHACHA20_MAX_BYTES); [|done]. intros [= <-].
    rewrite length_zip_with, length_squeeze. lia.
  - intros c m o. destruct (zlen m <=? CHACHA20_MAX_BYTES) eqn:E; [|done]. intros [= <-].
    assert (L : length (zip_with xor m (squeeze (length m) c)) = length m)
      by (rewrite length_zip_with, length_squeeze; lia).
    unfold zlen in *. rewrite L, E, xor_stream; [done|]. by rewrite length_squeeze.
  - intros. apply bool_decide_eq_true.
  - done.
  - intros. apply length_fit.
  - intros. apply length_squeeze.
  - intros. apply length_squeeze.
  - intros. rewrite length_app, length_key_bytes, length_zeros. lia.
  - intros. by rewrite key_read_bytes.
  - intros. rewrite length_app, length_key_bytes, length_zeros. lia.
  - intros. by rewrite key_read_bytes.
  - intros. apply length_squeeze.
  - intros sk m c Hc. rewrite decide_True by done. eauto.
  - intros sk m c s. destruct (decide (length c <= 255)%nat); [|done]. intros [= <-]. apply length_squeeze.
  - intros. eexists. split; [done|]. by apply bool_decide_eq_true.
  - intros sk m c s. destruct (decide (length c <= 255)%nat); [|done]. intros [= <-].
    eexists. split; [done|]. by apply bool_decide_eq_true.
  - intros a b. rewrite !fit_fit. apply toy_sum_comm.
  - intros. apply length_fit.
  - intros. apply length_fit.
  - done.
  - done.
Qed.
