(* ===== verification/Aead.v ===== *)
(** aead_wrapper.rs: ChaCha20 with HMAC-SHA384, encrypt-then-MAC.

    A [&mut] buffer parameter is an argument and a component of the result: the
    functions answer with the status and what the output buffers hold afterwards,
    on every path. Local copies that are wiped before return are not part of any
    result and are omitted. *)

From S2P Require Import Prelude CryptoHost Primitives ToyCrypto.
Local Open Scope Z_scope.

Definition AEAD_KEY_SIZE : nat := 32.
Definition AEAD_NONCE_SIZE : nat := 12.
Definition AEAD_TAG_SIZE : nat := 48.

Section ops.
Context `{CryptoOps}.

Definition verify_tag_constant_time (a b : list byte) : bool := ct_eq a b.

Definition hmac_sha384 (key data : list byte) : M CHost (result (list byte) CryptoError) :=
  match hmac_new key with
  | None => mret (Err InvalidState)
  | Some mac =>
      let output := hmac_mac mac data in
      secure_cache_flush output ;;
      mret (Ok output)
  end.

(** The status and the contents of [out] afterwards. *)
Definition hkdf_expand_sha384 (prk info out : list byte)
  : M CHost (result unit CryptoError * list byte) :=
  match hkdf_from_prk prk with
  | None => mret (Err InvalidLength, out)
  | Some hkdf =>
      match hkdf_expand hkdf info (length out) with
      | None => mret (Err HkdfError, secure_zeroize out)
      | Some okm => secure_cache_flush okm ;; mret (Ok tt, okm)
      end
  end.

(** What the tag covers: AAD length, ciphertext length, nonce, AAD, ciphertext. *)
Definition mac_input (nonce aad ciphertext : list byte) : list byte :=
  be_bytes 8 (zlen aad) ++ be_bytes 8 (zlen ciphertext) ++ nonce ++ aad ++ ciphertext.

Definition aead_encrypt (enc_key mac_key nonce aad plaintext ciphertext out_mac : list byte)
  : M CHost (result unit CryptoError * list byte * list byte) :=
  if negb (length plaintext =? length ciphertext)%nat || (CHACHA20_MAX_BYTES <? zlen plaintext)
  then mret (Err InvalidLength, ciphertext, out_mac) else
  let ciphertext := plaintext in
  match chacha20_new enc_key nonce with
  | None => mret (Err InvalidState, ciphertext, out_mac)
  | Some cipher =>
    match try_apply_keystream cipher ciphertext with
    | None => mret (Err InvalidLength, secure_zeroize ciphertext, out_mac)
    | Some ciphertext =>
      match hmac_new mac_key with
      | None => mret (Err InvalidState, ciphertext, out_mac)
      | Some mac_engine =>
        let out_mac := hmac_mac mac_engine (mac_input nonce aad ciphertext) in
        secure_cache_flush ciphertext ;;
        secure_cache_flush out_mac ;;
        mret (Ok tt, ciphertext, out_mac)
      end
    end
  end.

Definition aead_decrypt (enc_key mac_key nonce aad ciphertext mac plaintext : list byte)
  : M CHost (result unit CryptoError * list byte) :=
  if negb (length plaintext =? length ciphertext)%nat || (CHACHA20_MAX_BYTES <? zlen ciphertext)
  then mret (Err InvalidLength, plaintext) else
  match hmac_new mac_key with
  | None => mret (Err InvalidState, plaintext)
  | Some mac_engine =>
    let expected_mac := hmac_mac mac_engine (mac_input nonce aad ciphertext) in
    let tag_valid := verify_tag_constant_time mac expected_mac in
    if negb tag_valid then mret (Err VerificationFailed, secure_zeroize plaintext) else
    let plaintext := ciphertext in
    match chacha20_new enc_key nonce with
    | None => mret (Err InvalidState, plaintext)
    | Some cipher =>
      match try_apply_keystream cipher plaintext with
      | None => mret (Err InvalidLength, secure_zeroize plaintext)
      | Some plaintext => secure_cache_flush plaintext ;; mret (Ok tt, plaintext)
      end
    end
  end.

Definition aead_encrypt_in_place (enc_key mac_key nonce aad buffer out_mac : list byte)
  : M CHost (result unit CryptoError * list byte * list byte) :=
  if CHACHA20_MAX_BYTES <? zlen buffer then mret (Err InvalidLength, buffer, out_mac) else
  match chacha20_new enc_key nonce with
  | None => mret (Err InvalidState, buffer, out_mac)
  | Some cipher =>
    match try_apply_keystream cipher buffer with
    | None => mret (Err InvalidLength, secure_zeroize buffer, out_mac)
    | Some buffer =>
      match hmac_new mac_key with
      | None => mret (Err InvalidState, buffer, out_mac)
      | Some mac_engine =>
        let out_mac := hmac_mac mac_engine (mac_input nonce aad buffer) in
        secure_cache_flush buffer ;;
        secure_cache_flush out_mac ;;
        mret (Ok tt, buffer, out_mac)
      end
    end
  end.

Definition aead_decrypt_in_place (enc_key mac_key nonce aad buffer mac : list byte)
  : M CHost (result unit CryptoError * list byte) :=
  if CHACHA20_MAX_BYTES <? zlen buffer then mret (Err InvalidLength, buffer) else
  match hmac_new mac_key with
  | None => mret (Err InvalidState, buffer)
  | Some mac_engine =>
    let expected_mac := hmac_mac mac_engine (mac_input nonce aad buffer) in
    let tag_valid := verify_tag_constant_time mac expected_mac in
    if negb tag_valid then mret (Err VerificationFailed, secure_zeroize buffer) else
    match chacha20_new enc_key nonce with
    | None => mret (Err InvalidState, buffer)
    | Some cipher =>
      match try_apply_keystream cipher buffer with
      | None => mret (Err InvalidLength, secure_zeroize buffer)
      | Some buffer => secure_cache_flush buffer ;; mret (Ok tt, buffer)
      end
    end
  end.

End ops.

(** * Lemmas *)

(** The tag input determines what it was built from. *)
Lemma mac_input_inj (n1 a1 c1 n2 a2 c2 : list byte) :
  length n1 = length n2 ->
  zlen a1 < 2 ^ 64 -> zlen a2 < 2 ^ 64 -> zlen c1 < 2 ^ 64 -> zlen c2 < 2 ^ 64 ->
  mac_input n1 a1 c1 = mac_input n2 a2 c2 -> n1 = n2 /\ a1 = a2 /\ c1 = c2.
Proof.
  unfold mac_input. intros Hn Ha1 Ha2 Hc1 Hc2 E.
  apply app_inj_length in E as [E1 E]; [|by rewrite !length_be_bytes].
  apply app_inj_length in E as [E2 E]; [|by rewrite !length_be_bytes].
  apply be_bytes_inj in E1, E2; try (unfold zlen in *; lia).
  apply app_inj_length in E as [-> E]; [|done].
  apply app_inj_length in E as [-> ->]; [done|]. unfold zlen in E1. lia.
Qed.

Section laws.
Context `{CryptoLaws}.

Definition tag_of (mac_key nonce aad ciphertext : list byte) : list byte :=
  match hmac_new mac_key with
  | Some k => hmac_mac k (mac_input nonce aad ciphertext)
  | None => []
  end.

Lemma length_tag_of (mac_key nonce aad ciphertext : list byte) :
  length (tag_of mac_key nonce aad ciphertext) = 48%nat.
Proof.
  unfold tag_of. destruct (hmac_any_key mac_key) as [k ->]. apply hmac_len.
Qed.

(** The cipher on a message within the limit, for well-sized keys. *)
Definition stream (enc_key nonce m : list byte) : list byte :=
  match chacha20_new enc_key nonce with
  | Some c => default [] (try_apply_keystream c m)
  | None => []
  end.

Lemma stream_run (enc_key nonce m : list byte) :
  length enc_key = 32%nat -> length nonce = 12%nat -> zlen m <= CHACHA20_MAX_BYTES ->
  exists c, chacha20_new enc_key nonce = Some c /\
            try_apply_keystream c m = Some (stream enc_key nonce m).
Proof.
  intros Hk Hn Hm. destruct (chacha20_new_ok enc_key nonce Hk Hn) as [c Hc].
  destruct (keystream_ok c m Hm) as [o Ho]. exists c. unfold stream. by rewrite Hc, Ho.
Qed.

Lemma length_stream (enc_key nonce m : list byte) :
  length enc_key = 32%nat -> length nonce = 12%nat -> zlen m <= CHACHA20_MAX_BYTES ->
  length (stream enc_key nonce m) = length m.
Proof.
  intros Hk Hn Hm. destruct (stream_run enc_key nonce m Hk Hn Hm) as (c & _ & E).
  by eapply keystream_len.
Qed.

Lemma stream_stream (enc_key nonce m : list byte) :
  length enc_key = 32%nat -> length nonce = 12%nat -> zlen m <= CHACHA20_MAX_BYTES ->
  stream enc_key nonce (stream enc_key nonce m) = m.
Proof.
  intros Hk Hn Hm. destruct (stream_run enc_key nonce m Hk Hn Hm) as (c & Hc & E).
  unfold stream at 1. rewrite Hc. by rewrite (keystream_involutive c m _ E).
Qed.

Lemma encrypt_run (cb : CFnPtr) (ek mk nonce aad pt ct mac : list byte) (h : CHost) :
  length ek = 32%nat -> length nonce = 12%nat -> length ct = length pt ->
  zlen pt <= CHACHA20_MAX_BYTES -> c_cache_flush h = Some cb ->
  let c := stream ek nonce pt in
  let tag := tag_of mk nonce aad c in
  aead_encrypt ek mk nonce aad pt ct mac h =
    Done (Ok tt, c, tag) (add_events (flush_events cb c ++ flush_events cb tag) h).
Proof.
  intros Hk Hn Hl Hm Hcb c tag. unfold aead_encrypt.
  rewrite Hl, Nat.eqb_refl, (proj2 (Z.ltb_ge _ _)) by lia. cbn [negb orb].
  destruct (stream_run ek nonce pt Hk Hn Hm) as (ci & -> & ->). fold c.
  unfold tag, tag_of. destruct (hmac_any_key mk) as [k ->].
  msimpl. rewrite (secure_cache_flush_ok cb) by done.
  rewrite (secure_cache_flush_ok cb) by done. by rewrite add_events_app.
Qed.

(** Decryption answers exactly according to the tag. *)
Lemma decrypt_run (cb : CFnPtr) (ek mk nonce aad ct mac pt : list byte) (h : CHost) :
  length ek = 32%nat -> length nonce = 12%nat -> length pt = length ct ->
  zlen ct <= CHACHA20_MAX_BYTES -> c_cache_flush h = Some cb ->
  aead_decrypt ek mk nonce aad ct mac pt h =
    if decide (mac = tag_of mk nonce aad ct)
    then Done (Ok tt, stream ek nonce ct) (add_events (flush_events cb (stream ek nonce ct)) h)
    else Done (Err VerificationFailed, zeros (length pt)) h.
Proof.
  intros Hk Hn Hl Hm Hcb. unfold aead_decrypt, verify_tag_constant_time, tag_of.
  rewrite Hl, Nat.eqb_refl, (proj2 (Z.ltb_ge _ _)) by lia. cbn [negb orb].
  destruct (hmac_any_key mk) as [k ->]. case_decide as Ed.
  - apply ct_eq_spec in Ed as ->. cbn [negb].
    destruct (stream_run ek nonce ct Hk Hn Hm) as (ci & -> & ->). msimpl.
    by rewrite (secure_cache_flush_ok cb) by done.
  - destruct (ct_eq mac _) eqn:E; [by apply ct_eq_spec in E|]. cbn [negb].
    unfold secure_zeroize. by rewrite Hl.
Qed.

End laws.

(** * Claims *)

(** C33: what [aead_encrypt] seals, [aead_decrypt] with the same keys, nonce and
    associated data opens to the same plaintext, for every message up to the
    cipher's limit. *)
Theorem aead_roundtrip `{CryptoLaws} (cb : CFnPtr) (ek mk nonce aad pt ct0 mac0 pt0 : list byte) (h : CHost) :
  length ek = 32%nat -> length nonce = 12%nat -> length ct0 = length pt -> length pt0 = length pt ->
  zlen pt <= CHACHA20_MAX_BYTES -> c_cache_flush h = Some cb ->
  exists ct mac h1 h2,
    aead_encrypt ek mk nonce aad pt ct0 mac0 h = Done (Ok tt, ct, mac) h1 /\
    length ct = length pt /\ length mac = 48%nat /\
    aead_decrypt ek mk nonce aad ct mac pt0 h1 = Done (Ok tt, pt) h2.
Proof.
  intros Hk Hn Hl0 Hlp Hm Hcb. pose proof (length_stream ek nonce pt Hk Hn Hm) as Hls.
  eexists _, _, _, _. split; [by apply encrypt_run|]. split; [done|].
  split; [apply length_tag_of|].
  rewrite (decrypt_run cb); [|done|done|congruence| |done].
  - rewrite decide_True by done. by rewrite stream_stream.
  - unfold zlen in *. lia.
Qed.

(** Nothing is decrypted before it is authenticated. A call with buffers of
    equal length within the limit succeeds exactly when the presented tag is the
    HMAC of the associated data, ciphertext and nonce under the MAC key; otherwise
    it answers [VerificationFailed], the plaintext buffer is all zero and no cache
    line was flushed. *)
Theorem aead_decrypt_exact `{CryptoLaws} (cb : CFnPtr) (ek mk nonce aad ct mac pt0 : list byte) (h : CHost) :
  length ek = 32%nat -> length nonce = 12%nat -> length pt0 = length ct ->
  zlen ct <= CHACHA20_MAX_BYTES -> c_cache_flush h = Some cb ->
  (mac = tag_of mk nonce aad ct ->
     exists h', aead_decrypt ek mk nonce aad ct mac pt0 h = Done (Ok tt, stream ek nonce ct) h') /\
  (mac <> tag_of mk nonce aad ct ->
     aead_decrypt ek mk nonce aad ct mac pt0 h = Done (Err VerificationFailed, zeros (length pt0)) h).
Proof.
  intros Hk Hn Hl Hm Hcb. rewrite (decrypt_run cb) by done.
  split; intros E; [rewrite decide_True by done; by eexists|by rewrite decide_False].
Qed.

(** Tampering needs a MAC collision. If a packet that differs from the sealed
    one in its nonce, associated data or ciphertext is accepted with the sealed
    tag, then two different MAC inputs have the same HMAC: the length-prefixed
    encoding leaves no other way, so bytes cannot be moved between the associated
    data and the ciphertext. *)
Theorem aead_tamper_needs_collision `{CryptoLaws} (cb : CFnPtr)
    (ek mk nonce aad pt ct0 mac0 ct mac n2 a2 c2 pt0 p : list byte) (h h1 h2 h3 : CHost) :
  length ek = 32%nat -> length nonce = 12%nat -> length n2 = 12%nat ->
  zlen aad < 2 ^ 64 -> zlen a2 < 2 ^ 64 ->
  c_cache_flush h = Some cb -> c_cache_flush h2 = Some cb ->
  aead_encrypt ek mk nonce aad pt ct0 mac0 h = Done (Ok tt, ct, mac) h1 ->
  aead_decrypt ek mk n2 a2 c2 mac pt0 h2 = Done (Ok tt, p) h3 ->
  (n2, a2, c2) <> (nonce, aad, ct) ->
  exists k, hmac_new mk = Some k /\
    mac_input n2 a2 c2 <> mac_input nonce aad ct /\
    hmac_mac k (mac_input n2 a2 c2) = hmac_mac k (mac_input nonce aad ct).
Proof.
  intros Hk Hn Hn2 Ha Ha2 Hcb Hcb2 Eenc Edec Hne.
  assert (Hsz : length ct0 = length pt /\ zlen pt <= CHACHA20_MAX_BYTES).
  { unfold aead_encrypt in Eenc. destruct (negb _ || _) eqn:Eg; [done|].
    apply orb_false_iff in Eg as [E1 E2]. apply negb_false_iff, Nat.eqb_eq in E1. lia. }
  assert (Hsz2 : length pt0 = length c2 /\ zlen c2 <= CHACHA20_MAX_BYTES).
  { unfold aead_decrypt in Edec. destruct (negb _ || _) eqn:Eg; [done|].
    apply orb_false_iff in Eg as [E1 E2]. apply negb_false_iff, Nat.eqb_eq in E1. lia. }
  rewrite (encrypt_run cb) in Eenc by naive_solver. simplify_eq.
  rewrite (decrypt_run cb) in Edec by naive_solver. case_decide as Et; [|done]. clear Edec.
  unfold tag_of in Et. destruct (hmac_any_key mk) as [k Hkey]. rewrite Hkey in Et.
  exists k. split; [done|]. split; [|done]. intros E. apply Hne.
  pose proof (length_stream ek nonce pt Hk Hn (proj2 Hsz)) as Hls.
  assert (CHACHA20_MAX_BYTES < 2 ^ 64) by reflexivity.
  apply mac_input_inj in E as (-> & -> & ->); [done|congruence|done|done|lia|unfold zlen in *; lia].
Qed.

(** The in-place variants compute the same answers, bytes and host calls as the
    two-buffer functions run on a copy (for decryption, once the MAC key was
    accepted; HMAC accepts every key). *)
Theorem aead_in_place_agrees `{CryptoOps} (ek mk nonce aad buffer mac scratch : list byte) (h : CHost) :
  length scratch = length buffer -> zlen buffer <= CHACHA20_MAX_BYTES ->
  aead_encrypt_in_place ek mk nonce aad buffer mac h = aead_encrypt ek mk nonce aad buffer scratch mac h /\
  (forall m, hmac_new mk = Some m ->
     aead_decrypt_in_place ek mk nonce aad buffer mac h = aead_decrypt ek mk nonce aad buffer mac scratch h).
Proof.
  intros Hl Hm.
  unfold aead_encrypt_in_place, aead_encrypt, aead_decrypt_in_place, aead_decrypt, secure_zeroize.
  rewrite Hl, Nat.eqb_refl, (proj2 (Z.ltb_ge _ _)) by done. cbn [negb orb].
  split; [done|]. by intros m ->.
Qed.

(** ** Witnesses *)

Definition sample_key : list byte := replicate 32 x11.
Definition sample_nonce : list byte := replicate 12 x07.

Lemma aead_roundtrip_witness :
  exists ct mac h1 h2,
    aead_encrypt sample_key sample_key sample_nonce [x01] [x02; x03] [x00; x00] [] sample_chost =
      Done (Ok tt, ct, mac) h1 /\
    length ct = 2%nat /\ length mac = 48%nat /\
    aead_decrypt sample_key sample_key sample_nonce [x01] ct mac [x00; x00] h1 =
      Done (Ok tt, [x02; x03]) h2.
Proof.
  exact (aead_roundtrip 4 sample_key sample_key sample_nonce [x01] [x02; x03] [x00; x00] [] [x00; x00]
    sample_chost eq_refl eq_refl eq_refl eq_refl ltac:(done) eq_refl).
Defined.

Lemma aead_decrypt_exact_witness :
  aead_decrypt sample_key sample_key sample_nonce [x01] [x02; x03] (zeros 48) [x09; x09] sample_chost =
    Done (Err VerificationFailed, zeros 2) sample_chost.
Proof.
  apply (proj2 (aead_decrypt_exact 4 sample_key sample_key sample_nonce [x01] [x02; x03] (zeros 48)
    [x09; x09] sample_chost eq_refl eq_refl eq_refl ltac:(done) eq_refl)).
  vm_compute. discriminate.
Defined.

(** The sample MAC only reads the last 48 bytes of its input, so it has collisions. *)
Lemma aead_tamper_needs_collision_witness :
  exists k, hmac_new sample_key = Some k /\
    mac_input sample_nonce [x02] (replicate 48 xff) <> mac_input sample_nonce [x01] (replicate 48 xff) /\
    hmac_mac k (mac_input sample_nonce [x02] (replicate 48 xff)) =
    hmac_mac k (mac_input sample_nonce [x01] (replicate 48 xff)).
Proof.
  eapply (aead_tamper_needs_collision 4 sample_key sample_key sample_nonce [x01] (zeros 48) (zeros 48) []
    (replicate 48 xff) _ sample_nonce [x02] (replicate 48 xff) (zeros 48) _ sample_chost _ sample_chost);
    [reflexivity|reflexivity|reflexivity|reflexivity|reflexivity|reflexivity|reflexivity
    |vm_compute; reflexivity|vm_compute; reflexivity|discriminate].
Defined.

Lemma aead_in_place_agrees_witness :
  aead_encrypt_in_place sample_key sample_key sample_nonce [] [x01] [] sample_chost =
    aead_encrypt sample_key sample_key sample_nonce [] [x01] [x00] [] sample_chost.
Proof.
  exact (proj1 (aead_in_place_agrees sample_key sample_key sample_nonce [] [x01] [] [x00] sample_chost
    eq_refl ltac:(done))).
Defined.
