(* ===== verification/Kdf.v ===== *)
(** hybrid_kdf.rs: deriving session and confirmation keys from the two shared
    secrets. The secrets are [&mut] parameters, so the functions also answer what
    the caller's copies hold afterwards. *)

From S2P Require Import Prelude CryptoHost Primitives ToyCrypto.
Local Open Scope Z_scope.

Definition PQ_SHARED_SECRET_SIZE : nat := 32.
Definition CLASSICAL_SHARED_SECRET_SIZE : nat := 32.
Definition HYBRID_OUTPUT_SIZE : nat := 128.
Definition CONFIRMATION_OUTPUT_SIZE : nat := 96.

Definition KEY_CONFIRMATION_INFO_LABEL : list byte := bstr "ShawnCore-auth-v2 key confirmation".
Definition CONFIRMATION_INFO_LEN : nat := length KEY_CONFIRMATION_INFO_LABEL + 1 + 48.

Definition confirmation_info (inner_transcript : list byte) : list byte :=
  KEY_CONFIRMATION_INFO_LABEL ++ [x00] ++ inner_transcript.

Section ops.
Context `{CryptoOps}.

Definition derive_hybrid_key (pq_secret classical_secret salt info : list byte)
  : M CHost (result (list byte) CryptoError * list byte * list byte) :=
  let combined_entropy := pq_secret ++ classical_secret in
  let hkdf := hkdf_new salt combined_entropy in
  let res := hkdf_expand hkdf info HYBRID_OUTPUT_SIZE in
  let pq_secret := secure_zeroize pq_secret in
  let classical_secret := secure_zeroize classical_secret in
  match res with
  | None => mret (Err HkdfError, pq_secret, classical_secret)
  | Some derived_key =>
      secure_cache_flush derived_key ;;
      mret (Ok derived_key, pq_secret, classical_secret)
  end.

Definition derive_hybrid_key_with_confirmation
    (pq_secret classical_secret salt info confirmation_info : list byte)
  : M CHost (result (list byte * list byte) CryptoError * list byte * list byte) :=
  let combined_entropy := pq_secret ++ classical_secret in
  let hkdf := hkdf_new salt combined_entropy in
  let session_res := hkdf_expand hkdf info HYBRID_OUTPUT_SIZE in
  let confirmation_res := hkdf_expand hkdf confirmation_info CONFIRMATION_OUTPUT_SIZE in
  let pq_secret := secure_zeroize pq_secret in
  let classical_secret := secure_zeroize classical_secret in
  match session_res, confirmation_res with
  | Some derived_key, Some confirmation =>
      secure_cache_flush derived_key ;;
      secure_cache_flush confirmation ;;
      mret (Ok (derived_key, confirmation), pq_secret, classical_secret)
  | _, _ => mret (Err HkdfError, pq_secret, classical_secret)
  end.

End ops.

(** * Lemmas *)

Section laws.
Context `{CryptoLaws}.

(** The two expansions as pure functions of the inputs. *)
Definition session_material (pq cl salt info : list byte) : list byte :=
  default [] (hkdf_expand (hkdf_new salt (pq ++ cl)) info HYBRID_OUTPUT_SIZE).

Definition confirmation_material (pq cl salt cinfo : list byte) : list byte :=
  default [] (hkdf_expand (hkdf_new salt (pq ++ cl)) cinfo CONFIRMATION_OUTPUT_SIZE).

Lemma expand_some (p : Prk) (i : list byte) (n : nat) :
  (n <= hkdf_max)%nat -> hkdf_expand p i n = Some (default [] (hkdf_expand p i n)) /\
                         length (default [] (hkdf_expand p i n)) = n.
Proof.
  intros Hn. destruct (proj2 (hkdf_expand_ok p i n) Hn) as [o Ho]. rewrite Ho. cbn.
  split; [done|]. by eapply hkdf_expand_len.
Qed.

Lemma length_session_material (pq cl salt info : list byte) :
  length (session_material pq cl salt info) = 128%nat.
Proof. apply (expand_some _ _ HYBRID_OUTPUT_SIZE). unfold HYBRID_OUTPUT_SIZE, hkdf_max. lia. Qed.

Lemma length_confirmation_material (pq cl salt info : list byte) :
  length (confirmation_material pq cl salt info) = 96%nat.
Proof. apply (expand_some _ _ CONFIRMATION_OUTPUT_SIZE). unfold CONFIRMATION_OUTPUT_SIZE, hkdf_max. lia. Qed.

Lemma derive_run (cb : CFnPtr) (pq cl salt info : list byte) (h : CHost) :
  c_cache_flush h = Some cb ->
  derive_hybrid_key pq cl salt info h =
    Done (Ok (session_material pq cl salt info), zeros (length pq), zeros (length cl))
      (add_events (flush_events cb (session_material pq cl salt info)) h).
Proof.
  intros Hcb. unfold derive_hybrid_key, session_material.
  destruct (expand_some (hkdf_new salt (pq ++ cl)) info HYBRID_OUTPUT_SIZE) as [-> _].
  { unfold HYBRID_OUTPUT_SIZE, hkdf_max. lia. }
  msimpl. by rewrite (secure_cache_flush_ok cb).
Qed.

Lemma derive_confirm_run (cb : CFnPtr) (pq cl salt info cinfo : list byte) (h : CHost) :
  c_cache_flush h = Some cb ->
  derive_hybrid_key_with_confirmation pq cl salt info cinfo h =
    Done (Ok (session_material pq cl salt info, confirmation_material pq cl salt cinfo),
          zeros (length pq), zeros (length cl))
      (add_events (flush_events cb (session_material pq cl salt info) ++
                   flush_events cb (confirmation_material pq cl salt cinfo)) h).
Proof.
  intros Hcb. unfold derive_hybrid_key_with_confirmation, session_material, confirmation_material.
  destruct (expand_some (hkdf_new salt (pq ++ cl)) info HYBRID_OUTPUT_SIZE) as [-> _].
  { unfold HYBRID_OUTPUT_SIZE, hkdf_max. lia. }
  destruct (expand_some (hkdf_new salt (pq ++ cl)) cinfo CONFIRMATION_OUTPUT_SIZE) as [-> _].
  { unfold CONFIRMATION_OUTPUT_SIZE, hkdf_max. lia. }
  msimpl. rewrite (secure_cache_flush_ok cb) by done.
  rewrite (secure_cache_flush_ok cb) by done. by rewrite add_events_app.
Qed.

End laws.

(** * Claims *)

(** Adding key confirmation does not change the session: whenever both
    derivations run on the same inputs they succeed, the session bytes are
    identical, the caller's copies of both secrets are zero afterwards, and the
    confirmation expansion is asked for under an info string that no 48-byte
    session info can equal. *)
Theorem kdf_confirmation_extends `{CryptoLaws} (cb : CFnPtr) (pq cl salt info : list byte) (h : CHost) :
  length info = 48%nat -> c_cache_flush h = Some cb ->
  exists key conf h1 h2,
    derive_hybrid_key pq cl salt info h = Done (Ok key, zeros (length pq), zeros (length cl)) h1 /\
    derive_hybrid_key_with_confirmation pq cl salt info (confirmation_info info) h =
      Done (Ok (key, conf), zeros (length pq), zeros (length cl)) h2 /\
    length key = 128%nat /\ length conf = 96%nat /\
    (forall info', length info' = 48%nat -> confirmation_info info <> info').
Proof.
  intros Hi Hcb. eexists _, _, _, _. split; [by apply derive_run|]. split; [by apply derive_confirm_run|].
  split; [apply length_session_material|]. split; [apply length_confirmation_material|].
  intros info' Hi' E. apply (f_equal length) in E. unfold confirmation_info in E.
  rewrite !length_app, Hi, Hi' in E. cbn in E. lia.
Qed.

Lemma kdf_confirmation_extends_witness :
  exists key conf h1 h2,
    derive_hybrid_key (zeros 32) (zeros 32) [] (zeros 48) sample_chost =
      Done (Ok key, zeros 32, zeros 32) h1 /\
    derive_hybrid_key_with_confirmation (zeros 32) (zeros 32) [] (zeros 48) (confirmation_info (zeros 48))
      sample_chost = Done (Ok (key, conf), zeros 32, zeros 32) h2 /\
    length key = 128%nat /\ length conf = 96%nat /\
    (forall info', length info' = 48%nat -> confirmation_info (zeros 48) <> info').
Proof.
  exact (kdf_confirmation_extends 4 (zeros 32) (zeros 32) [] (zeros 48) sample_chost eq_refl eq_refl).
Defined.
