(* ===== verification/AuthEncoding.v ===== *)
(** auth_handshake.rs: what the authenticated handshake hashes, signs and MACs.

    Each hash input is written as the list of parts the source feeds to SHA-384;
    the [_parts] functions are those lists, so the encodings can be studied apart
    from the hash. *)

From S2P Require Import Prelude CryptoHost Primitives ToyCrypto Aead.
Local Open Scope Z_scope.

Definition AUTH_PROTOCOL_VERSION : byte := x02.
Definition AUTH_SUITE : list byte :=
  bstr "ML-KEM-1024+X25519;HKDF-SHA384;ChaCha20+HMAC-SHA384;ML-DSA-87;HMAC-SHA384-KC".
Definition CONTEXT_ENCAPSULATING_SIDE : list byte := bstr "ShawnCore-auth-v2 encapsulating side".
Definition CONTEXT_KEYGEN_SIDE : list byte := bstr "ShawnCore-auth-v2 key-generating side".
Definition CONFIRM_LABEL_ENCAPSULATING_SIDE : list byte :=
  bstr "ShawnCore-auth-v2 confirm encapsulating side".
Definition CONFIRM_LABEL_KEYGEN_SIDE : list byte :=
  bstr "ShawnCore-auth-v2 confirm key-generating side".
Definition AUTH_HASH_LEN : nat := 48.
Definition CONFIRMATION_TAG_LEN : nat := 48.
Definition CONFIRMATION_KEY_LEN : nat := 48.

Definition IDENTITY_LABEL : list byte := bstr "ShawnCore-auth-v2 identity".
Definition BINDING_LABEL : list byte := bstr "ShawnCore-auth-v2 binding".
Definition TRANSCRIPT_LABEL : list byte := bstr "ShawnCore-auth-v2 transcript".
Definition ENCAPSULATOR_DIGEST_LABEL : list byte := bstr "ShawnCore-auth-v2 encapsulator digest".
Definition KEYGEN_DIGEST_LABEL : list byte := bstr "ShawnCore-auth-v2 key-generator digest".

Section ops.
Context `{CryptoOps}.

Definition sha384 (parts : list (list byte)) : list byte := sha384_digest (concat parts).

Definition identity_parts (verifying_key : PublicKey87) : list (list byte) :=
  [IDENTITY_LABEL; PublicKey87_to_bytes verifying_key].

Definition identity_fingerprint (verifying_key : PublicKey87) : list byte :=
  sha384 (identity_parts verifying_key).

Definition binding_parts (keygen_ml_kem_pk : PublicKey1024) (keygen_x25519_pk : X25519Public)
    (keygen_identity encapsulator_identity app_info : list byte) (app_info_len : Z)
  : list (list byte) :=
  [BINDING_LABEL; [AUTH_PROTOCOL_VERSION]; be_bytes 2 (cast 16 (zlen AUTH_SUITE)); AUTH_SUITE;
   PublicKey1024_to_bytes keygen_ml_kem_pk; keygen_x25519_pk; keygen_identity;
   encapsulator_identity; be_bytes 4 app_info_len; app_info].

Definition handshake_binding (keygen_ml_kem_pk : PublicKey1024) (keygen_x25519_pk : X25519Public)
    (keygen_identity encapsulator_identity app_info : list byte) : result (list byte) CryptoError :=
  match try_from 32 (zlen app_info) with
  | None => Err InvalidLength
  | Some app_info_len =>
      Ok (sha384 (binding_parts keygen_ml_kem_pk keygen_x25519_pk keygen_identity
                    encapsulator_identity app_info app_info_len))
  end.

Definition transcript_parts (binding : list byte) (ciphertext : Ciphertext1024)
    (encapsulator_x25519_pk : X25519Public) : list (list byte) :=
  [TRANSCRIPT_LABEL; binding; ciphertext; encapsulator_x25519_pk].

Definition transcript_hash (binding : list byte) (ciphertext : Ciphertext1024)
    (encapsulator_x25519_pk : X25519Public) : list byte :=
  sha384 (transcript_parts binding ciphertext encapsulator_x25519_pk).

Definition encapsulator_digest_parts (transcript encapsulator_tag : list byte) : list (list byte) :=
  [ENCAPSULATOR_DIGEST_LABEL; transcript; encapsulator_tag].

Definition encapsulator_digest (transcript encapsulator_tag : list byte) : list byte :=
  sha384 (encapsulator_digest_parts transcript encapsulator_tag).

Definition keygen_digest_parts (encapsulator_digest keygen_tag : list byte) : list (list byte) :=
  [KEYGEN_DIGEST_LABEL; encapsulator_digest; keygen_tag].

Definition keygen_digest (encapsulator_digest keygen_tag : list byte) : list byte :=
  sha384 (keygen_digest_parts encapsulator_digest keygen_tag).

Definition confirmation_tag (key label digest : list byte)
  : M CHost (result (list byte) CryptoError) :=
  let used := (length label + AUTH_HASH_LEN)%nat in
  if (128 <? used)%nat then mret (Err InvalidLength) else
  hmac_sha384 key (label ++ digest).

Definition confirmation_tags_equal (expected presented : list byte) : bool :=
  verify_tag_constant_time expected presented.

End ops.

(** * Lemmas *)

Section laws.
Context `{CryptoLaws}.

Lemma length_sha384 (parts : list (list byte)) : length (sha384 parts) = 48%nat.
Proof. apply sha384_len. Qed.

Lemma binding_parts_inj (ek ek' : PublicKey1024) (x x' ki ki' ei ei' ai ai' : list byte) :
  length x = 32%nat -> length x' = 32%nat -> length ki = 48%nat -> length ki' = 48%nat ->
  length ei = 48%nat -> length ei' = 48%nat -> zlen ai < 2 ^ 32 -> zlen ai' < 2 ^ 32 ->
  concat (binding_parts ek x ki ei ai (zlen ai)) = concat (binding_parts ek' x' ki' ei' ai' (zlen ai')) ->
  ek = ek' /\ x = x' /\ ki = ki' /\ ei = ei' /\ ai = ai'.
Proof.
  intros Hx Hx' Hk Hk' He He' Ha Ha' E. unfold binding_parts, PublicKey1024_to_bytes in E.
  cbn [concat] in E. rewrite !app_nil_r in E. do 4 apply app_inv_head in E.
  apply app_inj_length in E as [Eek E]; [|by rewrite !ek_bytes_len].
  apply app_inj_length in E as [-> E]; [|congruence].
  apply app_inj_length in E as [-> E]; [|congruence].
  apply app_inj_length in E as [-> E]; [|congruence].
  apply app_inj_length in E as [_ ->]; [|by rewrite !length_be_bytes].
  apply (f_equal ek_new) in Eek. rewrite !ek_roundtrip in Eek. by simplify_eq.
Qed.

Lemma confirmation_tag_run (cb : CFnPtr) (key label digest : list byte) (h : CHost) :
  (length label <= 80)%nat -> c_cache_flush h = Some cb ->
  exists tag, confirmation_tag key label digest h =
      Done (Ok tag) (add_events (flush_events cb tag) h) /\ length tag = 48%nat /\
    hmac_new key ≫= (fun k => Some (hmac_mac k (label ++ digest))) = Some tag.
Proof.
  intros Hl Hcb. unfold confirmation_tag, AUTH_HASH_LEN.
  destruct (Nat.ltb_spec 128 (length label + 48)); [lia|].
  unfold hmac_sha384. destruct (hmac_any_key key) as [k Hk]. rewrite Hk. msimpl.
  rewrite (secure_cache_flush_ok cb) by done. eexists. split; [done|]. split; [apply hmac_len|done].
Qed.

End laws.

(** No label is a prefix of another: the five digests hash disjoint sets. *)
Lemma label_clash (l1 l2 r1 r2 : list byte) (n : nat) :
  (n <= length l1)%nat -> (n <= length l2)%nat -> l1 ++ r1 = l2 ++ r2 -> take n l1 = take n l2.
Proof.
  intros H1 H2 E. apply (f_equal (take n)) in E. by rewrite !take_app_le in E by lia.
Qed.

(** * Claims *)

(** The binding is unambiguous: two handshakes hash the same bytes only if they
    agree on the key-generating side's ML-KEM key and X25519 key, on both
    identities and on the application info. *)
Theorem auth_binding_unambiguous `{CryptoLaws}
    (ek ek' : PublicKey1024) (x x' ki ki' ei ei' ai ai' : list byte) :
  length x = 32%nat -> length x' = 32%nat -> length ki = 48%nat -> length ki' = 48%nat ->
  length ei = 48%nat -> length ei' = 48%nat -> zlen ai < 2 ^ 32 -> zlen ai' < 2 ^ 32 ->
  concat (binding_parts ek x ki ei ai (zlen ai)) = concat (binding_parts ek' x' ki' ei' ai' (zlen ai')) ->
  ek = ek' /\ x = x' /\ ki = ki' /\ ei = ei' /\ ai = ai'.
Proof. apply binding_parts_inj. Qed.

(** The hash inputs of the five kinds of digest never coincide, whatever the
    contents: an identity, a binding, a transcript and the two signed digests cannot
    be confused with one another; and the two roles sign under different contexts
    and MAC under labels of which neither starts the other. *)
Theorem auth_domains_separated `{CryptoOps} (vk : PublicKey87) (ek : PublicKey1024)
    (x ki ei ai b ct y t1 g1 t2 g2 : list byte) (n : Z) :
  let kinds := [concat (identity_parts vk); concat (binding_parts ek x ki ei ai n);
                concat (transcript_parts b ct y); concat (encapsulator_digest_parts t1 g1);
                concat (keygen_digest_parts t2 g2)] in
  NoDup kinds /\
  CONTEXT_ENCAPSULATING_SIDE <> CONTEXT_KEYGEN_SIDE /\
  (forall d1 d2, CONFIRM_LABEL_ENCAPSULATING_SIDE ++ d1 <> CONFIRM_LABEL_KEYGEN_SIDE ++ d2).
Proof.
  assert (Hne : forall l1 l2 r1 r2 : list byte, (25 <= length l1)%nat -> (25 <= length l2)%nat ->
    take 25 l1 <> take 25 l2 -> l1 ++ r1 <> l2 ++ r2).
  { intros l1 l2 r1 r2 H1 H2 Hd E. apply Hd. by apply (label_clash l1 l2 r1 r2). }
  intros kinds. split; [|split].
  - unfold kinds. cbn [concat identity_parts binding_parts transcript_parts encapsulator_digest_parts
      keygen_digest_parts].
    repeat (apply NoDup_cons; split; [|try apply NoDup_nil_2]);
      repeat (apply not_elem_of_cons; split; [apply Hne; vm_compute; (lia || discriminate)|]);
      apply not_elem_of_nil.
  - vm_compute. discriminate.
  - intros d1 d2 E. apply (label_clash _ _ _ _ 27) in E; vm_compute in E; (lia || discriminate).
Qed.

Lemma auth_binding_unambiguous_witness :
  tt = tt /\ zeros 32 = zeros 32 /\ zeros 48 = zeros 48 /\ zeros 48 = zeros 48 /\ [x01] = [x01].
Proof.
  apply (@auth_binding_unambiguous toy_ops toy_laws tt tt (zeros 32) (zeros 32) (zeros 48) (zeros 48) (zeros 48) (zeros 48)
    [x01] [x01]); done.
Defined.
