(* ===== verification/Session.v ===== *)
(** session_manager.rs, first half: the session state, nonces and the replay window,
    packet protection, key integrity and zeroization.

    [world] is a session manager together with the host. [&mut] output buffers are
    arguments and results, as in Aead.v. Assigning [None] to a key drops it; the
    drop's wiping of memory nobody can reach any more is not observable. *)

From S2P Require Import Prelude CryptoHost Primitives ToyCrypto Aead.
Local Open Scope Z_scope.

Module Sess.

Section data.
Context `{CryptoOps}.

Record PendingAuthentication : Type := MkPending {
  digest : list byte;
  peer_identity : list byte;
  confirmation_key : list byte
}.

Record SessionManager : Type := MkSession {
  ml_kem_dk : option DecapsKey1024;
  x25519_sk : option X25519Secret;
  tx_key : option (list byte);
  rx_key : option (list byte);
  tx_key_checksum : Z;
  rx_key_checksum : Z;
  is_established : bool;
  tx_counter : Z;
  rx_counter : Z;
  rx_window : Z;
  pending_auth : option PendingAuthentication
}.

Record world : Type := MkWorld {
  sm : SessionManager;
  ch : CHost
}.

Definition new : SessionManager := MkSession None None None None 0 0 false 0 0 0 None.

Definition set_sm (s : SessionManager) (w : world) : world := MkWorld s (ch w).
Definition set_ch (h : CHost) (w : world) : world := MkWorld (sm w) h.
Definition on_host {A} (m : M CHost A) : M world A := zoom ch set_ch m.
Definition on_sm (f : SessionManager -> SessionManager) : M world unit :=
  modify (fun w => set_sm (f (sm w)) w).

Definition set_dk v s := MkSession v (x25519_sk s) (tx_key s) (rx_key s) (tx_key_checksum s)
  (rx_key_checksum s) (is_established s) (tx_counter s) (rx_counter s) (rx_window s) (pending_auth s).
Definition set_sk v s := MkSession (ml_kem_dk s) v (tx_key s) (rx_key s) (tx_key_checksum s)
  (rx_key_checksum s) (is_established s) (tx_counter s) (rx_counter s) (rx_window s) (pending_auth s).
Definition set_tx v s := MkSession (ml_kem_dk s) (x25519_sk s) v (rx_key s) (tx_key_checksum s)
  (rx_key_checksum s) (is_established s) (tx_counter s) (rx_counter s) (rx_window s) (pending_auth s).
Definition set_rx v s := MkSession (ml_kem_dk s) (x25519_sk s) (tx_key s) v (tx_key_checksum s)
  (rx_key_checksum s) (is_established s) (tx_counter s) (rx_counter s) (rx_window s) (pending_auth s).
Definition set_tx_sum v s := MkSession (ml_kem_dk s) (x25519_sk s) (tx_key s) (rx_key s) v
  (rx_key_checksum s) (is_established s) (tx_counter s) (rx_counter s) (rx_window s) (pending_auth s).
Definition set_rx_sum v s := MkSession (ml_kem_dk s) (x25519_sk s) (tx_key s) (rx_key s) (tx_key_checksum s)
  v (is_established s) (tx_counter s) (rx_counter s) (rx_window s) (pending_auth s).
Definition set_established v s := MkSession (ml_kem_dk s) (x25519_sk s) (tx_key s) (rx_key s)
  (tx_key_checksum s) (rx_key_checksum s) v (tx_counter s) (rx_counter s) (rx_window s) (pending_auth s).
Definition set_tx_counter v s := MkSession (ml_kem_dk s) (x25519_sk s) (tx_key s) (rx_key s)
  (tx_key_checksum s) (rx_key_checksum s) (is_established s) v (rx_counter s) (rx_window s) (pending_auth s).
Definition set_rx_counter v s := MkSession (ml_kem_dk s) (x25519_sk s) (tx_key s) (rx_key s)
  (tx_key_checksum s) (rx_key_checksum s) (is_established s) (tx_counter s) v (rx_window s) (pending_auth s).
Definition set_rx_window v s := MkSession (ml_kem_dk s) (x25519_sk s) (tx_key s) (rx_key s)
  (tx_key_checksum s) (rx_key_checksum s) (is_established s) (tx_counter s) (rx_counter s) v (pending_auth s).
Definition set_pending v s := MkSession (ml_kem_dk s) (x25519_sk s) (tx_key s) (rx_key s)
  (tx_key_checksum s) (rx_key_checksum s) (is_established s) (tx_counter s) (rx_counter s) (rx_window s) v.

(** * Key integrity *)

(** One iteration of the checksum loop. *)
Definition checksum_step (checksum : Z) (index : nat) (b : byte) : Z :=
  let checksum := Z.lxor checksum (shl 32 (bval b) (Z.of_nat (index mod 4) * 8)) in
  Z.lxor (rotate_left 32 checksum 5) 0x9E3779B9.

Fixpoint checksum_from (index : nat) (checksum : Z) (key : list byte) : Z :=
  match key with
  | [] => checksum
  | b :: key' => checksum_from (S index) (checksum_step checksum index b) key'
  end.

Definition key_checksum (key : list byte) : Z := checksum_from 0 0 key.

Definition verify_key_integrity : M world (result unit CryptoError) :=
  w ← get;
  if negb (is_established (sm w)) then mret (Err InvalidState) else
  match tx_key (sm w), rx_key (sm w) with
  | Some tx, Some rx =>
      let tx_difference := Z.lxor (key_checksum tx) (tx_key_checksum (sm w)) in
      let rx_difference := Z.lxor (key_checksum rx) (rx_key_checksum (sm w)) in
      if negb (Z.lor tx_difference rx_difference =? 0) then mret (Err InvalidState)
      else mret (Ok tt)
  | _, _ => mret (Err InvalidState)
  end.

(** * Zeroization *)

Definition wipe_pending_authentication : M world unit :=
  w ← get;
  match pending_auth (sm w) with
  | Some pending =>
      let wiped := MkPending (secure_zeroize (digest pending)) (secure_zeroize (peer_identity pending))
                     (secure_zeroize (confirmation_key pending)) in
      on_sm (set_pending (Some wiped)) ;;
      on_host (secure_cache_flush (confirmation_key wiped))
  | None => mret tt
  end ;;
  on_sm (set_pending None).

Definition zeroize_session : M world unit :=
  on_sm (set_dk None) ;;
  on_sm (set_sk None) ;;
  w ← get;
  match tx_key (sm w) with
  | Some key =>
      on_sm (set_tx (Some (secure_zeroize key))) ;; on_host (secure_cache_flush (secure_zeroize key))
  | None => mret tt
  end ;;
  w ← get;
  match rx_key (sm w) with
  | Some key =>
      on_sm (set_rx (Some (secure_zeroize key))) ;; on_host (secure_cache_flush (secure_zeroize key))
  | None => mret tt
  end ;;
  on_sm (set_tx None) ;;
  on_sm (set_rx None) ;;
  on_sm (set_tx_sum 0) ;;
  on_sm (set_rx_sum 0) ;;
  on_sm (set_established false) ;;
  on_sm (set_tx_counter 0) ;;
  on_sm (set_rx_counter 0) ;;
  on_sm (set_rx_window 0) ;;
  wipe_pending_authentication.

(** * Nonces *)

(** [nonce[..8] = counter.to_le_bytes(); nonce[8..].fill(0)] *)
Definition nonce_of (counter : Z) : list byte := le_bytes 8 counter ++ zeros 4.

(** The answer and what the caller's nonce buffer holds afterwards. *)
Definition get_next_tx_nonce (nonce : list byte) : M world (result unit CryptoError * list byte) :=
  w ← get;
  if tx_counter (sm w) =? u64_max then mret (Err InvalidState, nonce) else
  let nonce := nonce_of (tx_counter (sm w)) in
  match checked_add 64 (tx_counter (sm w)) 1 with
  | None => mret (Err InvalidState, nonce)
  | Some c => on_sm (set_tx_counter c) ;; mret (Ok tt, nonce)
  end.

Definition check_rx_nonce (host_nonce : list byte) : M world (result unit CryptoError) :=
  w ← get;
  if negb (all_eq x00 (drop 8 host_nonce)) then mret (Err InvalidState) else
  let sequence := le_val (take 8 host_nonce) in
  if rx_counter (sm w) <? sequence then mret (Ok tt) else
  let offset := rx_counter (sm w) - sequence in
  if (64 <=? offset) || negb (Z.land (rx_window (sm w)) (shl 64 1 offset) =? 0)
  then mret (Err InvalidState) else mret (Ok tt).

Definition commit_rx_nonce (host_nonce : list byte) : M world unit :=
  let sequence := le_val (take 8 host_nonce) in
  w ← get;
  if rx_counter (sm w) <? sequence then
    let shift := sequence - rx_counter (sm w) in
    on_sm (set_rx_window (if 64 <=? shift then 1 else Z.lor (shl 64 (rx_window (sm w)) shift) 1)) ;;
    on_sm (set_rx_counter sequence)
  else
    let offset := rx_counter (sm w) - sequence in
    if 64 <=? offset then mret tt else
    on_sm (set_rx_window (Z.lor (rx_window (sm w)) (shl 64 1 offset))).

(** * Packets *)

(** The answer and the ciphertext, nonce and tag buffers afterwards. *)
Definition encrypt_packet (aad plaintext ciphertext nonce tag : list byte)
  : M world (result unit CryptoError * list byte * list byte * list byte) :=
  w ← get;
  if negb (is_established (sm w)) || bool_decide (is_Some (pending_auth (sm w))) ||
     negb (length ciphertext =? length plaintext)%nat
  then mret (Err InvalidState, ciphertext, nonce, tag) else
  if tx_counter (sm w) =? u64_max then mret (Err InvalidState, ciphertext, nonce, tag) else
  match tx_key (sm w) with
  | None => mret (Err InvalidState, ciphertext, nonce, tag)
  | Some key =>
    let enc_key := take 32 key in
    let mac_key := drop 32 key in
    let pending_nonce := nonce_of (tx_counter (sm w)) in
    r ← on_host (aead_encrypt enc_key mac_key pending_nonce aad plaintext ciphertext tag);
    let '(result, ciphertext, tag) := r in
    match result with
    | Err e => mret (Err e, ciphertext, nonce, tag)
    | Ok _ =>
      let nonce := pending_nonce in
      match checked_add 64 (tx_counter (sm w)) 1 with
      | None => mret (Err InvalidState, ciphertext, nonce, tag)
      | Some c => on_sm (set_tx_counter c) ;; mret (Ok tt, ciphertext, nonce, tag)
      end
    end
  end.

(** The answer and the plaintext buffer afterwards. *)
Definition decrypt_packet (aad ciphertext nonce tag plaintext : list byte)
  : M world (result unit CryptoError * list byte) :=
  w ← get;
  if negb (is_established (sm w)) || bool_decide (is_Some (pending_auth (sm w))) ||
     negb (length plaintext =? length ciphertext)%nat
  then mret (Err InvalidState, plaintext) else
  fresh ← check_rx_nonce nonce;
  match fresh with
  | Err e => mret (Err e, plaintext)
  | Ok _ =>
    match rx_key (sm w) with
    | None => mret (Err InvalidState, plaintext)
    | Some key =>
      let enc_key := take 32 key in
      let mac_key := drop 32 key in
      r ← on_host (aead_decrypt enc_key mac_key nonce aad ciphertext tag plaintext);
      let '(result, plaintext) := r in
      match result with
      | Err e => mret (Err e, plaintext)
      | Ok _ => commit_rx_nonce nonce ;; mret (Ok tt, plaintext)
      end
    end
  end.

End data.

(** * Zeroization, run *)

Section zeroization.
Context `{CryptoOps}.

(** The flushes a wipe makes: each present key and the confirmation key, all zero. *)
Definition wipe_events (cb : CFnPtr) (s : SessionManager) : list cevent :=
  match tx_key s with Some k => flush_events cb (zeros (length k)) | None => [] end ++
  match rx_key s with Some k => flush_events cb (zeros (length k)) | None => [] end ++
  match pending_auth s with
  | Some p => flush_events cb (zeros (length (confirmation_key p))) | None => [] end.

Lemma on_host_flush (cb : CFnPtr) (data : list byte) (w : world) :
  c_cache_flush (ch w) = Some cb ->
  on_host (secure_cache_flush data) w = Done tt (set_ch (add_events (flush_events cb data) (ch w)) w).
Proof. intros E. unfold on_host, zoom. by rewrite (secure_cache_flush_ok cb). Qed.

Lemma wipe_pending_run (cb : CFnPtr) (w : world) :
  c_cache_flush (ch w) = Some cb ->
  wipe_pending_authentication w =
    Done tt (MkWorld (set_pending None (sm w))
      (add_events (match pending_auth (sm w) with
         | Some p => flush_events cb (zeros (length (confirmation_key p))) | None => [] end) (ch w))).
Proof.
  intros Hcb. unfold wipe_pending_authentication, on_sm. msimpl.
  destruct (pending_auth (sm w)) as [p|] eqn:Ep.
  - rewrite (on_host_flush cb) by done. done.
  - by rewrite add_events_nil.
Qed.

Lemma zeroize_run (cb : CFnPtr) (w : world) :
  c_cache_flush (ch w) = Some cb ->
  zeroize_session w = Done tt (MkWorld new (add_events (wipe_events cb (sm w)) (ch w))).
Proof.
  intros Hcb. destruct w as [[dk sk tx rx ts rs est tc rc rw pa] h]. cbn in Hcb.
  unfold zeroize_session, wipe_events, on_sm. msimpl. cbn.
  destruct tx as [kt|]; cbn; [rewrite (on_host_flush cb) by done|]; cbn;
    (destruct rx as [kr|]; cbn; [rewrite (on_host_flush cb) by done|]; cbn);
    rewrite (wipe_pending_run cb) by done; cbn; rewrite ?add_events_app, ?app_nil_r, <- ?app_assoc; done.
Qed.

Lemma wipe_events_zero (cb : CFnPtr) (s : SessionManager) :
  Forall (fun e => exists k, e = CEvFlush cb (zeros k)) (wipe_events cb s).
Proof.
  assert (Hf : forall k, Forall (fun e => exists k, e = CEvFlush cb (zeros k)) (flush_events cb (zeros k))).
  { intros k. unfold flush_events. case_match; [done|]. constructor; [by eexists|done]. }
  unfold wipe_events. repeat (apply Forall_app; split); case_match; auto.
Qed.

End zeroization.

(** * Replay window

    The specification is the list of sequence numbers committed so far. *)

Section replay.
Context `{CryptoOps}.

Record window_repr (s : SessionManager) (seen : list Z) : Prop := {
  wr_counter : in_width 64 (rx_counter s);
  wr_window : in_width 64 (rx_window s);
  wr_max : Forall (fun q => 0 <= q <= rx_counter s) seen;
  wr_bits : forall i, 0 <= i < 64 ->
    (Z.testbit (rx_window s) i = true <-> rx_counter s - i ∈ seen)
}.

(** Fresh: newer than everything committed, or inside the window and not yet seen. *)
Definition fresh (counter : Z) (seen : list Z) (q : Z) : Prop :=
  counter < q \/ (counter - q < 64 /\ q ∉ seen).

Definition sequence_of (nonce : list byte) : Z := le_val (take 8 nonce).

Definition well_formed_nonce (nonce : list byte) : Prop :=
  length nonce = 12%nat /\ drop 8 nonce = zeros 4.

Lemma window_new : window_repr new [].
Proof.
  split; cbn; [done|done|done|]. intros i Hi. rewrite Z.testbit_0_l. split; [done|].
  intros H0. by apply not_elem_of_nil in H0.
Qed.

Lemma nonce_width (nonce : list byte) : in_width 64 (sequence_of nonce).
Proof.
  unfold sequence_of. pose proof (le_val_range (take 8 nonce)) as [H1 H2]. split; [done|].
  eapply Z.lt_le_trans; [exact H2|]. change (2 ^ 64) with (256 ^ 8).
  apply Z.pow_le_mono_r; [lia|]. unfold zlen. rewrite length_take. lia.
Qed.

Lemma bit_test (x i : Z) : 0 <= i < 64 -> (Z.land x (shl 64 1 i) =? 0) = negb (Z.testbit x i).
Proof.
  intros Hi. destruct (Z.testbit x i) eqn:E; cbn.
  - apply Z.eqb_neq. intros E0. apply (f_equal (fun z => Z.testbit z i)) in E0.
    by rewrite Z.land_spec, E, shl_one_testbit, Z.eqb_refl, Z.testbit_0_l in E0 by lia.
  - apply Z.eqb_eq. apply Z.bits_inj'. intros j Hj.
    rewrite Z.land_spec, shl_one_testbit, Z.testbit_0_l by lia.
    destruct (Z.eqb_spec j i) as [->|]; [by rewrite E|by rewrite andb_false_r].
Qed.

Lemma check_run (nonce : list byte) (w : world) (seen : list Z) :
  window_repr (sm w) seen -> length nonce = 12%nat ->
  exists r, check_rx_nonce nonce w = Done r w /\
    (r = Ok tt <-> well_formed_nonce nonce /\ fresh (rx_counter (sm w)) seen (sequence_of nonce)) /\
    (r <> Ok tt -> r = Err InvalidState).
Proof.
  intros [Hc Hw Hm Hb] Hl. unfold check_rx_nonce. msimpl. fold (sequence_of nonce).
  pose proof (nonce_width nonce) as Hq. unfold fresh, well_formed_nonce, in_width in *.
  assert (Hz : all_eq x00 (drop 8 nonce) = true <-> drop 8 nonce = zeros 4).
  { rewrite all_eq_spec, length_drop, Hl. done. }
  destruct (all_eq x00 (drop 8 nonce)) eqn:Ez; cbn [negb].
  2:{ eexists. split; [done|]. split; [|done]. split; [done|]. intros [[_ Hbad] _]. by apply Hz in Hbad. }
  destruct (Z.ltb_spec (rx_counter (sm w)) (sequence_of nonce)) as [Hgt|Hle].
  { eexists. split; [done|]. split; [|done]. split; [|done]. intros _. split; [|by left].
    split; [done|by apply Hz]. }
  destruct (Z.leb_spec 64 (rx_counter (sm w) - sequence_of nonce)) as [Hold|Hin]; cbn [orb].
  { eexists. split; [done|]. split; [|done]. split; [done|]. intros [_ Hf]. lia. }
  rewrite bit_test, negb_involutive by lia.
  specialize (Hb (rx_counter (sm w) - sequence_of nonce) ltac:(lia)).
  replace (rx_counter (sm w) - (rx_counter (sm w) - sequence_of nonce)) with (sequence_of nonce) in Hb by lia.
  destruct (Z.testbit (rx_window (sm w)) _).
  - eexists. split; [done|]. split; [|done]. split; [done|]. intros [_ Hf].
    destruct Hf as [|[_ Hn]]; [lia|]. exfalso. by apply Hn, Hb.
  - eexists. split; [done|]. split; [|done]. split; [|done]. intros _.
    split; [split; [done|by apply Hz]|]. right. split; [lia|]. intros Hin'. by apply Hb in Hin'.
Qed.

(** Everything a commit leaves alone. *)
Definition same_but_window (s s' : SessionManager) : Prop :=
  s' = set_rx_counter (rx_counter s') (set_rx_window (rx_window s') s).

Lemma commit_run (nonce : list byte) (w : world) (seen : list Z) :
  window_repr (sm w) seen -> fresh (rx_counter (sm w)) seen (sequence_of nonce) ->
  exists s', commit_rx_nonce nonce w = Done tt (set_sm s' w) /\
    window_repr s' (sequence_of nonce :: seen) /\
    rx_counter s' = Z.max (rx_counter (sm w)) (sequence_of nonce) /\ same_but_window (sm w) s'.
Proof.
  intros [Hc Hw Hm Hb] Hf. pose proof (nonce_width nonce) as Hq.
  unfold commit_rx_nonce, on_sm. fold (sequence_of nonce). set (q := sequence_of nonce) in *. msimpl.
  unfold fresh, in_width in *.
  destruct (Z.ltb_spec (rx_counter (sm w)) q) as [Hgt|Hle].
  - eexists. split; [done|]. rewrite Z.max_r by lia. split; [|by destruct (sm w)].
    split; cbn.
    + exact Hq.
    + destruct (64 <=? q - rx_counter (sm w)); [done|].
      apply lor_width; [lia|apply shl_range; lia|done].
    + constructor; [lia|]. eapply Forall_impl; [exact Hm|]. cbn. lia.
    + intros i Hi. rewrite elem_of_cons. rewrite Forall_forall in Hm.
      assert (Hone : Z.testbit 1 i = (i =? 0)).
      { change 1 with (2 ^ 0). rewrite Z.pow2_bits_eqb by lia. apply Z.eqb_sym. }
      destruct (Z.leb_spec 64 (q - rx_counter (sm w))).
      * rewrite Hone, Z.eqb_eq. split; [intros ->; left; lia|].
        intros [E|Hin]; [lia|]. specialize (Hm _ Hin). lia.
      * rewrite Z.lor_spec, shl_testbit, Hone by lia.
        rewrite (proj2 (Z.ltb_lt i 64)) by lia. cbn [andb]. rewrite orb_true_iff, Z.eqb_eq.
        destruct (Z.leb_spec (q - rx_counter (sm w)) i) as [Hi'|Hi']; cbn [andb].
        -- rewrite Hb by lia.
           replace (rx_counter (sm w) - (i - (q - rx_counter (sm w)))) with (q - i) by lia.
           split; [intros [?|?]; [by right|left; lia]|intros [?|?]; [right; lia|by left]].
        -- split; [intros [?|?]; [done|left; lia]|].
           intros [E|Hin]; [right; lia|]. specialize (Hm _ Hin). lia.
  - destruct Hf as [|[Hwin Hn]]; [lia|].
    destruct (Z.leb_spec 64 (rx_counter (sm w) - q)); [lia|].
    eexists. split; [done|]. rewrite Z.max_l by lia. split; [|by destruct (sm w)]. split; cbn.
    + exact Hc.
    + apply lor_width; [lia|done|apply shl_range; lia].
    + constructor; [lia|done].
    + intros i Hi. rewrite elem_of_cons, Z.lor_spec, shl_one_testbit by lia.
      rewrite orb_true_iff, Z.eqb_eq, Hb by lia.
      split; [intros [?|?]; [by right|left; lia]|intros [?|?]; [right; lia|by left]].
Qed.

End replay.

(** * Packets, run *)

Section packets.
Context `{CryptoLaws}.

Lemma session_host_done {A} (m : M CHost A) (w : world) (a : A) (h : CHost) :
  m (ch w) = Done a h -> on_host m w = Done a (set_ch h w).
Proof. intros E. unfold on_host, zoom. by rewrite E. Qed.

Lemma length_nonce_of (c : Z) : length (nonce_of c) = 12%nat.
Proof. unfold nonce_of. by rewrite length_app, length_le_bytes, length_zeros. Qed.

Lemma sequence_nonce_of (c : Z) : in_width 64 c -> sequence_of (nonce_of c) = c.
Proof.
  intros Hc. unfold sequence_of, nonce_of. rewrite take_app_length' by (by rewrite length_le_bytes).
  by apply le_val_small.
Qed.

Lemma well_formed_nonce_of (c : Z) : well_formed_nonce (nonce_of c).
Proof.
  split; [apply length_nonce_of|]. unfold nonce_of. by rewrite drop_app_length' by (by rewrite length_le_bytes).
Qed.

Lemma aead_encrypt_total (cb : CFnPtr) (ek mk n aad pt ct mac : list byte) (h : CHost) :
  c_cache_flush h = Some cb ->
  exists r h', aead_encrypt ek mk n aad pt ct mac h = Done r h' /\ c_cache_flush h' = Some cb.
Proof.
  intros Hcb. unfold aead_encrypt. repeat (dmatch; [by eexists _, _|]).
  all: repeat (dmatch; try by eexists _, _). all: msimpl.
  all: rewrite (secure_cache_flush_ok cb) by done; rewrite (secure_cache_flush_ok cb) by done.
  all: by eexists _, _.
Qed.

Lemma aead_decrypt_total (cb : CFnPtr) (ek mk n aad ct mac pt : list byte) (h : CHost) :
  c_cache_flush h = Some cb ->
  exists r h', aead_decrypt ek mk n aad ct mac pt h = Done r h' /\ c_cache_flush h' = Some cb.
Proof.
  intros Hcb. unfold aead_decrypt. cbv zeta. repeat (dmatch; try by eexists _, _).
  all: msimpl; rewrite (secure_cache_flush_ok cb) by done. all: by eexists _, _.
Qed.

(** Sealing touches only the counter, and only when it succeeds. *)
Lemma encrypt_packet_frame (cb : CFnPtr) (aad pt ct n tag : list byte) (w : world) :
  c_cache_flush (ch w) = Some cb -> in_width 64 (tx_counter (sm w)) ->
  exists r ct' n' tag' w', encrypt_packet aad pt ct n tag w = Done (r, ct', n', tag') w' /\
    c_cache_flush (ch w') = Some cb /\
    (r = Ok tt -> tx_counter (sm w) < u64_max /\ n' = nonce_of (tx_counter (sm w)) /\
                  sm w' = set_tx_counter (tx_counter (sm w) + 1) (sm w)) /\
    (r <> Ok tt -> sm w' = sm w).
Proof.
  intros Hcb Hw. unfold encrypt_packet. msimpl.
  destruct (negb _ || _ || _); [by eexists _, _, _, _, _|].
  destruct (Z.eqb_spec (tx_counter (sm w)) u64_max) as [|Hne]; [by eexists _, _, _, _, _|].
  destruct (tx_key (sm w)) as [key|]; [|by eexists _, _, _, _, _].
  edestruct (aead_encrypt_total cb) as (r & h' & E & Hcb'); [exact Hcb|].
  erewrite session_host_done by exact E. destruct r as [[[[]|e] ct'] tag']; [|by eexists _, _, _, _, _].
  unfold in_width, u64_max in *. unfold checked_add. rewrite (proj2 (Z.ltb_lt _ _)) by lia.
  eexists _, _, _, _, _. split; [done|]. split; [done|]. split; [|done]. intros _.
  split_and!; [lia|done|done].
Qed.

(** Opening touches only the window, and only when it succeeds. *)
Lemma decrypt_packet_frame (cb : CFnPtr) (aad ct n tag pt : list byte) (w : world) (seen : list Z) :
  c_cache_flush (ch w) = Some cb -> window_repr (sm w) seen -> length n = 12%nat ->
  exists r pt' w', decrypt_packet aad ct n tag pt w = Done (r, pt') w' /\
    c_cache_flush (ch w') = Some cb /\
    (r = Ok tt -> well_formed_nonce n /\ fresh (rx_counter (sm w)) seen (sequence_of n) /\
                  window_repr (sm w') (sequence_of n :: seen) /\ same_but_window (sm w) (sm w')) /\
    (r <> Ok tt -> sm w' = sm w).
Proof.
  intros Hcb Hrep Hn. unfold decrypt_packet. msimpl.
  destruct (negb _ || _ || _); [by eexists _, _, _|].
  destruct (check_run n w seen Hrep Hn) as (c & -> & Hc & _).
  destruct c as [[]|e]; [|by eexists _, _, _]. destruct (proj1 Hc eq_refl) as [Hwf Hf].
  destruct (rx_key (sm w)) as [key|]; [|by eexists _, _, _].
  edestruct (aead_decrypt_total cb) as (r & h' & E & Hcb'); [exact Hcb|].
  erewrite session_host_done by exact E. destruct r as [[[]|e] pt']; [|by eexists _, _, _].
  destruct (commit_run n (set_ch h' w) seen Hrep Hf) as (s' & -> & Hrep' & _ & Hsame).
  eexists _, _, _. split; [done|]. split; [done|]. split; [|done]. by intros _.
Qed.

(** * Sequences of packet calls *)

Inductive packet_op : Type :=
| Seal (aad pt ct nonce tag : list byte)
| Open (aad ct nonce tag pt : list byte)
| NextNonce (nonce : list byte).

Inductive packet_out : Type :=
| Sealed (r : result unit CryptoError) (ct nonce tag : list byte)
| Opened (r : result unit CryptoError) (nonce pt : list byte)
| Given (r : result unit CryptoError) (nonce : list byte).

Definition packet_step (o : packet_op) : M world packet_out :=
  match o with
  | Seal aad pt ct n tag =>
      r ← encrypt_packet aad pt ct n tag; let '(r, ct', n', tag') := r in mret (Sealed r ct' n' tag')
  | Open aad ct n tag pt =>
      r ← decrypt_packet aad ct n tag pt; let '(r, pt') := r in mret (Opened r n pt')
  | NextNonce n => r ← get_next_tx_nonce n; let '(r, n') := r in mret (Given r n')
  end.

Fixpoint packet_run (os : list packet_op) : M world (list packet_out) :=
  match os with
  | [] => mret []
  | o :: os' => r ← packet_step o; rs ← packet_run os'; mret (r :: rs)
  end.

(** The nonce a successful call handed out for sending. *)
Definition sent_nonce (o : packet_out) : option (list byte) :=
  match o with Sealed (Ok _) _ n _ | Given (Ok _) n => Some n | _ => None end.

(** The sequence number a successful call accepted. *)
Definition accepted (o : packet_out) : option Z :=
  match o with Opened (Ok _) n _ => Some (sequence_of n) | _ => None end.

Definition packet_ok (o : packet_op) : Prop :=
  match o with Open _ _ n _ _ => length n = 12%nat | _ => True end.

Lemma packet_step_frame (cb : CFnPtr) (o : packet_op) (w : world) (seen : list Z) :
  c_cache_flush (ch w) = Some cb -> in_width 64 (tx_counter (sm w)) ->
  window_repr (sm w) seen -> packet_ok o ->
  exists out w', packet_step o w = Done out w' /\ c_cache_flush (ch w') = Some cb /\
    in_width 64 (tx_counter (sm w')) /\
    match sent_nonce out with
    | Some n => n = nonce_of (tx_counter (sm w)) /\ tx_counter (sm w') = tx_counter (sm w) + 1
    | None => tx_counter (sm w') = tx_counter (sm w)
    end /\
    match accepted out with
    | Some q => (q ∉ seen) /\ window_repr (sm w') (q :: seen)
    | None => window_repr (sm w') seen
    end.
Proof.
  intros Hcb Hw Hrep Hok. destruct o as [aad pt ct n tag|aad ct n tag pt|n]; cbn [packet_step]; msimpl.
  - destruct (encrypt_packet_frame cb aad pt ct n tag w Hcb Hw) as (r & ct' & n' & tag' & w' & E & Hcb' & Hy & Hn).
    rewrite E. eexists _, _. split; [done|]. split; [done|]. destruct r as [[]|e]; cbn.
    + destruct (Hy eq_refl) as (Hlt & -> & ->). unfold u64_max, in_width in *. cbn.
      split_and!; [lia|lia|done|done|]. by destruct Hrep.
    + rewrite Hn by done. done.
  - destruct (decrypt_packet_frame cb aad ct n tag pt w seen Hcb Hrep Hok) as (r & pt' & w' & E & Hcb' & Hy & Hn).
    rewrite E. eexists _, _. split; [done|]. split; [done|]. destruct r as [[]|e]; cbn.
    + destruct (Hy eq_refl) as (_ & Hf & Hrep' & Hsame). rewrite Hsame. cbn.
      split_and!; [apply Hw..|done| |].
      * intros Hin. pose proof (wr_max _ _ Hrep) as Hm. rewrite Forall_forall in Hm.
        specialize (Hm _ Hin). destruct Hf as [|[_ Hni]]; [lia|done].
      * by rewrite <- Hsame.
    + rewrite Hn by done. done.
  - unfold get_next_tx_nonce, on_sm. msimpl.
    destruct (Z.eqb_spec (tx_counter (sm w)) u64_max) as [|Hne]; [by eexists _, _|].
    unfold in_width, u64_max in *. unfold checked_add. rewrite (proj2 (Z.ltb_lt _ _)) by lia.
    eexists _, _. split; [done|]. cbn. split_and!; [done|lia|lia|done|done|]. by destruct Hrep.
Qed.

Lemma packet_run_frame (cb : CFnPtr) (os : list packet_op) (w : world) (seen : list Z) :
  c_cache_flush (ch w) = Some cb -> in_width 64 (tx_counter (sm w)) ->
  window_repr (sm w) seen -> Forall packet_ok os ->
  exists outs w', packet_run os w = Done outs w' /\
    omap sent_nonce outs = nonce_of <$> seqZ (tx_counter (sm w)) (tx_counter (sm w') - tx_counter (sm w)) /\
    tx_counter (sm w) <= tx_counter (sm w') < 2 ^ 64 /\
    NoDup (omap accepted outs) /\ (forall q, q ∈ omap accepted outs -> q ∉ seen).
Proof.
  revert w seen. induction os as [|o os IH]; intros w seen Hcb Hw Hrep Hok; cbn [packet_run].
  { exists [], w. rewrite Z.sub_diag. unfold in_width in Hw. cbn.
    split_and!; [done|done|lia|lia|constructor|]. intros q Hq. by apply not_elem_of_nil in Hq. }
  apply Forall_cons in Hok as [Ho Hos].
  destruct (packet_step_frame cb o w seen Hcb Hw Hrep Ho) as (out & w1 & E1 & Hcb1 & Hw1 & Hn1 & Ha1).
  msimpl. rewrite E1.
  set (seen1 := match accepted out with Some q => q :: seen | None => seen end).
  destruct (IH w1 seen1) as (outs & w2 & E2 & Hn2 & Hr2 & Hd2 & Hs2); [done|done| |done|].
  { unfold seen1. by destruct (accepted out); destruct_and?. }
  rewrite E2. exists (out :: outs), w2. cbn [omap list_omap]. split; [done|]. split_and!.
  - destruct (sent_nonce out) as [n|].
    + destruct Hn1 as [-> Ec]. rewrite Hn2, Ec. rewrite (seqZ_cons (tx_counter (sm w))) by lia.
      cbn. rewrite <- Z.add_1_r. f_equal. do 2 f_equal. lia.
    + by rewrite Hn2, Hn1.
  - destruct (sent_nonce out); destruct_and?; lia.
  - lia.
  - unfold seen1 in Hs2. destruct (accepted out) as [q|]; [|done]. apply NoDup_cons. split; [|done].
    intros Hin. apply (Hs2 q Hin). left.
  - unfold seen1 in Hs2. destruct (accepted out) as [q|]; [|done]. intros q' [->|Hin]%elem_of_cons.
    + by destruct Ha1.
    + specialize (Hs2 q' Hin). intros Hbad. apply Hs2. by right.
Qed.

End packets.

(** * Key integrity, run *)

Lemma byte_shift_width (b : byte) (i : nat) :
  shl 32 (bval b) (Z.of_nat (i mod 4) * 8) = bval b * 2 ^ (Z.of_nat (i mod 4) * 8) /\
  in_width 32 (shl 32 (bval b) (Z.of_nat (i mod 4) * 8)).
Proof.
  split; [|apply shl_range; lia]. unfold shl. rewrite Z.shiftl_mul_pow2 by lia. apply Z.mod_small.
  pose proof (bval_range b) as Hb. pose proof (Nat.mod_upper_bound i 4 ltac:(lia)) as Hi.
  set (k := Z.of_nat (i mod 4) * 8) in *.
  assert (0 < 2 ^ k <= 2 ^ 24) by (split; [apply pow2_pos|apply Z.pow_le_mono_r]; lia).
  change (2 ^ 32) with (256 * 2 ^ 24). nia.
Qed.

Lemma checksum_step_width (c : Z) (i : nat) (b : byte) :
  in_width 32 c -> in_width 32 (checksum_step c i b).
Proof.
  intros Hc. unfold checksum_step. apply lxor_width; [lia| |done].
  apply rotate_left_width; [lia|]. apply lxor_width; [lia|done|apply byte_shift_width].
Qed.

Lemma checksum_step_inj (c c' : Z) (i : nat) (b b' : byte) :
  in_width 32 c -> in_width 32 c' -> checksum_step c i b = checksum_step c' i b' ->
  Z.lxor c (shl 32 (bval b) (Z.of_nat (i mod 4) * 8)) = Z.lxor c' (shl 32 (bval b') (Z.of_nat (i mod 4) * 8)).
Proof.
  intros Hc Hc' E. unfold checksum_step in E. apply lxor_cancel_r in E.
  apply (rotate_left_inj 32 _ _ 5) in E; [done|lia|..];
    (apply lxor_width; [lia|done|apply byte_shift_width]).
Qed.

Lemma checksum_from_inj (key : list byte) (i : nat) (c c' : Z) :
  in_width 32 c -> in_width 32 c' -> checksum_from i c key = checksum_from i c' key -> c = c'.
Proof.
  revert i c c'. induction key as [|b key IH]; intros i c c' Hc Hc' E; cbn in E; [done|].
  apply IH in E; [|by apply checksum_step_width..].
  apply checksum_step_inj in E; [|done|done]. by apply lxor_cancel_r in E.
Qed.

Lemma checksum_from_app (l1 l2 : list byte) (i : nat) (c : Z) :
  checksum_from i c (l1 ++ l2) = checksum_from (i + length l1) (checksum_from i c l1) l2.
Proof.
  revert i c. induction l1 as [|b l1 IH]; intros i c; cbn; [by rewrite Nat.add_0_r|].
  rewrite IH. f_equal. lia.
Qed.

Lemma checksum_from_width (key : list byte) (i : nat) (c : Z) :
  in_width 32 c -> in_width 32 (checksum_from i c key).
Proof.
  revert i c. induction key as [|b key IH]; intros i c Hc; cbn; [done|].
  apply IH. by apply checksum_step_width.
Qed.

Lemma checksum_one_byte (l1 l2 : list byte) (b b' : byte) :
  b <> b' -> key_checksum (l1 ++ b :: l2) <> key_checksum (l1 ++ b' :: l2).
Proof.
  intros Hne E. unfold key_checksum in E. rewrite !checksum_from_app in E. cbn in E.
  pose proof (checksum_from_width l1 0 0 ltac:(done)) as Hw.
  apply checksum_from_inj in E; [|by apply checksum_step_width..].
  apply checksum_step_inj in E; [|done|done]. rewrite !(Z.lxor_comm (checksum_from _ _ _)) in E.
  apply lxor_cancel_r in E. rewrite !(proj1 (byte_shift_width _ _)) in E. apply Hne, bval_inj.
  eapply Z.mul_cancel_r; [|exact E]. apply Z.pow_nonzero; lia.
Qed.

(** * Claims *)

Section claim_lemmas.
Context `{CryptoLaws}.

Lemma nonce_of_inj (a b : Z) : in_width 64 a -> in_width 64 b -> nonce_of a = nonce_of b -> a = b.
Proof. intros Ha Hb E. apply (f_equal sequence_of) in E. by rewrite !sequence_nonce_of in E. Qed.

Lemma NoDup_nonces (c n : Z) : 0 <= c -> c + n <= 2 ^ 64 -> NoDup (nonce_of <$> seqZ c n).
Proof.
  intros Hc Hn. apply NoDup_fmap_2_strong; [|apply NoDup_seqZ].
  intros a b Ha Hb. rewrite !elem_of_seqZ in *. apply nonce_of_inj; unfold in_width; lia.
Qed.

(** Traffic is open: keys established, nothing pending. *)
Definition carries_traffic (s : SessionManager) : Prop := is_established s = true /\ pending_auth s = None.

Lemma encrypt_packet_run (cb : CFnPtr) (key aad pt ct n tag : list byte) (w : world) :
  c_cache_flush (ch w) = Some cb -> carries_traffic (sm w) -> tx_key (sm w) = Some key ->
  length key = 64%nat -> 0 <= tx_counter (sm w) < u64_max -> length ct = length pt ->
  zlen pt <= CHACHA20_MAX_BYTES ->
  let nonce := nonce_of (tx_counter (sm w)) in
  let c := stream (take 32 key) nonce pt in
  let t := tag_of (drop 32 key) nonce aad c in
  encrypt_packet aad pt ct n tag w =
    Done (Ok tt, c, nonce, t)
      (MkWorld (set_tx_counter (tx_counter (sm w) + 1) (sm w))
         (add_events (flush_events cb c ++ flush_events cb t) (ch w))).
Proof.
  intros Hcb [He Hp] Hk Hkl Hc Hl Hm nonce c t. unfold encrypt_packet. msimpl.
  rewrite He, Hp, Hl, Nat.eqb_refl, Hk. cbn [negb orb].
  rewrite bool_decide_false by (by intros [? ?]). cbn [orb].
  rewrite (proj2 (Z.eqb_neq _ _)) by lia.
  erewrite session_host_done; [|apply (encrypt_run cb); [|apply length_nonce_of|done..]].
  - unfold checked_add, u64_max in *. rewrite (proj2 (Z.ltb_lt _ _)) by lia. done.
  - rewrite length_take. lia.
Qed.

Lemma decrypt_packet_run (cb : CFnPtr) (key aad ct n tag pt : list byte) (w : world) (seen : list Z) :
  c_cache_flush (ch w) = Some cb -> carries_traffic (sm w) -> rx_key (sm w) = Some key ->
  length key = 64%nat -> window_repr (sm w) seen -> well_formed_nonce n ->
  fresh (rx_counter (sm w)) seen (sequence_of n) -> length pt = length ct -> zlen ct <= CHACHA20_MAX_BYTES ->
  if decide (tag = tag_of (drop 32 key) n aad ct)
  then exists s', decrypt_packet aad ct n tag pt w =
      Done (Ok tt, stream (take 32 key) n ct)
        (MkWorld s' (add_events (flush_events cb (stream (take 32 key) n ct)) (ch w))) /\
      window_repr s' (sequence_of n :: seen) /\ same_but_window (sm w) s' /\
      rx_counter s' = Z.max (rx_counter (sm w)) (sequence_of n)
  else decrypt_packet aad ct n tag pt w = Done (Err VerificationFailed, zeros (length pt)) w.
Proof.
  intros Hcb [He Hp] Hk Hkl Hrep Hwf Hf Hl Hm. unfold decrypt_packet. msimpl.
  rewrite He, Hp, Hl, Nat.eqb_refl, Hk. cbn [negb orb].
  rewrite bool_decide_false by (by intros [? ?]). cbn [orb].
  destruct (check_run n w seen Hrep (proj1 Hwf)) as (r & -> & Hr & _).
  rewrite (proj2 Hr) by done. unfold on_host, zoom.
  rewrite (decrypt_run cb); [|rewrite length_take; lia|apply Hwf|done..].
  rewrite <- Hl. case_decide; [|by destruct w].
  destruct (commit_run n (set_ch (add_events (flush_events cb (stream (take 32 key) n ct)) (ch w)) w) seen Hrep Hf)
    as (s' & -> & Hrep' & Hmax & Hsame).
  by exists s'.
Qed.

(** A committed sequence number is never fresh again. *)
Lemma seen_not_fresh (s : SessionManager) (seen : list Z) (q : Z) :
  window_repr s seen -> q ∈ seen -> ~ fresh (rx_counter s) seen q.
Proof.
  intros Hrep Hin [Hlt|[_ Hn]]; [|done].
  pose proof (wr_max _ _ Hrep) as Hm. rewrite Forall_forall in Hm. specialize (Hm _ Hin). lia.
Qed.

Lemma decrypt_packet_stale (aad ct n tag pt : list byte) (w : world) (seen : list Z) :
  window_repr (sm w) seen -> length n = 12%nat -> sequence_of n ∈ seen ->
  decrypt_packet aad ct n tag pt w = Done (Err InvalidState, pt) w.
Proof.
  intros Hrep Hn Hin. unfold decrypt_packet. msimpl. destruct (negb _ || _ || _); [done|].
  destruct (check_run n w seen Hrep Hn) as (r & -> & Hr & He).
  destruct (decide (r = Ok tt)) as [E|E].
  - apply Hr in E as [_ Hf]. by apply (seen_not_fresh _ _ _ Hrep) in Hf.
  - by rewrite (He E).
Qed.

(** Packets cross the link: when one side's transmit key is the other's
    receive key, a packet sealed here opens there to the same plaintext provided
    its number is fresh there; delivering the same packet again is refused and
    changes nothing. *)
Lemma packet_crosses (cb cb' : CFnPtr) (key aad pt ct0 n0 tag0 pt0 : list byte)
    (a b : world) (seen : list Z) :
  c_cache_flush (ch a) = Some cb -> c_cache_flush (ch b) = Some cb' ->
  carries_traffic (sm a) -> carries_traffic (sm b) ->
  tx_key (sm a) = Some key -> rx_key (sm b) = Some key -> length key = 64%nat ->
  0 <= tx_counter (sm a) < u64_max -> window_repr (sm b) seen ->
  fresh (rx_counter (sm b)) seen (tx_counter (sm a)) ->
  length ct0 = length pt -> length pt0 = length pt -> zlen pt <= CHACHA20_MAX_BYTES ->
  exists ct n tag a' b',
    encrypt_packet aad pt ct0 n0 tag0 a = Done (Ok tt, ct, n, tag) a' /\
    decrypt_packet aad ct n tag pt0 b = Done (Ok tt, pt) b' /\
    decrypt_packet aad ct n tag pt0 b' = Done (Err InvalidState, pt0) b'.
Proof.
  intros Hcb Hcb' Ha Hb Hta Hrb Hkl Hc Hrep Hf Hl Hl0 Hm. set (n := nonce_of (tx_counter (sm a))).
  assert (Hek : length (take 32 key) = 32%nat) by (rewrite length_take; lia).
  assert (Hq : sequence_of n = tx_counter (sm a)).
  { apply sequence_nonce_of. unfold in_width, u64_max in *. lia. }
  pose proof (length_stream _ n pt Hek (length_nonce_of _) Hm) as Hls.
  eexists _, _, _, _. pose proof (decrypt_packet_run cb' key aad (stream (take 32 key) n pt) n
    (tag_of (drop 32 key) n aad (stream (take 32 key) n pt)) pt0 b seen) as Hd.
  rewrite decide_True in Hd by done.
  destruct Hd as (s' & Hd & Hrep' & _); try done.
  { by rewrite Hq. }
  { congruence. }
  { unfold zlen in *. lia. }
  eexists. split; [by apply (encrypt_packet_run cb)|]. rewrite stream_stream in Hd by done.
  split; [exact Hd|]. eapply decrypt_packet_stale; [exact Hrep'|apply length_nonce_of|apply elem_of_cons; by left].
Qed.

End claim_lemmas.

(** C6: no nonce is ever sent twice under one key. In any sequence of sealing,
    opening and nonce requests, with arbitrary arguments, from any counter value,
    every call returns and the nonces handed out by the successful calls are the
    encodings of consecutive counter values, all different; the counter stops at
    its maximum instead of wrapping. *)
Theorem session_nonces_unique `{CryptoLaws} (cb : CFnPtr) (os : list packet_op) (w : world) (seen : list Z) :
  c_cache_flush (ch w) = Some cb -> in_width 64 (tx_counter (sm w)) ->
  window_repr (sm w) seen -> Forall packet_ok os ->
  exists outs w', packet_run os w = Done outs w' /\
    omap sent_nonce outs = nonce_of <$> seqZ (tx_counter (sm w)) (tx_counter (sm w') - tx_counter (sm w)) /\
    NoDup (omap sent_nonce outs) /\ tx_counter (sm w') <= u64_max.
Proof.
  intros Hcb Hw Hrep Hok.
  destruct (packet_run_frame cb os w seen Hcb Hw Hrep Hok) as (outs & w' & E & Hn & Hr & _).
  exists outs, w'. unfold in_width, u64_max in *. split_and!; [done|done| |lia].
  rewrite Hn. apply NoDup_nonces; lia.
Qed.

(** C5: no packet is accepted twice. In any sequence of packet calls the sequence
    numbers of the accepted packets are pairwise different, and none of them was
    accepted before the sequence started. *)
Theorem session_no_replay `{CryptoLaws} (cb : CFnPtr) (os : list packet_op) (w : world) (seen : list Z) :
  c_cache_flush (ch w) = Some cb -> in_width 64 (tx_counter (sm w)) ->
  window_repr (sm w) seen -> Forall packet_ok os ->
  exists outs w', packet_run os w = Done outs w' /\ NoDup (omap accepted outs) /\
    (forall q, q ∈ omap accepted outs -> q ∉ seen).
Proof.
  intros Hcb Hw Hrep Hok.
  destruct (packet_run_frame cb os w seen Hcb Hw Hrep Hok) as (outs & w' & E & _ & _ & Hd & Hs).
  by exists outs, w'.
Qed.

(** C34: the replay window is exact. A 12-byte nonce passes [check_rx_nonce] if and
    only if its last four bytes are zero and its sequence number is above the
    highest accepted one or within 64 of it and not accepted yet; committing it
    records exactly that number. *)
Theorem session_window_exact `{CryptoOps} (nonce : list byte) (w : world) (seen : list Z) :
  window_repr (sm w) seen -> length nonce = 12%nat ->
  (check_rx_nonce nonce w = Done (Ok tt) w /\ well_formed_nonce nonce /\
   fresh (rx_counter (sm w)) seen (sequence_of nonce) /\
   exists s', commit_rx_nonce nonce w = Done tt (set_sm s' w) /\
     window_repr s' (sequence_of nonce :: seen) /\
     rx_counter s' = Z.max (rx_counter (sm w)) (sequence_of nonce) /\ same_but_window (sm w) s') \/
  (check_rx_nonce nonce w = Done (Err InvalidState) w /\
   ~ (well_formed_nonce nonce /\ fresh (rx_counter (sm w)) seen (sequence_of nonce))).
Proof.
  intros Hrep Hl. destruct (check_run nonce w seen Hrep Hl) as (r & -> & Hr & He).
  destruct (decide (r = Ok tt)) as [E|E].
  - left. pose proof (proj1 Hr E) as [Hwf Hf]. subst r. split_and!; [done|done|done|].
    by apply commit_run.
  - right. rewrite (He E). split; [done|]. by intros Hx%Hr.
Qed.

(** C35: a forged packet costs the receiver nothing. When the tag is not the one the
    receive key gives for this nonce, associated data and ciphertext, the call
    answers [VerificationFailed], the caller's plaintext buffer is all zero, and
    the session (replay window included) and the host are untouched, so the
    genuine packet with that number is still accepted. *)
Theorem session_forgery_harmless `{CryptoLaws} (cb : CFnPtr) (key aad ct n tag pt0 : list byte) (w : world)
    (seen : list Z) :
  c_cache_flush (ch w) = Some cb -> carries_traffic (sm w) -> rx_key (sm w) = Some key ->
  length key = 64%nat -> window_repr (sm w) seen -> well_formed_nonce n ->
  fresh (rx_counter (sm w)) seen (sequence_of n) -> length pt0 = length ct -> zlen ct <= CHACHA20_MAX_BYTES ->
  tag <> tag_of (drop 32 key) n aad ct ->
  decrypt_packet aad ct n tag pt0 w = Done (Err VerificationFailed, zeros (length pt0)) w /\
  exists w', decrypt_packet aad ct n (tag_of (drop 32 key) n aad ct) pt0 w =
    Done (Ok tt, stream (take 32 key) n ct) w'.
Proof.
  intros Hcb Ht Hk Hkl Hrep Hwf Hf Hl Hm Hne.
  pose proof (decrypt_packet_run cb key aad ct n) as Hd. split.
  - specialize (Hd tag pt0 w seen). rewrite decide_False in Hd by done. by apply Hd.
  - specialize (Hd (tag_of (drop 32 key) n aad ct) pt0 w seen). rewrite decide_True in Hd by done.
    destruct Hd as (s' & -> & _); try done. by eexists.
Qed.

(** No traffic before the session is ready. While no keys are established, or
    while an authenticated session still waits for its peer, sealing and opening
    answer [InvalidState] and change neither the session, nor the host, nor any
    of the caller's buffers. *)
Theorem session_refuses_unready `{CryptoOps} (w : world) :
  is_established (sm w) = false \/ is_Some (pending_auth (sm w)) ->
  (forall aad pt ct n tag, encrypt_packet aad pt ct n tag w = Done (Err InvalidState, ct, n, tag) w) /\
  (forall aad ct n tag pt, decrypt_packet aad ct n tag pt w = Done (Err InvalidState, pt) w).
Proof.
  intros Hr. assert (G : negb (is_established (sm w)) || bool_decide (is_Some (pending_auth (sm w))) = true).
  { destruct Hr as [->|Hp]; [done|]. rewrite (bool_decide_true _ Hp). apply orb_true_r. }
  split; intros; [unfold encrypt_packet|unfold decrypt_packet]; msimpl; by rewrite G.
Qed.

(** Zeroization is complete. From every state [zeroize_session] leaves exactly
    the state of a new manager, and every cache line it writes back holds only
    zeros: a key is wiped before it is flushed. *)
Theorem session_zeroize_complete `{CryptoOps} (cb : CFnPtr) (w : world) :
  c_cache_flush (ch w) = Some cb ->
  exists es, zeroize_session w = Done tt (MkWorld new (add_events es (ch w))) /\
    Forall (fun e => exists k, e = CEvFlush cb (zeros k)) es.
Proof.
  intros Hcb. exists (wipe_events cb (sm w)). split; [by apply zeroize_run|apply wipe_events_zero].
Qed.

(** Any single corrupted key byte is detected. For established keys whose
    stored checksums were computed from them, [verify_key_integrity] answers [Ok];
    after one byte of either key changed, whatever its position and new value, it
    answers [InvalidState]. *)
Theorem session_integrity_detects `{CryptoOps} (w : world) (l1 l2 other : list byte) (b b' : byte) :
  is_established (sm w) = true -> b <> b' ->
  let run tx rx := verify_key_integrity
    (set_sm (set_tx (Some tx) (set_rx (Some rx) (sm w))) w) in
  (tx_key_checksum (sm w) = key_checksum (l1 ++ b :: l2) -> rx_key_checksum (sm w) = key_checksum other ->
     (exists w', run (l1 ++ b :: l2) other = Done (Ok tt) w') /\
     (exists w', run (l1 ++ b' :: l2) other = Done (Err InvalidState) w')) /\
  (tx_key_checksum (sm w) = key_checksum other -> rx_key_checksum (sm w) = key_checksum (l1 ++ b :: l2) ->
     (exists w', run other (l1 ++ b :: l2) = Done (Ok tt) w') /\
     (exists w', run other (l1 ++ b' :: l2) = Done (Err InvalidState) w')).
Proof.
  intros He Hne run. unfold run, verify_key_integrity. msimpl. cbn. rewrite He. cbn.
  pose proof (checksum_one_byte l1 l2 b' b (not_eq_sym Hne)) as Hd.
  split; intros -> ->; rewrite !Z.lxor_nilpotent; (split; [by eexists|]).
  - rewrite Z.lor_0_r, (proj2 (Z.eqb_neq _ _)); [by eexists|]. by intros E%Z.lxor_eq.
  - rewrite Z.lor_0_l, (proj2 (Z.eqb_neq _ _)); [by eexists|]. by intros E%Z.lxor_eq.
Qed.

(** ** Witnesses *)

Definition sample_keys : list byte := replicate 64 x2a.

(** A session that has sent 5 packets and accepted none. *)
Definition sample_session : SessionManager :=
  MkSession None None (Some sample_keys) (Some sample_keys)
    (key_checksum sample_keys) (key_checksum sample_keys) true 5 0 0 None.

Definition sample_world : world := MkWorld sample_session sample_chost.

Lemma sample_window : window_repr sample_session [].
Proof. pose proof window_new as [? ? ? ?]. by split. Defined.

Definition sample_ops : list packet_op :=
  [Seal [] [x01] [x00] [] []; NextNonce []; Open [] [x01] (zeros 12) [] [x00]; Seal [x09] [] [] [] []].

Lemma session_nonces_unique_witness :
  exists outs w', packet_run sample_ops sample_world = Done outs w' /\
    omap sent_nonce outs = nonce_of <$> seqZ 5 (tx_counter (sm w') - 5) /\
    NoDup (omap sent_nonce outs) /\ tx_counter (sm w') <= u64_max.
Proof.
  apply (session_nonces_unique 4 sample_ops sample_world []);
    [reflexivity|split; [discriminate|reflexivity]|exact sample_window|repeat constructor].
Defined.

Lemma session_no_replay_witness :
  exists outs w', packet_run sample_ops sample_world = Done outs w' /\ NoDup (omap accepted outs) /\
    (forall q, q ∈ omap accepted outs -> q ∉ @nil Z).
Proof.
  apply (session_no_replay 4 sample_ops sample_world []);
    [reflexivity|split; [discriminate|reflexivity]|exact sample_window|repeat constructor].
Defined.

Lemma session_window_exact_witness :
  check_rx_nonce (zeros 8 ++ [x01; x00; x00; x00]) sample_world = Done (Err InvalidState) sample_world.
Proof.
  destruct (session_window_exact (zeros 8 ++ [x01; x00; x00; x00]) sample_world [] sample_window eq_refl)
    as [(E & _)|(E & _)]; [discriminate E|exact E].
Defined.

Lemma session_forgery_harmless_witness :
  decrypt_packet [] [x01] (nonce_of 3) (zeros 48) [x55] sample_world =
    Done (Err VerificationFailed, zeros 1) sample_world.
Proof.
  apply (session_forgery_harmless 4 sample_keys [] [x01] (nonce_of 3) (zeros 48) [x55] sample_world []);
    try reflexivity; try (split; reflexivity).
  - exact sample_window.
  - left. reflexivity.
  - discriminate.
  - vm_compute. discriminate.
Defined.

Lemma session_refuses_unready_witness :
  decrypt_packet [] [x01] (nonce_of 0) [] [x55] (MkWorld new sample_chost) =
    Done (Err InvalidState, [x55]) (MkWorld new sample_chost).
Proof. apply (session_refuses_unready (MkWorld new sample_chost)). left. reflexivity. Defined.

Lemma session_zeroize_complete_witness :
  exists es, zeroize_session sample_world = Done tt (MkWorld new (add_events es sample_chost)) /\
    Forall (fun e => exists k, e = CEvFlush 4 (zeros k)) es.
Proof. exact (session_zeroize_complete 4 sample_world eq_refl). Defined.

Lemma session_integrity_detects_witness :
  exists w', verify_key_integrity
    (set_sm (set_tx (Some (replicate 10 x2a ++ x2b :: replicate 53 x2a))
              (set_rx (Some sample_keys) sample_session)) sample_world) = Done (Err InvalidState) w'.
Proof.
  apply (session_integrity_detects sample_world (replicate 10 x2a) (replicate 53 x2a) sample_keys x2a x2b);
    [reflexivity|discriminate|reflexivity|reflexivity].
Defined.

End Sess.
