(* ===== verification/Handshake.v ===== *)
(** session_manager.rs, second half: the hybrid handshake.

    The key-generating side runs [initiate_handshake] and [finalize_handshake], the
    encapsulating side [encapsulate_for_peer]. Local secrets the source wipes before
    returning (entropy copies, shared secrets, the transcript, the derived key) are
    local here too: nothing can read them after the call. *)

From S2P Require Import Prelude CryptoHost Primitives ToyCrypto Aead Kdf Session.
Import Sess.
Local Open Scope Z_scope.

Module Hs.

Section ops.
Context `{CryptoOps}.

Definition HANDSHAKE_LABEL : list byte := bstr "ShawnCore-v1.3-hybrid-handshake".

Definition handshake_transcript (ciphertext : Ciphertext1024) (sender_public_key : X25519Public)
    (application_info : list byte) : list byte :=
  sha384_digest (HANDSHAKE_LABEL ++ ciphertext ++ sender_public_key ++ application_info).

Definition degenerate (entropy : list byte) : bool := all_eq x00 entropy || all_eq xff entropy.

Definition initiate_handshake (entropy : list byte)
  : M world (result (PublicKey1024 * X25519Public) CryptoError) :=
  if degenerate entropy then mret (Err InvalidState) else
  let ml_kem_entropy := slice 0 64 entropy in
  let x25519_entropy := slice 64 96 entropy in
  match ml_kem_keygen ml_kem_entropy with
  | Err e => mret (Err e)
  | Ok (ml_kem_pk, dk) =>
    let '(x25519_pk, sk) := x25519_keygen x25519_entropy in
    zeroize_session ;;
    on_sm (set_dk (Some dk)) ;;
    on_sm (set_sk (Some sk)) ;;
    mret (Ok (ml_kem_pk, x25519_pk))
  end.

(** The assignments with which every handshake ends. *)
Definition install_keys (tx rx : list byte) : M world unit :=
  zeroize_session ;;
  on_sm (set_tx (Some tx)) ;;
  on_sm (set_rx (Some rx)) ;;
  on_sm (set_tx_sum (key_checksum tx)) ;;
  on_sm (set_rx_sum (key_checksum rx)) ;;
  on_sm (set_established true) ;;
  on_sm (set_dk None) ;;
  on_sm (set_sk None).

(** How a derived 128-byte key is cut into directional keys: the outer and the inner
    64 bytes. The key-generating side transmits with the outer one. *)
Definition outer_key (hybrid_key_128 : list byte) : list byte :=
  slice 0 32 hybrid_key_128 ++ slice 96 128 hybrid_key_128.
Definition inner_key (hybrid_key_128 : list byte) : list byte := slice 32 96 hybrid_key_128.

Definition finalize_handshake (peer_x25519_pk : X25519Public) (ml_kem_ct : Ciphertext1024)
    (salt info : list byte) : M world (result unit CryptoError) :=
  w ← get;
  match ml_kem_dk (sm w) with
  | None => mret (Err InvalidState)
  | Some dk =>
  match x25519_sk (sm w) with
  | None => mret (Err InvalidState)
  | Some sk =>
    pq_secret_res ← on_host (ml_kem_decapsulate dk ml_kem_ct);
    match pq_secret_res with
    | Err e => zeroize_session ;; mret (Err e)
    | Ok pq_secret =>
    classical_secret_res ← on_host (x25519_diffie_hellman sk peer_x25519_pk);
    match classical_secret_res with
    | Err e => zeroize_session ;; mret (Err e)
    | Ok classical_secret =>
    let transcript := handshake_transcript ml_kem_ct peer_x25519_pk info in
    derived ← on_host (derive_hybrid_key pq_secret classical_secret salt transcript);
    match derived.1.1 with
    | Err e => zeroize_session ;; mret (Err e)
    | Ok hybrid_key_128 =>
      install_keys (outer_key hybrid_key_128) (inner_key hybrid_key_128) ;;
      mret (Ok tt)
    end end end
  end end.

(** The answer and the two output buffers afterwards. *)
Definition encapsulate_inner (peer_ml_kem_pk : PublicKey1024) (peer_x25519_pk : X25519Public)
    (entropy salt info : list byte) (out_ct : Ciphertext1024) (out_pk : X25519Public)
    (want_confirmation : bool)
  : M world (result (option (list byte)) CryptoError * Ciphertext1024 * X25519Public) :=
  if degenerate entropy then mret (Err InvalidState, out_ct, out_pk) else
  let ml_kem_entropy := slice 0 32 entropy in
  let x25519_entropy := slice 32 64 entropy in
  ml_kem_res ← on_host (ml_kem_encapsulate peer_ml_kem_pk ml_kem_entropy);
  match ml_kem_res with
  | Err e => mret (Err e, out_ct, out_pk)
  | Ok (pq_secret, ct) =>
  let '(my_x25519_pk, my_x25519_sk) := x25519_keygen x25519_entropy in
  classical_res ← on_host (x25519_diffie_hellman my_x25519_sk peer_x25519_pk);
  match classical_res with
  | Err e => mret (Err e, out_ct, out_pk)
  | Ok classical_secret =>
  let transcript := handshake_transcript ct my_x25519_pk info in
  hybrid_res ←
    (if want_confirmation
     then derived ← on_host (derive_hybrid_key_with_confirmation pq_secret classical_secret salt
                               transcript (confirmation_info transcript));
          mret (match derived.1.1 with
                | Ok (session, material) => Ok (session, Some material)
                | Err e => Err e
                end)
     else derived ← on_host (derive_hybrid_key pq_secret classical_secret salt transcript);
          mret (match derived.1.1 with
                | Ok session => Ok (session, None)
                | Err e => Err e
                end));
  match hybrid_res with
  | Err e => mret (Err e, out_ct, out_pk)
  | Ok (hybrid_key_128, confirmation) =>
    install_keys (inner_key hybrid_key_128) (outer_key hybrid_key_128) ;;
    mret (Ok confirmation, ct, my_x25519_pk)
  end end end.

Definition encapsulate_for_peer (peer_ml_kem_pk : PublicKey1024) (peer_x25519_pk : X25519Public)
    (entropy salt info : list byte) (out_ct : Ciphertext1024) (out_pk : X25519Public)
  : M world (result unit CryptoError * Ciphertext1024 * X25519Public) :=
  r ← encapsulate_inner peer_ml_kem_pk peer_x25519_pk entropy salt info out_ct out_pk false;
  let '(res, out_ct, out_pk) := r in
  mret (match res with Ok _ => Ok tt | Err e => Err e end, out_ct, out_pk).

End ops.

(** * Runs of the operations *)

Section runs.
Context `{CryptoLaws}.

(** The state a completed handshake leaves. *)
Definition established (tx rx : list byte) : SessionManager :=
  MkSession None None (Some tx) (Some rx) (key_checksum tx) (key_checksum rx) true 0 0 0 None.

(** The host after some calls: only flushes were added. *)
Definition flushed (cb : CFnPtr) (h h' : CHost) : Prop :=
  exists es, h' = add_events es h /\ Forall (fun e => exists l, e = CEvFlush cb l) es.

Lemma flushed_add (cb : CFnPtr) (es : list cevent) (h : CHost) :
  Forall (fun e => exists l, e = CEvFlush cb l) es -> flushed cb h (add_events es h).
Proof. intros. by exists es. Qed.

#[export] Instance flushed_preorder (cb : CFnPtr) : PreOrder (flushed cb).
Proof.
  split.
  - intros h. exists []. by rewrite add_events_nil.
  - intros h1 h2 h3 (es & -> & He) (es' & -> & He'). exists (es ++ es').
    rewrite add_events_app. split; [done|]. by apply Forall_app.
Qed.

Lemma flushed_cb (cb : CFnPtr) (h h' : CHost) :
  flushed cb h h' -> c_cache_flush h = Some cb -> c_cache_flush h' = Some cb.
Proof. by intros (es & -> & _). Qed.

Lemma flushed_one (cb : CFnPtr) (data : list byte) (h : CHost) :
  flushed cb h (add_events (flush_events cb data) h).
Proof.
  apply flushed_add. unfold flush_events. case_match; [done|]. constructor; [by eexists|done].
Qed.

Lemma zeroize_flushed (cb : CFnPtr) (w : world) :
  c_cache_flush (ch w) = Some cb ->
  exists h', zeroize_session w = Done tt (MkWorld new h') /\ flushed cb (ch w) h'.
Proof.
  intros Hcb. rewrite (zeroize_run cb) by done. eexists. split; [done|]. apply flushed_add.
  assert (Hf : forall k, Forall (fun e => exists l, e = CEvFlush cb l) (flush_events cb (zeros k))).
  { intros k. unfold flush_events. case_match; [done|]. constructor; [by eexists|done]. }
  unfold wipe_events. repeat (apply Forall_app; split); case_match; auto.
Qed.

Lemma install_keys_run (cb : CFnPtr) (tx rx : list byte) (w : world) :
  c_cache_flush (ch w) = Some cb ->
  exists h', install_keys tx rx w = Done tt (MkWorld (established tx rx) h') /\ flushed cb (ch w) h'.
Proof.
  intros Hcb. destruct (zeroize_flushed cb w Hcb) as (h' & E & Hf).
  exists h'. unfold install_keys, on_sm. msimpl. by rewrite E.
Qed.

(** What the wrappers do on the host: one flush each. *)
Lemma decapsulate_run (cb : CFnPtr) (dk : DecapsKey1024) (ct : list byte) (w : world) :
  c_cache_flush (ch w) = Some cb ->
  exists h', on_host (ml_kem_decapsulate dk ct) w = Done (Ok (decapsulate dk ct)) (set_ch h' w) /\
    flushed cb (ch w) h'.
Proof.
  intros Hcb. eexists. split; [|apply flushed_one]. apply session_host_done.
  unfold ml_kem_decapsulate. msimpl. by rewrite (secure_cache_flush_ok cb).
Qed.

Lemma encapsulate_run (cb : CFnPtr) (ek : PublicKey1024) (m : list byte) (w : world) :
  c_cache_flush (ch w) = Some cb ->
  exists h', on_host (ml_kem_encapsulate ek m) w =
      Done (Ok ((encapsulate_deterministic ek m).2, (encapsulate_deterministic ek m).1)) (set_ch h' w) /\
    flushed cb (ch w) h'.
Proof.
  intros Hcb. eexists. split; [|apply (flushed_one cb (encapsulate_deterministic ek m).2)]. apply session_host_done.
  unfold ml_kem_encapsulate. destruct (encapsulate_deterministic ek m) as [ct ss]. msimpl.
  by rewrite (secure_cache_flush_ok cb).
Qed.

(** The exchange is refused for an all-zero peer key or a non-contributory result. *)
Definition dh_accepts (sk peer : list byte) : bool :=
  negb (all_eq x00 peer) && was_contributory (diffie_hellman (secret_from sk) peer).

Definition dh_bytes (sk peer : list byte) : list byte :=
  shared_bytes (diffie_hellman (secret_from sk) peer).

Lemma dh_run (cb : CFnPtr) (sk peer : list byte) (w : world) :
  c_cache_flush (ch w) = Some cb ->
  if dh_accepts sk peer
  then exists h', on_host (x25519_diffie_hellman sk peer) w = Done (Ok (dh_bytes sk peer)) (set_ch h' w) /\
       flushed cb (ch w) h'
  else on_host (x25519_diffie_hellman sk peer) w = Done (Err InvalidState) w.
Proof.
  intros Hcb. unfold dh_accepts, x25519_diffie_hellman.
  assert (Hid : forall r, on_host (fun h => Done (A := result (list byte) CryptoError) r h) w = Done r w).
  { intros r. unfold on_host, zoom. by destruct w. }
  destruct (all_eq x00 peer); cbn [negb andb]; [apply Hid|].
  destruct (was_contributory _); cbn [negb andb]; [|apply Hid].
  eexists. split; [|apply flushed_one]. apply session_host_done. msimpl. by rewrite (secure_cache_flush_ok cb).
Qed.

Lemma derive_flushed (cb : CFnPtr) (pq cl salt info : list byte) (w : world) :
  c_cache_flush (ch w) = Some cb ->
  exists h' z1 z2, on_host (derive_hybrid_key pq cl salt info) w =
      Done (Ok (session_material pq cl salt info), z1, z2) (set_ch h' w) /\ flushed cb (ch w) h'.
Proof.
  intros Hcb. eexists _, _, _. split; [apply session_host_done; by apply derive_run|apply flushed_one].
Qed.

Lemma derive_confirm_flushed (cb : CFnPtr) (pq cl salt info cinfo : list byte) (w : world) :
  c_cache_flush (ch w) = Some cb ->
  exists h' z1 z2, on_host (derive_hybrid_key_with_confirmation pq cl salt info cinfo) w =
      Done (Ok (session_material pq cl salt info, confirmation_material pq cl salt cinfo), z1, z2) (set_ch h' w) /\
    flushed cb (ch w) h'.
Proof.
  intros Hcb. eexists _, _, _. split; [apply session_host_done; by apply derive_confirm_run|].
  rewrite <- add_events_app. etrans; apply flushed_one.
Qed.

(** ** Operations *)

(** The state [initiate_handshake] leaves: the two ephemeral secrets and nothing else. *)
Definition pending_session (entropy : list byte) : SessionManager :=
  set_sk (Some (secret_to_bytes (secret_from (slice 64 96 entropy))))
    (set_dk (Some (kem_from_seed (slice 0 64 entropy))) new).

Lemma initiate_run (cb : CFnPtr) (entropy : list byte) (w : world) :
  c_cache_flush (ch w) = Some cb -> degenerate entropy = false ->
  let dk := kem_from_seed (slice 0 64 entropy) in
  let s := secret_from (slice 64 96 entropy) in
  exists h', initiate_handshake entropy w =
      Done (Ok (encapsulation_key dk, public_from s))
        (MkWorld (pending_session entropy) h') /\
    flushed cb (ch w) h'.
Proof.
  intros Hcb Hd dk s. destruct (zeroize_flushed cb w Hcb) as (h' & E & Hf). exists h'.
  unfold initiate_handshake, ml_kem_keygen, x25519_keygen, on_sm. rewrite Hd. msimpl. by rewrite E.
Qed.

(** The key both ends derive. *)
Definition hybrid_key (pq cl salt info : list byte) (ct pk : list byte) : list byte :=
  session_material pq cl salt (handshake_transcript ct pk info).

Lemma finalize_run (cb : CFnPtr) (dk : DecapsKey1024) (sk peer ct salt info : list byte) (w : world) :
  c_cache_flush (ch w) = Some cb -> ml_kem_dk (sm w) = Some dk -> x25519_sk (sm w) = Some sk ->
  exists h', flushed cb (ch w) h' /\ finalize_handshake peer ct salt info w =
    if dh_accepts sk peer
    then let k := hybrid_key (decapsulate dk ct) (dh_bytes sk peer) salt info ct peer in
         Done (Ok tt) (MkWorld (established (outer_key k) (inner_key k)) h')
    else Done (Err InvalidState) (MkWorld new h').
Proof.
  intros Hcb Hdk Hsk. unfold finalize_handshake. msimpl. rewrite Hdk, Hsk.
  destruct (decapsulate_run cb dk ct w Hcb) as (h1 & -> & F1).
  pose proof (flushed_cb _ _ _ F1 Hcb) as Hcb1.
  pose proof (dh_run cb sk peer (set_ch h1 w) Hcb1) as Hdh. destruct (dh_accepts sk peer).
  - destruct Hdh as (h2 & -> & F2). pose proof (flushed_cb _ _ _ F2 Hcb1) as Hcb2.
    edestruct (derive_flushed cb) as (h3 & z1 & z2 & -> & F3); [exact Hcb2|]. cbn [fst].
    pose proof (flushed_cb _ _ _ F3 Hcb2) as Hcb3.
    edestruct (install_keys_run cb) as (h4 & -> & F4); [exact Hcb3|].
    exists h4. split; [|done]. by do 3 (etrans; [eassumption|]).
  - rewrite Hdh. destruct (zeroize_flushed cb (set_ch h1 w) Hcb1) as (h2 & -> & F2).
    exists h2. split; [by etrans|done].
Qed.

Lemma encapsulate_inner_run (cb : CFnPtr) (ek : PublicKey1024) (peer entropy salt info ct0 pk0 : list byte)
    (want : bool) (w : world) :
  c_cache_flush (ch w) = Some cb -> degenerate entropy = false ->
  let s := secret_from (slice 32 64 entropy) in
  let kem := encapsulate_deterministic ek (slice 0 32 entropy) in
  let t := handshake_transcript kem.1 (public_from s) info in
  let cl := dh_bytes (secret_to_bytes s) peer in
  let k := session_material kem.2 cl salt t in
  exists h', flushed cb (ch w) h' /\ encapsulate_inner ek peer entropy salt info ct0 pk0 want w =
    if dh_accepts (secret_to_bytes s) peer
    then Done (Ok (if want then Some (confirmation_material kem.2 cl salt (confirmation_info t)) else None),
               kem.1, public_from s)
           (MkWorld (established (inner_key k) (outer_key k)) h')
    else Done (Err InvalidState, ct0, pk0) (MkWorld (sm w) h').
Proof.
  intros Hcb Hd s kem t cl k. unfold encapsulate_inner. rewrite Hd. msimpl.
  destruct (encapsulate_run cb ek (slice 0 32 entropy) w Hcb) as (h1 & -> & F1). fold kem.
  pose proof (flushed_cb _ _ _ F1 Hcb) as Hcb1. unfold x25519_keygen. fold s.
  pose proof (dh_run cb (secret_to_bytes s) peer (set_ch h1 w) Hcb1) as Hdh. fold cl in Hdh.
  destruct (dh_accepts (secret_to_bytes s) peer); [|rewrite Hdh; by exists h1].
  destruct Hdh as (h2 & -> & F2). pose proof (flushed_cb _ _ _ F2 Hcb1) as Hcb2.
  assert (F2' : flushed cb (ch w) h2) by (by etrans).
  destruct want.
  - edestruct (derive_confirm_flushed cb) as (h3 & z1 & z2 & -> & F3); [exact Hcb2|]. cbn [fst].
    edestruct (install_keys_run cb) as (h4 & -> & F4); [exact (flushed_cb _ _ _ F3 Hcb2)|].
    exists h4. split; [|done]. etrans; [exact F2'|]. etrans; [exact F3|exact F4].
  - edestruct (derive_flushed cb) as (h3 & z1 & z2 & -> & F3); [exact Hcb2|]. cbn [fst].
    edestruct (install_keys_run cb) as (h4 & -> & F4); [exact (flushed_cb _ _ _ F3 Hcb2)|].
    exists h4. split; [|done]. etrans; [exact F2'|]. etrans; [exact F3|exact F4].
Qed.

End runs.

(** * Two ends of a session *)

Section link.
Context `{CryptoLaws}.

(** Every packet within the cipher's limit sealed at [a] opens at [b], once. *)
Definition delivers (a b : world) : Prop :=
  forall aad pt ct0 n0 tag0 pt0,
    length ct0 = length pt -> length pt0 = length pt -> zlen pt <= CHACHA20_MAX_BYTES ->
    exists ct n tag a' b',
      encrypt_packet aad pt ct0 n0 tag0 a = Done (Ok tt, ct, n, tag) a' /\
      decrypt_packet aad ct n tag pt0 b = Done (Ok tt, pt) b' /\
      decrypt_packet aad ct n tag pt0 b' = Done (Err InvalidState, pt0) b'.

(** The two managers hold mirrored, intact 64-byte keys and are otherwise fresh. *)
Definition paired (s1 s2 : SessionManager) : Prop :=
  exists k1 k2, length k1 = 64%nat /\ length k2 = 64%nat /\ s1 = established k1 k2 /\ s2 = established k2 k1.

Lemma length_outer_key (k : list byte) : length k = 128%nat -> length (outer_key k) = 64%nat.
Proof. intros. unfold outer_key. rewrite length_app, !length_slice; lia. Qed.

Lemma length_inner_key (k : list byte) : length k = 128%nat -> length (inner_key k) = 64%nat.
Proof. intros. unfold inner_key. rewrite length_slice; lia. Qed.

Lemma established_integrity (tx rx : list byte) (h : CHost) :
  verify_key_integrity (MkWorld (established tx rx) h) = Done (Ok tt) (MkWorld (established tx rx) h).
Proof. unfold verify_key_integrity. msimpl. cbn. by rewrite !Z.lxor_nilpotent. Qed.

Lemma established_window (tx rx : list byte) : window_repr (established tx rx) [].
Proof. destruct window_new. by split. Qed.

Lemma established_delivers (k1 k2 : list byte) (cb1 cb2 : CFnPtr) (h1 h2 : CHost) (r t : list byte) :
  length k1 = 64%nat -> c_cache_flush h1 = Some cb1 -> c_cache_flush h2 = Some cb2 ->
  delivers (MkWorld (established k1 r) h1) (MkWorld (established t k1) h2).
Proof.
  intros Hk Hc1 Hc2 aad pt ct0 n0 tag0 pt0 Hl Hl0 Hm.
  apply (packet_crosses cb1 cb2 k1 aad pt ct0 n0 tag0 pt0 _ _ []); try done.
  - apply established_window.
  - right. split; [done|]. apply not_elem_of_nil.
Qed.

Lemma paired_delivers (cb1 cb2 : CFnPtr) (a b : world) :
  paired (sm a) (sm b) -> c_cache_flush (ch a) = Some cb1 -> c_cache_flush (ch b) = Some cb2 ->
  delivers a b /\ delivers b a.
Proof.
  intros (k1 & k2 & H1 & H2 & Ea & Eb) Hc1 Hc2. destruct a, b. cbn in *. subst.
  split; by eapply established_delivers.
Qed.

(** What both ends' exchange needs to succeed with honest keys: no public key is
    all zero, and the shared value is contributory. *)
Definition honest_dh (ea eb : list byte) : Prop :=
  let sa := secret_from (slice 64 96 ea) in
  let sb := secret_from (slice 32 64 eb) in
  all_eq x00 (public_from sa) = false /\ all_eq x00 (public_from sb) = false /\
  was_contributory (diffie_hellman sb (public_from sa)) = true.

Lemma honest_dh_accepts (ea eb : list byte) :
  honest_dh ea eb ->
  let sa := secret_from (slice 64 96 ea) in
  let sb := secret_from (slice 32 64 eb) in
  dh_accepts (secret_to_bytes sb) (public_from sa) = true /\
  dh_accepts (secret_to_bytes sa) (public_from sb) = true /\
  dh_bytes (secret_to_bytes sa) (public_from sb) = dh_bytes (secret_to_bytes sb) (public_from sa).
Proof.
  intros (Ha & Hb & Hc) sa sb. unfold dh_accepts, dh_bytes. rewrite !secret_roundtrip.
  rewrite (dh_commutes sa sb). unfold sa, sb in *. by rewrite Ha, Hb, Hc.
Qed.

End link.

(** * Claims *)

(** C32: the unauthenticated handshake, end to end. For any two managers in any
    state, non-degenerate entropy and an exchange X25519 accepts, all three calls
    succeed, both sides end with mirrored 64-byte keys whose integrity check
    passes, fresh counters and no ephemeral key left, and packets of every allowed
    size are delivered exactly once in both directions. *)
Theorem handshake_end_to_end `{CryptoLaws} (cb1 cb2 : CFnPtr) (a b : world) (ea eb salt info ct0 pk0 : list byte) :
  c_cache_flush (ch a) = Some cb1 -> c_cache_flush (ch b) = Some cb2 ->
  degenerate ea = false -> degenerate eb = false -> honest_dh ea eb ->
  exists ek xpk a1 ct bpk b1 a2,
    initiate_handshake ea a = Done (Ok (ek, xpk)) a1 /\
    encapsulate_for_peer ek xpk eb salt info ct0 pk0 b = Done (Ok tt, ct, bpk) b1 /\
    finalize_handshake bpk ct salt info a1 = Done (Ok tt) a2 /\
    paired (sm a2) (sm b1) /\
    verify_key_integrity a2 = Done (Ok tt) a2 /\ verify_key_integrity b1 = Done (Ok tt) b1 /\
    delivers a2 b1 /\ delivers b1 a2.
Proof.
  intros Hc1 Hc2 Hea Heb Hdh. destruct (honest_dh_accepts ea eb Hdh) as (D1 & D2 & D3).
  destruct (initiate_run cb1 ea a Hc1 Hea) as (h1 & E1 & F1).
  pose proof (flushed_cb _ _ _ F1 Hc1) as Hc1'.
  destruct (encapsulate_inner_run cb2 (encapsulation_key (kem_from_seed (slice 0 64 ea)))
    (public_from (secret_from (slice 64 96 ea))) eb salt info ct0 pk0 false b Hc2 Heb) as (h2 & F2 & E2).
  destruct (finalize_run cb1 (kem_from_seed (slice 0 64 ea))
    (secret_to_bytes (secret_from (slice 64 96 ea))) (public_from (secret_from (slice 32 64 eb)))
    (encapsulate_deterministic (encapsulation_key (kem_from_seed (slice 0 64 ea))) (slice 0 32 eb)).1 salt info
    (MkWorld (pending_session ea) h1) Hc1' eq_refl eq_refl) as (h3 & F3 & E3).
  rewrite D1 in E2. rewrite D2, kem_correct, D3 in E3. cbn [ch] in F3.
  eexists _, _, _, _, _, _, _. split; [exact E1|]. split.
  { unfold encapsulate_for_peer. msimpl. rewrite E2. reflexivity. }
  split; [exact E3|]. match goal with |- paired (sm ?x) (sm ?y) /\ _ => assert (P : paired (sm x) (sm y)) end.
  { eexists _, _. split_and!; [| |done|done]; [apply length_outer_key|apply length_inner_key];
      apply length_session_material. }
  split; [exact P|]. split; [apply established_integrity|]. split; [apply established_integrity|].
  eapply paired_delivers; [exact P|exact (flushed_cb _ _ _ F3 (flushed_cb _ _ _ F1 Hc1))|exact (flushed_cb _ _ _ F2 Hc2)].
Qed.

(** A pending handshake is good for one attempt. With ephemeral keys pending,
    [finalize_handshake] answers [Ok] exactly when X25519 accepts the peer key and
    otherwise wipes the whole session; either way both ephemeral keys are gone, so
    whatever is presented next is refused and changes nothing. *)
Theorem finalize_one_shot `{CryptoLaws} (cb : CFnPtr) (dk : DecapsKey1024) (sk peer ct salt info : list byte) (w : world) :
  c_cache_flush (ch w) = Some cb -> ml_kem_dk (sm w) = Some dk -> x25519_sk (sm w) = Some sk ->
  exists r w', finalize_handshake peer ct salt info w = Done r w' /\
    (r = Ok tt <-> dh_accepts sk peer = true) /\
    (r <> Ok tt -> r = Err InvalidState /\ sm w' = new) /\
    ml_kem_dk (sm w') = None /\ x25519_sk (sm w') = None /\
    (forall peer2 ct2 salt2 info2, finalize_handshake peer2 ct2 salt2 info2 w' = Done (Err InvalidState) w').
Proof.
  intros Hcb Hdk Hsk. destruct (finalize_run cb dk sk peer ct salt info w Hcb Hdk Hsk) as (h' & _ & E).
  destruct (dh_accepts sk peer); cbv zeta in E; eexists _, _; (split; [exact E|]); by split_and!.
Qed.

(** Rejected inputs leave no trace. Degenerate entropy (all zero or all ones)
    is refused by both roles before anything is touched, and an encapsulation whose
    exchange X25519 refuses keeps the session and the caller's output buffers as
    they were. *)
Theorem handshake_rejects_cleanly `{CryptoLaws} (cb : CFnPtr) (ek : PublicKey1024)
    (peer entropy salt info ct0 pk0 : list byte) (w : world) :
  c_cache_flush (ch w) = Some cb ->
  (degenerate entropy = true ->
     initiate_handshake entropy w = Done (Err InvalidState) w /\
     encapsulate_for_peer ek peer entropy salt info ct0 pk0 w = Done (Err InvalidState, ct0, pk0) w) /\
  (degenerate entropy = false ->
   dh_accepts (secret_to_bytes (secret_from (slice 32 64 entropy))) peer = false ->
     exists w', encapsulate_for_peer ek peer entropy salt info ct0 pk0 w = Done (Err InvalidState, ct0, pk0) w' /\
       sm w' = sm w).
Proof.
  intros Hcb. unfold encapsulate_for_peer, initiate_handshake. split.
  - intros Hd. unfold encapsulate_inner. msimpl. by rewrite Hd.
  - intros Hd Ha. destruct (encapsulate_inner_run cb ek peer entropy salt info ct0 pk0 false w Hcb Hd) as (h' & _ & E).
    rewrite Ha in E. msimpl. rewrite E. by eexists.
Qed.

(** ** Witnesses *)

Definition entropy_a : list byte := replicate 96 x05.
Definition entropy_b : list byte := replicate 64 x06.

Lemma sample_honest_dh : honest_dh entropy_a entropy_b.
Proof. repeat split. Defined.

Lemma handshake_end_to_end_witness :
  exists ek xpk a1 ct bpk b1 a2,
    initiate_handshake entropy_a (MkWorld new sample_chost) = Done (Ok (ek, xpk)) a1 /\
    encapsulate_for_peer ek xpk entropy_b [x01] [x02] [] [] sample_world = Done (Ok tt, ct, bpk) b1 /\
    finalize_handshake bpk ct [x01] [x02] a1 = Done (Ok tt) a2 /\
    paired (sm a2) (sm b1) /\
    verify_key_integrity a2 = Done (Ok tt) a2 /\ verify_key_integrity b1 = Done (Ok tt) b1 /\
    delivers a2 b1 /\ delivers b1 a2.
Proof.
  exact (handshake_end_to_end 4 4 (MkWorld new sample_chost) sample_world entropy_a entropy_b [x01] [x02] [] []
    eq_refl eq_refl eq_refl eq_refl sample_honest_dh).
Defined.

Definition pending_world : world :=
  MkWorld (set_sk (Some (zeros 32)) (set_dk (Some tt) new)) sample_chost.

Lemma finalize_one_shot_witness :
  exists r w', finalize_handshake (zeros 32) (zeros 1568) [] [] pending_world = Done r w' /\
    (r = Ok tt <-> dh_accepts (zeros 32) (zeros 32) = true) /\
    (r <> Ok tt -> r = Err InvalidState /\ sm w' = new) /\
    ml_kem_dk (sm w') = None /\ x25519_sk (sm w') = None /\
    (forall peer2 ct2 salt2 info2, finalize_handshake peer2 ct2 salt2 info2 w' = Done (Err InvalidState) w').
Proof.
  exact (finalize_one_shot 4 tt (zeros 32) (zeros 32) (zeros 1568) [] [] pending_world eq_refl eq_refl eq_refl).
Defined.

Definition toy_ek : PublicKey1024 := encapsulation_key (kem_from_seed []).

Lemma handshake_rejects_cleanly_witness :
  encapsulate_for_peer toy_ek (zeros 32) (zeros 64) [] [] [x01] [x02] sample_world =
    Done (Err InvalidState, [x01], [x02]) sample_world /\
  exists w', encapsulate_for_peer toy_ek (zeros 32) entropy_b [] [] [x01] [x02] sample_world =
    Done (Err InvalidState, [x01], [x02]) w' /\ sm w' = sm sample_world.
Proof.
  split.
  - apply (handshake_rejects_cleanly 4 toy_ek (zeros 32) (zeros 64) [] [] [x01] [x02] sample_world); reflexivity.
  - apply (handshake_rejects_cleanly 4 toy_ek (zeros 32) entropy_b [] [] [x01] [x02] sample_world); reflexivity.
Defined.

End Hs.
