(* ===== verification/AuthSession.v ===== *)
(** session_manager.rs, third part: the authenticated handshake. Both sides sign and
    MAC the transcript; the encapsulating side stays unconfirmed until
    [confirm_peer]. Local key copies the source wipes before returning are local
    here too. *)

From S2P Require Import Prelude CryptoHost Primitives ToyCrypto Aead Kdf AuthEncoding Session Handshake.
Import Sess Hs.
Local Open Scope Z_scope.

Module Auth.

Section ops.
Context `{CryptoOps}.

(** The answer and the four output buffers afterwards. *)
Definition encapsulate_authenticated (own_signing_key : SigningKey87) (peer_verifying_key : PublicKey87)
    (peer_ml_kem_pk : PublicKey1024) (peer_x25519_pk : X25519Public) (entropy salt app_info : list byte)
    (out_ct : Ciphertext1024) (out_pk : X25519Public) (out_signature : Signature87)
    (out_confirmation : list byte)
  : M world (result unit CryptoError * Ciphertext1024 * X25519Public * Signature87 * list byte) :=
  let own_identity := identity_fingerprint (verifying_key own_signing_key) in
  let peer_identity := identity_fingerprint peer_verifying_key in
  match handshake_binding peer_ml_kem_pk peer_x25519_pk peer_identity own_identity app_info with
  | Err e => mret (Err e, out_ct, out_pk, out_signature, out_confirmation)
  | Ok binding =>
  r ← encapsulate_inner peer_ml_kem_pk peer_x25519_pk entropy salt binding out_ct out_pk true;
  let '(confirmation_res, out_ct, out_pk) := r in
  match confirmation_res with
  | Err e => mret (Err e, out_ct, out_pk, out_signature, out_confirmation)
  | Ok None => mret (Err InvalidState, out_ct, out_pk, out_signature, out_confirmation)
  | Ok (Some confirmation) =>
  let encapsulator_key := slice 0 CONFIRMATION_KEY_LEN confirmation in
  let keygen_key := drop CONFIRMATION_KEY_LEN confirmation in
  let transcript := transcript_hash binding out_ct out_pk in
  outcome ←
    (tag_res ← on_host (confirmation_tag encapsulator_key CONFIRM_LABEL_ENCAPSULATING_SIDE transcript);
     match tag_res with
     | Err e => mret (Err e)
     | Ok tag =>
         let digest := encapsulator_digest transcript tag in
         sig_res ← on_host (ml_dsa_sign_with_context own_signing_key digest CONTEXT_ENCAPSULATING_SIDE);
         mret (match sig_res with Ok signature => Ok (tag, digest, signature) | Err e => Err e end)
     end);
  match outcome with
  | Ok (tag, digest, signature) =>
      on_sm (set_pending (Some (MkPending digest peer_identity keygen_key))) ;;
      mret (Ok tt, out_ct, out_pk, signature, tag)
  | Err error =>
      zeroize_session ;;
      mret (Err error, out_ct, out_pk, out_signature, out_confirmation)
  end end end.

(** Signature, tag and the 128-byte session secret. *)
Definition complete_authenticated_finalize (own_signing_key : SigningKey87) (peer_x25519_pk : X25519Public)
    (ml_kem_ct : Ciphertext1024) (peer_confirmation salt binding transcript peer_digest : list byte)
  : M world (result (Signature87 * list byte * list byte) CryptoError) :=
  w ← get;
  match ml_kem_dk (sm w) with
  | None => mret (Err InvalidState)
  | Some dk =>
  match x25519_sk (sm w) with
  | None => mret (Err InvalidState)
  | Some sk =>
  pq_res ← on_host (ml_kem_decapsulate dk ml_kem_ct);
  match pq_res with
  | Err e => mret (Err e)
  | Ok pq_secret =>
  classical_res ← on_host (x25519_diffie_hellman sk peer_x25519_pk);
  match classical_res with
  | Err e => mret (Err e)
  | Ok classical_secret =>
  let inner := handshake_transcript ml_kem_ct peer_x25519_pk binding in
  derived ← on_host (derive_hybrid_key_with_confirmation pq_secret classical_secret salt inner
                       (confirmation_info inner));
  match derived.1.1 with
  | Err e => mret (Err e)
  | Ok (session, confirmation) =>
  let encapsulator_key := slice 0 CONFIRMATION_KEY_LEN confirmation in
  let keygen_key := drop CONFIRMATION_KEY_LEN confirmation in
  expected_res ← on_host (confirmation_tag encapsulator_key CONFIRM_LABEL_ENCAPSULATING_SIDE transcript);
  match expected_res with
  | Err e => mret (Err e)
  | Ok expected =>
  if negb (confirmation_tags_equal expected peer_confirmation) then mret (Err KeyConfirmationFailed) else
  tag_res ← on_host (confirmation_tag keygen_key CONFIRM_LABEL_KEYGEN_SIDE peer_digest);
  match tag_res with
  | Err e => mret (Err e)
  | Ok tag =>
      let digest := keygen_digest peer_digest tag in
      sig_res ← on_host (ml_dsa_sign_with_context own_signing_key digest CONTEXT_KEYGEN_SIDE);
      mret (match sig_res with Ok signature => Ok (signature, tag, session) | Err e => Err e end)
  end end end end end end end.

(** The answer and the two output buffers afterwards. *)
Definition finalize_authenticated (own_signing_key : SigningKey87) (peer_verifying_key : PublicKey87)
    (peer_x25519_pk : X25519Public) (ml_kem_ct : Ciphertext1024) (peer_signature : Signature87)
    (peer_confirmation salt app_info : list byte) (out_signature : Signature87) (out_confirmation : list byte)
  : M world (result unit CryptoError * Signature87 * list byte) :=
  w ← get;
  match ml_kem_dk (sm w) with
  | None => mret (Err InvalidState, out_signature, out_confirmation)
  | Some dk =>
  match x25519_sk (sm w) with
  | None => mret (Err InvalidState, out_signature, out_confirmation)
  | Some sk =>
  let own_ml_kem_pk := encapsulation_key dk in
  let own_x25519_pk := (x25519_keygen sk).1 in
  let own_identity := identity_fingerprint (verifying_key own_signing_key) in
  let peer_identity := identity_fingerprint peer_verifying_key in
  match handshake_binding own_ml_kem_pk own_x25519_pk own_identity peer_identity app_info with
  | Err e => mret (Err e, out_signature, out_confirmation)
  | Ok binding =>
  let transcript := transcript_hash binding ml_kem_ct peer_x25519_pk in
  let peer_digest := encapsulator_digest transcript peer_confirmation in
  match ml_dsa_verify_with_context peer_verifying_key peer_digest CONTEXT_ENCAPSULATING_SIDE peer_signature with
  | Err e => mret (Err e, out_signature, out_confirmation)
  | Ok _ =>
  outcome ← complete_authenticated_finalize own_signing_key peer_x25519_pk ml_kem_ct peer_confirmation
              salt binding transcript peer_digest;
  match outcome with
  | Ok (signature, tag, session) =>
      install_keys (outer_key session) (inner_key session) ;;
      mret (Ok tt, signature, tag)
  | Err error =>
      zeroize_session ;;
      mret (Err error, out_signature, out_confirmation)
  end end end end end.

Definition confirm_peer (peer_verifying_key : PublicKey87) (peer_signature : Signature87)
    (peer_confirmation : list byte) : M world (result unit CryptoError) :=
  w ← get;
  match pending_auth (sm w) with
  | None => mret (Err InvalidState)
  | Some pending =>
  let presented := identity_fingerprint peer_verifying_key in
  if negb (confirmation_tags_equal presented (peer_identity pending)) then mret (Err VerificationFailed) else
  let signed := keygen_digest (digest pending) peer_confirmation in
  match ml_dsa_verify_with_context peer_verifying_key signed CONTEXT_KEYGEN_SIDE peer_signature with
  | Err error => mret (Err error)
  | Ok _ =>
  expected ← on_host (confirmation_tag (confirmation_key pending) CONFIRM_LABEL_KEYGEN_SIDE (digest pending));
  match expected with
  | Ok tag =>
      if confirmation_tags_equal tag peer_confirmation
      then wipe_pending_authentication ;; mret (Ok tt)
      else zeroize_session ;; mret (Err KeyConfirmationFailed)
  | Err error => zeroize_session ;; mret (Err error)
  end end end.

Definition is_awaiting_peer_confirmation (s : SessionManager) : bool := bool_decide (is_Some (pending_auth s)).

End ops.

(** * Runs *)

Section runs.
Context `{CryptoLaws}.

(** HMAC-SHA384(key, label || digest), as a value. *)
Definition expected_tag (key label digest : list byte) : list byte :=
  match hmac_new key with Some k => hmac_mac k (label ++ digest) | None => [] end.

Definition signed (sk : SigningKey87) (msg context : list byte) : list byte :=
  default [] (dsa_sign_deterministic sk msg context).

Lemma tag_run (cb : CFnPtr) (key label digest : list byte) (w : world) :
  (length label <= 80)%nat -> c_cache_flush (ch w) = Some cb ->
  exists h', on_host (confirmation_tag key label digest) w =
      Done (Ok (expected_tag key label digest)) (set_ch h' w) /\ flushed cb (ch w) h'.
Proof.
  intros Hl Hcb. destruct (confirmation_tag_run cb key label digest (ch w) Hl Hcb) as (tag & E & _ & Et).
  eexists. split; [|apply (flushed_one cb tag)]. apply session_host_done. rewrite E.
  unfold expected_tag. destruct (hmac_new key); cbn in Et; by simplify_eq.
Qed.

Lemma sign_run (cb : CFnPtr) (sk : SigningKey87) (msg context : list byte) (w : world) :
  (length context <= 255)%nat -> c_cache_flush (ch w) = Some cb ->
  exists h', on_host (ml_dsa_sign_with_context sk msg context) w =
      Done (Ok (signed sk msg context)) (set_ch h' w) /\ flushed cb (ch w) h'.
Proof.
  intros Hl Hcb. unfold signed. destruct (sig_ctx_ok sk msg context Hl) as [s Hs]. rewrite Hs. cbn.
  eexists. split; [|apply (flushed_one cb s)]. apply session_host_done.
  unfold ml_dsa_sign_with_context. rewrite Hs. rewrite (sig_ctx_len _ _ _ _ Hs). cbn [negb].
  change (4627 =? ML_DSA_SIGNATURE_BYTES)%nat with true. cbn [negb]. msimpl.
  by rewrite (secure_cache_flush_ok cb).
Qed.

(** Verification has two answers. *)
Definition verifies (vk : PublicKey87) (msg context sig : list byte) : bool :=
  is_ok (ml_dsa_verify_with_context vk msg context sig).

Lemma verify_cases (vk : PublicKey87) (msg context sig : list byte) :
  ml_dsa_verify_with_context vk msg context sig =
    if verifies vk msg context sig then Ok tt else Err VerificationFailed.
Proof. unfold verifies, ml_dsa_verify_with_context. by repeat case_match. Qed.

Lemma signed_verifies (sk : SigningKey87) (msg context : list byte) :
  (length context <= 255)%nat -> verifies (verifying_key sk) msg context (signed sk msg context) = true.
Proof.
  intros Hl. destruct (sig_ctx_ok sk msg context Hl) as [s Hs].
  destruct (sig_ctx_correct _ _ _ _ Hs) as (o & Hp & Hv).
  unfold verifies, ml_dsa_verify_with_context, signed, verifying_key. rewrite Hs. cbn. by rewrite Hp, Hv.
Qed.

Lemma tags_equal_spec (a b : list byte) : confirmation_tags_equal a b = bool_decide (a = b).
Proof.
  unfold confirmation_tags_equal, verify_tag_constant_time. symmetry.
  destruct (ct_eq a b) eqn:E; [by apply bool_decide_true, ct_eq_spec|apply bool_decide_false].
  intros Eab. apply ct_eq_spec in Eab. congruence.
Qed.

Lemma binding_ok (ek : PublicKey1024) (x ki ei app : list byte) :
  zlen app < 2 ^ 32 ->
  handshake_binding ek x ki ei app = Ok (sha384 (binding_parts ek x ki ei app (zlen app))).
Proof. intros Hl. unfold handshake_binding, try_from. by rewrite (proj2 (Z.ltb_lt _ _) Hl). Qed.

(** What the key-generating side expects and sends, from its secrets and the input. *)
Definition encap_tag (conf transcript : list byte) : list byte :=
  expected_tag (slice 0 48 conf) CONFIRM_LABEL_ENCAPSULATING_SIDE transcript.
Definition keygen_tag (conf digest : list byte) : list byte :=
  expected_tag (drop 48 conf) CONFIRM_LABEL_KEYGEN_SIDE digest.

Lemma complete_run (cb : CFnPtr) (dk : DecapsKey1024) (sk : list byte) (own : SigningKey87)
    (peer ct conf salt binding transcript digest : list byte) (w : world) :
  c_cache_flush (ch w) = Some cb -> ml_kem_dk (sm w) = Some dk -> x25519_sk (sm w) = Some sk ->
  let inner := handshake_transcript ct peer binding in
  let pq := decapsulate dk ct in
  let cl := dh_bytes sk peer in
  let cm := confirmation_material pq cl salt (confirmation_info inner) in
  exists h', flushed cb (ch w) h' /\
    complete_authenticated_finalize own peer ct conf salt binding transcript digest w =
    Done (if dh_accepts sk peer then
            if bool_decide (encap_tag cm transcript = conf)
            then Ok (signed own (keygen_digest digest (keygen_tag cm digest)) CONTEXT_KEYGEN_SIDE,
                     keygen_tag cm digest, session_material pq cl salt inner)
            else Err KeyConfirmationFailed
          else Err InvalidState) (set_ch h' w).
Proof.
  intros Hcb Hdk Hsk inner pq cl cm. unfold complete_authenticated_finalize. msimpl. rewrite Hdk, Hsk.
  destruct (decapsulate_run cb dk ct w Hcb) as (h1 & -> & F1).
  pose proof (flushed_cb _ _ _ F1 Hcb) as Hc1.
  pose proof (dh_run cb sk peer (set_ch h1 w) Hc1) as Hdh.
  destruct (dh_accepts sk peer); [|rewrite Hdh; by exists h1].
  destruct Hdh as (h2 & -> & F2). pose proof (flushed_cb _ _ _ F2 Hc1) as Hc2. fold pq cl inner.
  edestruct (derive_confirm_flushed cb) as (h3 & z1 & z2 & -> & F3); [exact Hc2|]. cbn [fst]. fold cm.
  pose proof (flushed_cb _ _ _ F3 Hc2) as Hc3.
  edestruct (tag_run cb (slice 0 CONFIRMATION_KEY_LEN cm) CONFIRM_LABEL_ENCAPSULATING_SIDE transcript)
    as (h4 & -> & F4); [vm_compute; lia|exact Hc3|].
  change (expected_tag (slice 0 CONFIRMATION_KEY_LEN cm) CONFIRM_LABEL_ENCAPSULATING_SIDE transcript)
    with (encap_tag cm transcript).
  rewrite tags_equal_spec. pose proof (flushed_cb _ _ _ F4 Hc3) as Hc4.
  assert (F : flushed cb (ch w) h4) by (by do 3 (etrans; [eassumption|])).
  case_bool_decide; cbn [negb]; [|by exists h4].
  edestruct (tag_run cb (drop CONFIRMATION_KEY_LEN cm) CONFIRM_LABEL_KEYGEN_SIDE digest)
    as (h5 & -> & F5); [vm_compute; lia|exact Hc4|].
  edestruct (sign_run cb own) as (h6 & -> & F6); [|exact (flushed_cb _ _ _ F5 Hc4)|]; [vm_compute; lia|].
  exists h6. split; [|done]. by do 2 (etrans; [eassumption|]).
Qed.

(** The digest the encapsulating side signs, seen from the key-generating side. *)
Definition keygen_binding (dk : DecapsKey1024) (sk : list byte) (own : SigningKey87) (peer_vk : PublicKey87)
    (app : list byte) : list byte :=
  sha384 (binding_parts (encapsulation_key dk) (x25519_keygen sk).1
    (identity_fingerprint (verifying_key own)) (identity_fingerprint peer_vk) app (zlen app)).

Definition keygen_transcript (dk : DecapsKey1024) (sk : list byte) (own : SigningKey87) (peer_vk : PublicKey87)
    (app ct peer : list byte) : list byte :=
  transcript_hash (keygen_binding dk sk own peer_vk app) ct peer.

Lemma finalize_auth_run (cb : CFnPtr) (dk : DecapsKey1024) (sk : list byte) (own : SigningKey87)
    (peer_vk : PublicKey87) (peer ct sig conf salt app sig0 conf0 : list byte) (w : world) :
  c_cache_flush (ch w) = Some cb -> ml_kem_dk (sm w) = Some dk -> x25519_sk (sm w) = Some sk ->
  zlen app < 2 ^ 32 ->
  let binding := keygen_binding dk sk own peer_vk app in
  let transcript := keygen_transcript dk sk own peer_vk app ct peer in
  let digest := encapsulator_digest transcript conf in
  let inner := handshake_transcript ct peer binding in
  let pq := decapsulate dk ct in
  let cl := dh_bytes sk peer in
  let cm := confirmation_material pq cl salt (confirmation_info inner) in
  let k := session_material pq cl salt inner in
  exists h', flushed cb (ch w) h' /\
    finalize_authenticated own peer_vk peer ct sig conf salt app sig0 conf0 w =
    if negb (verifies peer_vk digest CONTEXT_ENCAPSULATING_SIDE sig)
    then Done (Err VerificationFailed, sig0, conf0) w else
    if negb (dh_accepts sk peer) then Done (Err InvalidState, sig0, conf0) (MkWorld new h') else
    if negb (bool_decide (encap_tag cm transcript = conf))
    then Done (Err KeyConfirmationFailed, sig0, conf0) (MkWorld new h') else
    Done (Ok tt, signed own (keygen_digest digest (keygen_tag cm digest)) CONTEXT_KEYGEN_SIDE,
          keygen_tag cm digest) (MkWorld (established (outer_key k) (inner_key k)) h').
Proof.
  intros Hcb Hdk Hsk Hl binding transcript digest inner pq cl cm k. unfold finalize_authenticated. msimpl.
  rewrite Hdk, Hsk, binding_ok by done. fold (keygen_binding dk sk own peer_vk app).
  fold (keygen_transcript dk sk own peer_vk app ct peer). fold transcript binding. fold digest.
  rewrite verify_cases. destruct (verifies peer_vk digest CONTEXT_ENCAPSULATING_SIDE sig); cbn [negb];
    [|by exists (ch w)].
  destruct (complete_run cb dk sk own peer ct conf salt binding transcript digest w Hcb Hdk Hsk)
    as (h1 & F1 & ->).
  pose proof (flushed_cb _ _ _ F1 Hcb) as Hc1. fold inner pq cl. fold cm k.
  destruct (zeroize_flushed cb (set_ch h1 w) Hc1) as (h2 & Ez & F2).
  assert (F : flushed cb (ch w) h2) by (by etrans).
  destruct (dh_accepts sk peer); cbn [negb]; [|rewrite Ez; by exists h2].
  case_bool_decide; cbn [negb]; [|rewrite Ez; by exists h2].
  edestruct (install_keys_run cb) as (h3 & -> & F3); [exact Hc1|]. exists h3.
  split; [etrans; [exact F1|exact F3]|done].
Qed.

Lemma encapsulate_auth_run (cb : CFnPtr) (own : SigningKey87) (peer_vk : PublicKey87) (ek : PublicKey1024)
    (peer entropy salt app ct0 pk0 sig0 conf0 : list byte) (w : world) :
  c_cache_flush (ch w) = Some cb -> zlen app < 2 ^ 32 -> degenerate entropy = false ->
  let s := secret_from (slice 32 64 entropy) in
  dh_accepts (secret_to_bytes s) peer = true ->
  let binding := sha384 (binding_parts ek peer (identity_fingerprint peer_vk)
    (identity_fingerprint (verifying_key own)) app (zlen app)) in
  let kem := encapsulate_deterministic ek (slice 0 32 entropy) in
  let inner := handshake_transcript kem.1 (public_from s) binding in
  let cl := dh_bytes (secret_to_bytes s) peer in
  let cm := confirmation_material kem.2 cl salt (confirmation_info inner) in
  let k := session_material kem.2 cl salt inner in
  let transcript := transcript_hash binding kem.1 (public_from s) in
  let tag := encap_tag cm transcript in
  let digest := encapsulator_digest transcript tag in
  exists h', flushed cb (ch w) h' /\
    encapsulate_authenticated own peer_vk ek peer entropy salt app ct0 pk0 sig0 conf0 w =
    Done (Ok tt, kem.1, public_from s, signed own digest CONTEXT_ENCAPSULATING_SIDE, tag)
      (MkWorld (set_pending (Some (MkPending digest (identity_fingerprint peer_vk) (drop 48 cm)))
                 (established (inner_key k) (outer_key k))) h').
Proof.
  intros Hcb Hl Hd s Ha binding kem inner cl cm k transcript tag digest.
  unfold encapsulate_authenticated. rewrite binding_ok by done. fold binding. msimpl.
  destruct (encapsulate_inner_run cb ek peer entropy salt binding ct0 pk0 true w Hcb Hd) as (h1 & F1 & ->).
  fold s. rewrite Ha. fold kem. fold inner cl. fold cm k. cbv iota beta.
  pose proof (flushed_cb _ _ _ F1 Hcb) as Hc1. fold transcript.
  edestruct (tag_run cb (slice 0 CONFIRMATION_KEY_LEN cm) CONFIRM_LABEL_ENCAPSULATING_SIDE transcript)
    as (h2 & -> & F2); [vm_compute; lia|exact Hc1|].
  change (expected_tag (slice 0 CONFIRMATION_KEY_LEN cm) CONFIRM_LABEL_ENCAPSULATING_SIDE transcript) with tag.
  fold digest.
  edestruct (sign_run cb own digest CONTEXT_ENCAPSULATING_SIDE) as (h3 & -> & F3);
    [vm_compute; lia|exact (flushed_cb _ _ _ F2 Hc1)|].
  exists h3. split; [|done]. by do 2 (etrans; [eassumption|]).
Qed.

Lemma confirm_run (cb : CFnPtr) (p : PendingAuthentication) (vk : PublicKey87) (sig conf : list byte) (w : world) :
  c_cache_flush (ch w) = Some cb -> pending_auth (sm w) = Some p ->
  exists h', flushed cb (ch w) h' /\
    confirm_peer vk sig conf w =
    if negb (bool_decide (identity_fingerprint vk = peer_identity p)) ||
       negb (verifies vk (keygen_digest (digest p) conf) CONTEXT_KEYGEN_SIDE sig)
    then Done (Err VerificationFailed) w else
    if bool_decide (expected_tag (confirmation_key p) CONFIRM_LABEL_KEYGEN_SIDE (digest p) = conf)
    then Done (Ok tt) (MkWorld (set_pending None (sm w)) h')
    else Done (Err KeyConfirmationFailed) (MkWorld new h').
Proof.
  intros Hcb Hp. unfold confirm_peer. msimpl. rewrite Hp, tags_equal_spec, verify_cases.
  case_bool_decide; cbn [negb orb]; [|by exists (ch w)].
  destruct (verifies _ _ _ _); cbn [negb orb]; [|by exists (ch w)].
  edestruct (tag_run cb (confirmation_key p) CONFIRM_LABEL_KEYGEN_SIDE (digest p)) as (h1 & -> & F1);
    [vm_compute; lia|exact Hcb|].
  pose proof (flushed_cb _ _ _ F1 Hcb) as Hc1. rewrite tags_equal_spec. case_bool_decide.
  - rewrite (wipe_pending_run cb) by done. cbn. rewrite Hp. eexists. split; [|done].
    etrans; [exact F1|apply flushed_one].
  - destruct (zeroize_flushed cb (set_ch h1 w) Hc1) as (h2 & -> & F2). exists h2. split; [by etrans|done].
Qed.

(** The messages and the four session states of an honest run, whatever the hosts do
    in between. *)
Lemma auth_chain (ska skb : SigningKey87) (ea eb salt app : list byte) :
  zlen app < 2 ^ 32 -> degenerate ea = false -> degenerate eb = false -> honest_dh ea eb ->
  exists ek xpk pend ct bpk sigb confb sb1 siga confa sa2 sb2,
    (forall cb a, c_cache_flush (ch a) = Some cb ->
       exists h', initiate_handshake ea a = Done (Ok (ek, xpk)) (MkWorld pend h') /\ flushed cb (ch a) h') /\
    (forall cb b ct0 pk0 sig0 conf0, c_cache_flush (ch b) = Some cb ->
       exists h', encapsulate_authenticated skb (verifying_key ska) ek xpk eb salt app ct0 pk0 sig0 conf0 b =
         Done (Ok tt, ct, bpk, sigb, confb) (MkWorld sb1 h') /\ flushed cb (ch b) h') /\
    (forall cb h sig0 conf0, c_cache_flush h = Some cb ->
       exists h', finalize_authenticated ska (verifying_key skb) bpk ct sigb confb salt app sig0 conf0
         (MkWorld pend h) = Done (Ok tt, siga, confa) (MkWorld sa2 h') /\ flushed cb h h') /\
    (forall cb h, c_cache_flush h = Some cb ->
       exists h', confirm_peer (verifying_key ska) siga confa (MkWorld sb1 h) = Done (Ok tt) (MkWorld sb2 h') /\
         flushed cb h h') /\
    is_awaiting_peer_confirmation sb1 = true /\ paired sa2 sb2.
Proof.
  intros Hl Hea Heb Hdh. destruct (honest_dh_accepts ea eb Hdh) as (D1 & D2 & D3).
  eexists _, _, _, _, _, _, _, _, _, _, _, _. split_and!.
  - intros cb a Hc. destruct (initiate_run cb ea a Hc Hea) as (h & E & F). exists h. split; [exact E|exact F].
  - intros cb b ct0 pk0 sig0 conf0 Hc.
    destruct (encapsulate_auth_run cb skb (verifying_key ska) (encapsulation_key (kem_from_seed (slice 0 64 ea)))
      (public_from (secret_from (slice 64 96 ea))) eb salt app ct0 pk0 sig0 conf0 b Hc Hl Heb D1) as (h & F & E).
    exists h. split; [exact E|exact F].
  - intros cb h sig0 conf0 Hc.
    match goal with |- exists _, finalize_authenticated _ _ ?pk ?ct ?sg ?cf _ _ _ _ ?w = _ /\ _ =>
      destruct (finalize_auth_run cb (kem_from_seed (slice 0 64 ea)) (secret_to_bytes (secret_from (slice 64 96 ea)))
        ska (verifying_key skb) pk ct sg cf salt app sig0 conf0 w Hc eq_refl eq_refl Hl) as (h' & F & E)
    end.
    exists h'. split; [|exact F]. rewrite E.
    unfold keygen_transcript, keygen_binding, x25519_keygen. cbn [fst].
    rewrite secret_roundtrip, kem_correct, D2, D3, signed_verifies, bool_decide_true by (done || vm_compute; lia).
    cbn [negb]. reflexivity.
  - intros cb h Hc.
    match goal with |- exists _, confirm_peer ?vk ?sg ?cf ?w = _ /\ _ =>
      destruct (confirm_run cb _ vk sg cf w Hc eq_refl) as (h' & F & E)
    end.
    exists h'. split; [|exact F]. rewrite E. cbn [digest peer_identity confirmation_key].
    rewrite signed_verifies, !bool_decide_true by (done || vm_compute; lia). cbn [negb orb sm]. reflexivity.
  - done.
  - eexists _, _. split_and!; [| |done|done]; [apply length_outer_key|apply length_inner_key];
      apply length_session_material.
Qed.

(** A session refuses traffic: whatever the arguments, sealing and opening answer
    [InvalidState] and change neither a buffer nor the session nor the host. *)
Definition refuses_traffic (w : world) : Prop :=
  (forall aad plaintext ciphertext nonce tag,
     encrypt_packet aad plaintext ciphertext nonce tag w = Done (Err InvalidState, ciphertext, nonce, tag) w) /\
  (forall aad ciphertext nonce tag plaintext,
     decrypt_packet aad ciphertext nonce tag plaintext w = Done (Err InvalidState, plaintext) w).

Lemma awaiting_refuses (w : world) : is_awaiting_peer_confirmation (sm w) = true -> refuses_traffic w.
Proof.
  unfold is_awaiting_peer_confirmation. intros Haw.
  split; intros; [unfold encrypt_packet|unfold decrypt_packet]; msimpl; by rewrite Haw, orb_true_r.
Qed.

(** A confirmation that succeeds clears the pending state and nothing else. *)
Lemma confirm_ok (cb : CFnPtr) (vk : PublicKey87) (sig conf : list byte) (w w' : world) :
  c_cache_flush (ch w) = Some cb -> confirm_peer vk sig conf w = Done (Ok tt) w' ->
  sm w' = set_pending None (sm w).
Proof.
  intros Hcb E. destruct (pending_auth (sm w)) as [p|] eqn:Ep.
  - destruct (confirm_run cb p vk sig conf w Hcb Ep) as (h' & _ & E').
    rewrite E' in E. destruct (_ || _); [done|]. case_bool_decide; [|done]. by injection E as <-.
  - unfold confirm_peer in E. msimpl. by rewrite Ep in E.
Qed.

End runs.

(** * Claims *)

(** C4: the authenticated handshake, end to end. With each side holding the other's
    verifying key, equal salt and application info, non-degenerate entropy and an
    exchange X25519 accepts, all four calls succeed. Between its two calls the
    encapsulating side is established and holds its keys, yet refuses all traffic:
    for every argument [encrypt_packet] and [decrypt_packet] answer [InvalidState]
    and change no buffer, no session state and no host state; the confirmation
    clears the pending state and nothing else. Then both hold mirrored, intact keys
    and deliver packets exactly once in both directions. *)
Theorem auth_end_to_end `{CryptoLaws} (cb1 cb2 : CFnPtr) (a b : world) (ska skb : SigningKey87)
    (ea eb salt app ct0 pk0 sig0 conf0 sig1 conf1 : list byte) :
  c_cache_flush (ch a) = Some cb1 -> c_cache_flush (ch b) = Some cb2 -> zlen app < 2 ^ 32 ->
  degenerate ea = false -> degenerate eb = false -> honest_dh ea eb ->
  exists ek xpk a1 ct bpk sigb confb b1 siga confa a2 b2,
    initiate_handshake ea a = Done (Ok (ek, xpk)) a1 /\
    encapsulate_authenticated skb (verifying_key ska) ek xpk eb salt app ct0 pk0 sig0 conf0 b =
      Done (Ok tt, ct, bpk, sigb, confb) b1 /\
    is_awaiting_peer_confirmation (sm b1) = true /\ is_established (sm b1) = true /\ refuses_traffic b1 /\
    finalize_authenticated ska (verifying_key skb) bpk ct sigb confb salt app sig1 conf1 a1 =
      Done (Ok tt, siga, confa) a2 /\
    confirm_peer (verifying_key ska) siga confa b1 = Done (Ok tt) b2 /\
    sm b2 = set_pending None (sm b1) /\
    paired (sm a2) (sm b2) /\ delivers a2 b2 /\ delivers b2 a2.
Proof.
  intros Hc1 Hc2 Hl Hea Heb Hdh.
  destruct (auth_chain ska skb ea eb salt app Hl Hea Heb Hdh)
    as (ek & xpk & pend & ct & bpk & sigb & confb & sb1 & siga & confa & sa2 & sb2 & Hi & He & Hf & Hk & Haw & P).
  destruct (Hi cb1 a Hc1) as (h1 & E1 & F1). pose proof (flushed_cb _ _ _ F1 Hc1) as Hc1'.
  destruct (He cb2 b ct0 pk0 sig0 conf0 Hc2) as (h2 & E2 & F2). pose proof (flushed_cb _ _ _ F2 Hc2) as Hc2'.
  destruct (Hf cb1 h1 sig1 conf1 Hc1') as (h3 & E3 & F3). destruct (Hk cb2 h2 Hc2') as (h4 & E4 & F4).
  exists ek, xpk, (MkWorld pend h1), ct, bpk, sigb, confb, (MkWorld sb1 h2), siga, confa, (MkWorld sa2 h3),
    (MkWorld sb2 h4).
  assert (Hset := confirm_ok cb2 _ _ _ (MkWorld sb1 h2) _ Hc2' E4). cbn in Hset.
  assert (Hest : is_established sb1 = true).
  { destruct P as (k1 & k2 & _ & _ & _ & Hb). change (is_established (set_pending None sb1) = true). by rewrite <- Hset, Hb. }
  split; [exact E1|]. split; [exact E2|]. split; [exact Haw|]. split; [exact Hest|].
  split; [by apply awaiting_refuses|]. split; [exact E3|]. split; [exact E4|]. split; [exact Hset|].
  split; [exact P|]. eapply paired_delivers; [exact P|exact (flushed_cb _ _ _ F3 Hc1')|].
  exact (flushed_cb _ _ _ F4 Hc2').
Qed.

(** C30: what the key-generating side accepts. With a handshake pending,
    [finalize_authenticated] succeeds exactly when the signature verifies under the
    expected peer key over the digest of this transcript and tag, X25519 accepts
    the peer key, and the tag is the one the derived confirmation key gives. A bad
    signature changes nothing at all; any later failure wipes the session; no
    failure writes the output buffers; after success nothing is pending. *)
Theorem auth_finalize_exact `{CryptoLaws} (cb : CFnPtr) (dk : DecapsKey1024) (sk : list byte) (own : SigningKey87)
    (peer_vk : PublicKey87) (peer ct sig conf salt app sig0 conf0 : list byte) (w : world) :
  c_cache_flush (ch w) = Some cb -> ml_kem_dk (sm w) = Some dk -> x25519_sk (sm w) = Some sk ->
  zlen app < 2 ^ 32 ->
  let transcript := keygen_transcript dk sk own peer_vk app ct peer in
  let v := verifies peer_vk (encapsulator_digest transcript conf) CONTEXT_ENCAPSULATING_SIDE sig in
  let inner := handshake_transcript ct peer (keygen_binding dk sk own peer_vk app) in
  let cm := confirmation_material (decapsulate dk ct) (dh_bytes sk peer) salt (confirmation_info inner) in
  exists r sig' conf' w',
    finalize_authenticated own peer_vk peer ct sig conf salt app sig0 conf0 w = Done (r, sig', conf') w' /\
    (r = Ok tt <-> v = true /\ dh_accepts sk peer = true /\ encap_tag cm transcript = conf) /\
    (v = false -> r = Err VerificationFailed /\ w' = w) /\
    (v = true -> r <> Ok tt -> sm w' = new) /\
    (v = true -> dh_accepts sk peer = true -> r <> Ok tt -> r = Err KeyConfirmationFailed) /\
    (r <> Ok tt -> sig' = sig0 /\ conf' = conf0) /\
    (r = Ok tt -> carries_traffic (sm w') /\ ml_kem_dk (sm w') = None /\ x25519_sk (sm w') = None).
Proof.
  intros Hcb Hdk Hsk Hl transcript v inner cm.
  destruct (finalize_auth_run cb dk sk own peer_vk peer ct sig conf salt app sig0 conf0 w Hcb Hdk Hsk Hl)
    as (h' & _ & E).
  fold transcript in E. fold v inner in E. fold cm in E. clearbody v cm.
  destruct v, (dh_accepts sk peer); cbn [negb] in E; try case_bool_decide; cbn [negb] in E;
    eexists _, _, _, _; (split; [exact E|]); clear E; unfold carries_traffic; naive_solver.
Qed.

(** C31: what the encapsulating side accepts. While a confirmation is pending,
    [confirm_peer] opens the session exactly when the presented key has the pinned
    identity, its signature over the pending digest and the tag verifies, and the
    tag is the expected one; then only the pending state is cleared. A wrong
    identity or signature changes nothing, so the genuine proof can still arrive; a
    validly signed wrong tag wipes the session. Without a pending confirmation the
    call is refused. *)
Theorem auth_confirm_exact `{CryptoLaws} (cb : CFnPtr) (vk : PublicKey87) (sig conf : list byte) (w : world) :
  c_cache_flush (ch w) = Some cb ->
  (pending_auth (sm w) = None -> confirm_peer vk sig conf w = Done (Err InvalidState) w) /\
  (forall p, pending_auth (sm w) = Some p ->
     let v := identity_fingerprint vk = peer_identity p /\
              verifies vk (keygen_digest (digest p) conf) CONTEXT_KEYGEN_SIDE sig = true in
     let t := expected_tag (confirmation_key p) CONFIRM_LABEL_KEYGEN_SIDE (digest p) in
     exists r w', confirm_peer vk sig conf w = Done r w' /\
       (r = Ok tt <-> v /\ t = conf) /\
       (r = Ok tt -> sm w' = set_pending None (sm w)) /\
       (~ v -> r = Err VerificationFailed /\ w' = w) /\
       (v -> t <> conf -> r = Err KeyConfirmationFailed /\ sm w' = new)).
Proof.
  intros Hcb. split.
  - intros Hp. unfold confirm_peer. msimpl. by rewrite Hp.
  - intros p Hp v t. destruct (confirm_run cb p vk sig conf w Hcb Hp) as (h' & _ & E). fold t in E.
    unfold v. case_bool_decide; cbn [negb orb] in E;
      [destruct (verifies vk (keygen_digest (digest p) conf) CONTEXT_KEYGEN_SIDE sig); cbn [negb orb] in E|].
    + case_bool_decide; eexists _, _; (split; [exact E|]); clear E; naive_solver.
    + eexists _, _. split; [exact E|]. clear E. naive_solver.
    + eexists _, _. split; [exact E|]. clear E. naive_solver.
Qed.

(** ** Witnesses *)

Definition toy_dk : DecapsKey1024 := kem_from_seed [].
Definition key_a : SigningKey87 := dsa_from_seed [x0a].
Definition key_b : SigningKey87 := dsa_from_seed [x0b].

Lemma auth_end_to_end_witness :
  exists ek xpk a1 ct bpk sigb confb b1 siga confa a2 b2,
    initiate_handshake entropy_a (MkWorld new sample_chost) = Done (Ok (ek, xpk)) a1 /\
    encapsulate_authenticated key_b (verifying_key key_a) ek xpk entropy_b [x01] [x02] [] [] [] [] sample_world =
      Done (Ok tt, ct, bpk, sigb, confb) b1 /\
    is_awaiting_peer_confirmation (sm b1) = true /\ is_established (sm b1) = true /\ refuses_traffic b1 /\
    finalize_authenticated key_a (verifying_key key_b) bpk ct sigb confb [x01] [x02] [] [] a1 =
      Done (Ok tt, siga, confa) a2 /\
    confirm_peer (verifying_key key_a) siga confa b1 = Done (Ok tt) b2 /\
    sm b2 = set_pending None (sm b1) /\
    paired (sm a2) (sm b2) /\ delivers a2 b2 /\ delivers b2 a2.
Proof.
  exact (auth_end_to_end 4 4 (MkWorld new sample_chost) sample_world key_a key_b entropy_a entropy_b [x01] [x02]
    [] [] [] [] [] [] eq_refl eq_refl eq_refl eq_refl eq_refl sample_honest_dh).
Defined.

Lemma auth_finalize_exact_witness :
  exists r sig' conf' w',
    finalize_authenticated key_a (verifying_key key_b) (zeros 32) (zeros 1568) [] [] [] [] [x01] [x02]
      pending_world = Done (r, sig', conf') w' /\ r = Err VerificationFailed /\ w' = pending_world.
Proof.
  destruct (auth_finalize_exact 4 toy_dk (zeros 32) key_a (verifying_key key_b) (zeros 32) (zeros 1568)
    [] [] [] [] [x01] [x02] pending_world eq_refl eq_refl eq_refl eq_refl) as (r & s & c & w' & E & _ & Hv & _).
  exists r, s, c, w'. split; [exact E|]. apply Hv. vm_compute. reflexivity.
Defined.

Lemma auth_confirm_exact_witness :
  confirm_peer (verifying_key key_a) [] [] sample_world = Done (Err InvalidState) sample_world.
Proof.
  exact (proj1 (auth_confirm_exact 4 (verifying_key key_a) [] [] sample_world eq_refl) eq_refl).
Defined.

End Auth.
