(* ===== verification/AuthFuzz.v ===== *)
(** auth_handshake_fuzz.rs: a reply made of arbitrary bytes against a pending
    authenticated handshake, then the genuine exchange, a peer that was given another
    salt, and an arbitrary proof against the waiting side.

    The three session managers and the identities the target keeps are one state;
    [unwrap] of an error and a failed assertion are [halt]. The assertions that a forgery is
    refused are about the primitives as much as about the sessions, so the result says
    for which inputs exactly the target fails: those whose bytes are themselves a
    signature that verifies, and those for which two salts give the same
    confirmation tag. *)

From S2P Require Import Prelude CryptoHost Primitives ToyCrypto Aead Kdf AuthEncoding Session Handshake AuthSession.
Import Sess Hs Auth.
Local Open Scope Z_scope.

Module AuthFuzz.

Section target.
Context `{CryptoOps}.

Record Identity : Type := MkIdentity {
  vk : PublicKey87;
  sk : SigningKey87
}.

Record state : Type := MkState {
  keygen : SessionManager;
  encap : SessionManager;
  mismatched : SessionManager;
  IDENTITIES : option (Identity * Identity);
  host : CHost
}.

Definition set_keygen (w : world) (s : state) : state :=
  MkState (sm w) (encap s) (mismatched s) (IDENTITIES s) (ch w).
Definition set_encap (w : world) (s : state) : state :=
  MkState (keygen s) (sm w) (mismatched s) (IDENTITIES s) (ch w).
Definition set_mismatched (w : world) (s : state) : state :=
  MkState (keygen s) (encap s) (sm w) (IDENTITIES s) (ch w).

Definition on_keygen {A} (m : M world A) : M state A := zoom (fun s => MkWorld (keygen s) (host s)) set_keygen m.
Definition on_encap {A} (m : M world A) : M state A := zoom (fun s => MkWorld (encap s) (host s)) set_encap m.
Definition on_mismatched {A} (m : M world A) : M state A :=
  zoom (fun s => MkWorld (mismatched s) (host s)) set_mismatched m.

Definition assert (b : bool) : M state unit := if b then mret tt else halt.
Definition unwrap {A E} (r : result A E) : M state A := match r with Ok a => mret a | Err _ => halt end.

Definition make (seed : byte) : M state Identity :=
  keys ← unwrap (ml_dsa_keygen (replicate 32 seed)); mret (MkIdentity keys.1 keys.2).

(** [OnceLock::get_or_init]: the first call registers the callback and makes the keys. *)
Definition identities (no_op_cache_flush : CFnPtr) : M state (Identity * Identity) :=
  s ← get;
  match IDENTITIES s with
  | Some ids => mret ids
  | None =>
      modify (fun s => MkState (keygen s) (encap s) (mismatched s) (IDENTITIES s)
                         (crypto_register_cache_flush (Some no_op_cache_flush) (host s))) ;;
      a ← make x41; b ← make x42;
      modify (fun s => MkState (keygen s) (encap s) (mismatched s) (Some (a, b)) (host s)) ;;
      mret (a, b)
  end.

Definition fill (out data : list byte) (offset : nat) : list byte :=
  imap (fun index _ => match data with
                       | [] => x00
                       | _ => default x00 (data !! ((offset + index) mod length data)%nat)
                       end) out.

(** The four buffers an input is spread over. *)
Definition forged_ct (data : list byte) : list byte := fill (zeros 1568) data 0.
Definition forged_xe (data : list byte) : list byte := fill (zeros 32) data 1568.
Definition forged_sig (data : list byte) : list byte := fill (zeros 4627) data 1600.
Definition forged_tag (data : list byte) : list byte := fill (zeros 48) data (1600 + 4627).
Definition app_info (data : list byte) : list byte := take (Nat.min (length data) 32) data.
Definition wrong_salt (data : list byte) : list byte :=
  replicate 5 (byte_of_Z (Z.lor (bval (default x00 (list.head data))) 0x80)).
Definition salt : list byte := bstr "salt".

Definition keygen_entropy : list byte := replicate 96 x11.
Definition encap_entropy : list byte := replicate 64 x22.

(** The last part of the closure: the genuine reply arrives, then an arbitrary proof
    and the genuine one. *)
Definition confirmation (keygen_id encap_id : Identity) (data app : list byte) (ct : Ciphertext1024) (xe : X25519Public)
    (sig_e tag_e out nonce tag : list byte) : M state unit :=
  r ← on_keygen (finalize_authenticated (sk keygen_id) (vk encap_id) xe ct sig_e tag_e salt app
        (zeros 4627) (zeros 48));
  let '(r, sig_k, tag_k) := r in
  unwrap r ;;
  r ← on_encap (confirm_peer (vk keygen_id) (forged_sig data) (forged_tag data));
  assert (negb (is_ok r)) ;;
  r ← on_encap (encrypt_packet [] (bstr "data") out nonce tag);
  assert (negb (is_ok r.1.1.1)) ;;
  r ← on_encap (confirm_peer (vk keygen_id) sig_k tag_k);
  unwrap r.

(** The closure from the genuine reply on. *)
Definition after_forgery (keygen_id encap_id : Identity) (data : list byte) (ek : PublicKey1024) (xk : X25519Public)
    (app unused unused_tag : list byte) : M state unit :=
  r ← on_encap (encapsulate_authenticated (sk encap_id) (vk keygen_id) ek xk encap_entropy salt app
        (zeros 1568) (zeros 32) (zeros 4627) (zeros 48));
  let '(r, ct, xe, sig_e, tag_e) := r in
  unwrap r ;;
  modify (fun s => MkState (keygen s) (encap s) new (IDENTITIES s) (host s)) ;;
  r ← on_mismatched (initiate_handshake keygen_entropy);
  offer2 ← unwrap r;
  let '(ek2, xk2) := offer2 in
  assert (bool_decide ((PublicKey1024_to_bytes ek2, xk2) = (PublicKey1024_to_bytes ek, xk))) ;;
  r ← on_mismatched (finalize_authenticated (sk keygen_id) (vk encap_id) xe ct sig_e tag_e
        (wrong_salt data) app unused unused_tag);
  let '(outcome, unused, unused_tag) := r in
  assert (bool_decide (outcome = Err KeyConfirmationFailed)) ;;
  r ← on_mismatched (encrypt_packet [] (bstr "data") (zeros 4) (zeros 12) (zeros 48));
  let '(r, out, nonce, tag) := r in
  assert (negb (is_ok r)) ;;
  confirmation keygen_id encap_id data app ct xe sig_e tag_e out nonce tag.

Definition fuzz_target (no_op_cache_flush : CFnPtr) (data : list byte) : M state unit :=
  ids ← identities no_op_cache_flush;
  let '(keygen_id, encap_id) := ids in
  modify (fun s => MkState new new (mismatched s) (IDENTITIES s) (host s)) ;;
  r ← on_keygen (initiate_handshake keygen_entropy);
  offer ← unwrap r;
  let '(ek, xk) := offer in
  let app := app_info data in
  r ← on_keygen (finalize_authenticated (sk keygen_id) (vk encap_id) (forged_xe data) (forged_ct data)
        (forged_sig data) (forged_tag data) salt app (zeros 4627) (zeros 48));
  let '(r, unused, unused_tag) := r in
  assert (negb (is_ok r)) ;;
  after_forgery keygen_id encap_id data ek xk app unused unused_tag.

End target.

(** * Stepping through a run *)

Section stepping.
Context `{CryptoOps}.

Lemma on_keygen_done {A} (m : M world A) (s : state) (a : A) (w : world) :
  m (MkWorld (keygen s) (host s)) = Done a w -> on_keygen m s = Done a (set_keygen w s).
Proof. intros E. unfold on_keygen, zoom. by rewrite E. Qed.
Lemma on_encap_done {A} (m : M world A) (s : state) (a : A) (w : world) :
  m (MkWorld (encap s) (host s)) = Done a w -> on_encap m s = Done a (set_encap w s).
Proof. intros E. unfold on_encap, zoom. by rewrite E. Qed.
Lemma on_mismatched_done {A} (m : M world A) (s : state) (a : A) (w : world) :
  m (MkWorld (mismatched s) (host s)) = Done a w -> on_mismatched m s = Done a (set_mismatched w s).
Proof. intros E. unfold on_mismatched, zoom. by rewrite E. Qed.

Lemma assertion_holds (b : bool) (s : state) : b = true -> assert b s = Done tt s.
Proof. by intros ->. Qed.

End stepping.

Ltac tidy := cbn [unwrap set_keygen set_encap set_mismatched sm ch keygen encap mismatched IDENTITIES host].
Ltac run done E := erewrite mbind_done by (apply done; exact E); tidy.
Ltac pass := erewrite (mbind_done (mret tt) _ _ _ _ eq_refl); tidy.
Ltac check := erewrite mbind_done by (apply assertion_holds; first [by apply bool_decide_eq_true | by apply negb_true_iff]); tidy.

(** * The inputs that break it *)

Section breaks.
Context `{CryptoLaws}.

Definition keygen_key : SigningKey87 := dsa_from_seed (replicate 32 x41).
Definition encap_key : SigningKey87 := dsa_from_seed (replicate 32 x42).
Definition known_ids : Identity * Identity :=
  (MkIdentity (verifying_key keygen_key) keygen_key, MkIdentity (verifying_key encap_key) encap_key).

Definition kem_key : DecapsKey1024 := kem_from_seed (slice 0 64 keygen_entropy).
Definition dh_key : list byte := secret_to_bytes (secret_from (slice 64 96 keygen_entropy)).
Definition honest_ct : list byte :=
  (encapsulate_deterministic (encapsulation_key kem_key) (slice 0 32 encap_entropy)).1.
Definition honest_xe : list byte := public_from (secret_from (slice 32 64 encap_entropy)).

(** The transcript both sides see when the reply is [(ct, xe)]. *)
Definition transcript (data ct xe : list byte) : list byte :=
  keygen_transcript kem_key dh_key keygen_key (verifying_key encap_key) (app_info data) ct xe.

(** The confirmation keys of the genuine exchange, had the salt been [salt]. *)
Definition material (data salt : list byte) : list byte :=
  confirmation_material (decapsulate kem_key honest_ct) (dh_bytes dh_key honest_xe) salt
    (confirmation_info (handshake_transcript honest_ct honest_xe
       (keygen_binding kem_key dh_key keygen_key (verifying_key encap_key) (app_info data)))).

Definition tag_for (data salt : list byte) : list byte :=
  encap_tag (material data salt) (transcript data honest_ct honest_xe).
Definition honest_digest (data : list byte) : list byte :=
  encapsulator_digest (transcript data honest_ct honest_xe) (tag_for data salt).

(** The input is a signed reply. *)
Definition reply_forged (data : list byte) : bool :=
  verifies (verifying_key encap_key)
    (encapsulator_digest (transcript data (forged_ct data) (forged_xe data)) (forged_tag data))
    CONTEXT_ENCAPSULATING_SIDE (forged_sig data).
(** Two salts give one tag. *)
Definition salts_collide (data : list byte) : bool := bool_decide (tag_for data (wrong_salt data) = tag_for data salt).
(** The input is a signed proof for the waiting side. *)
Definition proof_forged (data : list byte) : bool :=
  verifies (verifying_key keygen_key) (keygen_digest (honest_digest data) (forged_tag data)) CONTEXT_KEYGEN_SIDE
    (forged_sig data).

(** At the start of the process, or after an earlier input. *)
Definition ready (s : state) : Prop :=
  IDENTITIES s = None \/ IDENTITIES s = Some known_ids /\ is_Some (c_cache_flush (host s)).

Lemma identities_run (no_op_cache_flush : CFnPtr) (s : state) :
  ready s ->
  exists h cb, identities no_op_cache_flush s =
      Done known_ids (MkState (keygen s) (encap s) (mismatched s) (Some known_ids) h) /\ c_cache_flush h = Some cb.
Proof.
  intros [E|[E [cb Hcb]]]; unfold identities; msimpl; rewrite E.
  - by eexists _, _.
  - exists (host s), cb. split; [|done]. destruct s. cbn in *. by subst.
Qed.

Lemma app_info_small (data : list byte) : zlen (app_info data) < 2 ^ 32.
Proof. unfold app_info, zlen. rewrite length_take. lia. Qed.

(** The entropies the target uses are not degenerate. *)
Lemma entropies_ok : degenerate keygen_entropy = false /\ degenerate encap_entropy = false.
Proof. by vm_compute. Qed.

(** * The calls on the target's constants *)

Hypothesis exchange_ok : honest_dh keygen_entropy encap_entropy.

Lemma forged_reply (cb : CFnPtr) (data sl sig0 conf0 : list byte) (h : CHost) :
  c_cache_flush h = Some cb ->
  exists r sg cf m h',
    finalize_authenticated keygen_key (verifying_key encap_key) (forged_xe data) (forged_ct data) (forged_sig data)
      (forged_tag data) sl (app_info data) sig0 conf0 (MkWorld (pending_session keygen_entropy) h) =
      Done (r, sg, cf) (MkWorld m h') /\ c_cache_flush h' = Some cb /\
    if reply_forged data then r = Ok tt \/ m = new
    else is_ok r = false /\ m = pending_session keygen_entropy.
Proof.
  intros Hc. destruct (finalize_auth_run cb kem_key dh_key keygen_key (verifying_key encap_key) (forged_xe data)
    (forged_ct data) (forged_sig data) (forged_tag data) sl (app_info data) sig0 conf0
    (MkWorld (pending_session keygen_entropy) h) Hc eq_refl eq_refl (app_info_small data)) as (h' & F & E).
  fold (transcript data (forged_ct data) (forged_xe data)) in E. fold (reply_forged data) in E.
  pose proof (flushed_cb _ _ _ F Hc) as Hc'. rewrite E.
  destruct (reply_forged data); cbn [negb]; [|by eexists _, _, _, _, _].
  destruct (dh_accepts _ _); cbn [negb]; [case_bool_decide; cbn [negb]|]; eexists _, _, _, _, _; eauto.
Qed.

Lemma honest_reply (cb : CFnPtr) (data ct0 pk0 sig0 conf0 : list byte) (m : SessionManager) (h : CHost) :
  c_cache_flush h = Some cb ->
  exists p e h',
    encapsulate_authenticated encap_key (verifying_key keygen_key) (encapsulation_key kem_key)
      (public_from (secret_from (slice 64 96 keygen_entropy))) encap_entropy salt (app_info data) ct0 pk0 sig0 conf0
      (MkWorld m h) =
      Done (Ok tt, honest_ct, honest_xe, signed encap_key (honest_digest data) CONTEXT_ENCAPSULATING_SIDE,
            tag_for data salt) (MkWorld (set_pending (Some p) e) h') /\ c_cache_flush h' = Some cb /\
    p = MkPending (honest_digest data) (identity_fingerprint (verifying_key keygen_key)) (drop 48 (material data salt)).
Proof.
  intros Hc. destruct (honest_dh_accepts _ _ exchange_ok) as (D1 & D2 & D3).
  destruct (encapsulate_auth_run cb encap_key (verifying_key keygen_key) (encapsulation_key kem_key)
    (public_from (secret_from (slice 64 96 keygen_entropy))) encap_entropy salt (app_info data) ct0 pk0 sig0 conf0
    (MkWorld m h) Hc (app_info_small data) (proj2 entropies_ok) D1) as (h' & F & E).
  rewrite E. eexists _, _, h'. split; [|split; [exact (flushed_cb _ _ _ F Hc)|reflexivity]].
  unfold honest_digest, tag_for, material, transcript, keygen_transcript, keygen_binding, x25519_keygen.
  unfold honest_ct, honest_xe, dh_key. cbn [fst]. rewrite secret_roundtrip, kem_correct, D3. reflexivity.
Qed.

(** The genuine reply, at a side whose salt is [sl]. *)
Lemma honest_finalize (cb : CFnPtr) (data sl sig0 conf0 : list byte) (h : CHost) :
  c_cache_flush h = Some cb ->
  exists h', c_cache_flush h' = Some cb /\
    finalize_authenticated keygen_key (verifying_key encap_key) honest_xe honest_ct
      (signed encap_key (honest_digest data) CONTEXT_ENCAPSULATING_SIDE) (tag_for data salt) sl (app_info data)
      sig0 conf0 (MkWorld (pending_session keygen_entropy) h) =
    if bool_decide (tag_for data sl = tag_for data salt)
    then Done (Ok tt, signed keygen_key (keygen_digest (honest_digest data) (keygen_tag (material data sl) (honest_digest data)))
                 CONTEXT_KEYGEN_SIDE, keygen_tag (material data sl) (honest_digest data))
           (MkWorld (let k := session_material (decapsulate kem_key honest_ct) (dh_bytes dh_key honest_xe) sl
                       (handshake_transcript honest_ct honest_xe
                          (keygen_binding kem_key dh_key keygen_key (verifying_key encap_key) (app_info data))) in
                     established (outer_key k) (inner_key k)) h')
    else Done (Err KeyConfirmationFailed, sig0, conf0) (MkWorld new h').
Proof.
  intros Hc. destruct (honest_dh_accepts _ _ exchange_ok) as (_ & D2 & _).
  destruct (finalize_auth_run cb kem_key dh_key keygen_key (verifying_key encap_key) honest_xe honest_ct
    (signed encap_key (honest_digest data) CONTEXT_ENCAPSULATING_SIDE) (tag_for data salt) sl (app_info data) sig0 conf0
    (MkWorld (pending_session keygen_entropy) h) Hc eq_refl eq_refl (app_info_small data)) as (h' & F & E).
  exists h'. split; [exact (flushed_cb _ _ _ F Hc)|]. rewrite E. clear E.
  fold (transcript data honest_ct honest_xe). fold (honest_digest data). fold (material data sl).
  fold (tag_for data sl).
  rewrite signed_verifies by (vm_compute; lia). unfold dh_key, honest_xe at 1. rewrite D2. cbn [negb].
  by case_bool_decide.
Qed.

Lemma forged_proof (cb : CFnPtr) (data : list byte) (p : PendingAuthentication) (e : SessionManager) (h : CHost) :
  c_cache_flush h = Some cb ->
  p = MkPending (honest_digest data) (identity_fingerprint (verifying_key keygen_key)) (drop 48 (material data salt)) ->
  exists r m h', confirm_peer (verifying_key keygen_key) (forged_sig data) (forged_tag data)
      (MkWorld (set_pending (Some p) e) h) = Done r (MkWorld m h') /\ c_cache_flush h' = Some cb /\
    if proof_forged data then r = Ok tt \/ m = new
    else is_ok r = false /\ m = set_pending (Some p) e.
Proof.
  intros Hc Hp. destruct (confirm_run cb p (verifying_key keygen_key) (forged_sig data) (forged_tag data)
    (MkWorld (set_pending (Some p) e) h) Hc eq_refl) as (h' & F & E).
  pose proof (flushed_cb _ _ _ F Hc) as Hc'. rewrite E. clear E. subst p. cbn [peer_identity digest].
  rewrite bool_decide_true by done. cbn [negb orb]. fold (proof_forged data).
  destruct (proof_forged data); cbn [negb]; [|by eexists _, _, _].
  case_bool_decide; eexists _, _, _; (split; [done|]; split; [done|]); [by left|by right].
Qed.

Lemma honest_proof (cb : CFnPtr) (data : list byte) (p : PendingAuthentication) (e : SessionManager) (h : CHost) :
  c_cache_flush h = Some cb ->
  p = MkPending (honest_digest data) (identity_fingerprint (verifying_key keygen_key)) (drop 48 (material data salt)) ->
  let tag := keygen_tag (material data salt) (honest_digest data) in
  exists h', confirm_peer (verifying_key keygen_key)
      (signed keygen_key (keygen_digest (honest_digest data) tag) CONTEXT_KEYGEN_SIDE) tag
      (MkWorld (set_pending (Some p) e) h) = Done (Ok tt) (MkWorld (set_pending None (set_pending (Some p) e)) h') /\
    c_cache_flush h' = Some cb.
Proof.
  intros Hc Hp tag. destruct (confirm_run cb p (verifying_key keygen_key)
    (signed keygen_key (keygen_digest (honest_digest data) tag) CONTEXT_KEYGEN_SIDE) tag
    (MkWorld (set_pending (Some p) e) h) Hc eq_refl) as (h' & F & E).
  exists h'. split; [|exact (flushed_cb _ _ _ F Hc)]. rewrite E. subst p. cbn [peer_identity digest confirmation_key].
  rewrite signed_verifies by (vm_compute; lia). by rewrite !bool_decide_true by done.
Qed.

(** * The run *)

(** A wiped session has nothing to finish. *)
Lemma finalize_new (own : SigningKey87) (pk : PublicKey87) (peer ct sig conf sl app sig0 conf0 : list byte) (h : CHost) :
  finalize_authenticated own pk peer ct sig conf sl app sig0 conf0 (MkWorld new h) =
    Done (Err InvalidState, sig0, conf0) (MkWorld new h).
Proof. reflexivity. Qed.
Lemma confirm_new (pk : PublicKey87) (sig conf : list byte) (h : CHost) :
  confirm_peer pk sig conf (MkWorld new h) = Done (Err InvalidState) (MkWorld new h).
Proof. reflexivity. Qed.

Lemma confirmation_run (cb : CFnPtr) (data out nonce tag : list byte) (kg mm e : SessionManager) (h : CHost)
    (p : PendingAuthentication) :
  c_cache_flush h = Some cb -> kg = pending_session keygen_entropy \/ kg = new ->
  p = MkPending (honest_digest data) (identity_fingerprint (verifying_key keygen_key)) (drop 48 (material data salt)) ->
  exists s', ready s' /\
    confirmation known_ids.1 known_ids.2 data (app_info data) honest_ct honest_xe
      (signed encap_key (honest_digest data) CONTEXT_ENCAPSULATING_SIDE) (tag_for data salt) out nonce tag
      (MkState kg (set_pending (Some p) e) mm (Some known_ids) h) =
    if bool_decide (is_Some (x25519_sk kg)) && negb (proof_forged data) then Done tt s' else Halted s'.
Proof.
  intros Hc Hkg Hp. unfold confirmation. cbn [fst snd known_ids vk sk].
  destruct Hkg as [-> | ->].
  2: { erewrite mbind_done by (apply on_keygen_done, finalize_new). eexists. split; [|by apply mbind_halted]. right.
       split; [done|]. by exists cb. }
  destruct (honest_finalize cb data salt (zeros 4627) (zeros 48) h Hc) as (h1 & Hc1 & E1).
  rewrite bool_decide_true in E1 by done. run @on_keygen_done E1.
  pass. destruct (forged_proof cb data p e h1 Hc1 Hp) as (r & m & h2 & E2 & Hc2 & Hf).
  run @on_encap_done E2.
  assert (Hready : forall kg' en' mm' h', c_cache_flush h' = Some cb -> ready (MkState kg' en' mm' (Some known_ids) h')).
  { intros kg' en' mm' h' Hch. right. split; [done|]. by exists cb. }
  destruct (proof_forged data); cbn [negb andb].
  - destruct Hf as [-> | ->].
    + eexists. split; [|rewrite andb_false_r; by apply mbind_halted]. by apply Hready.
    + destruct (is_ok r) eqn:Er.
      { eexists. split; [|rewrite andb_false_r; by apply mbind_halted]. by apply Hready. }
      check. destruct (session_refuses_unready (MkWorld new h2) (or_introl eq_refl)) as [Es _].
      run @on_encap_done (Es [] (bstr "data") out nonce tag). check.
      run @on_encap_done (confirm_new (verifying_key keygen_key)
        (signed keygen_key (keygen_digest (honest_digest data) (keygen_tag (material data salt) (honest_digest data)))
           CONTEXT_KEYGEN_SIDE) (keygen_tag (material data salt) (honest_digest data)) h2).
      eexists. split; [|by rewrite andb_false_r]. by apply Hready.
  - destruct Hf as [Er ->]. check.
    destruct (session_refuses_unready (MkWorld (set_pending (Some p) e) h2) (or_intror (mk_is_Some _ _ eq_refl))) as [Es _].
    run @on_encap_done (Es [] (bstr "data") out nonce tag). check.
    destruct (honest_proof cb data p e h2 Hc2 Hp) as (h3 & E3 & Hc3). run @on_encap_done E3.
    eexists. split; [|done]. by apply Hready.
Qed.

Lemma after_forgery_run (cb : CFnPtr) (data u ut : list byte) (kg mm : SessionManager) (h : CHost) :
  c_cache_flush h = Some cb -> kg = pending_session keygen_entropy \/ kg = new ->
  exists s', ready s' /\
    after_forgery known_ids.1 known_ids.2 data (encapsulation_key kem_key)
      (public_from (secret_from (slice 64 96 keygen_entropy))) (app_info data) u ut
      (MkState kg new mm (Some known_ids) h) =
    if bool_decide (is_Some (x25519_sk kg)) && negb (salts_collide data || proof_forged data)
    then Done tt s' else Halted s'.
Proof.
  intros Hc Hkg. unfold after_forgery. cbn [fst snd known_ids vk sk].
  destruct (honest_reply cb data (zeros 1568) (zeros 32) (zeros 4627) (zeros 48) new h Hc) as (p & e & h1 & E1 & Hc1 & Hp).
  run @on_encap_done E1. pass. erewrite (mbind_done (modify _) _ _ _ _ eq_refl). tidy.
  destruct (initiate_run cb keygen_entropy (MkWorld new h1) Hc1 (proj1 entropies_ok)) as (h2 & E2 & F2).
  pose proof (flushed_cb _ _ _ F2 Hc1) as Hc2. run @on_mismatched_done E2.
  erewrite (mbind_done (mret _) _ _ _ _ eq_refl). cbv beta iota. check.
  destruct (honest_finalize cb data (wrong_salt data) u ut h2 Hc2) as (h3 & Hc3 & E3).
  fold (salts_collide data) in E3.
  destruct (salts_collide data); cbn [orb negb]; run @on_mismatched_done E3.
  - rewrite andb_false_r. eexists. split; [|by apply mbind_halted]. right. split; [done|]. by exists cb.
  - check. destruct (session_refuses_unready (MkWorld new h3) (or_introl eq_refl)) as [Es _].
    run @on_mismatched_done (Es [] (bstr "data") (zeros 4) (zeros 12) (zeros 48)). check. by apply (confirmation_run cb).
Qed.

End breaks.

(** * Claim *)

(** C20: what an input to the authenticated-handshake target can do. If its bytes are not a
    reply signed for the pending handshake, not a proof signed for the waiting side,
    and the tags under the two salts differ, the target runs to its end: the forged
    reply is refused and costs the pending handshake nothing, the peer with another
    salt is refused and opens no session, the forged proof is refused and the waiting
    side still sends nothing, and the genuine messages complete the handshake.
    Otherwise, and only then, an assertion fails. Either way the process is ready for
    the next input. *)
Theorem auth_fuzz_exact `{CryptoLaws} (no_op_cache_flush : CFnPtr) (data : list byte) (s : state) :
  honest_dh keygen_entropy encap_entropy -> ready s ->
  exists s', ready s' /\
    fuzz_target no_op_cache_flush data s =
    if reply_forged data || salts_collide data || proof_forged data then Halted s' else Done tt s'.
Proof.
  intros Hdh Hs. unfold fuzz_target. destruct (identities_run no_op_cache_flush s Hs) as (h & cb & E & Hc).
  rewrite (mbind_done _ _ _ _ _ E). cbv beta. unfold known_ids at 1. cbv iota.
  erewrite (mbind_done (modify _) _ _ _ _ eq_refl). tidy.
  destruct (initiate_run cb keygen_entropy (MkWorld new h) Hc (proj1 entropies_ok)) as (h1 & E1 & F1).
  pose proof (flushed_cb _ _ _ F1 Hc) as Hc1. run @on_keygen_done E1.
  erewrite (mbind_done (mret _) _ _ _ _ eq_refl). cbv beta iota.
  destruct (forged_reply cb data salt (zeros 4627) (zeros 48) h1 Hc1) as (r & sg & cf & m & h2 & E2 & Hc2 & Hf).
  run @on_keygen_done E2. assert (Hr : forall kg en mm, ready (MkState kg en mm (Some known_ids) h2)).
  { intros kg en mm. right. split; [done|]. by exists cb. }
  destruct (is_ok r) eqn:Er.
  - destruct (reply_forged data); [|by destruct Hf]. eexists. split; [|by apply mbind_halted]. apply Hr.
  - check. destruct (after_forgery_run Hdh cb data sg cf m (mismatched s) h2 Hc2) as (s' & Hs' & E').
    + destruct (reply_forged data); [|left; by apply Hf]. right. destruct Hf as [->|]; done.
    + exists s'. split; [done|]. etrans; [exact E'|]. destruct (reply_forged data).
      * destruct Hf as [-> | ->]; [done|]. done.
      * destruct Hf as [_ ->]. cbn. by destruct (salts_collide data || proof_forged data).
Qed.

(** Five bytes, the first input of a process: nothing is forged and the target passes. *)
Definition sample_state : state := MkState new new new None sample_chost.

Definition sample_data : list byte := [x00; x01; x02; x03; x04].

Lemma sample_data_harmless : reply_forged sample_data || salts_collide sample_data || proof_forged sample_data = false.
Proof. vm_compute. reflexivity. Qed.

Lemma sample_exchange : honest_dh keygen_entropy encap_entropy.
Proof. vm_compute. repeat split. Qed.

Lemma auth_fuzz_exact_witness :
  exists s', ready s' /\ fuzz_target 9 sample_data sample_state = Done tt s'.
Proof.
  destruct (auth_fuzz_exact 9 sample_data sample_state sample_exchange (or_introl eq_refl)) as (s' & Hs & E).
  rewrite sample_data_harmless in E. exists s'. split; [exact Hs|exact E].
Defined.

End AuthFuzz.
