(* ===== verification/SessionLife.v ===== *)
(** The life of a session manager under any sequence of its operations.

    [phase] is the abstract state machine the operations implement; [edge] its
    transitions, by operation and by whether the call succeeded. The refinement
    result says that every call, with arbitrary arguments, returns and follows an
    edge, and that the detailed state always is well formed for its phase. *)

From S2P Require Import Prelude CryptoHost Primitives ToyCrypto Aead Kdf AuthEncoding Session Handshake AuthSession.
Import Sess Hs Auth.
Local Open Scope Z_scope.

Module Life.

Section model.
Context `{CryptoOps}.

(** The operations of [SessionManager] that take [&mut self]. *)
Inductive session_op : Type :=
| OSeal (aad pt ct nonce tag : list byte)
| OOpen (aad ct nonce tag pt : list byte)
| ONextNonce (nonce : list byte)
| OInitiate (entropy : list byte)
| OFinalize (peer ct salt info : list byte)
| OEncapsulate (ek : PublicKey1024) (peer entropy salt info ct0 pk0 : list byte)
| OEncapsulateAuth (own : SigningKey87) (vk : PublicKey87) (ek : PublicKey1024)
    (peer entropy salt app ct0 pk0 sig0 conf0 : list byte)
| OFinalizeAuth (own : SigningKey87) (vk : PublicKey87) (peer ct sig conf salt app sig0 conf0 : list byte)
| OConfirm (vk : PublicKey87) (sig conf : list byte)
| OZeroize.

(** Run one operation and keep whether it succeeded. *)
Definition session_step (o : session_op) : M world bool :=
  match o with
  | OSeal aad pt ct n tag => r ← encrypt_packet aad pt ct n tag; mret (is_ok r.1.1.1)
  | OOpen aad ct n tag pt => r ← decrypt_packet aad ct n tag pt; mret (is_ok r.1)
  | ONextNonce n => r ← get_next_tx_nonce n; mret (is_ok r.1)
  | OInitiate e => r ← initiate_handshake e; mret (is_ok r)
  | OFinalize peer ct salt info => r ← finalize_handshake peer ct salt info; mret (is_ok r)
  | OEncapsulate ek peer e salt info ct0 pk0 =>
      r ← encapsulate_for_peer ek peer e salt info ct0 pk0; mret (is_ok r.1.1)
  | OEncapsulateAuth own vk ek peer e salt app ct0 pk0 sig0 conf0 =>
      r ← encapsulate_authenticated own vk ek peer e salt app ct0 pk0 sig0 conf0; mret (is_ok r.1.1.1.1)
  | OFinalizeAuth own vk peer ct sig conf salt app sig0 conf0 =>
      r ← finalize_authenticated own vk peer ct sig conf salt app sig0 conf0; mret (is_ok r.1.1)
  | OConfirm vk sig conf => r ← confirm_peer vk sig conf; mret (is_ok r)
  | OZeroize => zeroize_session ;; mret true
  end.

Fixpoint session_run (os : list session_op) : M world (list bool) :=
  match os with
  | [] => mret []
  | o :: os' => r ← session_step o; rs ← session_run os'; mret (r :: rs)
  end.

(** Nonce parameters are [&[u8; 12]]. *)
Definition op_ok (o : session_op) : Prop :=
  match o with OOpen _ _ n _ _ => length n = 12%nat | _ => True end.

(** * The abstract machine *)

Inductive phase : Type := Idle | Handshaking | Unconfirmed | Live.

(** [edge o ok p p']: a call of [o] in phase [p] that succeeds ([ok]) or fails may
    end in phase [p']. *)
Inductive edge : session_op -> bool -> phase -> phase -> Prop :=
| e_seal aad pt ct n tag : edge (OSeal aad pt ct n tag) true Live Live
| e_open aad ct n tag pt : edge (OOpen aad ct n tag pt) true Live Live
| e_nonce n p : edge (ONextNonce n) true p p
| e_initiate e p : edge (OInitiate e) true p Handshaking
| e_finalize peer ct salt info : edge (OFinalize peer ct salt info) true Handshaking Live
| e_finalize_wiped peer ct salt info : edge (OFinalize peer ct salt info) false Handshaking Idle
| e_encapsulate ek peer e salt info ct0 pk0 p : edge (OEncapsulate ek peer e salt info ct0 pk0) true p Live
| e_encapsulate_auth own vk ek peer e salt app ct0 pk0 sig0 conf0 p :
    edge (OEncapsulateAuth own vk ek peer e salt app ct0 pk0 sig0 conf0) true p Unconfirmed
| e_finalize_auth own vk peer ct sig conf salt app sig0 conf0 :
    edge (OFinalizeAuth own vk peer ct sig conf salt app sig0 conf0) true Handshaking Live
| e_finalize_auth_wiped own vk peer ct sig conf salt app sig0 conf0 :
    edge (OFinalizeAuth own vk peer ct sig conf salt app sig0 conf0) false Handshaking Idle
| e_finalize_auth_kept own vk peer ct sig conf salt app sig0 conf0 :
    edge (OFinalizeAuth own vk peer ct sig conf salt app sig0 conf0) false Handshaking Handshaking
| e_confirm vk sig conf : edge (OConfirm vk sig conf) true Unconfirmed Live
| e_confirm_wiped vk sig conf : edge (OConfirm vk sig conf) false Unconfirmed Idle
| e_confirm_kept vk sig conf : edge (OConfirm vk sig conf) false Unconfirmed Unconfirmed
| e_zeroize p : edge OZeroize true p Idle
| e_refused o p :
    match o with
    | OFinalize _ _ _ _ | OFinalizeAuth _ _ _ _ _ _ _ _ _ _ => p <> Handshaking
    | OConfirm _ _ _ => p <> Unconfirmed
    | OZeroize => False
    | _ => True
    end -> edge o false p p.

Inductive path : list session_op -> list bool -> phase -> phase -> Prop :=
| path_nil p : path [] [] p p
| path_cons o os r rs p1 p2 p3 : edge o r p1 p2 -> path os rs p2 p3 -> path (o :: os) (r :: rs) p1 p3.

(** * Well-formed states *)

(** Keys present, 64 bytes each, matching their checksums; no ephemeral secret left. *)
Definition keyed (s : SessionManager) : Prop :=
  exists tx rx, tx_key s = Some tx /\ rx_key s = Some rx /\ length tx = 64%nat /\ length rx = 64%nat /\
    tx_key_checksum s = key_checksum tx /\ rx_key_checksum s = key_checksum rx /\
    is_established s = true /\ ml_kem_dk s = None /\ x25519_sk s = None.

(** No keys, not established, nothing pending. *)
Definition keyless (s : SessionManager) : Prop :=
  tx_key s = None /\ rx_key s = None /\ is_established s = false /\ pending_auth s = None.

Definition in_phase (p : phase) (s : SessionManager) : Prop :=
  match p with
  | Idle => keyless s /\ ml_kem_dk s = None /\ x25519_sk s = None
  | Handshaking => keyless s /\ is_Some (ml_kem_dk s) /\ is_Some (x25519_sk s)
  | Unconfirmed => keyed s /\ is_Some (pending_auth s)
  | Live => keyed s /\ pending_auth s = None
  end.

Record session_inv (p : phase) (s : SessionManager) : Prop := {
  si_phase : in_phase p s;
  si_counter : in_width 64 (tx_counter s);
  si_window : exists seen, window_repr s seen
}.

End model.

(** * Each operation follows an edge *)

Section steps.
Context `{CryptoLaws}.

Lemma new_inv : session_inv Idle new.
Proof. split; [by repeat split|done|]. exists []. apply window_new. Qed.

Lemma established_inv (tx rx : list byte) :
  length tx = 64%nat -> length rx = 64%nat -> session_inv Live (established tx rx).
Proof.
  intros Ht Hr. split; [|done|exists []; apply established_window].
  split; [|done]. exists tx, rx. by split_and!.
Qed.

Lemma derived_inv (pq cl salt t : list byte) :
  let k := session_material pq cl salt t in
  session_inv Live (established (outer_key k) (inner_key k)) /\
  session_inv Live (established (inner_key k) (outer_key k)).
Proof.
  intros k. pose proof (length_session_material pq cl salt t) as Hl. fold k in Hl.
  split; apply established_inv; by (apply length_outer_key || apply length_inner_key).
Qed.

Lemma pending_inv (tx rx : list byte) (p : PendingAuthentication) :
  session_inv Live (established tx rx) -> session_inv Unconfirmed (set_pending (Some p) (established tx rx)).
Proof.
  intros [[Hk _] Hc [seen [? ? ? ?]]]. split; [|done|by exists seen]. split; [done|by eexists].
Qed.

Lemma counter_inv (p : phase) (s : SessionManager) (c : Z) :
  in_width 64 c -> session_inv p s -> session_inv p (set_tx_counter c s).
Proof.
  intros Hc [Hp _ [seen [? ? ? ?]]]. split; [by destruct p|done|by exists seen].
Qed.

Lemma window_inv (p : phase) (s s' : SessionManager) (seen : list Z) :
  same_but_window s s' -> window_repr s' seen -> session_inv p s -> session_inv p s'.
Proof.
  intros Hs Hw [Hp Hc _]. rewrite Hs in *. split; [by destruct p|done|by exists seen].
Qed.

Lemma confirmed_inv (s : SessionManager) :
  session_inv Unconfirmed s -> session_inv Live (set_pending None s).
Proof. intros [[Hk _] Hc [seen [? ? ? ?]]]. split; [by split|done|by exists seen]. Qed.

Lemma established_keys (p : phase) (s : SessionManager) :
  session_inv p s -> is_established s = true ->
  exists tx rx, tx_key s = Some tx /\ rx_key s = Some rx /\ length tx = 64%nat /\ length rx = 64%nat.
Proof.
  intros [Hp _ _] He. destruct p; cbn in Hp; unfold keyless, keyed in Hp; naive_solver congruence.
Qed.

(** What is observed of one call: it returns, follows an edge of the phase graph, and if
    it fails it has left the session as it was or wiped it. *)
Definition follows (cb : CFnPtr) (o : session_op) (p : phase) (w : world) : Prop :=
  exists r w' p', session_step o w = Done r w' /\ c_cache_flush (ch w') = Some cb /\
    session_inv p' (sm w') /\ edge o r p p' /\ (r = false -> sm w' = sm w \/ sm w' = new).

Lemma live_of (p : phase) (s : SessionManager) :
  session_inv p s -> is_established s = true -> pending_auth s = None -> p = Live.
Proof.
  intros [Hp _ _] He Hn. destruct p; cbn in Hp; unfold keyless, is_Some in Hp; naive_solver congruence.
Qed.

Lemma seal_follows (cb : CFnPtr) (aad pt ct n tag : list byte) (p : phase) (w : world) :
  c_cache_flush (ch w) = Some cb -> session_inv p (sm w) -> follows cb (OSeal aad pt ct n tag) p w.
Proof.
  intros Hcb Hi.
  destruct (encrypt_packet_frame cb aad pt ct n tag w Hcb (si_counter _ _ Hi))
    as (r & ct' & n' & tag' & w' & E & Hcb' & Hy & Hn).
  unfold follows. cbn [session_step]. msimpl. rewrite E. exists (is_ok r), w', p. cbn [fst].
  split; [done|]. split; [done|]. destruct r as [[]|e]; cbn [is_ok].
  - destruct (Hy eq_refl) as (Hlt & _ & Hs). split; [|split; [|done]].
    + rewrite Hs. apply counter_inv; [|done]. pose proof (si_counter _ _ Hi). unfold in_width, u64_max in *. lia.
    + assert (p = Live) as ->; [|constructor]. apply (live_of _ (sm w) Hi).
      * destruct (is_established (sm w)) eqn:Ee; [done|]. unfold encrypt_packet in E. msimpl. by rewrite Ee in E.
      * destruct (pending_auth (sm w)) eqn:Ep; [|done]. unfold encrypt_packet in E. msimpl.
        rewrite Ep, (bool_decide_true (is_Some (Some _))), orb_true_r in E by by eexists. done.
  - rewrite Hn by done. split; [done|]. split; [by constructor|by left].
Qed.

Lemma open_follows (cb : CFnPtr) (aad ct n tag pt : list byte) (p : phase) (w : world) :
  c_cache_flush (ch w) = Some cb -> session_inv p (sm w) -> length n = 12%nat ->
  follows cb (OOpen aad ct n tag pt) p w.
Proof.
  intros Hcb Hi Hl. destruct (si_window _ _ Hi) as [seen Hw].
  destruct (decrypt_packet_frame cb aad ct n tag pt w seen Hcb Hw Hl) as (r & pt' & w' & E & Hcb' & Hy & Hn).
  unfold follows. cbn [session_step]. msimpl. rewrite E. exists (is_ok r), w', p. cbn [fst].
  split; [done|]. split; [done|]. destruct r as [[]|e]; cbn [is_ok].
  - destruct (Hy eq_refl) as (_ & _ & Hw' & Hs). split; [|split; [|done]].
    + by eapply window_inv.
    + assert (p = Live) as ->; [|constructor]. apply (live_of _ (sm w) Hi).
      * destruct (is_established (sm w)) eqn:Ee; [done|]. unfold decrypt_packet in E. msimpl. by rewrite Ee in E.
      * destruct (pending_auth (sm w)) eqn:Ep; [|done]. unfold decrypt_packet in E. msimpl.
        rewrite Ep, (bool_decide_true (is_Some (Some _))), orb_true_r in E by by eexists. done.
  - rewrite Hn by done. split; [done|]. split; [by constructor|by left].
Qed.

Lemma nonce_follows (cb : CFnPtr) (n : list byte) (p : phase) (w : world) :
  c_cache_flush (ch w) = Some cb -> session_inv p (sm w) -> follows cb (ONextNonce n) p w.
Proof.
  intros Hcb Hi. pose proof (si_counter _ _ Hi) as Hc. unfold follows. cbn [session_step].
  unfold get_next_tx_nonce, on_sm. msimpl.
  destruct (Z.eqb_spec (tx_counter (sm w)) u64_max) as [|Hne].
  - exists false, w, p. split_and!; [done|done|done|by constructor|by left].
  - unfold checked_add, in_width, u64_max in *. rewrite (proj2 (Z.ltb_lt _ _)) by lia.
    eexists true, _, p. split; [done|]. split; [done|]. split; [|split; [constructor|done]].
    apply counter_inv; [unfold in_width; cbn; lia|done].
Qed.

Lemma initiate_follows (cb : CFnPtr) (e : list byte) (p : phase) (w : world) :
  c_cache_flush (ch w) = Some cb -> session_inv p (sm w) -> follows cb (OInitiate e) p w.
Proof.
  intros Hcb Hi. unfold follows. cbn [session_step]. msimpl. destruct (degenerate e) eqn:Ed.
  - unfold initiate_handshake. rewrite Ed. exists false, w, p. split_and!; [done|done|done|by constructor|by left].
  - destruct (initiate_run cb e w Hcb Ed) as (h' & -> & F). eexists true, _, Handshaking.
    split; [done|]. split; [exact (flushed_cb _ _ _ F Hcb)|]. split; [|split; [constructor|done]].
    pose proof new_inv as [_ Hc [seen [? ? ? ?]]].
    split; [|done|by exists seen]. split; [by repeat split|]. split; by eexists.
Qed.

(** Without both ephemeral secrets a finalize is refused. *)
Lemma no_secret (p : phase) (s : SessionManager) :
  session_inv p s -> p <> Handshaking -> ml_kem_dk s = None.
Proof.
  intros [Hp _ _] Hne. destruct p; cbn in Hp; unfold keyed in Hp; [by destruct_and!|done| |]; naive_solver.
Qed.

Lemma phase_eq_dec (p q : phase) : {p = q} + {p <> q}.
Proof. decide equality. Defined.

Lemma finalize_follows (cb : CFnPtr) (peer ct salt info : list byte) (p : phase) (w : world) :
  c_cache_flush (ch w) = Some cb -> session_inv p (sm w) -> follows cb (OFinalize peer ct salt info) p w.
Proof.
  intros Hcb Hi. unfold follows. cbn [session_step]. msimpl.
  destruct (phase_eq_dec p Handshaking) as [->|Hne].
  - destruct (si_phase _ _ Hi) as (_ & [dk Hdk] & [sk Hsk]).
    destruct (finalize_run cb dk sk peer ct salt info w Hcb Hdk Hsk) as (h' & F & ->).
    pose proof (flushed_cb _ _ _ F Hcb) as Hcb'. destruct (dh_accepts sk peer); cbv zeta.
    + eexists true, _, Live. split; [done|]. split; [done|]. split; [apply derived_inv|split; [constructor|done]].
    + eexists false, _, Idle. split; [done|]. split; [done|]. split; [apply new_inv|split; [constructor|by right]].
  - unfold finalize_handshake. msimpl. rewrite (no_secret p (sm w)) by done.
    exists false, w, p. split_and!; [done|done|done|by constructor|by left].
Qed.

Lemma encapsulate_follows (cb : CFnPtr) (ek : PublicKey1024) (peer e salt info ct0 pk0 : list byte)
    (p : phase) (w : world) :
  c_cache_flush (ch w) = Some cb -> session_inv p (sm w) ->
  follows cb (OEncapsulate ek peer e salt info ct0 pk0) p w.
Proof.
  intros Hcb Hi. unfold follows. cbn [session_step]. unfold encapsulate_for_peer. msimpl.
  destruct (degenerate e) eqn:Ed.
  - unfold encapsulate_inner. rewrite Ed. exists false, w, p. split_and!; [done|done|done|by constructor|by left].
  - destruct (encapsulate_inner_run cb ek peer e salt info ct0 pk0 false w Hcb Ed) as (h' & F & ->).
    pose proof (flushed_cb _ _ _ F Hcb) as Hcb'. destruct (dh_accepts _ peer).
    + eexists true, _, Live. split; [done|]. split; [done|]. split; [apply derived_inv|split; [constructor|done]].
    + eexists false, _, p. split; [done|]. split; [done|]. split; [done|split; [by constructor|by left]].
Qed.

Lemma encapsulate_auth_follows (cb : CFnPtr) (own : SigningKey87) (vk : PublicKey87) (ek : PublicKey1024)
    (peer e salt app ct0 pk0 sig0 conf0 : list byte) (p : phase) (w : world) :
  c_cache_flush (ch w) = Some cb -> session_inv p (sm w) ->
  follows cb (OEncapsulateAuth own vk ek peer e salt app ct0 pk0 sig0 conf0) p w.
Proof.
  intros Hcb Hi. unfold follows. cbn [session_step].
  destruct (Z_lt_le_dec (zlen app) (2 ^ 32)) as [Hl|Hl].
  2:{ unfold encapsulate_authenticated, handshake_binding, try_from. rewrite (proj2 (Z.ltb_ge _ _) Hl).
      exists false, w, p. split_and!; [done|done|done|by constructor|by left]. }
  destruct (degenerate e) eqn:Ed.
  { unfold encapsulate_authenticated, encapsulate_inner. rewrite binding_ok by done. rewrite Ed.
    exists false, w, p. split_and!; [done|done|done|by constructor|by left]. }
  destruct (dh_accepts (secret_to_bytes (secret_from (slice 32 64 e))) peer) eqn:Ea.
  - destruct (encapsulate_auth_run cb own vk ek peer e salt app ct0 pk0 sig0 conf0 w Hcb Hl Ed Ea) as (h' & F & E).
    msimpl. rewrite E. eexists true, _, Unconfirmed. split; [done|].
    split; [exact (flushed_cb _ _ _ F Hcb)|]. split; [apply pending_inv, derived_inv|split; [constructor|done]].
  - unfold encapsulate_authenticated. rewrite binding_ok by done. msimpl.
    edestruct (encapsulate_inner_run cb ek peer e salt) with (want := true) as (h' & F & E); [exact Hcb|exact Ed|].
    rewrite E, Ea. eexists false, _, p. split; [done|]. split; [exact (flushed_cb _ _ _ F Hcb)|].
    split; [done|split; [by constructor|by left]].
Qed.

Lemma finalize_auth_follows (cb : CFnPtr) (own : SigningKey87) (vk : PublicKey87)
    (peer ct sig conf salt app sig0 conf0 : list byte) (p : phase) (w : world) :
  c_cache_flush (ch w) = Some cb -> session_inv p (sm w) ->
  follows cb (OFinalizeAuth own vk peer ct sig conf salt app sig0 conf0) p w.
Proof.
  intros Hcb Hi. unfold follows. cbn [session_step].
  destruct (phase_eq_dec p Handshaking) as [->|Hne].
  2:{ unfold finalize_authenticated. msimpl. rewrite (no_secret p (sm w)) by done.
      exists false, w, p. split_and!; [done|done|done|by constructor|by left]. }
  destruct (si_phase _ _ Hi) as (_ & [dk Hdk] & [sk Hsk]).
  destruct (Z_lt_le_dec (zlen app) (2 ^ 32)) as [Hl|Hl].
  2:{ unfold finalize_authenticated, handshake_binding, try_from. msimpl. rewrite Hdk, Hsk.
      rewrite (proj2 (Z.ltb_ge _ _) Hl). exists false, w, Handshaking.
      split_and!; [done|done|done|by constructor|by left]. }
  destruct (finalize_auth_run cb dk sk own vk peer ct sig conf salt app sig0 conf0 w Hcb Hdk Hsk Hl)
    as (h' & F & E).
  pose proof (flushed_cb _ _ _ F Hcb) as Hcb'. msimpl. rewrite E. clear E.
  destruct (negb _); [exists false, w, Handshaking; split_and!; [done|done|done|constructor|by left]|].
  destruct (negb _); [eexists false, _, Idle; split_and!; [done|done|apply new_inv|constructor|by right]|].
  destruct (negb _); [eexists false, _, Idle; split_and!; [done|done|apply new_inv|constructor|by right]|].
  eexists true, _, Live. split; [done|]. split; [done|]. split; [apply derived_inv|split; [constructor|done]].
Qed.

Lemma confirm_follows (cb : CFnPtr) (vk : PublicKey87) (sig conf : list byte) (p : phase) (w : world) :
  c_cache_flush (ch w) = Some cb -> session_inv p (sm w) -> follows cb (OConfirm vk sig conf) p w.
Proof.
  intros Hcb Hi. unfold follows. cbn [session_step]. msimpl.
  destruct (pending_auth (sm w)) as [a|] eqn:Ep.
  - assert (p = Unconfirmed) as ->.
    { pose proof (si_phase _ _ Hi) as Hp. destruct p; cbn in Hp; unfold keyless in Hp; [..|done|];
        destruct_and?; congruence. }
    destruct (confirm_run cb a vk sig conf w Hcb Ep) as (h' & F & ->).
    pose proof (flushed_cb _ _ _ F Hcb) as Hcb'.
    destruct (negb _ || _); [exists false, w, Unconfirmed; split_and!; [done|done|done|constructor|by left]|].
    case_bool_decide.
    + eexists true, _, Live. split_and!; [done|done|by apply confirmed_inv|constructor|done].
    + eexists false, _, Idle. split_and!; [done|done|apply new_inv|constructor|by right].
  - unfold confirm_peer. msimpl. rewrite Ep. exists false, w, p. split_and!; [done|done|done| |by left].
    constructor. intros ->. destruct (si_phase _ _ Hi) as [_ [? ?]]. congruence.
Qed.

Lemma step_follows (cb : CFnPtr) (o : session_op) (p : phase) (w : world) :
  c_cache_flush (ch w) = Some cb -> session_inv p (sm w) -> op_ok o -> follows cb o p w.
Proof.
  intros Hcb Hi Hok. destruct o; [by apply seal_follows|by apply open_follows|by apply nonce_follows
    |by apply initiate_follows|by apply finalize_follows|by apply encapsulate_follows
    |by apply encapsulate_auth_follows|by apply finalize_auth_follows|by apply confirm_follows|].
  unfold follows. cbn [session_step]. msimpl. rewrite (zeroize_run cb) by done.
  eexists true, _, Idle. split_and!; [done|done|apply new_inv|constructor|by right].
Qed.

Lemma run_follows (cb : CFnPtr) (os : list session_op) (p : phase) (w : world) :
  c_cache_flush (ch w) = Some cb -> session_inv p (sm w) -> Forall op_ok os ->
  exists rs w' p', session_run os w = Done rs w' /\ session_inv p' (sm w') /\ path os rs p p'.
Proof.
  intros Hcb Hi Hok. revert p w Hcb Hi. induction Hok as [|o os Ho Hos IH]; intros p w Hcb Hi; cbn [session_run].
  { exists [], w, p. split_and!; [done|done|constructor]. }
  destruct (step_follows cb o p w Hcb Hi Ho) as (r & w1 & p1 & E1 & Hcb1 & Hi1 & He & _).
  destruct (IH p1 w1 Hcb1 Hi1) as (rs & w2 & p2 & E2 & Hi2 & Hp). msimpl. rewrite E1, E2.
  exists (r :: rs), w2, p2. split_and!; [done|done|by econstructor].
Qed.

End steps.

(** * Claims *)

Section claim_lemmas.
Context `{CryptoLaws}.

(** Calls that may open a session for traffic when they succeed. *)
Definition opens (o : session_op) : bool :=
  match o with
  | OFinalize _ _ _ _ | OEncapsulate _ _ _ _ _ _ _ | OFinalizeAuth _ _ _ _ _ _ _ _ _ _ | OConfirm _ _ _ => true
  | _ => false
  end.

Definition carries (o : session_op) : bool :=
  match o with OSeal _ _ _ _ _ | OOpen _ _ _ _ _ => true | _ => false end.

Definition opened (os : list session_op) (rs : list bool) : Prop :=
  exists i o, os !! i = Some o /\ opens o = true /\ rs !! i = Some true.

Lemma edge_opens (o : session_op) (r : bool) (p : phase) :
  edge o r p Live -> p <> Live -> opens o = true /\ r = true.
Proof. inversion 1; subst; done. Qed.

Lemma path_opens (os : list session_op) (rs : list bool) (p : phase) :
  path os rs p Live -> p <> Live -> opened os rs.
Proof.
  intros Hp. remember Live as q eqn:Eq. induction Hp as [p|o os r rs p1 p2 p3 He Hp IH]; intros Hne; [done|].
  destruct (phase_eq_dec p2 Live) as [->|Hne2].
  - apply edge_opens in He as [Ho ->]; [|congruence]. by exists 0%nat, o.
  - subst p3. destruct IH as (i & o' & Hi & Ho & Hr); [done|done|]. by exists (S i), o'.
Qed.

Lemma path_split (os1 os2 : list session_op) (rs : list bool) (p q : phase) :
  path (os1 ++ os2) rs p q ->
  exists rs1 rs2 m, rs = rs1 ++ rs2 /\ length rs1 = length os1 /\ path os1 rs1 p m /\ path os2 rs2 m q.
Proof.
  revert rs p. induction os1 as [|o os1 IH]; intros rs p Hp; cbn in Hp.
  - exists [], rs, p. split_and!; [done|done|constructor|done].
  - inversion Hp as [|? ? r rs' ? p2 ? He Hr]; subst.
    destruct (IH _ _ Hr) as (rs1 & rs2 & m & -> & Hl & H1 & H2).
    exists (r :: rs1), rs2, m. split_and!; [done|cbn; lia|by econstructor|done].
Qed.

End claim_lemmas.

(** C3: the session manager implements the phase machine. From any well-formed
    state, and so from a new manager, every sequence of its operations with
    arbitrary arguments returns (no call halts or reads undefined data), each call
    follows an edge of the machine for its outcome, and the final state is well
    formed for the phase reached: directional keys exist exactly when established,
    match their checksums and never coexist with handshake secrets, and the
    counters and the replay window stay consistent. *)
Theorem session_lifecycle `{CryptoLaws} (cb : CFnPtr) (os : list session_op) (p : phase) (w : world) :
  c_cache_flush (ch w) = Some cb -> session_inv p (sm w) -> Forall op_ok os ->
  exists rs w' p', session_run os w = Done rs w' /\ session_inv p' (sm w') /\ path os rs p p'.
Proof. apply run_follows. Qed.

(** No traffic without an opening. Start in any phase that is not [Live], for
    instance just after an unconfirmed authenticated encapsulation. If a packet is
    sealed or opened successfully, then an earlier call of the sequence was a
    successful finalize, encapsulation or peer confirmation; and that call is what
    opened the session, since the packet was handled in phase [Live]. *)
Theorem session_traffic_needs_opening `{CryptoLaws} (cb : CFnPtr) (os1 os2 : list session_op) (o : session_op)
    (p : phase) (w : world) :
  c_cache_flush (ch w) = Some cb -> session_inv p (sm w) -> p <> Live ->
  Forall op_ok (os1 ++ o :: os2) -> carries o = true ->
  exists rs w', session_run (os1 ++ o :: os2) w = Done rs w' /\
    (rs !! length os1 = Some true -> opened os1 (take (length os1) rs)).
Proof.
  intros Hcb Hi Hne Hok Hc. destruct (run_follows cb _ p w Hcb Hi Hok) as (rs & w' & p' & E & _ & Hp).
  exists rs, w'. split; [done|]. apply path_split in Hp as (rs1 & rs2 & m & -> & Hl & H1 & H2).
  inversion H2 as [|? ? r ? ? ? ? He ?]; subst. rewrite <- Hl, take_app_length, list_lookup_middle by done.
  intros [= ->]. assert (m = Live) as -> by (destruct o; try done; by inversion He). by eapply path_opens.
Qed.

(** ** Witnesses *)

Definition sample_life : list session_op :=
  [OInitiate entropy_a; OSeal [] [x01] [x00] [] []; OFinalize (zeros 32) [] [] []; OZeroize;
   OEncapsulate toy_ek (replicate 32 x05) entropy_b [] [] [] []; OSeal [] [x01] [x00] [] []].

Lemma session_lifecycle_witness :
  exists rs w' p', session_run sample_life (MkWorld new sample_chost) = Done rs w' /\ session_inv p' (sm w') /\
    path sample_life rs Idle p'.
Proof.
  exact (session_lifecycle 4 sample_life Idle (MkWorld new sample_chost) eq_refl new_inv ltac:(repeat constructor)).
Defined.

Lemma session_traffic_needs_opening_witness :
  exists rs w', session_run (take 5 sample_life ++ OSeal [] [x01] [x00] [] [] :: []) (MkWorld new sample_chost) =
      Done rs w' /\
    (rs !! 5%nat = Some true -> opened (take 5 sample_life) (take 5 rs)).
Proof.
  exact (session_traffic_needs_opening 4 (take 5 sample_life) [] (OSeal [] [x01] [x00] [] []) Idle
    (MkWorld new sample_chost) eq_refl new_inv ltac:(discriminate) ltac:(repeat constructor) eq_refl).
Defined.

(** The sample run: the early packet and the rejected finalize fail, the last packet is sealed. *)
Example sample_life_answers :
  match session_run sample_life (MkWorld new sample_chost) with
  | Done rs _ => rs = [true; false; false; true; true; true]
  | _ => False
  end.
Proof. vm_compute. reflexivity. Qed.

End Life.
