(* ===== verification/EntropyQueue.v ===== *)
(** entropy_queue.rs: the queue through which the host feeds entropy chunks.

    The slots are inside the object, so no memory is missing here; a pop wipes the
    slot it has read. [Instance EntropyQueue_fifo] discharges the queue interface. *)

From S2P Require Import Prelude CryptoHost Fifo.
Local Open Scope Z_scope.

Module EQ.

Definition ENTROPY_CHUNK_SIZE : nat := 32.
Definition ENTROPY_QUEUE_SIZE : Z := 64.

Record EntropyQueue : Type := MkEQ {
  buffer : list (list byte);
  head : Z;
  tail : Z
}.

Definition new : EntropyQueue :=
  MkEQ (replicate (Z.to_nat ENTROPY_QUEUE_SIZE) (zeros ENTROPY_CHUNK_SIZE)) 0 0.

Definition push (item : list byte) : M EntropyQueue (result unit CryptoError) :=
  q ← get;
  if ENTROPY_QUEUE_SIZE <=? wrapping_sub 64 (head q) (tail q) then mret (Err InvalidState) else
  let index := Z.to_nat (head q mod ENTROPY_QUEUE_SIZE) in
  put (MkEQ (<[index := item]> (buffer q)) (head q) (tail q)) ;;
  modify (fun q' => MkEQ (buffer q') (wrapping_add 64 (head q) 1) (tail q')) ;;
  mret (Ok tt).

(** Whether an item was read, and the caller's buffer afterwards. *)
Definition pop (out : list byte) : M EntropyQueue (bool * list byte) :=
  q ← get;
  if head q =? tail q then mret (false, out) else
  let index := Z.to_nat (tail q mod ENTROPY_QUEUE_SIZE) in
  item ← return_or_ub (buffer q !! index);
  put (MkEQ (<[index := secure_zeroize item]> (buffer q)) (head q) (tail q)) ;;
  modify (fun q' => MkEQ (buffer q') (head q') (wrapping_add 64 (tail q) 1)) ;;
  mret (true, item).

(** * Invariant *)

Definition slot_at (q : EntropyQueue) (i : Z) : option (list byte) :=
  buffer q !! Z.to_nat ((tail q + i) mod ENTROPY_QUEUE_SIZE).

Definition wiped (s : list byte) : Prop := exists k, s = zeros k.

(** The items sit in the 64 slots from [tail] on; every other slot is wiped. *)
Record repr (q : EntropyQueue) (l : list (list byte)) : Prop := {
  r_buffer : length (buffer q) = 64%nat;
  r_tail : in_width 64 (tail q);
  r_len : zlen l <= 64;
  r_head : head q = (tail q + zlen l) mod 2 ^ 64;
  r_items : forall i : nat, (i < length l)%nat -> slot_at q (Z.of_nat i) = l !! i;
  r_rest : forall i, zlen l <= i < 64 -> exists s, slot_at q i = Some s /\ wiped s
}.

Lemma new_repr : repr new [].
Proof.
  split; cbn [buffer head tail new]; [apply length_replicate|done|done|done|cbn; lia|].
  intros i Hi. exists (zeros 32). split; [|by eexists].
  unfold slot_at. apply lookup_replicate. split; [done|].
  pose proof (Z.mod_pos_bound (0 + i) 64 ltac:(lia)). unfold ENTROPY_QUEUE_SIZE. cbn [tail new]. lia.
Qed.

Lemma index_counter (t k : Z) : (t + k) mod 2 ^ 64 mod 64 = (t + k) mod 64.
Proof. apply mod_mod_divide; [lia|lia|]. by exists (2 ^ 58). Qed.

Lemma index_ne (t i j : Z) : 0 <= i < 64 -> 0 <= j < 64 -> i <> j ->
  Z.to_nat ((t + i) mod 64) <> Z.to_nat ((t + j) mod 64).
Proof.
  intros Hi Hj Hne E. pose proof (Z.mod_pos_bound (t + i) 64 ltac:(lia)).
  pose proof (Z.mod_pos_bound (t + j) 64 ltac:(lia)). apply Z2Nat.inj in E; [|lia|lia].
  apply Hne. destruct (Z_le_gt_dec j i).
  - assert (t + i = t + j); [|lia]. apply (mod_eq_close 64); [lia|done].
  - assert (t + j = t + i); [|lia]. apply (mod_eq_close 64); [lia|done].
Qed.

Lemma index_lt (t i : Z) : (Z.to_nat ((t + i) mod 64) < 64)%nat.
Proof. pose proof (Z.mod_pos_bound (t + i) 64 ltac:(lia)). lia. Qed.

Lemma repr_used (q : EntropyQueue) (l : list (list byte)) :
  repr q l -> wrapping_sub 64 (head q) (tail q) = zlen l.
Proof.
  intros [_ Ht Hl Hh _ _]. unfold zlen in *. rewrite Hh. rewrite <- (Z.mod_small (tail q) (2 ^ 64)) at 2 by done.
  rewrite wrapping_sub_counters; lia.
Qed.

Lemma push_room (q : EntropyQueue) (l : list (list byte)) (x : list byte) :
  repr q l -> (length l < 64)%nat -> exists q', push x q = Done (Ok tt) q' /\ repr q' (l ++ [x]).
Proof.
  intros R Hlt. unfold push. msimpl. rewrite (repr_used q l R). destruct R as [Hb Ht Hl Hh Hi Hr].
  unfold ENTROPY_QUEUE_SIZE, zlen in *. rewrite (proj2 (Z.leb_gt _ _)) by lia.
  rewrite Hh, index_counter. eexists. split; [done|].
  split; cbn [buffer head tail]; unfold zlen; rewrite ?length_app; cbn [length]; [|done|lia| | |].
  - by rewrite length_insert.
  - unfold wrapping_add. rewrite Zplus_mod_idemp_l. f_equal. lia.
  - intros i Hil. unfold slot_at. cbn [buffer tail]. unfold ENTROPY_QUEUE_SIZE.
    destruct (decide (i = length l)) as [->|Hne].
    + rewrite list_lookup_insert_eq by (rewrite Hb; apply index_lt). by rewrite list_lookup_middle.
    + rewrite list_lookup_insert_ne by (apply index_ne; lia). rewrite lookup_app_l by lia. apply Hi. lia.
  - intros i Hi'. unfold slot_at. cbn [buffer tail]. unfold ENTROPY_QUEUE_SIZE.
    rewrite list_lookup_insert_ne by (apply index_ne; lia). apply Hr. lia.
Qed.

Lemma push_full (q : EntropyQueue) (l : list (list byte)) (x : list byte) :
  repr q l -> length l = 64%nat -> push x q = Done (Err InvalidState) q.
Proof.
  intros R Hl. unfold push. msimpl. rewrite (repr_used q l R). unfold zlen. by rewrite Hl.
Qed.

Lemma pop_empty (q : EntropyQueue) (out : list byte) : repr q [] -> pop out q = Done (false, out) q.
Proof.
  intros [_ Ht _ Hh _ _]. unfold pop. msimpl. rewrite Hh, Z.add_0_r, Z.mod_small by done.
  by rewrite Z.eqb_refl.
Qed.

Lemma pop_item (q : EntropyQueue) (x : list byte) (l : list (list byte)) (out : list byte) :
  repr q (x :: l) -> exists q', pop out q = Done (true, x) q' /\ repr q' l.
Proof.
  intros R. pose proof (repr_used _ _ R) as Hu. destruct R as [Hb Ht Hl Hh Hi Hr].
  unfold pop. msimpl. unfold zlen in *. cbn [length] in *.
  destruct (Z.eqb_spec (head q) (tail q)) as [E|_].
  { rewrite E in Hu. unfold wrapping_sub in Hu. rewrite Z.sub_diag, Z.mod_0_l in Hu by done. lia. }
  pose proof (Hi 0%nat ltac:(lia)) as H0. unfold slot_at in H0. rewrite Z.add_0_r in H0. rewrite H0. cbn.
  eexists. split; [done|]. unfold ENTROPY_QUEUE_SIZE in *.
  assert (Hshift : forall i, ((tail q + 1) mod 2 ^ 64 + i) mod 64 = (tail q + (1 + i)) mod 64).
  { intros i. rewrite <- Zplus_mod_idemp_l, (index_counter (tail q) 1), Zplus_mod_idemp_l. f_equal. lia. }
  assert (Ez : tail q mod 64 = (tail q + 0) mod 64) by (by rewrite Z.add_0_r).
  split; cbn [buffer head tail]; unfold zlen; [by rewrite length_insert| |lia| | |].
  - by apply wrapping_add_range.
  - rewrite Hh. unfold wrapping_add. rewrite Zplus_mod_idemp_l. f_equal. lia.
  - intros i Hil. unfold slot_at, wrapping_add, ENTROPY_QUEUE_SIZE. cbn [buffer tail]. rewrite Hshift, Ez.
    rewrite list_lookup_insert_ne by (apply index_ne; lia).
    transitivity (slot_at q (Z.of_nat (S i))); [|exact (Hi (S i) ltac:(lia))].
    unfold slot_at, ENTROPY_QUEUE_SIZE. do 3 f_equal. lia.
  - intros i Hi'. unfold slot_at, wrapping_add, ENTROPY_QUEUE_SIZE. cbn [buffer tail]. rewrite Hshift, Ez.
    destruct (decide (i = 63)) as [->|Hne].
    + exists (secure_zeroize x). split; [|by eexists].
      replace ((tail q + (1 + 63)) mod 64) with ((tail q + 0) mod 64).
      * apply list_lookup_insert_eq. rewrite Hb. apply index_lt.
      * replace (tail q + (1 + 63)) with (tail q + 0 + 1 * 64) by lia. by rewrite Z_mod_plus_full.
    + rewrite list_lookup_insert_ne by (apply index_ne; lia). apply Hr. lia.
Qed.

(** * The interface *)

#[export] Program Instance EntropyQueue_fifo : Fifo EntropyQueue (list byte) CryptoError := {|
  fifo_repr := repr;
  fifo_cap := 64;
  fifo_full := InvalidState;
  fifo_push := push;
  fifo_pop := r ← pop (zeros ENTROPY_CHUNK_SIZE); mret (if r.1 : bool then Some r.2 else None)
|}.
Next Obligation. intros w l [_ _ Hl _ _ _]. unfold zlen in Hl. lia. Qed.
Next Obligation. intros w l x. apply push_room. Qed.
Next Obligation. intros w l x. apply push_full. Qed.
Next Obligation. intros w R. msimpl. by rewrite pop_empty. Qed.
Next Obligation.
  intros w x l R. destruct (pop_item w x l (zeros ENTROPY_CHUNK_SIZE) R) as (q' & E & R').
  msimpl. rewrite E. by exists q'.
Qed.

(** * Claims *)

(** The entropy queue is a first-in first-out queue of 64 chunks and forgets
    what it delivered. Any sequence of pushes and pops on a new queue answers like
    the abstract queue that refuses the 65th chunk with [InvalidState], never reads
    outside its slots, and at the end every slot that does not hold a queued chunk
    is zero. *)
Theorem entropy_queue_refines (ops : list (fifo_op (list byte))) :
  exists q, fifo_run ops new = Done (spec_run 64 InvalidState ops []).1 q /\
    let l := (spec_run (E := CryptoError) 64 InvalidState ops []).2 in
    forall i s, buffer q !! i = Some s -> wiped s \/ s ∈ l.
Proof.
  destruct (fifo_run_refines (F := EntropyQueue_fifo) ops new [] new_repr) as (q & E & R). exists q. split; [exact E|].
  intros l i s Hi. change (repr q l) in R. destruct R as [Hb Ht Hl Hh Hit Hr].
  assert (Hlt : (i < 64)%nat) by (rewrite <- Hb; by eapply lookup_lt_Some).
  set (k := (Z.of_nat i - tail q) mod 64). pose proof (Z.mod_pos_bound (Z.of_nat i - tail q) 64 ltac:(lia)) as Hk.
  fold k in Hk. assert (Hs : slot_at q k = Some s).
  { unfold slot_at, k, ENTROPY_QUEUE_SIZE. rewrite Zplus_mod_idemp_r.
    replace (tail q + (Z.of_nat i - tail q)) with (Z.of_nat i) by lia.
    rewrite Z.mod_small by lia. by rewrite Nat2Z.id. }
  unfold zlen in *. destruct (Z_lt_le_dec k (Z.of_nat (length l))).
  - right. specialize (Hit (Z.to_nat k) ltac:(lia)). rewrite Z2Nat.id in Hit by lia.
    rewrite Hs in Hit. symmetry in Hit. by eapply list_elem_of_lookup_2.
  - left. destruct (Hr k ltac:(lia)) as (s' & Es & Hw). congruence.
Qed.

End EQ.
