(* ===== verification/EntropyPool.v ===== *)
(** entropy_pool.rs: the accumulator that turns queued chunks into output.

    [world] is the pool with the process-wide queue, its consumer gate and the
    host. The gates are part of the state: a call that finds one taken (another
    thread, or a host callback that calls back in) behaves as the source's failed
    compare-exchange does. A lock call that finds the lock held never returns in a
    run with one thread; Spinlock.v interleaves several. *)

From S2P Require Import Prelude CryptoHost Primitives ToyCrypto Fifo EntropyQueue.
Local Open Scope Z_scope.

Module Pool.

Definition MAX_MIX_CHUNKS_PER_CALL : nat := 8.

Record EntropyPool : Type := MkPool {
  locked : bool;
  data : list byte;
  reseed_count : Z;
  mixing : bool
}.

Definition new : EntropyPool := MkPool false (zeros 48) 0 false.

Record world : Type := MkWorld {
  pool : EntropyPool;
  queue : EQ.EntropyQueue;
  consumer_gate : bool;
  ch : CHost
}.

Definition set_pool (p : EntropyPool) (w : world) : world := MkWorld p (queue w) (consumer_gate w) (ch w).
Definition set_queue (q : EQ.EntropyQueue) (w : world) : world := MkWorld (pool w) q (consumer_gate w) (ch w).
Definition set_gate (g : bool) (w : world) : world := MkWorld (pool w) (queue w) g (ch w).
Definition set_ch (h : CHost) (w : world) : world := MkWorld (pool w) (queue w) (consumer_gate w) h.
Definition set_locked (b : bool) (p : EntropyPool) : EntropyPool := MkPool b (data p) (reseed_count p) (mixing p).
Definition set_data (d : list byte) (p : EntropyPool) : EntropyPool := MkPool (locked p) d (reseed_count p) (mixing p).
Definition set_count (c : Z) (p : EntropyPool) : EntropyPool := MkPool (locked p) (data p) c (mixing p).
Definition set_mixing (b : bool) (p : EntropyPool) : EntropyPool := MkPool (locked p) (data p) (reseed_count p) b.

Definition on_pool (f : EntropyPool -> EntropyPool) : M world unit := modify (fun w => set_pool (f (pool w)) w).
Definition on_queue {A} (m : M EQ.EntropyQueue A) : M world A := zoom queue set_queue m.
Definition on_host {A} (m : M CHost A) : M world A := zoom ch set_ch m.

Section ops.
Context `{CryptoOps} `{InterruptAnswers}.

(** [CryptoSpinlock::lock]; the guard is the saved flags. *)
Definition lock : M world Z :=
  saved_flags ← on_host crypto_disable_and_save;
  w ← get;
  if locked (pool w) then halt else
  on_pool (set_locked true) ;;
  mret saved_flags.

(** Dropping the guard. *)
Definition unlock (saved_flags : Z) : M world unit :=
  on_pool (set_locked false) ;;
  on_host (crypto_restore saved_flags).

(** The loop of [mix_entropy_under_gate]: at most [n] more chunks. [hashed] is what
    the hasher has absorbed; the answer also says whether anything was popped. *)
Fixpoint mix_loop (n : nat) (hashed : list byte) (mixed : bool) (chunk : list byte)
  : M world (list byte * bool) :=
  match n with
  | O => mret (hashed, mixed)
  | S n' =>
      r ← on_queue (EQ.pop chunk);
      let '(popped, chunk) := r in
      if popped : bool
      then mix_loop n' (hashed ++ chunk) true (secure_zeroize chunk)
      else mret (hashed, mixed)
  end.

Definition mix_entropy_under_gate : M world unit :=
  w ← get;
  if consumer_gate w then mret tt else
  modify (set_gate true) ;;
  r ← mix_loop MAX_MIX_CHUNKS_PER_CALL [] false (zeros EQ.ENTROPY_CHUNK_SIZE);
  let '(hashed, mixed) := r in
  (if mixed : bool then
     let queue_digest := sha384_digest hashed in
     guard ← lock;
     w ← get;
     let result := sha384_digest (data (pool w) ++ queue_digest) in
     on_pool (set_data result) ;;
     unlock guard ;;
     w ← get;
     on_host (secure_cache_flush (data (pool w))) ;;
     on_pool (fun p => set_count (wrapping_add 64 (reseed_count p) 1) p)
   else mret tt) ;;
  modify (set_gate false).

Definition mix_entropy : M world unit :=
  w ← get;
  if mixing (pool w) then mret tt else
  on_pool (set_mixing true) ;;
  mix_entropy_under_gate ;;
  on_pool (set_mixing false).

(** The loop of [extract_entropy]; it is over when [offset] reaches the length. Each
    round copies at least one byte, so [length out] rounds are always enough. *)
Fixpoint extract_loop (rounds : nat) (offset : nat) (out : list byte) : M world (list byte) :=
  if (length out <=? offset)%nat then mret out else
  match rounds with
  | O => undefined
  | S rounds' =>
      guard ← lock;
      w ← get;
      let state_snapshot := data (pool w) in
      unlock guard ;;
      let out_result := sha384_digest ([x00] ++ state_snapshot) in
      let state_result := sha384_digest ([x01] ++ state_snapshot) in
      let copy_len := Nat.min 48 (length out - offset) in
      let out := take offset out ++ take copy_len out_result ++ drop (offset + copy_len) out in
      guard ← lock;
      on_pool (set_data state_result) ;;
      unlock guard ;;
      extract_loop rounds' (offset + copy_len) out
  end.

(** The answer and the caller's buffer afterwards. *)
Definition extract_entropy (out : list byte) : M world (result unit CryptoError * list byte) :=
  w ← get;
  if mixing (pool w) then mret (Err EntropyBusy, out) else
  on_pool (set_mixing true) ;;
  mix_entropy_under_gate ;;
  w ← get;
  if reseed_count (pool w) =? 0
  then on_pool (set_mixing false) ;; mret (Err EntropyStarvation, out) else
  out ← extract_loop (length out) 0 out;
  w ← get;
  on_host (secure_cache_flush (data (pool w))) ;;
  on_pool (set_mixing false) ;;
  mret (Ok tt, out).

End ops.

(** * Specification *)

Section spec.
Context `{CryptoOps}.

(** Mixing the chunks [cs] into the state [s]. *)
Definition mixed_state (s : list byte) (cs : list (list byte)) : list byte :=
  match cs with [] => s | _ => sha384_digest (s ++ sha384_digest (concat cs)) end.

Definition next_state (s : list byte) : list byte := sha384_digest ([x01] ++ s).
Definition output_block (s : list byte) : list byte := sha384_digest ([x00] ++ s).

(** The output stream from a state, [n] blocks of it. *)
Fixpoint output_blocks (n : nat) (s : list byte) : list byte :=
  match n with O => [] | S n' => output_block s ++ output_blocks n' (next_state s) end.

Definition blocks_for (len : nat) : nat := Nat.div (len + 47) 48.

(** Interrupts are disabled and restored in pairs, with the saved flags. *)
Inductive balanced (d r f : CFnPtr) : list cevent -> Prop :=
| bal_nil : balanced d r f []
| bal_flush es bytes : balanced d r f es -> balanced d r f (es ++ [CEvFlush f bytes])
| bal_pair es flags : balanced d r f es -> balanced d r f (es ++ [CEvDisable d flags; CEvRestore r flags]).

Lemma balanced_app (d r f : CFnPtr) (es es' : list cevent) :
  balanced d r f es -> balanced d r f es' -> balanced d r f (es ++ es').
Proof.
  intros H1 H2. induction H2; rewrite ?app_nil_r; [done|rewrite app_assoc; by constructor..].
Qed.

End spec.

(** * Runs *)

Section runs.
Context `{CryptoLaws} `{InterruptAnswers}.
Context (d r f : CFnPtr).

Definition host_ready (h : CHost) : Prop :=
  c_disable_interrupts h = Some d /\ c_restore_interrupts h = Some r /\ c_cache_flush h = Some f.

Lemma host_ready_add (h : CHost) (es : list cevent) : host_ready h -> host_ready (add_events es h).
Proof. done. Qed.

Lemma lock_run (w : world) :
  host_ready (ch w) -> locked (pool w) = false ->
  exists flags, lock w = Done flags (set_ch (add_events [CEvDisable d flags] (ch w)) (set_pool (set_locked true (pool w)) w)).
Proof.
  intros (Hd & _ & _) Hl. eexists. unfold lock, on_host, zoom, crypto_disable_and_save, call_chost, on_pool.
  msimpl. rewrite Hd. cbn. by rewrite Hl.
Qed.

Lemma unlock_run (flags : Z) (w : world) :
  host_ready (ch w) ->
  unlock flags w = Done tt (set_ch (add_events [CEvRestore r flags] (ch w)) (set_pool (set_locked false (pool w)) w)).
Proof.
  intros (_ & Hr & _). unfold unlock, on_host, zoom, crypto_restore, call_chost, on_pool. msimpl. cbn.
  by rewrite Hr.
Qed.

Lemma flush_run (bytes : list byte) (w : world) :
  host_ready (ch w) ->
  on_host (secure_cache_flush bytes) w = Done tt (set_ch (add_events (flush_events f bytes) (ch w)) w).
Proof. intros (_ & _ & Hf). unfold on_host, zoom. by rewrite (secure_cache_flush_ok f). Qed.

Lemma balanced_flush (bytes : list byte) : balanced d r f (flush_events f bytes).
Proof. unfold flush_events. case_match; [constructor|]. apply (bal_flush _ _ _ []). constructor. Qed.

Lemma balanced_pair (flags : Z) : balanced d r f [CEvDisable d flags; CEvRestore r flags].
Proof. apply (bal_pair _ _ _ []). constructor. Qed.

Lemma mix_loop_run (n : nat) (l : list (list byte)) (hashed chunk : list byte) (mixed : bool) (w : world) :
  EQ.repr (queue w) l ->
  exists q', mix_loop n hashed mixed chunk w =
      Done (hashed ++ concat (take n l), mixed || bool_decide (take n l <> [])) (set_queue q' w) /\
    EQ.repr q' (drop n l).
Proof.
  revert l hashed chunk mixed w. induction n as [|n IH]; intros l hashed chunk mixed w R; cbn [mix_loop].
  { exists (queue w). rewrite take_0, drop_0. cbn. rewrite app_nil_r, orb_false_r. by destruct w. }
  unfold on_queue, zoom. msimpl. destruct l as [|x l].
  - rewrite (EQ.pop_empty _ _ R). exists (queue w). cbn. rewrite app_nil_r, orb_false_r. by destruct w.
  - destruct (EQ.pop_item _ _ _ chunk R) as (q1 & -> & R1).
    destruct (IH l (hashed ++ x) (secure_zeroize x) true (set_queue q1 w) R1) as (q' & -> & R').
    exists q'. split; [|done]. cbn. rewrite app_assoc, orb_true_r. done.
Qed.

(** The pool after mixing the chunks [cs]. *)
Definition after_mix (cs : list (list byte)) (p : EntropyPool) : EntropyPool :=
  set_data (mixed_state (data p) cs)
    (set_count (match cs with [] => reseed_count p | _ => wrapping_add 64 (reseed_count p) 1 end) p).

Lemma mix_run (l : list (list byte)) (w : world) :
  host_ready (ch w) -> locked (pool w) = false -> consumer_gate w = false -> EQ.repr (queue w) l ->
  exists q' es, mix_entropy_under_gate w =
      Done tt (MkWorld (after_mix (take 8 l) (pool w)) q' false (add_events es (ch w))) /\
    EQ.repr q' (drop 8 l) /\ balanced d r f es.
Proof.
  intros Hh Hl Hg R. unfold mix_entropy_under_gate. msimpl. rewrite Hg.
  destruct w as [[lk dt rc mx] q g h]. cbn in Hh, Hl, Hg, R. subst.
  destruct (mix_loop_run MAX_MIX_CHUNKS_PER_CALL l [] (zeros EQ.ENTROPY_CHUNK_SIZE) false
    (set_gate true (MkWorld (MkPool false dt rc mx) q false h)) R)
    as (q' & -> & R').
  unfold MAX_MIX_CHUNKS_PER_CALL in *. exists q'. destruct (take 8 l) as [|c cs].
  - exists []. split; [|split; [done|constructor]]. by rewrite add_events_nil.
  - cbn [orb]. rewrite bool_decide_true by done.
    edestruct lock_run as (flags & ->); [exact Hh|done|].
    unfold on_pool. msimpl.
    rewrite unlock_run by done. rewrite flush_run by done.
    cbn [ch set_ch set_pool set_queue set_gate]. rewrite !add_events_app. eexists. split.
    { reflexivity. }
    split; [done|]. apply (balanced_app _ _ _ [_; _]); [apply balanced_pair|apply balanced_flush].
Qed.

Lemma blocks_for_step (m : nat) : (0 < m)%nat -> blocks_for m = S (blocks_for (m - Nat.min 48 m)).
Proof.
  intros Hm. unfold blocks_for. destruct (le_lt_dec m 48).
  - rewrite Nat.min_r, Nat.sub_diag by lia. change (Nat.div (0 + 47) 48) with 0%nat.
    symmetry. apply (Nat.div_unique _ _ 1 (m - 1)); lia.
  - rewrite Nat.min_l by lia. replace (m + 47)%nat with (m - 48 + 47 + 1 * 48)%nat by lia.
    rewrite Nat.div_add by lia. lia.
Qed.

Lemma output_take (m : nat) (s : list byte) (n : nat) :
  take m (output_blocks (S n) s) =
    take (Nat.min 48 m) (output_block s) ++ take (m - Nat.min 48 m) (output_blocks n (next_state s)).
Proof.
  cbn [output_blocks]. assert (Hb : length (output_block s) = 48%nat) by apply sha384_len.
  rewrite take_app, Hb. f_equal.
  - destruct (le_lt_dec m 48); [by rewrite Nat.min_r by lia|].
    rewrite Nat.min_l by lia. rewrite !take_ge by lia. done.
  - f_equal. lia.
Qed.

Lemma extract_loop_run (rounds offset : nat) (out : list byte) (w : world) :
  host_ready (ch w) -> locked (pool w) = false -> (offset <= length out)%nat ->
  (length out - offset <= rounds)%nat ->
  let m := (length out - offset)%nat in
  exists es, extract_loop rounds offset out w =
      Done (take offset out ++ take m (output_blocks (blocks_for m) (data (pool w))))
        (set_ch (add_events es (ch w))
           (set_pool (set_data (Nat.iter (blocks_for m) next_state (data (pool w))) (pool w)) w)) /\
    balanced d r f es.
Proof.
  revert offset out w. induction rounds as [|rounds IH]; intros offset out w Hh Hl Ho Hr m; cbn [extract_loop].
  { rewrite (proj2 (Nat.leb_le _ _)) by lia. exists []. replace m with 0%nat by lia. cbn.
    rewrite add_events_nil, app_nil_r, take_ge by lia. split; [by destruct w as [[] ? ? ?]|constructor]. }
  destruct (Nat.leb_spec (length out) offset) as [Hge|Hlt].
  { exists []. replace m with 0%nat by lia. cbn.
    rewrite add_events_nil, app_nil_r, take_ge by lia. split; [by destruct w as [[] ? ? ?]|constructor]. }
  destruct w as [[lk dt rc mx] q g h]. cbn in Hh, Hl. subst lk.
  msimpl. edestruct lock_run as (fl1 & ->); [exact Hh|done|]. rewrite unlock_run by done.
  edestruct lock_run as (fl2 & ->); [done|done|]. unfold on_pool. msimpl. rewrite unlock_run by done.
  set (c := Nat.min 48 (length out - offset)). fold m in c. cbn [data pool set_ch set_pool set_locked ch].
  set (out' := take offset out ++ take c _ ++ drop (offset + c) out).
  assert (Hc : length (take c (sha384_digest ([x00] ++ dt))) = c) by (rewrite length_take, sha384_len; lia).
  assert (Hlen : length out' = length out).
  { unfold out'. rewrite !length_app, Hc, length_take, length_drop. lia. }
  edestruct (IH (offset + c)%nat out') as (es & -> & Hb); [|done|lia|lia|].
  { by repeat apply host_ready_add. }
  rewrite Hlen. replace (length out - (offset + c))%nat with (m - c)%nat by lia.
  cbn [data pool set_ch set_pool set_locked set_data ch]. rewrite !add_events_app. eexists. split.
  - f_equal.
    + rewrite (blocks_for_step m), output_take by lia. fold c. rewrite app_assoc. f_equal.
      unfold out'. rewrite app_assoc, take_app_length'; [done|]. rewrite length_app, Hc, length_take. lia.
    + rewrite (blocks_for_step m) by lia. fold c. rewrite Nat.iter_succ_r. reflexivity.
  - apply (balanced_app _ _ _ [_; _; _; _]); [|done].
    apply (balanced_app _ _ _ [_; _] [_; _]); apply balanced_pair.
Qed.

(** A whole extraction with the gates free. *)
Lemma extract_run (l : list (list byte)) (out : list byte) (w : world) :
  host_ready (ch w) -> locked (pool w) = false -> mixing (pool w) = false ->
  consumer_gate w = false -> EQ.repr (queue w) l ->
  let p1 := after_mix (take 8 l) (pool w) in
  let n := blocks_for (length out) in
  exists q' es, EQ.repr q' (drop 8 l) /\ balanced d r f es /\
    extract_entropy out w =
      if reseed_count p1 =? 0
      then Done (Err EntropyStarvation, out) (MkWorld p1 q' false (add_events es (ch w)))
      else Done (Ok tt, take (length out) (output_blocks n (data p1)))
             (MkWorld (set_data (Nat.iter n next_state (data p1)) p1) q' false (add_events es (ch w))).
Proof.
  intros Hh Hl Hm Hg R p1 n. destruct w as [[lk dt rc mx] q g h]. cbn in Hh, Hl, Hm, Hg, R. subst.
  unfold extract_entropy, on_pool. msimpl. cbn [mixing pool].
  edestruct (mix_run l) as (q' & es & -> & R' & Hb); [exact Hh|done|done|exact R|].
  cbn [pool reseed_count set_pool set_mixing].
  change (reseed_count (after_mix (take 8 l) _)) with (reseed_count p1).
  destruct (reseed_count p1 =? 0).
  { exists q', es. done. }
  edestruct (extract_loop_run (length out) 0 out) as (es' & -> & Hb'); [|done|lia|lia|].
  { exact (host_ready_add _ _ Hh). }
  rewrite flush_run by exact (host_ready_add _ _ (host_ready_add _ _ Hh)).
  rewrite Nat.sub_0_r, take_0. cbn [app ch set_ch set_pool]. rewrite !add_events_app.
  eexists q', _. split; [done|]. split; [|reflexivity].
  apply balanced_app; [done|]. apply balanced_app; [done|apply balanced_flush].
Qed.

Lemma mix_entropy_run (l : list (list byte)) (w : world) :
  host_ready (ch w) -> locked (pool w) = false -> mixing (pool w) = false ->
  consumer_gate w = false -> EQ.repr (queue w) l ->
  exists q' es, EQ.repr q' (drop 8 l) /\ balanced d r f es /\
    mix_entropy w = Done tt (MkWorld (after_mix (take 8 l) (pool w)) q' false (add_events es (ch w))).
Proof.
  intros Hh Hl Hm Hg R. destruct w as [[lk dt rc mx] q g h]. cbn in Hh, Hl, Hm, Hg, R. subst.
  unfold mix_entropy, on_pool. msimpl. cbn [mixing pool].
  edestruct (mix_run l) as (q' & es & -> & R' & Hb); [exact Hh|done|done|exact R|]. by exists q', es.
Qed.

End runs.

(** * Claims *)

(** C38: extraction computes the Fortuna-style stream. With the gates free, at most
    eight queued chunks are taken, oldest first, and hashed into the state; a pool
    that was never seeded answers [EntropyStarvation] and leaves the caller's buffer
    alone; otherwise the buffer is filled, whatever its length, with the blocks
    SHA-384(0x00 || state) of successive states SHA-384(0x01 || state), and the pool
    has moved past every state that produced output. On both paths the call returns
    with both gates and the lock free, the other chunks still queued, and every
    interrupt disable matched by a restore of the flags it saved. *)
Theorem entropy_extract_exact `{CryptoLaws} `{InterruptAnswers} (d r f : CFnPtr) (l : list (list byte))
    (out : list byte) (w : world) :
  host_ready d r f (ch w) -> locked (pool w) = false -> mixing (pool w) = false ->
  consumer_gate w = false -> EQ.repr (queue w) l ->
  let p1 := after_mix (take 8 l) (pool w) in
  let n := blocks_for (length out) in
  exists q' es, EQ.repr q' (drop 8 l) /\ balanced d r f es /\
    extract_entropy out w =
      if reseed_count p1 =? 0
      then Done (Err EntropyStarvation, out) (MkWorld p1 q' false (add_events es (ch w)))
      else Done (Ok tt, take (length out) (output_blocks n (data p1)))
             (MkWorld (set_data (Nat.iter n next_state (data p1)) p1) q' false (add_events es (ch w))).
Proof.
  exact (extract_run d r f l out w).
Qed.

(** Losing a gate is harmless. While another operation owns the pool, [extract_entropy]
    answers the retryable [EntropyBusy] and [mix_entropy] returns, both without any
    effect; while another pool consumes the global queue, [mix_entropy] leaves the
    queue to it and the pool as it was. *)
Theorem entropy_gates_exclude `{CryptoOps} `{InterruptAnswers} (out : list byte) (w : world) :
  (mixing (pool w) = true ->
     extract_entropy out w = Done (Err EntropyBusy, out) w /\ mix_entropy w = Done tt w) /\
  (mixing (pool w) = false -> consumer_gate w = true -> mix_entropy w = Done tt w).
Proof.
  unfold extract_entropy, mix_entropy, mix_entropy_under_gate, on_pool. msimpl.
  destruct w as [[lk dt rc mx] q g h]. cbn. split.
  - intros ->. done.
  - intros -> ->. done.
Qed.

(** ** Witnesses *)

#[export] Instance sample_answers : InterruptAnswers := fun _ trace => zlen trace.

Definition sample_world : world :=
  MkWorld new (match EQ.push (replicate 32 x07) EQ.new with Done _ q => q | _ => EQ.new end) false sample_chost.

Lemma sample_queue : EQ.repr (queue sample_world) [replicate 32 x07].
Proof.
  destruct (EQ.push_room EQ.new [] (replicate 32 x07) EQ.new_repr ltac:(cbn; lia)) as (q' & E & R).
  unfold sample_world. cbn [queue]. rewrite E. exact R.
Qed.

Lemma entropy_extract_exact_witness :
  exists q' es, EQ.repr q' [] /\ balanced 2 3 4 es /\
    let p1 := after_mix [replicate 32 x07] new in
    extract_entropy (zeros 100) sample_world =
      Done (Ok tt, take 100 (output_blocks 3 (data p1)))
        (MkWorld (set_data (Nat.iter 3 next_state (data p1)) p1) q' false (add_events es sample_chost)).
Proof.
  exact (entropy_extract_exact 2 3 4 [replicate 32 x07] (zeros 100) sample_world
    ltac:(repeat split) eq_refl eq_refl eq_refl sample_queue).
Defined.

Lemma entropy_gates_exclude_witness :
  extract_entropy [x01] (set_pool (set_mixing true new) sample_world) =
    Done (Err EntropyBusy, [x01]) (set_pool (set_mixing true new) sample_world).
Proof.
  apply (proj1 (entropy_gates_exclude [x01] (set_pool (set_mixing true new) sample_world))). reflexivity.
Defined.

End Pool.
