(* ===== verification/EntropyConc.v ===== *)
(** entropy_pool.rs and entropy_queue.rs under interleaving: any number of callers of
    [mix_entropy] and [extract_entropy] on any number of pools, and the host producer.

    A call is cut at every access to shared memory: the two gates, the queue's indices
    and slots, a pool's lock, state and seed counter; [stage] names the access that comes
    next. The interrupt calls around the lock are those of Spinlock.v. A callback or an
    interrupt handler that calls back in is one more caller that runs while another one
    stands still. Ghost components: the chunks published and taken, with the pool that
    took them, and the log of the calls that owned their pool, in the order in which
    they gave it up. *)

From S2P Require Import Prelude CryptoHost Primitives ToyCrypto Fifo EntropyQueue EntropyPool.
Local Open Scope Z_scope.

Module EConc.
Import Pool.

(** * Machine *)

Inductive operation : Type :=
| OMix
| OExtract (out : list byte).

Inductive answer : Type :=
| AMixed
| AExtracted (r : result unit CryptoError) (out : list byte).

(** The next access of a call. [spin]: the lock was found taken, or the weak exchange
    failed, and the inner loop reads the flag before the next attempt. *)
Inductive stage : Type :=
| TryPool
(** [mix_entropy_under_gate] *)
| TryQueue
| PopTail
| PopHead (tail : Z)
| PopRead (tail : Z)
| PopWipe (tail : Z) (item : list byte)
| PopPublish (tail : Z) (item : list byte)
| MixLock (spin : bool)
| MixRead
| MixWrite (result : list byte)
| MixUnlock
| MixFlush
| MixCount
| ReleaseQueue
(** the rest of [extract_entropy] *)
| LoadCount
| SnapLock (spin : bool) (offset : nat) (out : list byte)
| SnapRead (offset : nat) (out : list byte)
| SnapUnlock (offset : nat) (out state_snapshot : list byte)
| CommitLock (spin : bool) (offset : nat) (out state_result : list byte)
| CommitWrite (offset : nat) (out state_result : list byte)
| CommitUnlock (offset : nat) (out : list byte)
| OutFlush (out : list byte)
| ReleasePool (a : answer).

(** [c_taken]: the chunks popped so far, which the hasher has absorbed in this order;
    their number is [mixed_chunks], and [mixed] says there is one. *)
Record call : Type := MkCall {
  c_pool : nat;
  c_op : operation;
  c_taken : list (list byte);
  c_stage : stage
}.

Definition at_stage (s : stage) (c : call) : call := MkCall (c_pool c) (c_op c) (c_taken c) s.
Definition add_taken (item : list byte) (c : call) : call :=
  MkCall (c_pool c) (c_op c) (c_taken c ++ [item]) (c_stage c).

Record entry : Type := MkEntry {
  e_op : operation;
  e_taken : list (list byte);
  e_answer : answer
}.

Record shared : Type := MkShared {
  x_head : Z;
  x_tail : Z;
  x_slots : list (list byte);
  x_gate : bool;
  x_pools : list EntropyPool;
  g_pushed : list (list byte);           (** ghost: chunks whose push published the head *)
  g_popped : list (nat * list byte);     (** ghost: chunks whose pop published the tail *)
  g_log : list (nat * entry)             (** ghost: calls that owned their pool *)
}.

Definition set_slots (m : list (list byte)) (x : shared) : shared :=
  MkShared (x_head x) (x_tail x) m (x_gate x) (x_pools x) (g_pushed x) (g_popped x) (g_log x).
Definition set_gate (b : bool) (x : shared) : shared :=
  MkShared (x_head x) (x_tail x) (x_slots x) b (x_pools x) (g_pushed x) (g_popped x) (g_log x).
Definition upd (k : nat) (f : EntropyPool -> EntropyPool) (x : shared) : shared :=
  MkShared (x_head x) (x_tail x) (x_slots x) (x_gate x) (alter f k (x_pools x)) (g_pushed x) (g_popped x) (g_log x).
Definition publish_head (v : Z) (item : list byte) (x : shared) : shared :=
  MkShared v (x_tail x) (x_slots x) (x_gate x) (x_pools x) (g_pushed x ++ [item]) (g_popped x) (g_log x).
Definition publish_tail (v : Z) (k : nat) (item : list byte) (x : shared) : shared :=
  MkShared (x_head x) v (x_slots x) (x_gate x) (x_pools x) (g_pushed x) (g_popped x ++ [(k, item)]) (g_log x).
Definition log (k : nat) (e : entry) (x : shared) : shared :=
  MkShared (x_head x) (x_tail x) (x_slots x) (x_gate x) (x_pools x) (g_pushed x) (g_popped x) (g_log x ++ [(k, e)]).

Definition idx (c : Z) : nat := Z.to_nat (c mod EQ.ENTROPY_QUEUE_SIZE).

Section machine.
Context `{CryptoOps}.

(** What a call that loses its pool's gate answers. *)
Definition busy (op : operation) : answer :=
  match op with OMix => AMixed | OExtract out => AExtracted (Err EntropyBusy) out end.

(** After [mix_entropy_under_gate]. *)
Definition after_mixing (op : operation) : stage :=
  match op with OMix => ReleasePool AMixed | OExtract _ => LoadCount end.

(** After the loop that pops: [if mixed]. *)
Definition after_loop (c : call) : stage :=
  match c_taken c with [] => ReleaseQueue | _ => MixLock false end.

(** The head of the loop that fills the buffer. *)
Definition round (offset : nat) (out : list byte) : stage :=
  if (length out <=? offset)%nat then OutFlush out else SnapLock false offset out.

Definition copy_len (offset : nat) (out : list byte) : nat := Nat.min 48 (length out - offset).

(** One attempt at [CryptoSpinlock::lock], or one look at its flag. *)
Definition attempt (spurious : bool) (p : EntropyPool) (spin : bool) (retry : bool -> stage) (won : stage)
    (x : shared) (c : call) : shared * (call + answer) :=
  if spin then (x, inl (at_stage (retry (locked p)) c)) else
  if locked p || spurious then (x, inl (at_stage (retry true) c))
  else (upd (c_pool c) (set_locked true) x, inl (at_stage won c)).

(** The next access of a call; [spurious] decides a weak exchange that would otherwise
    succeed. [inr]: the call returns. [None] on an index panic. *)
Definition next_access (spurious : bool) (x : shared) (c : call) : option (shared * (call + answer)) :=
  let k := c_pool c in
  let goto (s : stage) : call + answer := inl (at_stage s c) in
  p ← x_pools x !! k;
  match c_stage c with
  | TryPool =>
      if mixing p then Some (x, inr (busy (c_op c)))
      else Some (upd k (set_mixing true) x, goto TryQueue)
  | TryQueue =>
      if x_gate x then Some (x, goto (after_mixing (c_op c)))
      else Some (set_gate true x, goto PopTail)
  | PopTail => Some (x, goto (PopHead (x_tail x)))
  | PopHead tail =>
      if x_head x =? tail then Some (x, goto (after_loop c)) else Some (x, goto (PopRead tail))
  | PopRead tail => item ← x_slots x !! idx tail; Some (x, goto (PopWipe tail item))
  | PopWipe tail item =>
      Some (set_slots (<[idx tail := secure_zeroize item]> (x_slots x)) x, goto (PopPublish tail item))
  | PopPublish tail item =>
      let c' := add_taken item c in
      Some (publish_tail (wrapping_add 64 tail 1) k item x,
            inl (at_stage (if (length (c_taken c') <? MAX_MIX_CHUNKS_PER_CALL)%nat then PopTail else after_loop c') c'))
  | MixLock spin => Some (attempt spurious p spin MixLock MixRead x c)
  | MixRead => Some (x, goto (MixWrite (sha384_digest (data p ++ sha384_digest (concat (c_taken c))))))
  | MixWrite result => Some (upd k (set_data result) x, goto MixUnlock)
  | MixUnlock => Some (upd k (set_locked false) x, goto MixFlush)
  | MixFlush => Some (x, goto MixCount)
  | MixCount => Some (upd k (fun p => set_count (wrapping_add 64 (reseed_count p) 1) p) x, goto ReleaseQueue)
  | ReleaseQueue => Some (set_gate false x, goto (after_mixing (c_op c)))
  | LoadCount =>
      match c_op c with
      | OMix => None
      | OExtract out =>
          if reseed_count p =? 0 then Some (x, goto (ReleasePool (AExtracted (Err EntropyStarvation) out)))
          else Some (x, goto (round 0 out))
      end
  | SnapLock spin offset out =>
      Some (attempt spurious p spin (fun b => SnapLock b offset out) (SnapRead offset out) x c)
  | SnapRead offset out => Some (x, goto (SnapUnlock offset out (data p)))
  | SnapUnlock offset out state_snapshot =>
      let out_result := sha384_digest ([x00] ++ state_snapshot) in
      let state_result := sha384_digest ([x01] ++ state_snapshot) in
      let n := copy_len offset out in
      Some (upd k (set_locked false) x,
            goto (CommitLock false offset (take offset out ++ take n out_result ++ drop (offset + n) out) state_result))
  | CommitLock spin offset out state_result =>
      Some (attempt spurious p spin (fun b => CommitLock b offset out state_result)
              (CommitWrite offset out state_result) x c)
  | CommitWrite offset out state_result => Some (upd k (set_data state_result) x, goto (CommitUnlock offset out))
  | CommitUnlock offset out =>
      Some (upd k (set_locked false) x, goto (round (offset + copy_len offset out) out))
  | OutFlush out => Some (x, goto (ReleasePool (AExtracted (Ok tt) out)))
  | ReleasePool a => Some (log k (MkEntry (c_op c) (c_taken c) a) (upd k (set_mixing false) x), inr a)
  end.

(** The host producer in [EntropyQueue::push]. *)
Inductive prod_pc : Type :=
| PIdle
| PLoadHead (item : list byte)
| PLoadTail (item : list byte) (head : Z)
| PWrite (item : list byte) (head : Z)
| PPublish (item : list byte) (head : Z).

Definition prod_next (x : shared) (pc : prod_pc) : option (shared * prod_pc) :=
  match pc with
  | PIdle => None
  | PLoadHead item => Some (x, PLoadTail item (x_head x))
  | PLoadTail item head =>
      if EQ.ENTROPY_QUEUE_SIZE <=? wrapping_sub 64 head (x_tail x) then Some (x, PIdle) else Some (x, PWrite item head)
  | PWrite item head => Some (set_slots (<[idx head := item]> (x_slots x)) x, PPublish item head)
  | PPublish item head => Some (publish_head (wrapping_add 64 head 1) item x, PIdle)
  end.

Record conc : Type := MkConc {
  sh : shared;
  prod : prod_pc;
  callers : list (option call)
}.

Inductive label : Type :=
| LCall (t : nat)
| LAccess (t : nat) (spurious : bool)
| LPush
| LProducer.

#[export] Instance label_eq_dec : EqDecision label.
Proof. solve_decision. Defined.

Definition running (r : call + answer) : option call := match r with inl c => Some c | inr _ => None end.

(** A caller that is between calls may call either operation on any pool; the producer
    may push any chunk. *)
Inductive step : label -> conc -> conc -> Prop :=
| step_call x pr cs t k op :
    cs !! t = Some None -> (k < length (x_pools x))%nat ->
    step (LCall t) (MkConc x pr cs) (MkConc x pr (<[t := Some (MkCall k op [] TryPool)]> cs))
| step_access x pr cs t c sp x' r :
    cs !! t = Some (Some c) -> next_access sp x c = Some (x', r) ->
    step (LAccess t sp) (MkConc x pr cs) (MkConc x' pr (<[t := running r]> cs))
| step_push x cs item :
    length item = EQ.ENTROPY_CHUNK_SIZE ->
    step LPush (MkConc x PIdle cs) (MkConc x (PLoadHead item) cs)
| step_producer x pr cs x' pr' :
    prod_next x pr = Some (x', pr') -> step LProducer (MkConc x pr cs) (MkConc x' pr' cs).

Inductive exec : list label -> conc -> conc -> Prop :=
| exec_nil c : exec [] c c
| exec_cons l ls c1 c2 c3 : step l c1 c2 -> exec ls c2 c3 -> exec (l :: ls) c1 c3.

(** The queue as [EntropyQueue::new] leaves it, any pools, [n] callers between calls. *)
Definition start (pools : list EntropyPool) (n : nat) : conc :=
  MkConc (MkShared 0 0 (EQ.buffer EQ.new) false pools [] [] []) PIdle (replicate n None).

End machine.

(** * Serial runs *)

Section serial.
Context `{CryptoOps} `{InterruptAnswers}.

(** The calls of EntropyPool.v. *)
Definition run_op (op : operation) : M world answer :=
  match op with
  | OMix => mix_entropy ;; mret AMixed
  | OExtract out => r ← extract_entropy out; mret (AExtracted r.1 r.2)
  end.

(** The logged call takes the pool from [p] to [p'], and gives its answer, when the
    sequential code runs alone, on any host, with the chunks it took in the queue. *)
Definition sequential (e : entry) (p p' : EntropyPool) : Prop :=
  forall d r f h q, host_ready d r f h -> EQ.repr q (e_taken e) ->
  exists q' es, EQ.repr q' [] /\ balanced d r f es /\
    run_op (e_op e) (MkWorld p q false h) = Done (e_answer e) (MkWorld p' q' false (add_events es h)).

(** The logged calls one after the other. *)
Inductive serial : list entry -> EntropyPool -> EntropyPool -> Prop :=
| serial_nil p : serial [] p p
| serial_snoc es e p p1 p2 : serial es p p1 -> sequential e p1 p2 -> serial (es ++ [e]) p p2.

End serial.

Definition log_of (k : nat) (x : shared) : list entry :=
  omap (fun ke : nat * entry => if decide (ke.1 = k) then Some ke.2 else None) (g_log x).
Definition chunks_of (k : nat) (x : shared) : list (list byte) :=
  omap (fun kv : nat * list byte => if decide (kv.1 = k) then Some kv.2 else None) (g_popped x).

(** * What a call does to its pool *)

Section serve.
Context `{CryptoLaws} `{InterruptAnswers}.

Definition serve (op : operation) (taken : list (list byte)) (p : EntropyPool) : answer * EntropyPool :=
  let p1 := after_mix taken p in
  match op with
  | OMix => (AMixed, p1)
  | OExtract out =>
      if reseed_count p1 =? 0 then (AExtracted (Err EntropyStarvation) out, p1) else
      let n := blocks_for (length out) in
      (AExtracted (Ok tt) (take (length out) (output_blocks n (data p1))),
       set_data (Nat.iter n next_state (data p1)) p1)
  end.

Definition idle (p : EntropyPool) : Prop := locked p = false /\ mixing p = false.

Lemma serve_idle (op : operation) (taken : list (list byte)) (p : EntropyPool) : idle p -> idle (serve op taken p).2.
Proof. intros Hp. destruct op; cbn; [done|]. by destruct (_ =? 0). Qed.

Lemma serve_sequential (op : operation) (taken : list (list byte)) (p : EntropyPool) :
  idle p -> (length taken <= 8)%nat ->
  sequential (MkEntry op taken (serve op taken p).1) p (serve op taken p).2.
Proof.
  intros [Hl Hm] Hn d r f h q Hh R. cbn [e_taken e_op e_answer] in *.
  assert (Et : take 8 taken = taken) by (apply take_ge; lia). assert (Ed : drop 8 taken = []) by (apply drop_ge; lia).
  destruct op as [|out]; cbn [run_op serve]; msimpl.
  - destruct (mix_entropy_run d r f taken (MkWorld p q false h) Hh Hl Hm eq_refl R) as (q' & es & R' & Hb & ->).
    rewrite Ed in R'. rewrite Et. by exists q', es.
  - destruct (extract_run d r f taken out (MkWorld p q false h) Hh Hl Hm eq_refl R) as (q' & es & R' & Hb & ->).
    cbn [pool ch]. rewrite Ed in R'. rewrite Et. exists q', es. split; [done|]. split; [done|]. by destruct (_ =? 0).
Qed.

End serve.

(** * Pools *)

Section pools.
Context `{CryptoLaws} `{InterruptAnswers}.
Variable pools : list EntropyPool.

Abbreviation max_taken := MAX_MIX_CHUNKS_PER_CALL.

(** Owns its pool's gate. *)
Definition owns (c : call) : bool := match c_stage c with TryPool => false | _ => true end.

(** Between the acquisition and the release of the lock. *)
Definition in_lock (s : stage) : bool :=
  match s with
  | MixRead | MixWrite _ | MixUnlock | SnapRead _ _ | SnapUnlock _ _ _ | CommitWrite _ _ _ | CommitUnlock _ _ => true
  | _ => false
  end.

(** The pool as the logged calls left it. *)
Definition base (k : nat) (x : shared) (pb : EntropyPool) : Prop :=
  idle pb /\ exists p0, pools !! k = Some p0 /\ serial (log_of k x) p0 pb.

Definition agrees (p q : EntropyPool) : Prop := data p = data q /\ reseed_count p = reseed_count q.

Definition serves (pb p : EntropyPool) (c : call) (a : answer) : Prop :=
  exists pf, serve (c_op c) (c_taken c) pb = (a, pf) /\ agrees p pf.

(** The rest of the loop from [offset] on completes what the whole call has to serve. *)
Definition finishing (pb p : EntropyPool) (c : call) (offset : nat) (out state : list byte) : Prop :=
  let m := (length out - offset)%nat in
  (offset <= length out)%nat /\
  exists pf, serve (c_op c) (c_taken c) pb =
      (AExtracted (Ok tt) (take offset out ++ take m (output_blocks (blocks_for m) state)), pf) /\
    agrees (set_data (Nat.iter (blocks_for m) next_state state) p) pf.

(** What the owner of a pool can rely on at each access: [pb] is the pool when it
    acquired the gate, [p] the pool now. *)
Definition progress (pb p : EntropyPool) (c : call) : Prop :=
  match c_stage c with
  | TryPool => False
  | TryQueue => c_taken c = [] /\ agrees p pb
  | PopTail | PopHead _ | PopRead _ | PopWipe _ _ | PopPublish _ _ => (length (c_taken c) < max_taken)%nat /\ agrees p pb
  | MixLock _ | MixRead => c_taken c <> [] /\ agrees p pb
  | MixWrite r => c_taken c <> [] /\ agrees p pb /\ r = mixed_state (data pb) (c_taken c)
  | MixUnlock | MixFlush | MixCount =>
      c_taken c <> [] /\ data p = mixed_state (data pb) (c_taken c) /\ reseed_count p = reseed_count pb
  | ReleaseQueue => agrees p (after_mix (c_taken c) pb)
  | LoadCount => agrees p (after_mix (c_taken c) pb) /\ exists out, c_op c = OExtract out
  | SnapLock _ offset out | SnapRead offset out => (offset < length out)%nat /\ finishing pb p c offset out (data p)
  | SnapUnlock offset out snapshot =>
      (offset < length out)%nat /\ finishing pb p c offset out (data p) /\ snapshot = data p
  | CommitLock _ offset out state | CommitWrite offset out state =>
      (offset < length out)%nat /\ finishing pb p c (offset + copy_len offset out) out state
  | CommitUnlock offset out =>
      (offset < length out)%nat /\ finishing pb p c (offset + copy_len offset out) out (data p)
  | OutFlush out => serves pb p c (AExtracted (Ok tt) out)
  | ReleasePool a => serves pb p c a
  end.

Record holder_ok (pb p : EntropyPool) (c : call) : Prop := {
  h_mixing : mixing p = true;
  h_locked : locked p = in_lock (c_stage c);
  h_taken : (length (c_taken c) <= max_taken)%nat;
  h_progress : progress pb p c
}.

(** The chunks the pool got: those of the logged calls and [taken]. *)
Definition fed (k : nat) (x : shared) (taken : list (list byte)) : Prop :=
  chunks_of k x = concat (e_taken <$> log_of k x) ++ taken.

Definition local_ok (x : shared) (c : call) : Prop :=
  if owns c
  then exists p pb, x_pools x !! c_pool c = Some p /\ base (c_pool c) x pb /\ holder_ok pb p c /\
         fed (c_pool c) x (c_taken c)
  else c_taken c = [] /\ (c_pool c < length (x_pools x))%nat.

Record pool_inv (x : shared) (cs : list (option call)) : Prop := {
  pi_local : forall t c, cs !! t = Some (Some c) -> local_ok x c;
  pi_excl : forall t1 t2 c1 c2, cs !! t1 = Some (Some c1) -> cs !! t2 = Some (Some c2) ->
    owns c1 = true -> owns c2 = true -> c_pool c1 = c_pool c2 -> t1 = t2;
  pi_free : forall k p, x_pools x !! k = Some p -> mixing p = false -> base k x p /\ fed k x [];
  pi_held : forall k p, x_pools x !! k = Some p -> mixing p = true ->
    exists t c, cs !! t = Some (Some c) /\ owns c = true /\ c_pool c = k
}.

(** Nothing of pool [k] changed. *)
Definition same_pool (k : nat) (x x' : shared) : Prop :=
  x_pools x' !! k = x_pools x !! k /\ log_of k x' = log_of k x /\ chunks_of k x' = chunks_of k x.

Lemma base_same (k : nat) (x x' : shared) (pb : EntropyPool) : log_of k x' = log_of k x -> base k x pb -> base k x' pb.
Proof. intros E. unfold base. by rewrite E. Qed.

Lemma local_same (x x' : shared) (c : call) :
  length (x_pools x') = length (x_pools x) -> (owns c = true -> same_pool (c_pool c) x x') -> local_ok x c -> local_ok x' c.
Proof.
  unfold local_ok. destruct (owns c); [|intros ->; done].
  intros _ Hs (p & pb & Hp & Hb & Hh & Hf). destruct (Hs eq_refl) as (Ep & El & Ec). exists p, pb.
  split; [by rewrite Ep|]. split; [by apply (base_same _ x)|]. split; [done|]. unfold fed. by rewrite Ec, El.
Qed.

(** One caller acts on one pool, which nobody else owns. *)
Lemma pool_update (x x' : shared) (cs : list (option call)) (t k : nat) (oc oc' : option call) :
  pool_inv x cs -> cs !! t = Some oc -> length (x_pools x') = length (x_pools x) ->
  (forall k', k' <> k -> same_pool k' x x') ->
  (forall t2 c2, t2 <> t -> cs !! t2 = Some (Some c2) -> owns c2 = true -> c_pool c2 <> k) ->
  (forall c, oc = Some c -> c_pool c = k) ->
  (forall c', oc' = Some c' -> c_pool c' = k /\ local_ok x' c') ->
  (forall p, x_pools x' !! k = Some p -> if mixing p then exists c', oc' = Some c' /\ owns c' = true
    else base k x' p /\ fed k x' []) ->
  pool_inv x' (<[t := oc']> cs).
Proof.
  intros [Hl He Hf Hh] Ht Hlen Hs Hothers Hc Hc' Hk.
  assert (Hlt : (t < length cs)%nat) by by eapply lookup_lt_Some.
  assert (Hback : forall t2 c2, <[t := oc']> cs !! t2 = Some (Some c2) ->
    t2 = t /\ oc' = Some c2 \/ t2 <> t /\ cs !! t2 = Some (Some c2)).
  { intros t2 c2 H2. destruct (decide (t2 = t)) as [->|Hne].
    - rewrite list_lookup_insert_eq in H2 by done. left. split; congruence.
    - rewrite list_lookup_insert_ne in H2 by done. by right. }
  split.
  - intros t2 c2 [[-> E]|[Hne E]]%Hback; [by apply Hc'|]. apply (local_same x); [done| |by eapply Hl].
    intros Ho. apply Hs. by eapply Hothers.
  - intros t1 t2 c1 c2 [[-> E1]|[N1 E1]]%Hback [[-> E2]|[N2 E2]]%Hback O1 O2 E; [done|..|by eapply He].
    + destruct (Hothers t2 c2 N2 E2 O2). rewrite <- E. by apply Hc'.
    + destruct (Hothers t1 c1 N1 E1 O1). rewrite E. by apply Hc'.
  - intros k' p Hp Hm. destruct (decide (k' = k)) as [->|Hne].
    + pose proof (Hk p Hp) as Hkp. by rewrite Hm in Hkp.
    + destruct (Hs k' Hne) as (Ep & El & Ec). rewrite Ep in Hp. destruct (Hf k' p Hp Hm) as [Hb Hfe].
      split; [by apply (base_same _ x)|]. unfold fed. by rewrite Ec, El.
  - intros k' p Hp Hm. destruct (decide (k' = k)) as [->|Hne].
    + pose proof (Hk p Hp) as Hkp. rewrite Hm in Hkp. destruct Hkp as (c' & -> & Ho). exists t, c'.
      split; [by rewrite list_lookup_insert_eq|]. split; [done|]. by apply Hc'.
    + destruct (Hs k' Hne) as (Ep & _). rewrite Ep in Hp. destruct (Hh k' p Hp Hm) as (t2 & c2 & E2 & Ho & Ek).
      exists t2, c2. split; [|done]. rewrite list_lookup_insert_ne; [done|]. intros ->.
      rewrite Ht in E2. injection E2 as ->. apply Hne. rewrite <- Ek. by apply Hc.
Qed.

(** ** Accesses *)

Lemma upd_pool (k : nat) (f : EntropyPool -> EntropyPool) (x : shared) (p : EntropyPool) :
  x_pools x !! k = Some p -> x_pools (upd k f x) !! k = Some (f p).
Proof. intros Hp. cbn. by rewrite list_lookup_alter_eq, Hp. Qed.

(** One round of the loop moves the remaining work forward. *)
Lemma finishing_round (pb p : EntropyPool) (c : call) (offset : nat) (out state : list byte) :
  (offset < length out)%nat -> finishing pb p c offset out state ->
  let n := copy_len offset out in
  let out' := take offset out ++ take n (output_block state) ++ drop (offset + n) out in
  length out' = length out /\ finishing pb p c (offset + n) out' (next_state state).
Proof.
  intros Hlt (_ & pf & Es & Ha) n out'. set (m := (length out - offset)%nat) in *.
  assert (Hn : n = Nat.min 48 m) by done.
  assert (Hb : length (take n (output_block state)) = n).
  { rewrite length_take. unfold output_block. rewrite sha384_len. lia. }
  assert (Hlen : length out' = length out) by (unfold out'; rewrite !length_app, Hb, length_take, length_drop; lia).
  split; [done|]. unfold finishing. rewrite Hlen. split; [lia|]. exists pf.
  replace (length out - (offset + n))%nat with (m - n)%nat by lia.
  rewrite (blocks_for_step m) in Es, Ha by lia. rewrite <- Hn in Es, Ha. split.
  - rewrite Es. do 2 f_equal. rewrite output_take, <- Hn, app_assoc. f_equal. unfold out'.
    rewrite app_assoc, take_app_length'; [done|]. rewrite length_app, Hb, length_take. lia.
  - rewrite Nat.iter_succ_r in Ha. exact Ha.
Qed.

(** The loop at its start and at its end. *)
Lemma finishing_start (pb p : EntropyPool) (c : call) (out : list byte) :
  c_op c = OExtract out -> agrees p (after_mix (c_taken c) pb) -> (reseed_count p =? 0) = false ->
  finishing pb p c 0 out (data p).
Proof.
  intros Eo [Ed Ec] Hz. split; [lia|]. eexists. unfold serve. rewrite Eo, <- Ec, Hz, <- Ed, Nat.sub_0_r. by split.
Qed.

Lemma finishing_end (pb p : EntropyPool) (c : call) (offset : nat) (out : list byte) :
  (length out <= offset)%nat -> finishing pb p c offset out (data p) -> serves pb p c (AExtracted (Ok tt) out).
Proof.
  intros Hge (Hle & pf & Es & Ha). replace (length out - offset)%nat with 0%nat in * by lia.
  exists pf. cbn in Es. rewrite app_nil_r, take_ge in Es by lia. by destruct p.
Qed.

Lemma round_progress (pb p : EntropyPool) (c : call) (offset : nat) (out : list byte) :
  finishing pb p c offset out (data p) ->
  in_lock (round offset out) = false /\ owns (at_stage (round offset out) c) = true /\
  progress pb p (at_stage (round offset out) c).
Proof.
  intros Hf. unfold round, owns. destruct (Nat.leb_spec (length out) offset); cbn; [|done].
  split; [done|]. split; [done|]. by apply (finishing_end _ _ _ offset).
Qed.

Lemma mixed_progress (pb p : EntropyPool) (c : call) :
  agrees p (after_mix (c_taken c) pb) ->
  let s := after_mixing (c_op c) in
  in_lock s = false /\ owns (at_stage s c) = true /\ progress pb p (at_stage s c).
Proof.
  intros Ha. unfold after_mixing, owns. destruct (c_op c) as [|out] eqn:Eo; cbn; repeat split; try done.
  - unfold serves, serve. cbn. rewrite Eo. eauto.
  - apply Ha.
  - apply Ha.
  - eauto.
Qed.

Lemma loop_progress (pb p : EntropyPool) (c : call) :
  agrees p pb -> in_lock (after_loop c) = false /\ owns (at_stage (after_loop c) c) = true /\
    progress pb p (at_stage (after_loop c) c).
Proof.
  intros Ha. unfold after_loop, owns. destruct (c_taken c) as [|v l] eqn:E; cbn; rewrite ?E; repeat split; try done; apply Ha.
Qed.

(** The owner's next access keeps what it relies on. *)
Definition kept (pb : EntropyPool) (x' : shared) (c : call) (r : call + answer) : Prop :=
  match r with
  | inr _ => True
  | inl c' => owns c' = true /\ c_pool c' = c_pool c /\
      exists p', x_pools x' !! c_pool c = Some p' /\ holder_ok pb p' c'
  end.

Lemma attempt_kept (sp : bool) (x : shared) (c : call) (p pb : EntropyPool) (spin : bool) (retry : bool -> stage)
    (won : stage) :
  x_pools x !! c_pool c = Some p -> holder_ok pb p c -> locked p = false ->
  (forall b, owns (at_stage (retry b) c) = true /\ in_lock (retry b) = false /\ progress pb p (at_stage (retry b) c)) ->
  owns (at_stage won c) = true -> in_lock won = true -> progress pb (set_locked true p) (at_stage won c) ->
  let r := attempt sp p spin retry won x c in kept pb r.1 c r.2.
Proof.
  intros Hp [Hm _ Ht _] Hl Hretry Ho Hin Hw. unfold attempt. rewrite Hl.
  destruct spin; [|destruct sp]; cbn [fst snd kept].
  1, 2: split; [apply Hretry|]; split; [done|]; exists p; split; [done|]; split; cbn; try done; [|apply Hretry];
    rewrite Hl; symmetry; apply Hretry.
  split; [done|]. split; [done|]. exists (set_locked true p). split; [by apply upd_pool|].
  by split.
Qed.

Lemma kept_intro (pb p' : EntropyPool) (x' : shared) (c c' : call) :
  x_pools x' !! c_pool c = Some p' -> c_pool c' = c_pool c -> mixing p' = true -> locked p' = in_lock (c_stage c') ->
  (length (c_taken c') <= max_taken)%nat -> owns c' = true -> progress pb p' c' -> kept pb x' c (inl c').
Proof. intros. split; [done|]. split; [done|]. exists p'. split; [done|]. by split. Qed.

Lemma agrees_mixed (pb p : EntropyPool) (taken : list (list byte)) :
  taken <> [] -> data p = mixed_state (data pb) taken -> reseed_count p = reseed_count pb ->
  agrees (set_count (wrapping_add 64 (reseed_count p) 1) p) (after_mix taken pb).
Proof. intros Ht Hd Hc. split; cbn; [done|]. rewrite Hc. by destruct taken. Qed.

Lemma agrees_none (pb p : EntropyPool) : agrees p pb -> agrees p (after_mix [] pb).
Proof. done. Qed.

Ltac keep Hp := eapply kept_intro; [exact Hp || by apply upd_pool|done|done|done|done|done|].

Lemma holder_step (sp : bool) (x x' : shared) (c : call) (r : call + answer) (p pb : EntropyPool) :
  x_pools x !! c_pool c = Some p -> owns c = true -> holder_ok pb p c ->
  next_access sp x c = Some (x', r) -> kept pb x' c r.
Proof.
  intros Hp Ho Hh. pose proof Hh as [Hm Hl Ht Hg]. unfold next_access. rewrite Hp. cbn [mbind option_bind].
  unfold progress, owns in *. destruct (c_stage c) eqn:Es; cbn [in_lock] in Hl; intros E.
  all: try (injection E as <- <-).
  - done.
  - destruct Hg as [Et Ha]. destruct (x_gate x); injection E as <- <-.
    + destruct (mixed_progress pb p c) as (S1 & S2 & S3); [by rewrite Et|].
      eapply kept_intro; [exact Hp|done|done|by rewrite Hl|done|done|done].
    + keep Hp. cbn. rewrite Et. split; [by apply Nat.ltb_lt|done].
  - by keep Hp.
  - destruct Hg as [Hn Ha]. destruct (x_head x =? tail); injection E as <- <-; [|by keep Hp].
    destruct (loop_progress pb p c Ha) as (S1 & S2 & S3). eapply kept_intro; [exact Hp|done|done|by rewrite Hl|done|done|done].
  - destruct (x_slots x !! idx tail) as [item|]; [|done]. injection E as <- <-. by keep Hp.
  - by keep Hp.
  - destruct Hg as [Hn Ha].
    assert (Hlen : length (c_taken (add_taken item c)) = S (length (c_taken c))) by (cbn; rewrite length_app; cbn; lia).
    case_match eqn:El.
    + eapply kept_intro; [exact Hp|done|done|done| |done|].
      * change (length (c_taken (add_taken item c)) <= max_taken)%nat. rewrite Hlen. lia.
      * split; [by apply Nat.ltb_lt|done].
    + destruct (loop_progress pb p (add_taken item c) Ha) as (S1 & S2 & S3).
      eapply kept_intro; [exact Hp|done|done|by rewrite Hl| |done|done].
      change (length (c_taken (add_taken item c)) <= max_taken)%nat. rewrite Hlen. lia.
  - pose proof (attempt_kept sp x c p pb spin MixLock MixRead Hp Hh Hl) as Hk. cbn zeta in Hk.
    destruct (attempt _ _ _ _ _ _ _) as [x1 r1]. injection E as <- <-. by apply Hk.
  - destruct Hg as (Ht0 & Ha). keep Hp. cbn. split; [done|]. split; [done|]. destruct Ha as [-> _].
    unfold mixed_state. by destruct (c_taken c).
  - destruct Hg as (Ht0 & [_ Hc] & ->). by keep Hp.
  - by keep Hp.
  - by keep Hp.
  - destruct Hg as (Ht0 & Hd & Hc). keep Hp. by apply agrees_mixed.
  - destruct (mixed_progress pb p c Hg) as (S1 & S2 & S3).
    eapply kept_intro; [exact Hp|done|done|by rewrite Hl|done|done|done].
  - destruct Hg as [Ha [out Eo]]. rewrite Eo in E. destruct (reseed_count p =? 0) eqn:Ez; injection E as <- <-.
    + keep Hp. exists (after_mix (c_taken c) pb). split; [|done]. unfold serve.
      cbn [c_op c_taken at_stage]. rewrite Eo. destruct Ha as [_ <-]. by rewrite Ez.
    + destruct (round_progress pb p c 0 out) as (S1 & S2 & S3); [by apply finishing_start|].
      eapply kept_intro; [exact Hp|done|done|by rewrite Hl|done|done|done].
  - pose proof (attempt_kept sp x c p pb spin (fun b => SnapLock b offset out) (SnapRead offset out) Hp Hh Hl) as Hk.
    cbn zeta in Hk. destruct (attempt _ _ _ _ _ _ _) as [x1 r1]. injection E as <- <-. by apply Hk.
  - keep Hp. cbn. by destruct Hg.
  - destruct Hg as (Hlt & Hf & ->). destruct (finishing_round pb p c offset out (data p) Hlt Hf) as [Hlen Hf'].
    change (output_block (data p)) with (sha384_digest (x00 :: data p)) in Hlen, Hf'.
    keep Hp. unfold progress. cbn [c_stage at_stage]. unfold copy_len in *. rewrite Hlen. by split.
  - pose proof (attempt_kept sp x c p pb spin (fun b => CommitLock b offset out state_result)
      (CommitWrite offset out state_result) Hp Hh Hl) as Hk.
    cbn zeta in Hk. destruct (attempt _ _ _ _ _ _ _) as [x1 r1]. injection E as <- <-. by apply Hk.
  - by keep Hp.
  - destruct Hg as [Hlt Hf]. destruct (round_progress pb (set_locked false p) c (offset + copy_len offset out) out Hf) as (S1 & S2 & S3).
    eapply kept_intro; [by apply upd_pool|done|done|by symmetry|done|done|done].
  - by keep Hp.
  - done.
Qed.

(** The parts of the ghost state that belong to one pool. *)
Definition taken_by (c : call) (r : call + answer) : list (list byte) :=
  match r with inl c' => drop (length (c_taken c)) (c_taken c') | inr _ => [] end.
Definition logged_by (c : call) (r : call + answer) : list entry :=
  match c_stage c, r with ReleasePool a, inr _ => [MkEntry (c_op c) (c_taken c) a] | _, _ => [] end.

Lemma chunks_publish (k k' : nat) (v : Z) (item : list byte) (x : shared) :
  chunks_of k' (publish_tail v k item x) = chunks_of k' x ++ if decide (k = k') then [item] else [].
Proof. unfold chunks_of. cbn. rewrite omap_app. cbn. by destruct (decide (k = k')). Qed.

Lemma log_append (k k' : nat) (e : entry) (x : shared) :
  log_of k' (log k e x) = log_of k' x ++ if decide (k = k') then [e] else [].
Proof. unfold log_of. cbn. rewrite omap_app. cbn. by destruct (decide (k = k')). Qed.

Lemma access_effect (sp : bool) (x x' : shared) (c : call) (r : call + answer) :
  next_access sp x c = Some (x', r) ->
  length (x_pools x') = length (x_pools x) /\
  (forall k, k <> c_pool c -> same_pool k x x') /\
  log_of (c_pool c) x' = log_of (c_pool c) x ++ logged_by c r /\
  chunks_of (c_pool c) x' = chunks_of (c_pool c) x ++ taken_by c r /\
  (forall c', r = inl c' -> c_taken c' = c_taken c ++ taken_by c r).
Proof.
  unfold next_access, logged_by, same_pool. destruct (x_pools x !! c_pool c) as [p|]; [|done]. cbn [mbind option_bind].
  destruct (c_stage c); intros E; try (apply bind_Some in E as (item & _ & E));
    repeat (case_match; simplify_eq); simplify_eq/=.
  all: unfold attempt in *; repeat (case_match; simplify_eq); simplify_eq/=.
  all: rewrite ?length_alter, ?drop_all, ?drop_app_length, ?app_nil_r, ?log_append, ?chunks_publish.
  all: rewrite ?decide_True by done.
  all: split_and!; try done; intros; simplify_eq/=; rewrite ?app_nil_r; try done.
  all: split_and?; rewrite ?log_append, ?chunks_publish, ?decide_False by done; rewrite ?app_nil_r; try done.
  all: by rewrite list_lookup_alter_ne.
Qed.

(** A caller that owns nothing, before and after, changes nothing. *)
Lemma pool_bystander (x : shared) (cs : list (option call)) (t : nat) (oc oc' : option call) :
  pool_inv x cs -> cs !! t = Some oc -> (forall c, oc = Some c -> owns c = false) ->
  (forall c, oc' = Some c -> owns c = false /\ local_ok x c) -> pool_inv x (<[t := oc']> cs).
Proof.
  intros [Hl He Hf Hh] Ht Hoc Hoc'. assert (Hlt : (t < length cs)%nat) by by eapply lookup_lt_Some.
  assert (Hback : forall t2 c2, <[t := oc']> cs !! t2 = Some (Some c2) ->
    oc' = Some c2 \/ t2 <> t /\ cs !! t2 = Some (Some c2)).
  { intros t2 c2 H2. destruct (decide (t2 = t)) as [->|Hne].
    - rewrite list_lookup_insert_eq in H2 by done. left. congruence.
    - rewrite list_lookup_insert_ne in H2 by done. by right. }
  split; [| |done|].
  - intros t2 c2 [E|[Hne E]]%Hback; [by apply Hoc'|by eapply Hl].
  - intros t1 t2 c1 c2 [E1|[N1 E1]]%Hback [E2|[N2 E2]]%Hback O1 O2 E; [| | |by eapply He];
      destruct (Hoc' _ E1) + destruct (Hoc' _ E2); congruence.
  - intros k p Hp Hm. destruct (Hh k p Hp Hm) as (t2 & c2 & E2 & O2 & Ek). exists t2, c2. split; [|done].
    rewrite list_lookup_insert_ne; [done|]. intros ->. rewrite Ht in E2. injection E2 as ->.
    by rewrite (Hoc c2) in O2.
Qed.

(** Nobody else owns a pool that is free, or that the caller owns. *)
Lemma free_unowned (x : shared) (cs : list (option call)) (t : nat) (c : call) (p : EntropyPool) :
  pool_inv x cs -> cs !! t = Some (Some c) -> x_pools x !! c_pool c = Some p -> owns c = true \/ mixing p = false ->
  forall t2 c2, t2 <> t -> cs !! t2 = Some (Some c2) -> owns c2 = true -> c_pool c2 <> c_pool c.
Proof.
  intros Hinv Ht Hp Hor t2 c2 Hne H2 O2 Ek. destruct Hor as [Ho|Hm].
  - apply Hne. by eapply (pi_excl x cs Hinv).
  - pose proof (pi_local x cs Hinv t2 c2 H2) as Hl. unfold local_ok in Hl. rewrite O2, Ek in Hl.
    destruct Hl as (p2 & pb & Hp2 & _ & Hh & _). pose proof (h_mixing _ _ _ Hh). congruence.
Qed.

(** A caller that is no owner either acquires the free pool or leaves it. *)
Lemma pool_acquire (sp : bool) (x x' : shared) (cs : list (option call)) (t : nat) (c : call) (r : call + answer) :
  pool_inv x cs -> cs !! t = Some (Some c) -> owns c = false -> next_access sp x c = Some (x', r) ->
  pool_inv x' (<[t := running r]> cs).
Proof.
  intros Hinv Ht Ho E. pose proof (access_effect sp x x' c r E) as (Hlen & Hsame & Hlog & Hch & Htk).
  pose proof (pi_local _ _ Hinv t c Ht) as Hl. unfold local_ok in Hl. rewrite Ho in Hl. destruct Hl as [Et _].
  unfold next_access in E. apply bind_Some in E as (p & Hp & E).
  unfold owns in Ho. destruct (c_stage c) eqn:Es; try discriminate Ho. destruct (mixing p) eqn:Em; simplify_eq/=.
  - apply (pool_bystander x' cs t (Some c) None); [done|done| |done].
    intros ? [= <-]. unfold owns. by rewrite Es.
  - destruct (pi_free _ _ Hinv _ p Hp Em) as [Hb Hf]. rewrite Et in *.
    apply (pool_update x _ cs t (c_pool c) (Some c)); try done.
    + eapply free_unowned; [done|done|done|by right].
    + by intros ? [= <-].
    + intros c' [= <-]. split; [done|]. cbn [local_ok owns at_stage c_stage c_pool c_taken].
      exists (set_mixing true p), p. split; [by apply upd_pool|]. split; [done|].
      split; [|by rewrite Et]. split; cbn; [done|apply Hb|rewrite Et; cbn; lia|done].
    + intros p'. rewrite (upd_pool _ _ _ p Hp). intros [= <-]. cbn. by eexists.
Qed.

(** An owner returns by giving the pool up. *)
Lemma owner_returns (sp : bool) (x x' : shared) (c : call) (a : answer) :
  owns c = true -> next_access sp x c = Some (x', inr a) ->
  c_stage c = ReleasePool a /\
  x' = log (c_pool c) (MkEntry (c_op c) (c_taken c) a) (upd (c_pool c) (set_mixing false) x).
Proof.
  unfold next_access, owns. intros Ho E. apply bind_Some in E as (p & Hp & E).
  destruct (c_stage c); try (apply bind_Some in E as (item & _ & E)); unfold attempt in E;
    repeat case_match; by simplify_eq.
Qed.

(** The pool its owner gives up is the one its log entry leaves. *)
Lemma released_base (x : shared) (c : call) (a : answer) (p pb : EntropyPool) :
  base (c_pool c) x pb -> holder_ok pb p c -> c_stage c = ReleasePool a ->
  base (c_pool c) (log (c_pool c) (MkEntry (c_op c) (c_taken c) a) (upd (c_pool c) (set_mixing false) x))
    (set_mixing false p).
Proof.
  intros [Hi (p0 & Hp0 & Hs)] [Hm Hl Hn Hg] Es. unfold progress in Hg. rewrite Es in Hg, Hl.
  destruct Hg as (pf & Esv & [Ed Ec]). pose proof (serve_sequential (c_op c) (c_taken c) pb Hi Hn) as Hq.
  pose proof (serve_idle (c_op c) (c_taken c) pb Hi) as [Il Im]. rewrite Esv in Hq, Il, Im. cbn [fst snd] in *.
  split; [by split|]. exists p0. split; [done|]. rewrite log_append, decide_True by done.
  eapply serial_snoc; [exact Hs|]. replace (set_mixing false p) with pf; [done|].
  destruct p, pf. cbn in *. by subst.
Qed.

(** An owner's access. *)
Lemma pool_own (sp : bool) (x x' : shared) (cs : list (option call)) (t : nat) (c : call) (r : call + answer) :
  pool_inv x cs -> cs !! t = Some (Some c) -> owns c = true -> next_access sp x c = Some (x', r) ->
  pool_inv x' (<[t := running r]> cs).
Proof.
  intros Hinv Ht Ho E. pose proof (access_effect sp x x' c r E) as (Hlen & Hsame & Hlog & Hch & Htk).
  pose proof (pi_local _ _ Hinv t c Ht) as Hl. unfold local_ok in Hl. rewrite Ho in Hl.
  destruct Hl as (p & pb & Hp & Hb & Hh & Hf). pose proof (holder_step sp x x' c r p pb Hp Ho Hh E) as Hk.
  assert (Hun := free_unowned x cs t c p Hinv Ht Hp (or_introl Ho)).
  assert (Hc : forall c0, Some c = Some c0 -> c_pool c0 = c_pool c) by (by intros ? [= <-]).
  destruct r as [c'|a].
  - destruct Hk as (Ho' & Ek & p' & Hp' & Hh').
    assert (El : log_of (c_pool c) x' = log_of (c_pool c) x).
    { rewrite Hlog. unfold logged_by. destruct (c_stage c); apply app_nil_r. }
    apply (pool_update x x' cs t (c_pool c) (Some c)); try done.
    + intros ? [= <-]. split; [done|]. unfold local_ok. rewrite Ho', Ek. exists p', pb.
      split; [done|]. split; [by apply (base_same _ x)|]. split; [done|].
      unfold fed in *. by rewrite Hch, Hf, El, (Htk c' eq_refl), app_assoc.
    + intros p2 Hp2. assert (p2 = p') as -> by congruence. rewrite (h_mixing _ _ _ Hh'). by exists c'.
  - destruct (owner_returns sp x x' c a Ho E) as [Es ->].
    eapply (pool_update x _ cs t (c_pool c) (Some c)); try done. intros p2 Hp2.
    change (x_pools (upd (c_pool c) (set_mixing false) x) !! c_pool c = Some p2) in Hp2.
    rewrite (upd_pool _ _ _ p Hp) in Hp2. injection Hp2 as <-. cbn [mixing set_mixing].
    split; [by apply (released_base x c a p pb)|]. unfold fed in *.
    rewrite Hlog, Hch. unfold logged_by. rewrite Es. cbn [taken_by]. rewrite Hf, fmap_app, concat_app. cbn.
    by rewrite !app_nil_r.
Qed.

Lemma pool_access (sp : bool) (x x' : shared) (cs : list (option call)) (t : nat) (c : call) (r : call + answer) :
  pool_inv x cs -> cs !! t = Some (Some c) -> next_access sp x c = Some (x', r) -> pool_inv x' (<[t := running r]> cs).
Proof. intros Hi Ht E. destruct (owns c) eqn:Ho; [by eapply pool_own|by eapply pool_acquire]. Qed.

Lemma pool_producer (x x' : shared) (pr pr' : prod_pc) (cs : list (option call)) :
  pool_inv x cs -> prod_next x pr = Some (x', pr') -> pool_inv x' cs.
Proof.
  intros Hi E. assert (Es : x_pools x' = x_pools x /\ g_log x' = g_log x /\ g_popped x' = g_popped x).
  { unfold prod_next in E. destruct pr; repeat case_match; by simplify_eq/=. }
  destruct Es as (Ep & El & Ec).
  assert (Hs : forall k, same_pool k x x') by (intros k; unfold same_pool, log_of, chunks_of; by rewrite Ep, El, Ec).
  destruct Hi as [Hl He Hf Hh]. split; [|done| |rewrite Ep; done].
  - intros t c Ht. eapply (local_same x); [by rewrite Ep|done|by eapply Hl].
  - intros k p. destruct (Hs k) as (-> & Ek & Ck). intros Hp Hm. destruct (Hf k p Hp Hm) as [Hb Hfe].
    split; [by apply (base_same k x)|]. unfold fed. by rewrite Ek, Ck.
Qed.

Lemma pool_start (n : nat) : Forall idle pools -> pool_inv (sh (start pools n)) (replicate n None).
Proof.
  intros Hi. cbn. split; cbn.
  - intros t c [? _]%lookup_replicate. done.
  - intros t1 t2 c1 c2 [? _]%lookup_replicate. done.
  - intros k p Hp _. split; [|done]. split; [by eapply Forall_lookup_1|]. exists p. split; [done|constructor].
  - intros k p Hp Hm. destruct (Forall_lookup_1 _ _ _ _ Hi Hp). congruence.
Qed.

End pools.

(** * The queue *)

Section queue.
Context `{CryptoOps}.

Abbreviation size := 64.

Definition popped (x : shared) : Z := zlen (g_popped x).
Definition pushed (x : shared) : Z := zlen (g_pushed x).

(** Consumes the queue: owns its gate. *)
Definition consumes (c : call) : bool :=
  match c_stage c with
  | PopTail | PopHead _ | PopRead _ | PopWipe _ _ | PopPublish _ _ | MixLock _ | MixRead | MixWrite _ | MixUnlock
  | MixFlush | MixCount | ReleaseQueue => true
  | _ => false
  end.

(** The oldest chunk is in its slot. *)
Definition first_ok (x : shared) : Prop :=
  forall v, g_pushed x !! Z.to_nat (popped x) = Some v -> x_slots x !! idx (popped x) = Some v.

Definition cons_ok (x : shared) (c : call) : Prop :=
  match c_stage c with
  | PopHead tl => tl = popped x mod 2 ^ 64 /\ first_ok x
  | PopRead tl => tl = popped x mod 2 ^ 64 /\ popped x < pushed x /\ first_ok x
  | PopWipe tl item =>
      tl = popped x mod 2 ^ 64 /\ g_pushed x !! Z.to_nat (popped x) = Some item /\ length item = EQ.ENTROPY_CHUNK_SIZE /\ first_ok x
  | PopPublish tl item =>
      tl = popped x mod 2 ^ 64 /\ g_pushed x !! Z.to_nat (popped x) = Some item /\
      x_slots x !! idx (popped x) = Some (zeros EQ.ENTROPY_CHUNK_SIZE)
  | _ => first_ok x
  end.

Definition prod_ok (x : shared) (pr : prod_pc) : Prop :=
  match pr with
  | PIdle => True
  | PLoadHead item => length item = EQ.ENTROPY_CHUNK_SIZE
  | PLoadTail item hd => length item = EQ.ENTROPY_CHUNK_SIZE /\ hd = pushed x mod 2 ^ 64
  | PWrite item hd => length item = EQ.ENTROPY_CHUNK_SIZE /\ hd = pushed x mod 2 ^ 64 /\ pushed x < popped x + size
  | PPublish item hd =>
      length item = EQ.ENTROPY_CHUNK_SIZE /\ hd = pushed x mod 2 ^ 64 /\ pushed x < popped x + size /\
      x_slots x !! idx (pushed x) = Some item
  end.

Record queue_inv (x : shared) (pr : prod_pc) : Prop := {
  qi_len : length (x_slots x) = 64%nat;
  qi_head : x_head x = pushed x mod 2 ^ 64;
  qi_tail : x_tail x = popped x mod 2 ^ 64;
  qi_gap : popped x <= pushed x <= popped x + size;
  qi_prefix : (snd <$> g_popped x) `prefix_of` g_pushed x;
  qi_sizes : Forall (fun v => length v = EQ.ENTROPY_CHUNK_SIZE) (g_pushed x);
  qi_items : forall i v, popped x < Z.of_nat i -> g_pushed x !! i = Some v -> x_slots x !! idx (Z.of_nat i) = Some v;
  (** taken chunks do not linger *)
  qi_wiped : forall i, pushed x <= i < popped x + size -> (i = pushed x -> forall item hd, pr <> PPublish item hd) ->
    x_slots x !! idx i = Some (zeros EQ.ENTROPY_CHUNK_SIZE);
  qi_prod : prod_ok x pr
}.

Record cons_inv (x : shared) (cs : list (option call)) : Prop := {
  qi_cons : forall t c, cs !! t = Some (Some c) -> consumes c = true -> x_gate x = true /\ cons_ok x c;
  qi_excl : forall t1 t2 c1 c2, cs !! t1 = Some (Some c1) -> cs !! t2 = Some (Some c2) ->
    consumes c1 = true -> consumes c2 = true -> t1 = t2;
  qi_free : x_gate x = false -> first_ok x;
  qi_held : x_gate x = true -> exists t c, cs !! t = Some (Some c) /\ consumes c = true
}.

Lemma slot_wrap (c : Z) : idx (c mod 2 ^ 64) = idx c.
Proof. unfold idx, EQ.ENTROPY_QUEUE_SIZE. f_equal. pose proof (EQ.index_counter c 0) as E. by rewrite Z.add_0_r in E. Qed.

Lemma slot_apart (a b : Z) : a < b < a + size -> idx a <> idx b.
Proof.
  intros Hab. pose proof (EQ.index_ne a 0 (b - a) ltac:(lia) ltac:(lia) ltac:(lia)) as Hn. unfold idx, EQ.ENTROPY_QUEUE_SIZE.
  rewrite Z.add_0_r in Hn. by replace (a + (b - a)) with b in Hn by lia.
Qed.

Lemma idx_lt (a : Z) : (idx a < 64)%nat.
Proof. unfold idx, EQ.ENTROPY_QUEUE_SIZE. pose proof (Z.mod_pos_bound a 64 ltac:(lia)). lia. Qed.

Lemma queue_start (pools : list EntropyPool) (n : nat) :
  queue_inv (sh (start pools n)) PIdle /\ cons_inv (sh (start pools n)) (replicate n None).
Proof.
  split; split; try done; cbn.
  - intros i _ _. apply lookup_replicate. split; [done|]. apply idx_lt.
  - by intros t c [? _]%lookup_replicate.
  - by intros t1 t2 c1 c2 [? _]%lookup_replicate.
Qed.

(** ** Callers *)

(** Nobody consumes but, perhaps, the acting caller. *)
Lemma cons_actor (x x' : shared) (cs : list (option call)) (t : nat) (oc oc' : option call) :
  cs !! t = Some oc ->
  (forall t2 c2, t2 <> t -> cs !! t2 = Some (Some c2) -> consumes c2 = false) ->
  (if x_gate x' then exists c', oc' = Some c' /\ consumes c' = true /\ cons_ok x' c'
   else first_ok x' /\ forall c', oc' = Some c' -> consumes c' = false) ->
  cons_inv x' (<[t := oc']> cs).
Proof.
  intros Ht Hno Hg. assert (Hlt : (t < length cs)%nat) by by eapply lookup_lt_Some.
  assert (Hback : forall t2 c2, <[t := oc']> cs !! t2 = Some (Some c2) -> consumes c2 = true -> t2 = t /\ oc' = Some c2).
  { intros t2 c2 H2 C2. destruct (decide (t2 = t)) as [->|Hne].
    - rewrite list_lookup_insert_eq in H2 by done. split; congruence.
    - rewrite list_lookup_insert_ne in H2 by done. by rewrite (Hno t2 c2) in C2. }
  split.
  - intros t2 c2 H2 C2. destruct (Hback t2 c2 H2 C2) as [-> E]. destruct (x_gate x').
    + destruct Hg as (c' & E' & _ & Hc). split; [done|]. congruence.
    + destruct Hg as [_ Hg]. by rewrite (Hg c2 E) in C2.
  - intros t1 t2 c1 c2 H1 H2 C1 C2. destruct (Hback t1 c1 H1 C1) as [-> _]. by destruct (Hback t2 c2 H2 C2) as [-> _].
  - intros E. rewrite E in Hg. apply Hg.
  - intros E. rewrite E in Hg. destruct Hg as (c' & -> & C' & _). exists t, c'.
    by rewrite list_lookup_insert_eq.
Qed.

(** A caller that does not consume, before and after. *)
Lemma cons_bystander (x x' : shared) (cs : list (option call)) (t : nat) (oc oc' : option call) :
  cons_inv x cs -> cs !! t = Some oc -> (forall c, oc = Some c -> consumes c = false) ->
  (forall c, oc' = Some c -> consumes c = false) ->
  x_gate x' = x_gate x -> (first_ok x -> first_ok x') -> (forall c, cons_ok x c -> cons_ok x' c) ->
  cons_inv x' (<[t := oc']> cs).
Proof.
  intros [Hc He Hf Hh] Ht Hoc Hoc' Eg Hfirst Hcons.
  assert (Hlt : (t < length cs)%nat) by by eapply lookup_lt_Some.
  assert (Hback : forall t2 c2, <[t := oc']> cs !! t2 = Some (Some c2) -> consumes c2 = true -> cs !! t2 = Some (Some c2)).
  { intros t2 c2 H2 C2. destruct (decide (t2 = t)) as [->|Hne].
    - rewrite list_lookup_insert_eq in H2 by done. rewrite (Hoc' c2) in C2; [done|congruence].
    - by rewrite list_lookup_insert_ne in H2 by done. }
  split; rewrite ?Eg.
  - intros t2 c2 H2 C2. destruct (Hc t2 c2 (Hback _ _ H2 C2) C2). auto.
  - intros t1 t2 c1 c2 H1 H2 C1 C2. eapply He; eauto.
  - auto.
  - intros E. destruct (Hh E) as (t2 & c2 & E2 & C2). exists t2, c2. split; [|done].
    rewrite list_lookup_insert_ne; [done|]. intros ->. rewrite Ht in E2. injection E2 as ->.
    by rewrite (Hoc c2) in C2.
Qed.

(** ** The producer *)

Lemma cons_frame (x x' : shared) (c : call) :
  popped x' = popped x -> pushed x <= pushed x' -> (first_ok x -> first_ok x') ->
  (forall i v, g_pushed x !! i = Some v -> g_pushed x' !! i = Some v) ->
  (popped x < pushed x -> x_slots x' !! idx (popped x) = x_slots x !! idx (popped x)) ->
  cons_ok x c -> cons_ok x' c.
Proof.
  intros Ep Hpu Hf Hv Hs. unfold cons_ok. rewrite Ep. destruct (c_stage c); try done.
  - intros [? ?]. auto.
  - intros (? & ? & ?). split_and!; auto; lia.
  - intros (? & ? & ? & ?). auto.
  - intros (? & Hi & ?). split_and!; auto. rewrite Hs; [done|].
    apply lookup_lt_Some in Hi. unfold pushed, popped, zlen in *. lia.
Qed.

Lemma first_frame (x x' : shared) :
  popped x' = popped x -> g_pushed x' = g_pushed x ->
  (popped x < pushed x -> x_slots x' !! idx (popped x) = x_slots x !! idx (popped x)) -> first_ok x -> first_ok x'.
Proof.
  intros Ep Eg Hs Hf v. rewrite Ep, Eg. intros Hv. rewrite Hs; [by apply Hf|].
  apply lookup_lt_Some in Hv. unfold pushed, popped, zlen in *. lia.
Qed.

Lemma cons_same (x x' : shared) (cs : list (option call)) :
  cons_inv x cs -> x_gate x' = x_gate x -> (first_ok x -> first_ok x') -> (forall c, cons_ok x c -> cons_ok x' c) ->
  cons_inv x' cs.
Proof.
  intros [Hc He Hf Hh] Eg Hfirst Hcons. split; rewrite ?Eg; try done; [|auto].
  intros t c Ht Hcs. destruct (Hc t c Ht Hcs). auto.
Qed.

(** The chunk goes into the slot of position [pushed x], which is outside what the
    consumer can see. *)
Lemma producer_write (x : shared) (item : list byte) (hd : Z) (cs : list (option call)) :
  queue_inv x (PWrite item hd) -> cons_inv x cs ->
  let x' := set_slots (<[idx hd := item]> (x_slots x)) x in queue_inv x' (PPublish item hd) /\ cons_inv x' cs.
Proof.
  intros [Hl Hh Ht Hg Hp Hsz Hi Hw Hpr] Hc x'. destruct Hpr as (Hlen & -> & Hroom).
  assert (Hs : popped x < pushed x -> x_slots x' !! idx (popped x) = x_slots x !! idx (popped x)).
  { intros Hlt. apply list_lookup_insert_ne. rewrite slot_wrap. apply not_eq_sym, slot_apart. lia. }
  split.
  - split; try done; cbn [x_slots x' set_slots]; rewrite ?slot_wrap.
    + by rewrite length_insert.
    + intros i v Hlo Hv. rewrite list_lookup_insert_ne; [by apply Hi|]. apply not_eq_sym, slot_apart.
      apply lookup_lt_Some in Hv. unfold pushed, popped, x', set_slots, zlen in *. cbn in *. lia.
    + intros i Hr Hne. change (pushed x') with (pushed x) in *. change (popped x') with (popped x) in *.
      destruct (decide (i = pushed x)) as [->|Hni]; [by destruct (Hne eq_refl item (pushed x mod 2 ^ 64))|].
      rewrite list_lookup_insert_ne; [apply Hw; [lia|done]|]. apply slot_apart. lia.
    + split_and!; [done|done|done|]. cbn [x' set_slots x_slots]. rewrite slot_wrap. apply list_lookup_insert_eq.
      rewrite Hl. apply idx_lt.
  - apply (cons_same x); [done|done|by apply first_frame|]. intros c. apply cons_frame; [done|apply Z.le_refl| |done|done].
    by apply first_frame.
Qed.

Lemma producer_publish (x : shared) (item : list byte) (hd : Z) (cs : list (option call)) :
  queue_inv x (PPublish item hd) -> cons_inv x cs ->
  let x' := publish_head (wrapping_add 64 hd 1) item x in queue_inv x' PIdle /\ cons_inv x' cs.
Proof.
  intros [Hl Hh Ht Hg Hp Hsz Hi Hw Hpr] Hc x'. destruct Hpr as (Hlen & -> & Hroom & Hslot).
  assert (Epu : pushed x' = pushed x + 1) by (unfold pushed, zlen; cbn; rewrite length_app; cbn; lia).
  assert (Epo : popped x' = popped x) by done.
  assert (Hlk : forall i v, g_pushed x' !! i = Some v ->
    g_pushed x !! i = Some v \/ Z.of_nat i = pushed x /\ v = item).
  { intros i v [Hv|[Hge Hv]]%lookup_app_Some; [by left|right].
    apply list_lookup_singleton_Some in Hv as [Hv ->]. split; [|done]. unfold pushed, zlen. lia. }
  assert (Hf : first_ok x -> first_ok x').
  { intros Hf v [Hv|[Ei ->]]%Hlk; [by apply Hf|]. rewrite Epo in *.
    replace (popped x) with (pushed x); [done|]. unfold popped, zlen in *. lia. }
  split.
  - split; rewrite ?Epu, ?Epo; try done.
    + cbn. rewrite wrapping_add_counter by (unfold pushed, zlen; lia). done.
    + lia.
    + by apply prefix_app_r.
    + apply Forall_app. split; [done|]. by constructor.
    + intros i v Hlo [Hv|[-> ->]]%Hlk; [by apply Hi|done].
    + intros i Hr _. apply Hw; [lia|]. intros ->. lia.
  - apply (cons_same x); [done|done|done|]. intros c. apply cons_frame; [done|lia|done| |done].
    intros i v Hv. by apply lookup_app_l_Some.
Qed.

Lemma queue_producer (x x' : shared) (pr pr' : prod_pc) (cs : list (option call)) :
  queue_inv x pr -> cons_inv x cs -> prod_next x pr = Some (x', pr') -> queue_inv x' pr' /\ cons_inv x' cs.
Proof.
  intros Hq Hc E. pose proof Hq as [Hl Hh Ht Hg Hp Hsz Hi Hw Hpr]. unfold prod_next in E.
  destruct pr as [|item|item hd|item hd|item hd]; cbn [prod_ok] in Hpr.
  - done.
  - simplify_eq. split; [|done]. split; try done. intros i Hr _. by apply Hw.
  - destruct Hpr as [Hlen ->]. rewrite Ht, wrapping_sub_counters in E by lia. unfold EQ.ENTROPY_QUEUE_SIZE in E.
    destruct (Z.leb_spec 64 (pushed x - popped x)); simplify_eq; (split; [|done]); split; try done;
      try (intros i Hr _; by apply Hw). split_and!; [done|done|lia].
  - simplify_eq. by apply producer_write.
  - simplify_eq. by apply producer_publish.
Qed.

(** ** The consumer *)

(** Only pools and the log changed. *)
Definition same_queue (x x' : shared) : Prop :=
  exists ps l, x' = MkShared (x_head x) (x_tail x) (x_slots x) (x_gate x) ps (g_pushed x) (g_popped x) l.

Lemma queue_same (x x' : shared) (pr : prod_pc) : same_queue x x' -> queue_inv x pr -> queue_inv x' pr.
Proof. intros (ps & l & ->) [Hl Hh Ht Hg Hp Hsz Hi Hw Hpr]. by split. Qed.

Lemma same_first (x x' : shared) : same_queue x x' -> first_ok x -> first_ok x'.
Proof. by intros (ps & l & ->). Qed.

Lemma same_cons (x x' : shared) (c : call) : same_queue x x' -> cons_ok x c -> cons_ok x' c.
Proof. by intros (ps & l & ->). Qed.

Lemma same_gate (x x' : shared) : same_queue x x' -> x_gate x' = x_gate x.
Proof. by intros (ps & l & ->). Qed.

Lemma same_refl (x : shared) : same_queue x x.
Proof. exists (x_pools x), (g_log x). by destruct x. Qed.

Lemma same_upd (k : nat) (f : EntropyPool -> EntropyPool) (x : shared) : same_queue x (upd k f x).
Proof. by eexists _, _. Qed.

(** Outside the code under the queue's gate an access leaves the queue alone. *)
Lemma outside_access (sp : bool) (x x' : shared) (c : call) (r : call + answer) :
  consumes c = false -> c_stage c <> TryQueue -> next_access sp x c = Some (x', r) ->
  same_queue x x' /\ forall c', running r = Some c' -> consumes c' = false.
Proof.
  unfold next_access, consumes. intros Hc Hn E. apply bind_Some in E as (p & Hp & E).
  destruct (c_stage c) eqn:Es; try done; unfold attempt, round in E; repeat case_match; simplify_eq/=.
  all: split; [first [apply same_refl|by eexists _, _]|]; intros c' [=]; by subst.
Qed.

(** Nobody else consumes while the caller does, or while the gate is free. *)
Lemma sole_consumer (x : shared) (cs : list (option call)) (t : nat) (c : call) :
  cons_inv x cs -> cs !! t = Some (Some c) -> consumes c = true \/ x_gate x = false ->
  forall t2 c2, t2 <> t -> cs !! t2 = Some (Some c2) -> consumes c2 = false.
Proof.
  intros Hi Ht Hor t2 c2 Hne H2. destruct (consumes c2) eqn:C2; [exfalso|done]. destruct Hor as [C|Hg].
  - apply Hne. by eapply (qi_excl x cs Hi).
  - destruct (qi_cons x cs Hi t2 c2 H2 C2). congruence.
Qed.

Lemma consumer_wipe (x : shared) (pr : prod_pc) (tl : Z) (item : list byte) (c : call) :
  queue_inv x pr -> cons_ok x (at_stage (PopWipe tl item) c) ->
  let x' := set_slots (<[idx tl := secure_zeroize item]> (x_slots x)) x in
  queue_inv x' pr /\ cons_ok x' (at_stage (PopPublish tl item) c).
Proof.
  intros [Hl Hh Ht Hg Hp Hsz Hi Hw Hpr] (-> & Hitem & Hlen & Hf) x'.
  assert (Hlt : popped x < pushed x) by (apply lookup_lt_Some in Hitem; unfold popped, pushed, zlen in *; lia).
  assert (Hz : secure_zeroize item = zeros EQ.ENTROPY_CHUNK_SIZE) by (unfold secure_zeroize; by rewrite Hlen).
  assert (Hs : forall i, popped x < i < popped x + size -> x_slots x' !! idx i = x_slots x !! idx i).
  { intros i Hr. apply list_lookup_insert_ne. rewrite slot_wrap. by apply slot_apart. }
  split; [split; try done|].
  - cbn. by rewrite length_insert.
  - intros i v Hlo Hv. rewrite Hs; [by apply Hi|]. change (popped x') with (popped x) in Hlo.
    apply lookup_lt_Some in Hv. cbn in Hv. unfold pushed, zlen in *. lia.
  - intros i Hr Hne. change (popped x') with (popped x) in Hr. change (pushed x') with (pushed x) in Hr.
    rewrite Hs by lia. by apply Hw.
  - destruct pr as [| | | |pitem hd]; try done. destruct Hpr as (? & ? & Hroom & Hslot). split_and!; try done.
    change (pushed x') with (pushed x). by rewrite Hs by lia.
  - split_and!; [done|done|]. change (popped x') with (popped x). cbn [x' set_slots x_slots].
    rewrite slot_wrap, Hz. apply list_lookup_insert_eq. rewrite Hl. apply idx_lt.
Qed.

Lemma consumer_publish (x : shared) (pr : prod_pc) (tl : Z) (item : list byte) (k : nat) (c : call) :
  queue_inv x pr -> cons_ok x (at_stage (PopPublish tl item) c) ->
  let x' := publish_tail (wrapping_add 64 tl 1) k item x in queue_inv x' pr /\ first_ok x'.
Proof.
  intros [Hl Hh Ht Hg Hp Hsz Hi Hw Hpr] (-> & Hitem & Hwiped) x'.
  assert (Hlt : popped x < pushed x) by (apply lookup_lt_Some in Hitem; unfold popped, pushed, zlen in *; lia).
  assert (Epo : popped x' = popped x + 1) by (unfold popped, zlen; cbn; rewrite length_app; cbn; lia).
  assert (Epu : pushed x' = pushed x) by done.
  split; [split; rewrite ?Epo, ?Epu; try done|].
  - cbn. rewrite wrapping_add_counter by (unfold popped, zlen; lia). done.
  - lia.
  - cbn. rewrite fmap_app. cbn. destruct Hp as [l El]. rewrite El in Hitem.
    rewrite lookup_app_r in Hitem by (rewrite length_fmap; unfold popped, zlen; lia).
    replace (Z.to_nat (popped x) - _)%nat with 0%nat in Hitem by (rewrite length_fmap; unfold popped, zlen; lia).
    destruct l as [|v l]; [done|]. injection Hitem as ->. exists l. rewrite El. by rewrite <- app_assoc.
  - intros i v Hlo Hv. apply Hi; [lia|done].
  - intros i Hr Hne. destruct (decide (i = popped x + size)) as [->|Hni]; [|apply Hw; [lia|done]].
    replace (idx (popped x + size)) with (idx (popped x)); [done|]. unfold idx, EQ.ENTROPY_QUEUE_SIZE.
    replace (popped x + 64) with (popped x + 1 * 64) by lia. by rewrite Z_mod_plus_full.
  - destruct pr; cbn [prod_ok] in *; rewrite ?Epo, ?Epu; destruct_and?; split_and?; try done; lia.
  - intros v Hv. rewrite Epo in *. pose proof (Hi (Z.to_nat (popped x + 1)) v) as Hiv.
    rewrite Z2Nat.id in Hiv by (unfold popped, zlen; lia). apply Hiv; [lia|done].
Qed.

(** What an access under the gate leaves: the caller goes on consuming, or the gate is
    free again. *)
Definition consumed (x' : shared) (r : call + answer) : Prop :=
  if x_gate x' then exists c', running r = Some c' /\ consumes c' = true /\ cons_ok x' c'
  else first_ok x' /\ forall c', running r = Some c' -> consumes c' = false.

Lemma goes_on (x x' : shared) (s : stage) (c : call) :
  x_gate x' = true -> consumes (at_stage s c) = true -> cons_ok x' (at_stage s c) -> consumed x' (inl (at_stage s c)).
Proof. intros Hg Hc Hk. unfold consumed. rewrite Hg. by exists (at_stage s c). Qed.

Lemma after_loop_consumes (x : shared) (c : call) :
  first_ok x -> consumes (at_stage (after_loop c) c) = true /\ cons_ok x (at_stage (after_loop c) c).
Proof. intros Hf. unfold after_loop, consumes, cons_ok. destruct (c_taken c); cbn; done. Qed.

Lemma attempt_consumed (sp : bool) (p : EntropyPool) (spin : bool) (x : shared) (c : call) :
  x_gate x = true -> first_ok x ->
  let r := attempt sp p spin MixLock MixRead x c in same_queue x r.1 /\ consumed r.1 r.2.
Proof.
  intros Hg Hf. unfold attempt. destruct spin; [|destruct (_ || _)]; cbn [fst snd]; (split; [first [apply same_refl|apply same_upd]|]);
    by apply (goes_on x).
Qed.

Lemma inside_access (sp : bool) (x x' : shared) (pr : prod_pc) (c : call) (r : call + answer) :
  queue_inv x pr -> consumes c = true -> x_gate x = true -> cons_ok x c ->
  next_access sp x c = Some (x', r) -> queue_inv x' pr /\ consumed x' r.
Proof.
  intros Hq Hc Hg Hk E. unfold next_access in E. apply bind_Some in E as (p & Hp & E).
  assert (Ec : c = at_stage (c_stage c) c) by by destruct c. rewrite Ec in Hk.
  unfold consumes in Hc. destruct (c_stage c) eqn:Es; try discriminate Hc.
  - simplify_eq. split; [done|]. apply (goes_on x'); [done|done|]. split; [apply Hq|exact Hk].
  - destruct Hk as [-> Hf]. destruct (Z.eqb_spec (x_head x) (popped x mod 2 ^ 64)) as [|Hne]; simplify_eq; (split; [done|]).
    + destruct (after_loop_consumes x' c Hf). by apply (goes_on x').
    + apply (goes_on x'); [done|done|]. split_and!; [done| |done]. pose proof (qi_gap _ _ Hq).
      rewrite (qi_head _ _ Hq) in Hne. destruct (decide (popped x' = pushed x')); [congruence|lia].
  - destruct Hk as (-> & Hlt & Hf). apply bind_Some in E as (item & Hitem & E). simplify_eq. split; [done|].
    apply (goes_on x'); [done|done|]. rewrite slot_wrap in Hitem.
    destruct (g_pushed x' !! Z.to_nat (popped x')) as [v|] eqn:Ev.
    + pose proof (Hf v Ev) as Hv. assert (v = item) as -> by congruence. split_and!; try done.
      exact (Forall_lookup_1 _ _ _ _ (qi_sizes _ _ Hq) Ev).
    + apply lookup_ge_None in Ev. unfold popped, pushed, zlen in *. lia.
  - simplify_eq. destruct (consumer_wipe x pr tail item c Hq Hk). split; [done|]. by apply (goes_on x).
  - simplify_eq. destruct (consumer_publish x pr tail item (c_pool c) c Hq Hk) as [Hq' Hf']. split; [done|].
    case_match; [by apply (goes_on x)|]. destruct (after_loop_consumes _ (add_taken item c) Hf'). by apply (goes_on x).
  - destruct (attempt_consumed sp p spin x c Hg Hk) as [Hs Hco]. destruct (attempt _ _ _ _ _ _ _). simplify_eq.
    split; [by apply (queue_same x)|done].
  - simplify_eq. split; [done|]. by apply (goes_on x').
  - simplify_eq. split; [apply (queue_same x); [apply same_upd|done]|]. by apply (goes_on x).
  - simplify_eq. split; [apply (queue_same x); [apply same_upd|done]|]. by apply (goes_on x).
  - simplify_eq. split; [done|]. by apply (goes_on x').
  - simplify_eq. split; [apply (queue_same x); [apply same_upd|done]|]. by apply (goes_on x).
  - simplify_eq. split; [by destruct Hq; split|]. split; [exact Hk|].
    intros c' [= <-]. unfold consumes, after_mixing. by destruct (c_op c).
Qed.

Lemma queue_access (sp : bool) (x x' : shared) (pr : prod_pc) (cs : list (option call)) (t : nat) (c : call) (r : call + answer) :
  queue_inv x pr -> cons_inv x cs -> cs !! t = Some (Some c) -> next_access sp x c = Some (x', r) ->
  queue_inv x' pr /\ cons_inv x' (<[t := running r]> cs).
Proof.
  intros Hq Hc Ht E. destruct (consumes c) eqn:C.
  - destruct (qi_cons _ _ Hc t c Ht C) as [Hg Hk]. destruct (inside_access sp x x' pr c r Hq C Hg Hk E) as [Hq' Hr].
    split; [done|]. apply (cons_actor x x' cs t (Some c)); [done| |done]. eapply sole_consumer; [done|done|by left].
  - assert (Hd : c_stage c = TryQueue \/ c_stage c <> TryQueue) by (destruct (c_stage c); (by left) || by right).
    destruct Hd as [Es|Hn].
    + unfold next_access in E. apply bind_Some in E as (p & Hp & E). rewrite Es in E. destruct (x_gate x) eqn:Eg; simplify_eq.
      * split; [done|]. apply (cons_bystander x' x' cs t (Some c)); try done; [by intros ? [= <-]|].
        intros c' [= <-]. unfold consumes, after_mixing. by destruct (c_op c).
      * split; [by destruct Hq; split|]. apply (cons_actor x _ cs t (Some c)); [done| |].
        -- eapply sole_consumer; [done|done|by right].
        -- cbn. eexists. split; [done|]. split; [done|]. exact (qi_free _ _ Hc Eg).
    + destruct (outside_access sp x x' c r C Hn E) as [Hs Hr]. split; [by apply (queue_same x)|].
      apply (cons_bystander x x' cs t (Some c)); try done; [by intros ? [= <-]|by apply same_gate|by apply same_first|].
      intros c2. by apply same_cons.
Qed.

End queue.

(** * Every interleaving *)

Section interleavings.
Context `{CryptoLaws} `{InterruptAnswers}.
Variable pools : list EntropyPool.

Record inv (c : conc) : Prop := {
  inv_pools : pool_inv pools (sh c) (callers c);
  inv_queue : queue_inv (sh c) (prod c);
  inv_consumer : cons_inv (sh c) (callers c)
}.

Lemma inv_start (n : nat) : Forall idle pools -> inv (start pools n).
Proof. intros Hi. destruct (queue_start pools n). split; [by apply pool_start|done|done]. Qed.

Lemma inv_step (l : label) (c c' : conc) : inv c -> step l c c' -> inv c'.
Proof.
  intros [Hp Hq Hc] Hs. destruct Hs as [x pr cs t k op Ht Hk|x pr cs t c sp x' r Ht E|x cs item Hlen|x pr cs x' pr' E]; cbn in *.
  - split; cbn; [|done|].
    + apply (pool_bystander pools x cs t None); [done|done|done|]. by intros c [= <-].
    + apply (cons_bystander x x cs t None); try done. by intros c [= <-].
  - destruct (queue_access sp x x' pr cs t c r Hq Hc Ht E). split; cbn; [by eapply pool_access|done|done].
  - split; cbn; [done| |done]. destruct Hq as [Hl Hh Htl Hg Hpre Hsz Hi Hw Hpr]. split; try done.
    intros i Hr _. by apply Hw.
  - destruct (queue_producer x x' pr pr' cs Hq Hc E). split; cbn; [by eapply pool_producer|done|done].
Qed.

Lemma inv_exec (ls : list label) (c c' : conc) : exec ls c c' -> inv c -> inv c'.
Proof. induction 1 as [|l ls c1 c2 c3 Hs _ IH]; [done|]. intros Hi. apply IH. by eapply inv_step. Qed.

(** ** Conflicts *)

(** The pool whose state, and the slot, that the next access reads or writes. *)
Definition touches_state (c : call) : option nat :=
  match c_stage c with
  | MixRead | MixWrite _ | MixFlush | SnapRead _ _ | CommitWrite _ _ _ | OutFlush _ => Some (c_pool c)
  | _ => None
  end.
Definition touches_slot (c : call) : option nat :=
  match c_stage c with PopRead tail | PopWipe tail _ => Some (idx tail) | _ => None end.
Definition prod_touches (pr : prod_pc) : option nat :=
  match pr with PWrite _ head => Some (idx head) | _ => None end.

(** Two of the parties are about to touch the same plain memory. *)
Inductive race (c : conc) : Prop :=
| race_state t1 t2 c1 c2 k : t1 <> t2 -> callers c !! t1 = Some (Some c1) -> callers c !! t2 = Some (Some c2) ->
    touches_state c1 = Some k -> touches_state c2 = Some k -> race c
| race_slot t1 t2 c1 c2 i : t1 <> t2 -> callers c !! t1 = Some (Some c1) -> callers c !! t2 = Some (Some c2) ->
    touches_slot c1 = Some i -> touches_slot c2 = Some i -> race c
| race_producer t c1 i : callers c !! t = Some (Some c1) -> touches_slot c1 = Some i -> prod_touches (prod c) = Some i ->
    race c.

Lemma touches_owns (c : call) (k : nat) : touches_state c = Some k -> owns c = true /\ c_pool c = k.
Proof. unfold touches_state, owns. destruct (c_stage c); intros [=]; done. Qed.

Lemma touches_consumes (c : call) (i : nat) : touches_slot c = Some i -> consumes c = true.
Proof. unfold touches_slot, consumes. destruct (c_stage c); intros [=]; done. Qed.

Lemma touches_live (x : shared) (c : call) (i : nat) :
  cons_ok x c -> touches_slot c = Some i -> i = idx (popped x) /\ popped x < pushed x.
Proof.
  unfold cons_ok, touches_slot. destruct (c_stage c); try done; intros Hk [= <-].
  - destruct Hk as (-> & Hlt & _). by rewrite slot_wrap.
  - destruct Hk as (-> & Hv & _). rewrite slot_wrap. split; [done|].
    apply lookup_lt_Some in Hv. unfold popped, pushed, zlen in *. lia.
Qed.

Lemma no_race (c : conc) : inv c -> ~ race c.
Proof.
  intros [Hp Hq Hc] [t1 t2 c1 c2 k Hne J1 J2 T1 T2|t1 t2 c1 c2 i Hne J1 J2 T1 T2|t c1 i Ht T1 T2].
  - apply touches_owns in T1 as [O1 E1], T2 as [O2 E2]. apply Hne.
    eapply (pi_excl _ _ _ Hp); eauto. congruence.
  - apply touches_consumes in T1, T2. apply Hne. by eapply (qi_excl _ _ Hc).
  - destruct (qi_cons _ _ Hc t c1 Ht (touches_consumes _ _ T1)) as [_ Hk].
    destruct (touches_live _ _ _ Hk T1) as [-> Hlt]. pose proof (qi_prod _ _ Hq) as Hpr.
    destruct (prod c); try done. destruct Hpr as (_ & -> & Hroom). injection T2 as T2. rewrite slot_wrap in T2.
    symmetry in T2. revert T2. apply slot_apart. lia.
Qed.

(** About to acquire a pool's lock. *)
Definition locking (c : call) : bool :=
  match c_stage c with MixLock _ | SnapLock _ _ _ | CommitLock _ _ _ _ => true | _ => false end.

Lemma lock_is_free (c : conc) (t : nat) (cl : call) (p : EntropyPool) :
  inv c -> callers c !! t = Some (Some cl) -> locking cl = true -> x_pools (sh c) !! c_pool cl = Some p -> locked p = false.
Proof.
  intros [Hp _ _] Ht Hk Hpool. pose proof (pi_local _ _ _ Hp t cl Ht) as Hl. unfold local_ok in Hl.
  assert (Ho : owns cl = true) by (unfold owns, locking in *; by destruct (c_stage cl)). rewrite Ho in Hl.
  destruct Hl as (p' & pb & Hp' & _ & Hh & _). assert (p' = p) as -> by congruence. rewrite (h_locked _ _ _ Hh).
  unfold locking in Hk. by destruct (c_stage cl).
Qed.

(** Between calls everything is free. *)
Lemma quiescent (c : conc) :
  inv c -> Forall (eq None) (callers c) -> x_gate (sh c) = false /\ Forall idle (x_pools (sh c)).
Proof.
  intros [Hp _ Hc] Hn. assert (Hno : forall t cl, callers c !! t <> Some (Some cl)).
  { intros t cl Ht. by pose proof (Forall_lookup_1 _ _ _ _ Hn Ht). }
  split.
  - destruct (x_gate (sh c)) eqn:Eg; [|done]. destruct (qi_held _ _ Hc Eg) as (t & cl & Ht & _). by destruct (Hno t cl).
  - apply Forall_lookup_2. intros k p Hk. destruct (mixing p) eqn:Em.
    + destruct (pi_held _ _ _ Hp k p Hk Em) as (t & cl & Ht & _). by destruct (Hno t cl).
    + by destruct (pi_free _ _ _ Hp k p Hk Em) as [[Hi _] _].
Qed.

(** ** Progress *)

(** Own accesses a call still has to make if no weak exchange fails: after the mixing,
    from the head of the output loop, and in all. *)
Definition rest (op : operation) : nat :=
  match op with OMix => 1 | OExtract out => 6 * blocks_for (length out) + 3 end.
Definition round_left (offset : nat) (out : list byte) : nat := (6 * blocks_for (length out - offset) + 2)%nat.

Definition left (c : call) : nat :=
  let r := rest (c_op c) in
  let pops := (5 * (8 - length (c_taken c)))%nat in
  match c_stage c with
  | TryPool => r + 49
  | TryQueue => r + 48
  | PopTail => pops + r + 7
  | PopHead _ => pops + r + 6
  | PopRead _ => pops + r + 5
  | PopWipe _ _ => pops + r + 4
  | PopPublish _ _ => pops + r + 3
  | MixLock spin => r + 7 + Nat.b2n spin
  | MixRead => r + 6
  | MixWrite _ => r + 5
  | MixUnlock => r + 4
  | MixFlush => r + 3
  | MixCount => r + 2
  | ReleaseQueue => r + 1
  | LoadCount => r
  | SnapLock spin offset out => round_left offset out + Nat.b2n spin
  | SnapRead offset out => round_left offset out - 1
  | SnapUnlock offset out _ => round_left offset out - 2
  | CommitLock spin offset out _ => round_left offset out - 3 + Nat.b2n spin
  | CommitWrite offset out _ => round_left offset out - 4
  | CommitUnlock offset out => round_left offset out - 5
  | OutFlush _ => 2
  | ReleasePool _ => 1
  end.

(** The accesses of a whole call. *)
Definition call_bound (op : operation) : nat :=
  match op with OMix => 50 | OExtract out => 6 * blocks_for (length out) + 52 end.

Definition left_of (oc : option call) : nat := match oc with Some c => left c | None => 0 end.

Lemma left_bound (k : nat) (op : operation) : left (MkCall k op [] TryPool) = call_bound op.
Proof. destruct op; cbn -[Nat.mul]; lia. Qed.

Lemma round_left_ok (offset : nat) (out : list byte) (c : call) :
  (left (at_stage (round offset out) c) <= round_left offset out)%nat.
Proof. unfold round. destruct (Nat.leb_spec (length out) offset); cbn -[Nat.mul]; unfold round_left; lia. Qed.

Lemma mixed_left (c : call) : (left (at_stage (after_mixing (c_op c)) c) <= rest (c_op c))%nat.
Proof. destruct c as [k [] tk st]; cbn -[Nat.mul]; lia. Qed.

Lemma loop_left (c : call) : (left (at_stage (after_loop c) c) <= rest (c_op c) + 7)%nat.
Proof. destruct c as [k op [] st]; cbn -[Nat.mul]; lia. Qed.

Lemma round_left_step (offset : nat) (out : list byte) :
  (offset < length out)%nat -> (round_left (offset + copy_len offset out) out + 6 = round_left offset out)%nat.
Proof.
  intros Hlt. unfold round_left, copy_len. rewrite (blocks_for_step (length out - offset)) by lia.
  replace (length out - (offset + Nat.min 48 (length out - offset)))%nat
    with (length out - offset - Nat.min 48 (length out - offset))%nat by lia. lia.
Qed.

Lemma round_left_large (offset : nat) (out : list byte) :
  (offset < length out)%nat -> (8 <= round_left offset out)%nat.
Proof. intros Hlt. pose proof (round_left_step offset out Hlt). unfold round_left in *. lia. Qed.

(** One access brings the call closer to its end; a weak exchange that fails without
    reason costs one look at the flag. *)
Definition closer (sp : bool) (c : call) (r : call + answer) : Prop :=
  (left_of (running r) + 1 <= left c + if sp then 2 else 0)%nat.

Lemma attempt_closer (sp : bool) (x : shared) (c : call) (p : EntropyPool) (spin : bool) (retry : bool -> stage)
    (won : stage) :
  locked p = false -> c_stage c = retry spin ->
  (forall b, left (at_stage (retry b) c) = left (at_stage (retry false) c) + Nat.b2n b)%nat ->
  (left (at_stage won c) + 1 <= left (at_stage (retry false) c))%nat ->
  closer sp c (attempt sp p spin retry won x c).2.
Proof.
  intros Hl Es Hr Hw. unfold closer, attempt. rewrite Hl.
  assert (Ec : left c = (left (at_stage (retry false) c) + Nat.b2n spin)%nat).
  { rewrite <- Hr, <- Es. by destruct c. }
  rewrite Ec. destruct spin; [|destruct sp]; cbn [orb snd running left_of Nat.b2n].
  - destruct sp; lia.
  - rewrite (Hr true). cbn. lia.
  - lia.
Qed.

Lemma owner_closer (sp : bool) (x x' : shared) (c : call) (r : call + answer) (p pb : EntropyPool) :
  x_pools x !! c_pool c = Some p -> holder_ok pb p c -> next_access sp x c = Some (x', r) -> closer sp c r.
Proof.
  intros Hp [Hm Hl Hn Hg] E. unfold next_access in E. rewrite Hp in E. cbn [mbind option_bind] in E.
  assert (Hgoal : (left_of (running r) < left c)%nat -> closer sp c r) by (unfold closer; lia).
  pose proof (mixed_left c) as Hml. pose proof (loop_left c) as Hll. unfold progress, MAX_MIX_CHUNKS_PER_CALL in *.
  destruct c as [k op tk st]. cbn [c_stage c_op c_pool c_taken] in *. destruct st; cbn [in_lock] in Hl.
  all: try (injection E as <- <-; apply Hgoal; cbn -[Nat.mul Nat.sub]; try lia; fail).
  - done.
  - apply Hgoal. destruct Hg as [-> _]. destruct (x_gate x); injection E as <- <-; cbn [running left_of left c_stage c_op c_taken at_stage length]; lia.
  - apply Hgoal. destruct (x_head x =? tail); injection E as <- <-; cbn [running left_of]; [|cbn -[Nat.mul Nat.sub]; lia].
    cbn [left c_stage c_op c_taken]. lia.
  - apply bind_Some in E as (item & _ & E). injection E as <- <-. apply Hgoal. cbn -[Nat.mul Nat.sub]. lia.
  - pose proof (loop_left (add_taken item (MkCall k op tk (PopPublish tail item)))) as Hl2. injection E as <- <-. apply Hgoal.
    cbn [running left_of]. cbn [c_op add_taken] in Hl2.
    case_match; [cbn -[Nat.mul Nat.sub]; rewrite length_app; cbn -[Nat.mul Nat.sub]; lia|]. cbn [left c_stage c_op c_taken]. lia.
  - injection E as E. pose proof (attempt_closer sp x (MkCall k op tk (MixLock spin)) p spin MixLock MixRead Hl eq_refl) as Ha.
    rewrite E in Ha. apply Ha; [intros []|]; cbn -[Nat.mul]; lia.
  - destruct Hg as [_ [out ->]]. apply Hgoal.
    pose proof (round_left_ok 0 out (MkCall k (OExtract out) tk LoadCount)) as Hr. unfold round_left in Hr.
    rewrite Nat.sub_0_r in Hr. destruct (_ =? 0); injection E as <- <-; [cbn -[Nat.mul]; lia|].
    cbn [running left_of]. unfold left at 2. cbn [c_stage c_op rest]. lia.
  - pose proof (round_left_large offset out (proj1 Hg)).
    injection E as E. pose proof (attempt_closer sp x (MkCall k op tk (SnapLock spin offset out)) p spin
      (fun b => SnapLock b offset out) (SnapRead offset out) Hl eq_refl) as Ha.
    rewrite E in Ha. apply Ha; [intros []|]; cbn -[Nat.mul round_left]; lia.
  - pose proof (round_left_large offset out (proj1 Hg)). injection E as <- <-. apply Hgoal. cbn -[Nat.mul round_left]. lia.
  - destruct Hg as (Hlt & Hf & ->). pose proof (round_left_large offset out Hlt).
    destruct (finishing_round pb p _ offset out (data p) Hlt Hf) as [Hlen _]. injection E as <- <-. apply Hgoal.
    cbn -[Nat.mul round_left copy_len sha384_digest app]. unfold round_left in *.
    change (output_block (data p)) with (sha384_digest (x00 :: data p)) in Hlen. rewrite Hlen. lia.
  - pose proof (round_left_large offset out (proj1 Hg)).
    injection E as E. pose proof (attempt_closer sp x (MkCall k op tk (CommitLock spin offset out state_result)) p spin
      (fun b => CommitLock b offset out state_result) (CommitWrite offset out state_result) Hl eq_refl) as Ha.
    rewrite E in Ha. apply Ha; [intros []|]; cbn -[Nat.mul round_left]; lia.
  - pose proof (round_left_large offset out (proj1 Hg)). injection E as <- <-. apply Hgoal. cbn -[Nat.mul round_left]. lia.
  - destruct Hg as [Hlt _]. pose proof (round_left_step offset out Hlt). injection E as <- <-. apply Hgoal.
    pose proof (round_left_ok (offset + copy_len offset out) out (MkCall k op tk (CommitUnlock offset out))).
    cbn [running left_of]. unfold left at 2. cbn [c_stage]. lia.
Qed.

(** ** Executions *)

Lemma access_closer (c : conc) (t : nat) (cl : call) (sp : bool) (x' : shared) (r : call + answer) :
  inv c -> callers c !! t = Some (Some cl) -> next_access sp (sh c) cl = Some (x', r) -> closer sp cl r.
Proof.
  intros [Hp _ _] Ht E. pose proof (pi_local _ _ _ Hp t cl Ht) as Hl. unfold local_ok in Hl. destruct (owns cl) eqn:Ho.
  - destruct Hl as (p & pb & Hpool & _ & Hh & _). by eapply owner_closer.
  - destruct Hl as [Et _]. unfold owns in Ho. unfold next_access in E. apply bind_Some in E as (p & _ & E).
    destruct cl as [k op tk st]. cbn [c_stage c_taken] in *. subst tk. destruct st; try discriminate Ho.
    unfold closer. rewrite left_bound. destruct (mixing p); injection E as <- <-; cbn -[Nat.mul]; destruct op; cbn -[Nat.mul]; lia.
Qed.

(** A caller in a call can always make its next access. *)
Lemma access_enabled (c : conc) (t : nat) (cl : call) (sp : bool) :
  inv c -> callers c !! t = Some (Some cl) -> is_Some (next_access sp (sh c) cl).
Proof.
  intros [Hp Hq Hc] Ht. pose proof (pi_local _ _ _ Hp t cl Ht) as Hl. unfold local_ok in Hl.
  assert (Hpool : is_Some (x_pools (sh c) !! c_pool cl)).
  { destruct (owns cl); [|by apply lookup_lt_is_Some, Hl]. destruct Hl as (p & _ & -> & _). by eexists. }
  destruct Hpool as [p Hpool]. unfold next_access. rewrite Hpool. cbn [mbind option_bind]. unfold owns in Hl.
  destruct (c_stage cl) eqn:Es; try (by eexists); try (case_match; by eexists).
  - destruct (lookup_lt_is_Some_2 (x_slots (sh c)) (idx tail)) as [item ->]; [|by eexists].
    rewrite (qi_len _ _ Hq). apply idx_lt.
  - destruct Hl as (p' & pb & _ & _ & Hh & _). pose proof (h_progress _ _ _ Hh) as Hg. unfold progress in Hg.
    rewrite Es in Hg. destruct Hg as [_ [out ->]]. case_match; by eexists.
Qed.

Fixpoint accesses (t : nat) (ls : list label) : nat :=
  match ls with
  | [] => 0
  | LAccess t' _ :: ls => (if decide (t' = t) then 1 else 0) + accesses t ls
  | _ :: ls => accesses t ls
  end.

(** Weak exchanges of the caller that failed without reason. *)
Fixpoint failures (t : nat) (ls : list label) : nat :=
  match ls with
  | [] => 0
  | LAccess t' true :: ls => (if decide (t' = t) then 1 else 0) + failures t ls
  | _ :: ls => failures t ls
  end.

Definition call_of (t : nat) (c : conc) : option call := mjoin (callers c !! t).

Lemma step_left (t : nat) (l : label) (c c' : conc) :
  inv c -> step l c c' -> l <> LCall t ->
  (accesses t [l] + left_of (call_of t c') <= left_of (call_of t c) + 2 * failures t [l])%nat.
Proof.
  intros Hi Hs Hl. unfold call_of.
  assert (Hother : forall (cs : list (option call)) t' o, t' <> t -> mjoin (<[t' := o]> cs !! t) = mjoin (cs !! t)).
  { intros cs t' o Hne. by rewrite list_lookup_insert_ne. }
  destruct Hs as [x pr cs t' k op Ht Hk|x pr cs t' cl sp x' r Ht E|x cs item Hlen|x pr cs x' pr' E]; cbn [callers accesses failures].
  - rewrite Hother; [lia|congruence].
  - pose proof (access_closer _ t' cl sp x' r Hi Ht E) as Hc. unfold closer in Hc. destruct (decide (t' = t)) as [->|Hne].
    + rewrite list_lookup_insert_eq by (by eapply lookup_lt_Some). rewrite Ht. cbn [mjoin option_join left_of].
      destruct sp; cbn; lia.
    + rewrite Hother by done. destruct sp; lia.
  - lia.
  - lia.
Qed.

Lemma exec_left (t : nat) (ls : list label) (c c' : conc) :
  exec ls c c' -> inv c -> LCall t ∉ ls ->
  (accesses t ls + left_of (call_of t c') <= left_of (call_of t c) + 2 * failures t ls)%nat.
Proof.
  assert (Hcons : forall l ls', accesses t (l :: ls') = (accesses t [l] + accesses t ls')%nat /\
    failures t (l :: ls') = (failures t [l] + failures t ls')%nat).
  { intros [|t' []| |] ls'; cbn; lia. }
  induction 1 as [|l ls c1 c2 c3 Hs _ IH]; intros Hi Hn; [cbn; lia|].
  apply not_elem_of_cons in Hn as [Hl Hn]. pose proof (step_left t l c1 c2 Hi Hs (not_eq_sym Hl)) as Hsl.
  pose proof (IH (inv_step l c1 c2 Hi Hs) Hn). destruct (Hcons l ls) as [-> ->]. lia.
Qed.

End interleavings.

(** * Schedules *)

Section schedules.
Context `{CryptoOps}.

Inductive action : Type :=
| DoCall (t k : nat) (op : operation)
| DoAccess (t : nat) (spurious : bool)
| DoPush (item : list byte)
| DoProducer.

Definition label_of (a : action) : label :=
  match a with DoCall t _ _ => LCall t | DoAccess t sp => LAccess t sp | DoPush _ => LPush | DoProducer => LProducer end.

Definition fire (a : action) (c : conc) : option conc :=
  match a with
  | DoCall t k op =>
      match callers c !! t with
      | Some None =>
          if (k <? length (x_pools (sh c)))%nat
          then Some (MkConc (sh c) (prod c) (<[t := Some (MkCall k op [] TryPool)]> (callers c))) else None
      | _ => None
      end
  | DoAccess t sp =>
      match callers c !! t with
      | Some (Some cl) =>
          r ← next_access sp (sh c) cl; Some (MkConc r.1 (prod c) (<[t := running r.2]> (callers c)))
      | _ => None
      end
  | DoPush item =>
      match prod c with
      | PIdle => if (length item =? EQ.ENTROPY_CHUNK_SIZE)%nat then Some (MkConc (sh c) (PLoadHead item) (callers c)) else None
      | _ => None
      end
  | DoProducer => r ← prod_next (sh c) (prod c); Some (MkConc r.1 r.2 (callers c))
  end.

Fixpoint drive (acts : list action) (c : conc) : option conc :=
  match acts with [] => Some c | a :: acts => c' ← fire a c; drive acts c' end.

Lemma fire_step (a : action) (c c' : conc) : fire a c = Some c' -> step (label_of a) c c'.
Proof.
  destruct c as [x pr cs]. destruct a as [t k op|t sp|item|]; cbn [fire callers sh prod label_of]; intros E.
  - destruct (cs !! t) as [[|]|] eqn:Et; try done. destruct (Nat.ltb_spec k (length (x_pools x))); [|done].
    injection E as <-. by constructor.
  - destruct (cs !! t) as [[cl|]|] eqn:Et; try done. apply bind_Some in E as ([x' r] & En & E). injection E as <-.
    by eapply step_access.
  - destruct pr; try done. destruct (Nat.eqb_spec (length item) EQ.ENTROPY_CHUNK_SIZE); [|done]. injection E as <-.
    by constructor.
  - apply bind_Some in E as ([x' pr'] & En & E). injection E as <-. by constructor.
Qed.

Lemma drive_exec (acts : list action) (c c' : conc) : drive acts c = Some c' -> exec (label_of <$> acts) c c'.
Proof.
  revert c. induction acts as [|a acts IH]; intros c E; cbn in *; [injection E as <-; constructor|].
  apply bind_Some in E as (c1 & E1 & E). eapply exec_cons; [by apply fire_step|by apply IH].
Qed.

End schedules.

(** * Claims *)

(** C18: the entropy pools under every interleaving of any number of callers on any
    number of pools with the host producer. Each pool is as if the calls that owned it
    had run the sequential code one after the other, in the order in which they gave it
    up, each with the answer it got and the chunks it took. Chunks are taken in the
    order they were pushed, each by one pool, none lost or repeated, at most 64 wait, and
    a slot that holds no waiting chunk is wiped. No two parties touch the same plain
    memory, a caller that reaches the lock finds it free, and when nobody is in a call
    both gates and the locks are free. *)
Theorem entropy_interleaved_serial `{CryptoLaws} `{InterruptAnswers} (pools : list EntropyPool) (n : nat)
    (ls : list label) (c : conc) :
  Forall idle pools -> exec ls (start pools n) c ->
  let x := sh c in
  (forall k p0 p, pools !! k = Some p0 -> x_pools x !! k = Some p -> mixing p = false ->
     serial (log_of k x) p0 p /\ chunks_of k x = concat (e_taken <$> log_of k x)) /\
  (snd <$> g_popped x) `prefix_of` g_pushed x /\ popped x <= pushed x <= popped x + 64 /\
  (prod c = PIdle -> forall i, pushed x <= i < popped x + 64 -> x_slots x !! idx i = Some (zeros 32)) /\
  ~ race c /\
  (forall t cl p, callers c !! t = Some (Some cl) -> locking cl = true -> x_pools x !! c_pool cl = Some p ->
     locked p = false) /\
  (Forall (eq None) (callers c) -> x_gate x = false /\ Forall idle (x_pools x)).
Proof.
  intros Hp He x. assert (Hi : inv pools c) by (eapply inv_exec; [exact He|by apply inv_start]).
  pose proof (inv_queue _ _ Hi) as Hq. split_and!.
  - intros k p0 p Hp0 Hpk Hm. destruct (pi_free _ _ _ (inv_pools _ _ Hi) k p Hpk Hm) as [[_ (q0 & Hq0 & Hs)] Hf].
    unfold fed in Hf. rewrite app_nil_r in Hf. split; [|done].
    assert (q0 = p0) as -> by congruence. exact Hs.
  - apply Hq.
  - exact (proj1 (qi_gap _ _ Hq)).
  - exact (proj2 (qi_gap _ _ Hq)).
  - intros Hidle i Hr. apply (qi_wiped _ _ Hq); [done|]. intros _ item hd. by rewrite Hidle.
  - by eapply no_race.
  - intros t cl p. by apply (lock_is_free pools).
  - by apply (quiescent pools).
Qed.

(** C39: entropy calls are wait-free. A call returns within 50 own accesses, or 52 and six
    for each output block, plus two for each weak exchange that fails without reason,
    whatever the other callers and the producer do, also when they stop for good in the
    middle of a call: so a callback or an interrupt handler that calls in cannot
    deadlock. At every point before, the next access is possible. *)
Theorem entropy_wait_free `{CryptoLaws} `{InterruptAnswers} (pools : list EntropyPool) (n t k : nat) (op : operation)
    (ls ls' : list label) (c c' : conc) :
  Forall idle pools -> exec ls (start pools n) c -> callers c !! t = Some (Some (MkCall k op [] TryPool)) ->
  exec ls' c c' -> LCall t ∉ ls' ->
  (accesses t ls' <= call_bound op + 2 * failures t ls')%nat /\
  (forall cl sp, callers c' !! t = Some (Some cl) -> exists c'', step (LAccess t sp) c' c'').
Proof.
  intros Hp He Ht He' Hn. assert (Hi : inv pools c) by (eapply inv_exec; [exact He|by apply inv_start]).
  split.
  - pose proof (exec_left pools t ls' c c' He' Hi Hn) as Hl. unfold call_of at 2 in Hl. rewrite Ht in Hl.
    cbn [mjoin option_join left_of] in Hl. rewrite left_bound in Hl. lia.
  - intros cl sp Hc. destruct (access_enabled pools c' t cl sp (inv_exec pools ls' c c' He' Hi) Hc) as [[x' r] E].
    destruct c' as [x pr cs]. eexists. by eapply step_access.
Qed.

(** ** Witnesses *)

#[local] Existing Instance sample_answers.

(** A chunk is pushed. Caller 0 mixes it into pool 0 and meanwhile caller 1 is told that
    this pool is busy, and caller 2, who finds the queue taken, that pool 1 was never
    seeded; one weak exchange of caller 0 fails. *)
Definition sample_opening : list action :=
  DoPush (replicate 32 x07) :: replicate 4 DoProducer ++
  DoCall 0 0 OMix :: replicate 2 (DoAccess 0 false) ++
  DoCall 1 0 (OExtract [x01]) :: DoAccess 1 false ::
  DoCall 2 1 (OExtract (zeros 5)) :: replicate 4 (DoAccess 2 false) ++
  replicate 7 (DoAccess 0 false) ++ DoAccess 0 true :: replicate 9 (DoAccess 0 false) ++
  [DoCall 1 0 (OExtract (zeros 100))].

(** Caller 1 then gets 100 bytes of pool 0, while the next chunk comes in. *)
Definition sample_rest : list action :=
  replicate 5 (DoAccess 1 false) ++ DoPush (replicate 32 x09) :: replicate 3 DoProducer ++
  replicate 21 (DoAccess 1 false).

Definition sample_start : conc := start [new; new] 3.
Definition sample_mid : conc := default sample_start (drive sample_opening sample_start).
Definition sample_end : conc := default sample_start (drive sample_rest sample_mid).

Lemma sample_idle : Forall idle [new; new].
Proof. repeat constructor. Qed.

Lemma entropy_interleaved_serial_witness :
  map fst (g_log (sh sample_end)) = [1%nat; 0%nat; 0%nat] /\
  exists p, x_pools (sh sample_end) !! 0%nat = Some p /\ serial (log_of 0 (sh sample_end)) new p.
Proof.
  assert (E : drive (sample_opening ++ sample_rest) sample_start = Some sample_end) by (vm_compute; reflexivity).
  destruct (entropy_interleaved_serial [new; new] 3 _ sample_end sample_idle (drive_exec _ _ _ E)) as [Hs _].
  assert (Ep : x_pools (sh sample_end) !! 0%nat = Some (default new (x_pools (sh sample_end) !! 0%nat)))
    by (vm_compute; reflexivity).
  assert (Em : mixing (default new (x_pools (sh sample_end) !! 0%nat)) = false) by (vm_compute; reflexivity).
  split; [vm_compute; reflexivity|]. eexists. split; [exact Ep|]. exact (proj1 (Hs 0%nat new _ eq_refl Ep Em)).
Defined.

Lemma entropy_wait_free_witness :
  callers sample_end !! 1%nat = Some None /\ (accesses 1 (label_of <$> sample_rest) <= 70)%nat.
Proof.
  assert (E1 : drive sample_opening sample_start = Some sample_mid) by (vm_compute; reflexivity).
  assert (E2 : drive sample_rest sample_mid = Some sample_end) by (vm_compute; reflexivity).
  assert (Hn : LCall 1 ∉ (label_of <$> sample_rest)) by (apply (bool_decide_unpack _); vm_compute; exact I).
  destruct (entropy_wait_free [new; new] 3 1 0 (OExtract (zeros 100)) _ _ sample_mid sample_end sample_idle
    (drive_exec _ _ _ E1) ltac:(vm_compute; reflexivity) (drive_exec _ _ _ E2) Hn) as [Hb _].
  split; [vm_compute; reflexivity|exact Hb].
Defined.

End EConc.
