(* ===== verification/CryptoTypes.v ===== *)
(** The C-visible types of shawncore-pq-crypto: the opaque handles the entry points of
    ffi.rs place in the host's memory, their layout, and the machine those entry points
    run on. *)

From Stdlib Require Import Eqdep_dec.
From stdpp Require Import gmap.
From S2P Require Import Prelude CMemory CryptoHost Primitives Session EntropyQueue EntropyPool.
Local Open Scope Z_scope.

(** * Handles *)

(** One constructor per handle type. *)
Inductive kind : Type :=
| KSession
| KPublicKey1024 | KDecapsKey1024 | KSharedKey1024 | KCiphertext1024
| KPublicKey87 | KSigningKey87 | KSignature87
| KX25519Public | KX25519Secret | KX25519SharedSecret.

#[export] Instance kind_eq_dec : EqDecision kind.
Proof. solve_decision. Defined.

(** Size and alignment of the types whose layout the source does not fix: the keys of
    the ml-kem and ml-dsa crates, and [SessionManager], which the compiler lays out. *)
Class CryptoLayout : Type := {
  encapsulation_key_layout : Z * Z;
  decapsulation_key_layout : Z * Z;
  verifying_key_layout : Z * Z;
  signing_key_layout : Z * Z;
  session_layout : Z * Z
}.

(** What Rust promises of every layout with content. *)
Definition layout_ok (l : Z * Z) : Prop := 0 < l.1 /\ 0 < l.2.

Class CryptoLayoutLaws `{CryptoLayout} : Prop := {
  layouts_ok : Forall layout_ok [encapsulation_key_layout; decapsulation_key_layout;
    verifying_key_layout; signing_key_layout; session_layout]
}.

Section types.
Context `{CryptoOps} `{CryptoLayout}.

Definition payload (k : kind) : Type :=
  match k with
  | KSession => Sess.SessionManager
  | KPublicKey1024 => PublicKey1024
  | KDecapsKey1024 => DecapsKey1024
  | KSharedKey1024 => SharedKey1024
  | KCiphertext1024 => Ciphertext1024
  | KPublicKey87 => PublicKey87
  | KSigningKey87 => SigningKey87
  | KSignature87 => Signature87
  | KX25519Public => X25519Public
  | KX25519Secret => X25519Secret
  | KX25519SharedSecret => X25519SharedSecret
  end.

(** [#[repr(C, align(64))]] around one field *)
Definition newtype_size (field : Z * Z) : Z := repr_C (Z.max 64 field.2) [field].
Definition newtype_align (field : Z * Z) : Z := Z.max 64 field.2.

(** The single field of each wrapper. *)
Definition field_of (k : kind) : Z * Z :=
  match k with
  | KSession => session_layout
  | KPublicKey1024 => encapsulation_key_layout
  | KDecapsKey1024 => decapsulation_key_layout
  | KPublicKey87 => verifying_key_layout
  | KSigningKey87 => signing_key_layout
  | KCiphertext1024 => (1568, 1)
  | KSignature87 => (4627, 1)
  | KSharedKey1024 | KX25519Public | KX25519Secret | KX25519SharedSecret => (32, 1)
  end.

(** [core::mem::size_of], [core::mem::align_of] *)
Definition size_of (k : kind) : Z :=
  match k with KSession => session_layout.1 | _ => newtype_size (field_of k) end.
Definition align_of (k : kind) : Z :=
  match k with KSession => session_layout.2 | _ => newtype_align (field_of k) end.

(** A value with its type, and a value of a given type. *)
Record value : Type := MkValue { vkind : kind; vcontent : payload vkind }.
Record handle (k : kind) : Type := MkHandle { content : payload k }.
#[global] Arguments MkHandle {k}.
#[global] Arguments content {k}.

#[global] Instance crypto_universe : Universe value :=
  {| extent v := size_of (vkind v); alignment v := align_of (vkind v) |}.

Definition open_as (k : kind) (v : value) : option (handle k) :=
  match decide (vkind v = k) with
  | left e => Some (MkHandle (eq_rect _ payload (vcontent v) _ e))
  | right _ => None
  end.

#[global] Instance ct_handle (k : kind) : CType value (handle k).
Proof.
  refine {| wrap h := MkValue k (content h); unwrap := open_as k;
            csize := size_of k; calign := align_of k |}; try done.
  - intros [x]. unfold open_as. cbn. destruct decide as [e|]; [|done].
    by rewrite (UIP_dec kind_eq_dec e eq_refl).
  - intros [k' c] [x]. unfold open_as. cbn. destruct decide as [e|]; [|done].
    destruct e. cbn. by intros [= <-].
Defined.

(** * Machine *)

(** The host's memory; the process-wide entropy pool, its queue and gate, and the
    platform callbacks. *)
Record machine : Type := MkMachine {
  mem : cmem value;
  globals : Pool.world
}.

Definition platform (w : machine) : CHost := Pool.ch (globals w).
Definition set_mem (m : cmem value) (w : machine) : machine := MkMachine m (globals w).
Definition set_globals (g : Pool.world) (w : machine) : machine := MkMachine (mem w) g.
Definition set_platform (h : CHost) (w : machine) : machine :=
  MkMachine (mem w) (Pool.set_ch h (globals w)).

Definition on_mem {A} (m : M (cmem value) A) : M machine A := zoom mem set_mem m.
Definition on_globals {A} (m : M Pool.world A) : M machine A := zoom globals set_globals m.
Definition on_platform {A} (m : M CHost A) : M machine A := zoom platform set_platform m.

(** [&*p] on a handle, and [core::ptr::write]. *)
Definition load (k : kind) (p : Z) : M machine (payload k) :=
  h ← on_mem (ptr_read (T := handle k) p); mret (content h).
Definition store (k : kind) (p : Z) (x : payload k) : M machine unit :=
  on_mem (ptr_write p (MkHandle (k := k) x)).

(** [&*(p as *const [u8; n])], a slice that is formed only when it is not empty, and
    stores through such references. *)
Definition array (p : Z) (n : nat) : M machine (list byte) := on_mem (read_bytes p n).
Definition slice_at (p len : Z) : M machine (list byte) :=
  if 0 <? len then array p (Z.to_nat len) else mret [].
Definition fill (p : Z) (l : list byte) : M machine unit := on_mem (modify (put_bytes p l)).

(** [core::ptr::write] of an array, [copy_nonoverlapping]. *)
Definition copy_out (p : Z) (l : list byte) : M machine unit := on_mem (write_bytes p l).

(** A method of the session at [p]. *)
Definition session_view (s : Sess.SessionManager) (w : machine) : Sess.world := Sess.MkWorld s (platform w).
Definition session_back (p : Z) (v : Sess.world) (w : machine) : machine :=
  set_platform (Sess.ch v) (set_mem (put_object p (MkValue KSession (Sess.sm v)) (mem w)) w).
Definition with_session {A} (p : Z) (op : M Sess.world A) : M machine A :=
  s ← load KSession p;
  zoom (session_view s) (session_back p) op.

End types.

(** A layout for concrete runs. *)
#[export] Instance sample_layout : CryptoLayout := {|
  encapsulation_key_layout := (3168, 8);
  decapsulation_key_layout := (6400, 8);
  verifying_key_layout := (2592, 8);
  signing_key_layout := (4896, 8);
  session_layout := (7040, 64)
|}.

#[export] Instance sample_layout_laws : CryptoLayoutLaws.
Proof. split. repeat constructor. Qed.
