(* ===== verification/CryptoFfi.v ===== *)
(** The C entry points of shawncore-pq-crypto, ffi.rs.

    Each [shawncore_crypto_*] definition is the function of that name: its argument
    checks in the order of the source, the dereferences, the Rust call and the writes
    back. A call that never returns (no cache-flush callback) ends in [Halted]; the
    buffers are written when the Rust call returns. *)

From stdpp Require Import gmap.
From S2P Require Import Prelude CMemory CryptoHost Primitives Aead AuthEncoding Session Handshake AuthSession.
From S2P Require Import EntropyQueue EntropyPool CryptoTypes.
Local Open Scope Z_scope.

Module CryptoC.

(** * Argument checks *)

Definition is_null (p : Z) : bool := p =? 0.

(** Largest length a slice may have, and what the transcript's length prefix holds. *)
Definition MAX_SLICE_LEN : Z := 2 ^ 63 - 1.
Definition MAX_APP_INFO_LEN : Z := u32_max.

Definition slice_len_valid (len : Z) : bool := len <=? MAX_SLICE_LEN.

Definition range_ok (ptr len : Z) : bool :=
  slice_len_valid len && ((len =? 0) || bool_decide (is_Some (checked_add 64 ptr len))).

Definition packet_len_valid (len : Z) : bool := slice_len_valid len && (len <=? CHACHA20_MAX_BYTES).

Definition ranges_overlap (first first_len second second_len : Z) : bool :=
  if (first_len =? 0) || (second_len =? 0) then false else
  match checked_add 64 first first_len with
  | None => true
  | Some first_end =>
      match checked_add 64 second second_len with
      | None => true
      | Some second_end => (first <? second_end) && (second <? first_end)
      end
  end.

(** The two nested loops over [(address, length, writable)]. *)
Fixpoint overlaps_later (r : Z * Z * bool) (later : list (Z * Z * bool)) : bool :=
  match later with
  | [] => false
  | (second, second_len, second_mut) :: rest =>
      let '(first, first_len, first_mut) := r in
      if (first_mut || second_mut) && (0 <? first_len) && (0 <? second_len)
         && ranges_overlap first first_len second second_len
      then true else overlaps_later r rest
  end.

Fixpoint writable_regions_overlap (regions : list (Z * Z * bool)) : bool :=
  match regions with
  | [] => false
  | r :: rest => if overlaps_later r rest then true else writable_regions_overlap rest
  end.

Definition aead_encrypt_buffers_overlap
    (enc_key mac_key nonce aad aad_len plaintext ciphertext out_mac data_len : Z) : bool :=
  ranges_overlap ciphertext data_len enc_key 32
  || ranges_overlap ciphertext data_len mac_key 32
  || ranges_overlap ciphertext data_len nonce 12
  || ranges_overlap ciphertext data_len aad aad_len
  || ranges_overlap ciphertext data_len plaintext data_len
  || ranges_overlap out_mac 48 enc_key 32
  || ranges_overlap out_mac 48 mac_key 32
  || ranges_overlap out_mac 48 nonce 12
  || ranges_overlap out_mac 48 aad aad_len
  || ranges_overlap out_mac 48 plaintext data_len
  || ranges_overlap out_mac 48 ciphertext data_len.

Definition aead_decrypt_buffers_overlap
    (enc_key mac_key nonce aad aad_len ciphertext mac plaintext data_len : Z) : bool :=
  ranges_overlap plaintext data_len enc_key 32
  || ranges_overlap plaintext data_len mac_key 32
  || ranges_overlap plaintext data_len nonce 12
  || ranges_overlap plaintext data_len aad aad_len
  || ranges_overlap plaintext data_len ciphertext data_len
  || ranges_overlap plaintext data_len mac 48.

(** What a method's answer becomes on the C side. *)
Definition code_of {A} (r : result A CryptoError) : ShawncoreCryptoErr :=
  match r with Ok _ => CSuccess | Err e => crypto_of_error e end.

Section entry_points.
Context `{CryptoOps} `{CryptoLayout} `{InterruptAnswers}.

Definition ptr_is_aligned (k : kind) (p : Z) : bool := is_multiple_of p (align_of k).

Definition session_encrypt_buffers_overlap
    (manager aad aad_len plaintext ciphertext data_len out_nonce out_tag : Z) : bool :=
  let manager_size := size_of KSession in
  ranges_overlap manager manager_size aad aad_len
  || ranges_overlap manager manager_size plaintext data_len
  || ranges_overlap manager manager_size ciphertext data_len
  || ranges_overlap manager manager_size out_nonce 12
  || ranges_overlap manager manager_size out_tag 48
  || ranges_overlap ciphertext data_len aad aad_len
  || ranges_overlap ciphertext data_len plaintext data_len
  || ranges_overlap ciphertext data_len out_nonce 12
  || ranges_overlap ciphertext data_len out_tag 48
  || ranges_overlap out_nonce 12 aad aad_len
  || ranges_overlap out_nonce 12 plaintext data_len
  || ranges_overlap out_nonce 12 out_tag 48
  || ranges_overlap out_tag 48 aad aad_len
  || ranges_overlap out_tag 48 plaintext data_len.

Definition session_decrypt_buffers_overlap
    (manager aad aad_len ciphertext data_len nonce tag plaintext : Z) : bool :=
  let manager_size := size_of KSession in
  ranges_overlap manager manager_size aad aad_len
  || ranges_overlap manager manager_size ciphertext data_len
  || ranges_overlap manager manager_size nonce 12
  || ranges_overlap manager manager_size tag 48
  || ranges_overlap manager manager_size plaintext data_len
  || ranges_overlap plaintext data_len aad aad_len
  || ranges_overlap plaintext data_len ciphertext data_len
  || ranges_overlap plaintext data_len nonce 12
  || ranges_overlap plaintext data_len tag 48.

(** * Layout queries *)

Definition shawncore_crypto_ml_kem_publickey_sizeof : Z := size_of KPublicKey1024.
Definition shawncore_crypto_ml_kem_publickey_alignof : Z := align_of KPublicKey1024.
Definition shawncore_crypto_ml_kem_decapskey_sizeof : Z := size_of KDecapsKey1024.
Definition shawncore_crypto_ml_kem_decapskey_alignof : Z := align_of KDecapsKey1024.
Definition shawncore_crypto_ml_kem_sharedkey_sizeof : Z := size_of KSharedKey1024.
Definition shawncore_crypto_ml_kem_sharedkey_alignof : Z := align_of KSharedKey1024.
Definition shawncore_crypto_ml_kem_ciphertext_sizeof : Z := size_of KCiphertext1024.
Definition shawncore_crypto_ml_kem_ciphertext_alignof : Z := align_of KCiphertext1024.
Definition shawncore_crypto_ml_dsa_publickey_sizeof : Z := size_of KPublicKey87.
Definition shawncore_crypto_ml_dsa_publickey_alignof : Z := align_of KPublicKey87.
Definition shawncore_crypto_ml_dsa_signingkey_sizeof : Z := size_of KSigningKey87.
Definition shawncore_crypto_ml_dsa_signingkey_alignof : Z := align_of KSigningKey87.
Definition shawncore_crypto_ml_dsa_signature_sizeof : Z := size_of KSignature87.
Definition shawncore_crypto_ml_dsa_signature_alignof : Z := align_of KSignature87.
Definition shawncore_crypto_x25519_publickey_sizeof : Z := size_of KX25519Public.
Definition shawncore_crypto_x25519_publickey_alignof : Z := align_of KX25519Public.
Definition shawncore_crypto_x25519_secret_sizeof : Z := size_of KX25519Secret.
Definition shawncore_crypto_x25519_secret_alignof : Z := align_of KX25519Secret.
Definition shawncore_crypto_x25519_sharedsecret_sizeof : Z := size_of KX25519SharedSecret.
Definition shawncore_crypto_x25519_sharedsecret_alignof : Z := align_of KX25519SharedSecret.
Definition shawncore_crypto_session_manager_sizeof : Z := size_of KSession.
Definition shawncore_crypto_session_manager_alignof : Z := align_of KSession.

(** * Session manager *)

Definition shawncore_crypto_session_manager_init (manager : Z) : M machine ShawncoreCryptoErr :=
  if is_null manager then mret CInvalidState else
  if negb (ptr_is_aligned KSession manager) then mret CInvalidState else
  store KSession manager Sess.new ;;
  mret CSuccess.

(** [drop_in_place] runs [SessionManager::drop] and ends the object's life. *)
Definition shawncore_crypto_session_manager_destroy (manager : Z) : M machine ShawncoreCryptoErr :=
  if is_null manager then mret CInvalidState else
  if negb (ptr_is_aligned KSession manager) then mret CInvalidState else
  with_session manager Sess.zeroize_session ;;
  on_mem (modify (remove manager)) ;;
  mret CSuccess.

Definition shawncore_crypto_session_manager_initiate_handshake
    (manager entropy out_ml_kem_pk out_x25519_pk : Z) : M machine ShawncoreCryptoErr :=
  if is_null manager || is_null entropy || is_null out_ml_kem_pk || is_null out_x25519_pk
  then mret CInvalidState else
  if negb (ptr_is_aligned KSession manager) || negb (ptr_is_aligned KPublicKey1024 out_ml_kem_pk)
     || negb (ptr_is_aligned KX25519Public out_x25519_pk)
  then mret CInvalidState else
  if ranges_overlap out_ml_kem_pk (size_of KPublicKey1024) out_x25519_pk (size_of KX25519Public)
     || ranges_overlap manager (size_of KSession) out_ml_kem_pk (size_of KPublicKey1024)
     || ranges_overlap manager (size_of KSession) out_x25519_pk (size_of KX25519Public)
     || ranges_overlap manager (size_of KSession) entropy 96
     || ranges_overlap entropy 96 out_ml_kem_pk (size_of KPublicKey1024)
     || ranges_overlap entropy 96 out_x25519_pk (size_of KX25519Public)
  then mret CInvalidLength else
  entropy_ref ← array entropy 96;
  r ← with_session manager (Hs.initiate_handshake entropy_ref);
  match r with
  | Ok (ml_kem_pk, x25519_pk) =>
      store KPublicKey1024 out_ml_kem_pk ml_kem_pk ;;
      store KX25519Public out_x25519_pk x25519_pk ;;
      mret CSuccess
  | Err e => mret (crypto_of_error e)
  end.

Definition shawncore_crypto_session_manager_finalize_handshake
    (manager peer_x25519_pk ml_kem_ct salt salt_len info info_len : Z) : M machine ShawncoreCryptoErr :=
  if is_null manager || is_null peer_x25519_pk || is_null ml_kem_ct then mret CInvalidState else
  if negb (ptr_is_aligned KSession manager) || negb (ptr_is_aligned KX25519Public peer_x25519_pk)
     || negb (ptr_is_aligned KCiphertext1024 ml_kem_ct)
  then mret CInvalidState else
  if (is_null salt && (0 <? salt_len)) || (is_null info && (0 <? info_len))
     || negb (range_ok salt salt_len) || negb (range_ok info info_len)
  then mret CInvalidLength else
  if ranges_overlap manager (size_of KSession) peer_x25519_pk (size_of KX25519Public)
     || ranges_overlap manager (size_of KSession) ml_kem_ct (size_of KCiphertext1024)
     || ranges_overlap manager (size_of KSession) salt salt_len
     || ranges_overlap manager (size_of KSession) info info_len
  then mret CInvalidLength else
  peer_x25519_pk_ref ← load KX25519Public peer_x25519_pk;
  ml_kem_ct_ref ← load KCiphertext1024 ml_kem_ct;
  salt_slice ← slice_at salt salt_len;
  info_slice ← slice_at info info_len;
  r ← with_session manager
        (Hs.finalize_handshake peer_x25519_pk_ref ml_kem_ct_ref salt_slice info_slice);
  mret (code_of r).

Definition shawncore_crypto_session_manager_encapsulate_for_peer
    (manager peer_ml_kem_pk peer_x25519_pk entropy salt salt_len info info_len out_ct out_my_x25519_pk : Z)
  : M machine ShawncoreCryptoErr :=
  if is_null manager || is_null peer_ml_kem_pk || is_null peer_x25519_pk || is_null entropy
     || is_null out_ct || is_null out_my_x25519_pk
  then mret CInvalidState else
  if negb (ptr_is_aligned KSession manager) || negb (ptr_is_aligned KPublicKey1024 peer_ml_kem_pk)
     || negb (ptr_is_aligned KX25519Public peer_x25519_pk) || negb (ptr_is_aligned KCiphertext1024 out_ct)
     || negb (ptr_is_aligned KX25519Public out_my_x25519_pk)
  then mret CInvalidState else
  if (is_null salt && (0 <? salt_len)) || (is_null info && (0 <? info_len))
     || negb (range_ok salt salt_len) || negb (range_ok info info_len)
  then mret CInvalidLength else
  if ranges_overlap out_ct (size_of KCiphertext1024) out_my_x25519_pk (size_of KX25519Public)
     || ranges_overlap out_ct (size_of KCiphertext1024) peer_ml_kem_pk (size_of KPublicKey1024)
     || ranges_overlap out_ct (size_of KCiphertext1024) peer_x25519_pk (size_of KX25519Public)
     || ranges_overlap out_ct (size_of KCiphertext1024) manager (size_of KSession)
     || ranges_overlap out_ct (size_of KCiphertext1024) entropy 64
     || ranges_overlap out_ct (size_of KCiphertext1024) salt salt_len
     || ranges_overlap out_ct (size_of KCiphertext1024) info info_len
     || ranges_overlap out_my_x25519_pk (size_of KX25519Public) peer_ml_kem_pk (size_of KPublicKey1024)
     || ranges_overlap out_my_x25519_pk (size_of KX25519Public) peer_x25519_pk (size_of KX25519Public)
     || ranges_overlap out_my_x25519_pk (size_of KX25519Public) manager (size_of KSession)
     || ranges_overlap out_my_x25519_pk (size_of KX25519Public) entropy 64
     || ranges_overlap out_my_x25519_pk (size_of KX25519Public) salt salt_len
     || ranges_overlap out_my_x25519_pk (size_of KX25519Public) info info_len
     || ranges_overlap manager (size_of KSession) peer_ml_kem_pk (size_of KPublicKey1024)
     || ranges_overlap manager (size_of KSession) peer_x25519_pk (size_of KX25519Public)
     || ranges_overlap manager (size_of KSession) entropy 64
     || ranges_overlap manager (size_of KSession) salt salt_len
     || ranges_overlap manager (size_of KSession) info info_len
  then mret CInvalidLength else
  peer_ml_kem_pk_ref ← load KPublicKey1024 peer_ml_kem_pk;
  peer_x25519_pk_ref ← load KX25519Public peer_x25519_pk;
  entropy_ref ← array entropy 64;
  salt_slice ← slice_at salt salt_len;
  info_slice ← slice_at info info_len;
  r ← with_session manager
        (Hs.encapsulate_for_peer peer_ml_kem_pk_ref peer_x25519_pk_ref entropy_ref salt_slice info_slice
           (zeros 1568) (zeros 32));
  let '(res, ct, my_pk) := r in
  match res with
  | Ok _ =>
      store KCiphertext1024 out_ct ct ;;
      store KX25519Public out_my_x25519_pk my_pk ;;
      mret CSuccess
  | Err e => mret (crypto_of_error e)
  end.

Definition shawncore_crypto_session_manager_encapsulate_authenticated_v2
    (manager own_signing_key peer_verifying_key peer_ml_kem_pk peer_x25519_pk entropy
     salt salt_len app_info app_info_len out_ct out_my_x25519_pk out_signature out_confirmation : Z)
  : M machine ShawncoreCryptoErr :=
  if is_null manager || is_null own_signing_key || is_null peer_verifying_key || is_null peer_ml_kem_pk
     || is_null peer_x25519_pk || is_null entropy || is_null out_ct || is_null out_my_x25519_pk
     || is_null out_signature || is_null out_confirmation
  then mret CInvalidState else
  if negb (ptr_is_aligned KSession manager) || negb (ptr_is_aligned KSigningKey87 own_signing_key)
     || negb (ptr_is_aligned KPublicKey87 peer_verifying_key)
     || negb (ptr_is_aligned KPublicKey1024 peer_ml_kem_pk)
     || negb (ptr_is_aligned KX25519Public peer_x25519_pk) || negb (ptr_is_aligned KCiphertext1024 out_ct)
     || negb (ptr_is_aligned KX25519Public out_my_x25519_pk) || negb (ptr_is_aligned KSignature87 out_signature)
  then mret CInvalidState else
  if (is_null salt && (0 <? salt_len)) || (is_null app_info && (0 <? app_info_len))
     || negb (range_ok salt salt_len) || (MAX_APP_INFO_LEN <? app_info_len)
     || negb (range_ok app_info app_info_len)
  then mret CInvalidLength else
  if writable_regions_overlap [
       (manager, size_of KSession, true);
       (own_signing_key, size_of KSigningKey87, false);
       (peer_verifying_key, size_of KPublicKey87, false);
       (peer_ml_kem_pk, size_of KPublicKey1024, false);
       (peer_x25519_pk, size_of KX25519Public, false);
       (entropy, 64, false);
       (salt, salt_len, false);
       (app_info, app_info_len, false);
       (out_ct, size_of KCiphertext1024, true);
       (out_my_x25519_pk, size_of KX25519Public, true);
       (out_signature, size_of KSignature87, true);
       (out_confirmation, 48, true)]
  then mret CInvalidLength else
  entropy_ref ← array entropy 64;
  salt_slice ← slice_at salt salt_len;
  app_info_slice ← slice_at app_info app_info_len;
  own_signing_key_ref ← load KSigningKey87 own_signing_key;
  peer_verifying_key_ref ← load KPublicKey87 peer_verifying_key;
  peer_ml_kem_pk_ref ← load KPublicKey1024 peer_ml_kem_pk;
  peer_x25519_pk_ref ← load KX25519Public peer_x25519_pk;
  r ← with_session manager
        (Auth.encapsulate_authenticated own_signing_key_ref peer_verifying_key_ref peer_ml_kem_pk_ref
           peer_x25519_pk_ref entropy_ref salt_slice app_info_slice
           (zeros 1568) (zeros 32) (zeros 4627) (zeros 48));
  let '(res, ct, my_pk, signature, confirmation) := r in
  match res with
  | Ok _ =>
      store KCiphertext1024 out_ct ct ;;
      store KX25519Public out_my_x25519_pk my_pk ;;
      store KSignature87 out_signature signature ;;
      copy_out out_confirmation confirmation ;;
      mret CSuccess
  | Err e => mret (crypto_of_error e)
  end.

Definition shawncore_crypto_session_manager_finalize_authenticated_v2
    (manager own_signing_key peer_verifying_key peer_x25519_pk ml_kem_ct peer_signature peer_confirmation
     salt salt_len app_info app_info_len out_signature out_confirmation : Z)
  : M machine ShawncoreCryptoErr :=
  if is_null manager || is_null own_signing_key || is_null peer_verifying_key || is_null peer_x25519_pk
     || is_null ml_kem_ct || is_null peer_signature || is_null peer_confirmation || is_null out_signature
     || is_null out_confirmation
  then mret CInvalidState else
  if negb (ptr_is_aligned KSession manager) || negb (ptr_is_aligned KSigningKey87 own_signing_key)
     || negb (ptr_is_aligned KPublicKey87 peer_verifying_key)
     || negb (ptr_is_aligned KX25519Public peer_x25519_pk)
     || negb (ptr_is_aligned KCiphertext1024 ml_kem_ct) || negb (ptr_is_aligned KSignature87 peer_signature)
     || negb (ptr_is_aligned KSignature87 out_signature)
  then mret CInvalidState else
  if (is_null salt && (0 <? salt_len)) || (is_null app_info && (0 <? app_info_len))
     || negb (range_ok salt salt_len) || (MAX_APP_INFO_LEN <? app_info_len)
     || negb (range_ok app_info app_info_len)
  then mret CInvalidLength else
  if writable_regions_overlap [
       (manager, size_of KSession, true);
       (own_signing_key, size_of KSigningKey87, false);
       (peer_verifying_key, size_of KPublicKey87, false);
       (peer_x25519_pk, size_of KX25519Public, false);
       (ml_kem_ct, size_of KCiphertext1024, false);
       (peer_signature, size_of KSignature87, false);
       (salt, salt_len, false);
       (app_info, app_info_len, false);
       (peer_confirmation, 48, false);
       (out_signature, size_of KSignature87, true);
       (out_confirmation, 48, true)]
  then mret CInvalidLength else
  salt_slice ← slice_at salt salt_len;
  app_info_slice ← slice_at app_info app_info_len;
  own_signing_key_ref ← load KSigningKey87 own_signing_key;
  peer_verifying_key_ref ← load KPublicKey87 peer_verifying_key;
  peer_x25519_pk_ref ← load KX25519Public peer_x25519_pk;
  ml_kem_ct_ref ← load KCiphertext1024 ml_kem_ct;
  peer_signature_ref ← load KSignature87 peer_signature;
  peer_confirmation_ref ← array peer_confirmation 48;
  r ← with_session manager
        (Auth.finalize_authenticated own_signing_key_ref peer_verifying_key_ref peer_x25519_pk_ref
           ml_kem_ct_ref peer_signature_ref peer_confirmation_ref salt_slice app_info_slice
           (zeros 4627) (zeros 48));
  let '(res, signature, confirmation) := r in
  match res with
  | Ok _ =>
      store KSignature87 out_signature signature ;;
      copy_out out_confirmation confirmation ;;
      mret CSuccess
  | Err e => mret (crypto_of_error e)
  end.

Definition shawncore_crypto_session_manager_confirm_peer_v2
    (manager peer_verifying_key peer_signature peer_confirmation : Z) : M machine ShawncoreCryptoErr :=
  if is_null manager || is_null peer_verifying_key || is_null peer_signature || is_null peer_confirmation
  then mret CInvalidState else
  if negb (ptr_is_aligned KSession manager) || negb (ptr_is_aligned KPublicKey87 peer_verifying_key)
     || negb (ptr_is_aligned KSignature87 peer_signature)
  then mret CInvalidState else
  if writable_regions_overlap [
       (manager, size_of KSession, true);
       (peer_verifying_key, size_of KPublicKey87, false);
       (peer_signature, size_of KSignature87, false);
       (peer_confirmation, 48, false)]
  then mret CInvalidLength else
  peer_verifying_key_ref ← load KPublicKey87 peer_verifying_key;
  peer_signature_ref ← load KSignature87 peer_signature;
  peer_confirmation_ref ← array peer_confirmation 48;
  r ← with_session manager
        (Auth.confirm_peer peer_verifying_key_ref peer_signature_ref peer_confirmation_ref);
  mret (code_of r).

Definition shawncore_crypto_session_manager_zeroize (manager : Z) : M machine ShawncoreCryptoErr :=
  if is_null manager then mret CInvalidState else
  if negb (ptr_is_aligned KSession manager) then mret CInvalidState else
  with_session manager Sess.zeroize_session ;;
  mret CSuccess.

Definition shawncore_crypto_session_manager_encrypt_packet
    (manager aad aad_len plaintext ciphertext data_len out_nonce out_tag : Z) : M machine ShawncoreCryptoErr :=
  if is_null manager || negb (ptr_is_aligned KSession manager)
     || (is_null plaintext && (0 <? data_len)) || (is_null ciphertext && (0 <? data_len))
     || is_null out_nonce || is_null out_tag || (is_null aad && (0 <? aad_len))
     || negb (range_ok aad aad_len) || negb (packet_len_valid data_len)
     || negb (range_ok plaintext data_len) || negb (range_ok ciphertext data_len)
     || session_encrypt_buffers_overlap manager aad aad_len plaintext ciphertext data_len out_nonce out_tag
  then mret CInvalidLength else
  aad_slice ← slice_at aad aad_len;
  plaintext_slice ← slice_at plaintext data_len;
  ciphertext_slice ← slice_at ciphertext data_len;
  nonce ← array out_nonce 12;
  tag ← array out_tag 48;
  r ← with_session manager (Sess.encrypt_packet aad_slice plaintext_slice ciphertext_slice nonce tag);
  let '(res, ciphertext_slice, nonce, tag) := r in
  fill ciphertext ciphertext_slice ;;
  fill out_nonce nonce ;;
  fill out_tag tag ;;
  mret (code_of res).

Definition shawncore_crypto_session_manager_decrypt_packet
    (manager aad aad_len ciphertext data_len nonce tag plaintext : Z) : M machine ShawncoreCryptoErr :=
  if is_null manager || negb (ptr_is_aligned KSession manager)
     || (is_null ciphertext && (0 <? data_len)) || is_null nonce || is_null tag
     || (is_null plaintext && (0 <? data_len)) || (is_null aad && (0 <? aad_len))
     || negb (range_ok aad aad_len) || negb (packet_len_valid data_len)
     || negb (range_ok ciphertext data_len) || negb (range_ok plaintext data_len)
     || session_decrypt_buffers_overlap manager aad aad_len ciphertext data_len nonce tag plaintext
  then mret CInvalidLength else
  aad_slice ← slice_at aad aad_len;
  ciphertext_slice ← slice_at ciphertext data_len;
  nonce_ref ← array nonce 12;
  tag_ref ← array tag 48;
  plaintext_slice ← slice_at plaintext data_len;
  r ← with_session manager
        (Sess.decrypt_packet aad_slice ciphertext_slice nonce_ref tag_ref plaintext_slice);
  let '(res, plaintext_slice) := r in
  fill plaintext plaintext_slice ;;
  mret (code_of res).

(** * ML-KEM *)

(** [drop_in_place] of a key that its own crate erases, and of a wrapper that
    overwrites its array before the storage is released. *)
Definition drop_key (k : kind) (p : Z) : M machine unit :=
  load k p ;; on_mem (modify (remove p)).
Definition drop_array (k : kind) (len : nat) (p : Z) : M machine unit :=
  load k p ;; on_mem (modify (remove p)) ;; fill p (zeros len).

Definition shawncore_crypto_ml_kem_keygen (entropy out_pk out_dk : Z) : M machine ShawncoreCryptoErr :=
  if is_null entropy || is_null out_pk || is_null out_dk then mret CInvalidState else
  if negb (ptr_is_aligned KPublicKey1024 out_pk) || negb (ptr_is_aligned KDecapsKey1024 out_dk)
  then mret CInvalidState else
  if ranges_overlap out_pk (size_of KPublicKey1024) out_dk (size_of KDecapsKey1024)
     || ranges_overlap entropy 64 out_pk (size_of KPublicKey1024)
     || ranges_overlap entropy 64 out_dk (size_of KDecapsKey1024)
  then mret CInvalidLength else
  entropy_ref ← array entropy 64;
  match ml_kem_keygen entropy_ref with
  | Ok (pk, dk) =>
      store KPublicKey1024 out_pk pk ;;
      store KDecapsKey1024 out_dk dk ;;
      mret CSuccess
  | Err e => mret (crypto_of_error e)
  end.

Definition shawncore_crypto_ml_kem_decapskey_destroy (dk : Z) : M machine ShawncoreCryptoErr :=
  if is_null dk then mret CInvalidState else
  if negb (ptr_is_aligned KDecapsKey1024 dk) then mret CInvalidState else
  drop_key KDecapsKey1024 dk ;;
  mret CSuccess.

Definition shawncore_crypto_ml_kem_encapsulate (pk entropy out_shared out_ct : Z)
  : M machine ShawncoreCryptoErr :=
  if is_null pk || is_null entropy || is_null out_shared || is_null out_ct then mret CInvalidState else
  if negb (ptr_is_aligned KPublicKey1024 pk) || negb (ptr_is_aligned KSharedKey1024 out_shared)
     || negb (ptr_is_aligned KCiphertext1024 out_ct)
  then mret CInvalidState else
  if ranges_overlap out_shared (size_of KSharedKey1024) out_ct (size_of KCiphertext1024)
     || ranges_overlap out_shared (size_of KSharedKey1024) pk (size_of KPublicKey1024)
     || ranges_overlap out_ct (size_of KCiphertext1024) pk (size_of KPublicKey1024)
     || ranges_overlap out_shared (size_of KSharedKey1024) entropy 32
     || ranges_overlap out_ct (size_of KCiphertext1024) entropy 32
  then mret CInvalidLength else
  pk_ref ← load KPublicKey1024 pk;
  entropy_ref ← array entropy 32;
  r ← on_platform (ml_kem_encapsulate pk_ref entropy_ref);
  match r with
  | Ok (shared, ct) =>
      store KSharedKey1024 out_shared shared ;;
      store KCiphertext1024 out_ct ct ;;
      mret CSuccess
  | Err e => mret (crypto_of_error e)
  end.

Definition shawncore_crypto_ml_kem_decapsulate (dk ct out_shared : Z) : M machine ShawncoreCryptoErr :=
  if is_null dk || is_null ct || is_null out_shared then mret CInvalidState else
  if negb (ptr_is_aligned KDecapsKey1024 dk) || negb (ptr_is_aligned KCiphertext1024 ct)
     || negb (ptr_is_aligned KSharedKey1024 out_shared)
  then mret CInvalidState else
  if ranges_overlap out_shared (size_of KSharedKey1024) dk (size_of KDecapsKey1024)
     || ranges_overlap out_shared (size_of KSharedKey1024) ct (size_of KCiphertext1024)
  then mret CInvalidLength else
  dk_ref ← load KDecapsKey1024 dk;
  ct_ref ← load KCiphertext1024 ct;
  r ← on_platform (ml_kem_decapsulate dk_ref ct_ref);
  match r with
  | Ok shared => store KSharedKey1024 out_shared shared ;; mret CSuccess
  | Err e => mret (crypto_of_error e)
  end.

Definition shawncore_crypto_ml_kem_sharedkey_destroy (sk : Z) : M machine ShawncoreCryptoErr :=
  if is_null sk then mret CInvalidState else
  if negb (ptr_is_aligned KSharedKey1024 sk) then mret CInvalidState else
  drop_array KSharedKey1024 32 sk ;;
  mret CSuccess.

(** * ML-DSA *)

Definition shawncore_crypto_ml_dsa_keygen (seed out_pk out_sk : Z) : M machine ShawncoreCryptoErr :=
  if is_null seed || is_null out_pk || is_null out_sk then mret CInvalidState else
  if negb (ptr_is_aligned KPublicKey87 out_pk) || negb (ptr_is_aligned KSigningKey87 out_sk)
  then mret CInvalidState else
  if ranges_overlap out_pk (size_of KPublicKey87) out_sk (size_of KSigningKey87)
     || ranges_overlap seed 32 out_pk (size_of KPublicKey87)
     || ranges_overlap seed 32 out_sk (size_of KSigningKey87)
  then mret CInvalidLength else
  seed_ref ← array seed 32;
  match ml_dsa_keygen seed_ref with
  | Ok (pk, sk) =>
      store KPublicKey87 out_pk pk ;;
      store KSigningKey87 out_sk sk ;;
      mret CSuccess
  | Err e => mret (crypto_of_error e)
  end.

Definition shawncore_crypto_ml_dsa_signingkey_destroy (sk : Z) : M machine ShawncoreCryptoErr :=
  if is_null sk then mret CInvalidState else
  if negb (ptr_is_aligned KSigningKey87 sk) then mret CInvalidState else
  drop_key KSigningKey87 sk ;;
  mret CSuccess.

Definition shawncore_crypto_ml_dsa_sign (sk msg msg_len out_sig : Z) : M machine ShawncoreCryptoErr :=
  if is_null sk || (is_null msg && (0 <? msg_len)) || is_null out_sig then mret CInvalidState else
  if negb (range_ok msg msg_len) then mret CInvalidLength else
  if negb (ptr_is_aligned KSigningKey87 sk) || negb (ptr_is_aligned KSignature87 out_sig)
  then mret CInvalidState else
  if ranges_overlap out_sig (size_of KSignature87) sk (size_of KSigningKey87)
     || ranges_overlap out_sig (size_of KSignature87) msg msg_len
  then mret CInvalidLength else
  sk_ref ← load KSigningKey87 sk;
  msg_slice ← slice_at msg msg_len;
  r ← on_platform (ml_dsa_sign sk_ref msg_slice);
  match r with
  | Ok sig => store KSignature87 out_sig sig ;; mret CSuccess
  | Err e => mret (crypto_of_error e)
  end.

Definition shawncore_crypto_ml_dsa_verify (pk msg msg_len sig : Z) : M machine ShawncoreCryptoErr :=
  if is_null pk || (is_null msg && (0 <? msg_len)) || is_null sig then mret CInvalidState else
  if negb (range_ok msg msg_len) then mret CInvalidLength else
  if negb (ptr_is_aligned KPublicKey87 pk) || negb (ptr_is_aligned KSignature87 sig)
  then mret CInvalidState else
  pk_ref ← load KPublicKey87 pk;
  sig_ref ← load KSignature87 sig;
  msg_slice ← slice_at msg msg_len;
  mret (code_of (ml_dsa_verify pk_ref msg_slice sig_ref)).

(** * X25519 *)

Definition shawncore_crypto_x25519_keygen (entropy out_pk out_sk : Z) : M machine ShawncoreCryptoErr :=
  if is_null entropy || is_null out_pk || is_null out_sk then mret CInvalidState else
  if negb (ptr_is_aligned KX25519Public out_pk) || negb (ptr_is_aligned KX25519Secret out_sk)
  then mret CInvalidState else
  if ranges_overlap out_pk (size_of KX25519Public) out_sk (size_of KX25519Secret)
     || ranges_overlap entropy 32 out_pk (size_of KX25519Public)
     || ranges_overlap entropy 32 out_sk (size_of KX25519Secret)
  then mret CInvalidLength else
  entropy_ref ← array entropy 32;
  let '(pk, sk) := x25519_keygen entropy_ref in
  store KX25519Public out_pk pk ;;
  store KX25519Secret out_sk sk ;;
  mret CSuccess.

Definition shawncore_crypto_x25519_secret_destroy (sk : Z) : M machine ShawncoreCryptoErr :=
  if is_null sk then mret CInvalidState else
  if negb (ptr_is_aligned KX25519Secret sk) then mret CInvalidState else
  drop_array KX25519Secret 32 sk ;;
  mret CSuccess.

Definition shawncore_crypto_x25519_diffie_hellman (sk peer_pk out_shared : Z)
  : M machine ShawncoreCryptoErr :=
  if is_null sk || is_null peer_pk || is_null out_shared then mret CInvalidState else
  if negb (ptr_is_aligned KX25519Secret sk) || negb (ptr_is_aligned KX25519Public peer_pk)
     || negb (ptr_is_aligned KX25519SharedSecret out_shared)
  then mret CInvalidState else
  if ranges_overlap out_shared (size_of KX25519SharedSecret) sk (size_of KX25519Secret)
     || ranges_overlap out_shared (size_of KX25519SharedSecret) peer_pk (size_of KX25519Public)
  then mret CInvalidLength else
  sk_ref ← load KX25519Secret sk;
  peer_pk_ref ← load KX25519Public peer_pk;
  r ← on_platform (x25519_diffie_hellman sk_ref peer_pk_ref);
  match r with
  | Ok shared => store KX25519SharedSecret out_shared shared ;; mret CSuccess
  | Err e => mret (crypto_of_error e)
  end.

Definition shawncore_crypto_x25519_sharedsecret_destroy (ss : Z) : M machine ShawncoreCryptoErr :=
  if is_null ss then mret CInvalidState else
  if negb (ptr_is_aligned KX25519SharedSecret ss) then mret CInvalidState else
  drop_array KX25519SharedSecret 32 ss ;;
  mret CSuccess.

(** * Wire encoding *)

Definition ml_kem_ciphertext_encode (value : Ciphertext1024) : list byte := value.
Definition ml_kem_ciphertext_decode (bytes : list byte) : result Ciphertext1024 CryptoError := Ok bytes.
Definition x25519_publickey_encode (value : X25519Public) : list byte := value.
Definition x25519_publickey_decode (bytes : list byte) : result X25519Public CryptoError := Ok bytes.
Definition ml_dsa_signature_encode (value : Signature87) : list byte := value.
Definition ml_dsa_signature_decode (bytes : list byte) : result Signature87 CryptoError := Ok bytes.

(** [wire_codec!], once per exported pair. *)
Definition wire_to_bytes (k : kind) (wire_len : nat) (encode : payload k -> list byte)
    (value out out_len : Z) : M machine ShawncoreCryptoErr :=
  if is_null value || is_null out then mret CInvalidState else
  if negb (ptr_is_aligned k value) then mret CInvalidState else
  if negb (out_len =? Z.of_nat wire_len) then mret CInvalidLength else
  if ranges_overlap value (size_of k) out out_len then mret CInvalidLength else
  value_ref ← load k value;
  let encoded := encode value_ref in
  copy_out out encoded ;;
  mret CSuccess.

Definition wire_from_bytes (k : kind) (wire_len : nat)
    (decode : list byte -> result (payload k) CryptoError) (bytes len out : Z)
  : M machine ShawncoreCryptoErr :=
  if is_null bytes || is_null out then mret CInvalidState else
  if negb (ptr_is_aligned k out) then mret CInvalidState else
  if negb (len =? Z.of_nat wire_len) then mret CInvalidLength else
  if ranges_overlap bytes len out (size_of k) then mret CInvalidLength else
  input ← array bytes wire_len;
  match decode input with
  | Ok value => store k out value ;; mret CSuccess
  | Err e => mret (crypto_of_error e)
  end.

Definition X25519_PUBLICKEY_BYTES : nat := 32.

Definition shawncore_crypto_ml_kem_publickey_encoded_len : nat := ML_KEM_PUBLICKEY_BYTES.
Definition shawncore_crypto_ml_kem_publickey_to_bytes : Z -> Z -> Z -> M machine ShawncoreCryptoErr :=
  wire_to_bytes KPublicKey1024 ML_KEM_PUBLICKEY_BYTES PublicKey1024_to_bytes.
Definition shawncore_crypto_ml_kem_publickey_from_bytes : Z -> Z -> Z -> M machine ShawncoreCryptoErr :=
  wire_from_bytes KPublicKey1024 ML_KEM_PUBLICKEY_BYTES PublicKey1024_from_bytes.

Definition shawncore_crypto_ml_kem_ciphertext_encoded_len : nat := ML_KEM_CIPHERTEXT_BYTES.
Definition shawncore_crypto_ml_kem_ciphertext_to_bytes : Z -> Z -> Z -> M machine ShawncoreCryptoErr :=
  wire_to_bytes KCiphertext1024 ML_KEM_CIPHERTEXT_BYTES ml_kem_ciphertext_encode.
Definition shawncore_crypto_ml_kem_ciphertext_from_bytes : Z -> Z -> Z -> M machine ShawncoreCryptoErr :=
  wire_from_bytes KCiphertext1024 ML_KEM_CIPHERTEXT_BYTES ml_kem_ciphertext_decode.

Definition shawncore_crypto_x25519_publickey_encoded_len : nat := X25519_PUBLICKEY_BYTES.
Definition shawncore_crypto_x25519_publickey_to_bytes : Z -> Z -> Z -> M machine ShawncoreCryptoErr :=
  wire_to_bytes KX25519Public X25519_PUBLICKEY_BYTES x25519_publickey_encode.
Definition shawncore_crypto_x25519_publickey_from_bytes : Z -> Z -> Z -> M machine ShawncoreCryptoErr :=
  wire_from_bytes KX25519Public X25519_PUBLICKEY_BYTES x25519_publickey_decode.

Definition shawncore_crypto_ml_dsa_publickey_encoded_len : nat := ML_DSA_PUBLICKEY_BYTES.
Definition shawncore_crypto_ml_dsa_publickey_to_bytes : Z -> Z -> Z -> M machine ShawncoreCryptoErr :=
  wire_to_bytes KPublicKey87 ML_DSA_PUBLICKEY_BYTES PublicKey87_to_bytes.
Definition shawncore_crypto_ml_dsa_publickey_from_bytes : Z -> Z -> Z -> M machine ShawncoreCryptoErr :=
  wire_from_bytes KPublicKey87 ML_DSA_PUBLICKEY_BYTES PublicKey87_from_bytes.

Definition shawncore_crypto_ml_dsa_signature_encoded_len : nat := ML_DSA_SIGNATURE_BYTES.
Definition shawncore_crypto_ml_dsa_signature_to_bytes : Z -> Z -> Z -> M machine ShawncoreCryptoErr :=
  wire_to_bytes KSignature87 ML_DSA_SIGNATURE_BYTES ml_dsa_signature_encode.
Definition shawncore_crypto_ml_dsa_signature_from_bytes : Z -> Z -> Z -> M machine ShawncoreCryptoErr :=
  wire_from_bytes KSignature87 ML_DSA_SIGNATURE_BYTES ml_dsa_signature_decode.

(** * AEAD and key derivation *)

Definition shawncore_crypto_hmac_sha384 (key data data_len out_mac : Z) : M machine ShawncoreCryptoErr :=
  if is_null key || (is_null data && (0 <? data_len)) || is_null out_mac then mret CInvalidState else
  if negb (range_ok data data_len) then mret CInvalidLength else
  if ranges_overlap out_mac 48 key 32 || ranges_overlap out_mac 48 data data_len
  then mret CInvalidLength else
  key_slice ← array key 32;
  data_slice ← slice_at data data_len;
  array out_mac 48 ;;
  r ← on_platform (hmac_sha384 key_slice data_slice);
  match r with
  | Ok mac => fill out_mac mac ;; mret CSuccess
  | Err e => mret (crypto_of_error e)
  end.

Definition shawncore_crypto_hkdf_expand_sha384 (prk info info_len out out_len : Z)
  : M machine ShawncoreCryptoErr :=
  if is_null prk || (is_null info && (0 <? info_len)) || (is_null out && (0 <? out_len))
  then mret CInvalidState else
  if negb (range_ok info info_len) || negb (range_ok out out_len) then mret CInvalidLength else
  if ranges_overlap out out_len prk 48 || ranges_overlap out out_len info info_len
  then mret CInvalidLength else
  prk_slice ← array prk 48;
  info_slice ← slice_at info info_len;
  out_slice ← slice_at out out_len;
  r ← on_platform (hkdf_expand_sha384 prk_slice info_slice out_slice);
  let '(res, out_slice) := r in
  fill out out_slice ;;
  mret (code_of res).

Definition shawncore_crypto_aead_encrypt
    (enc_key mac_key nonce aad aad_len plaintext ciphertext data_len out_mac : Z)
  : M machine ShawncoreCryptoErr :=
  if is_null enc_key || is_null mac_key || is_null nonce || (is_null plaintext && (0 <? data_len))
     || (is_null ciphertext && (0 <? data_len)) || is_null out_mac
  then mret CInvalidState else
  if (is_null aad && (0 <? aad_len)) || negb (range_ok aad aad_len) || negb (packet_len_valid data_len)
     || negb (range_ok plaintext data_len) || negb (range_ok ciphertext data_len)
  then mret CInvalidLength else
  if aead_encrypt_buffers_overlap enc_key mac_key nonce aad aad_len plaintext ciphertext out_mac data_len
  then mret CInvalidLength else
  enc_key_ref ← array enc_key 32;
  mac_key_ref ← array mac_key 32;
  nonce_ref ← array nonce 12;
  aad_slice ← slice_at aad aad_len;
  pt_slice ← slice_at plaintext data_len;
  ct_slice ← slice_at ciphertext data_len;
  out_mac_ref ← array out_mac 48;
  r ← on_platform (aead_encrypt enc_key_ref mac_key_ref nonce_ref aad_slice pt_slice ct_slice out_mac_ref);
  let '(res, ct_slice, out_mac_ref) := r in
  fill ciphertext ct_slice ;;
  fill out_mac out_mac_ref ;;
  mret (code_of res).

Definition shawncore_crypto_aead_decrypt
    (enc_key mac_key nonce aad aad_len ciphertext mac plaintext data_len : Z)
  : M machine ShawncoreCryptoErr :=
  if is_null enc_key || is_null mac_key || is_null nonce || (is_null ciphertext && (0 <? data_len))
     || is_null mac || (is_null plaintext && (0 <? data_len))
  then mret CInvalidState else
  if (is_null aad && (0 <? aad_len)) || negb (range_ok aad aad_len) || negb (packet_len_valid data_len)
     || negb (range_ok ciphertext data_len) || negb (range_ok plaintext data_len)
  then mret CInvalidLength else
  if aead_decrypt_buffers_overlap enc_key mac_key nonce aad aad_len ciphertext mac plaintext data_len
  then mret CInvalidLength else
  enc_key_ref ← array enc_key 32;
  mac_key_ref ← array mac_key 32;
  nonce_ref ← array nonce 12;
  aad_slice ← slice_at aad aad_len;
  ct_slice ← slice_at ciphertext data_len;
  mac_ref ← array mac 48;
  pt_slice ← slice_at plaintext data_len;
  r ← on_platform (aead_decrypt enc_key_ref mac_key_ref nonce_ref aad_slice ct_slice mac_ref pt_slice);
  let '(res, pt_slice) := r in
  fill plaintext pt_slice ;;
  mret (code_of res).

(** * Entropy *)

Definition shawncore_crypto_entropy_push (chunk : Z) : M machine ShawncoreCryptoErr :=
  if is_null chunk then mret CInvalidState else
  chunk_ref ← array chunk 32;
  if all_eq x00 chunk_ref || all_eq xff chunk_ref then mret CInvalidState else
  r ← on_globals (Pool.on_queue (EQ.push chunk_ref));
  mret (code_of r).

Definition shawncore_crypto_entropy_mix : M machine ShawncoreCryptoErr :=
  on_globals Pool.mix_entropy ;;
  mret CSuccess.

(** * Self-test *)

(** The published answers, as in the source. *)
Definition sha_expected : list byte := byte_of_Z <$> [
    0xcb; 0x00; 0x75; 0x3f; 0x45; 0xa3; 0x5e; 0x8b; 0xb5; 0xa0; 0x3d; 0x69; 0x9a; 0xc6; 0x50; 0x07;
    0x27; 0x2c; 0x32; 0xab; 0x0e; 0xde; 0xd1; 0x63; 0x1a; 0x8b; 0x60; 0x5a; 0x43; 0xff; 0x5b; 0xed;
    0x80; 0x86; 0x07; 0x2b; 0xa1; 0xe7; 0xcc; 0x23; 0x58; 0xba; 0xec; 0xa1; 0x34; 0xc8; 0x25; 0xa7].
Definition hmac_expected : list byte := byte_of_Z <$> [
    0xc3; 0xf1; 0x61; 0x59; 0x43; 0xd1; 0xdd; 0x07; 0xa8; 0x3b; 0xb6; 0x44; 0xb9; 0x7f; 0xb3; 0xdc;
    0x2b; 0x8a; 0x93; 0x6a; 0xa5; 0x38; 0x9d; 0xe2; 0xa3; 0xe9; 0xdd; 0x91; 0xbc; 0x3b; 0xae; 0x0d;
    0x0c; 0x30; 0x33; 0x4a; 0x30; 0x17; 0x33; 0xaa; 0x54; 0xed; 0x5e; 0x1f; 0x07; 0x69; 0xe8; 0x68].
Definition hkdf_expected : list byte := byte_of_Z <$> [
    0xaf; 0x5e; 0x50; 0x8e; 0xb4; 0xbb; 0xde; 0x0b; 0xc4; 0xef; 0xeb; 0x3b; 0x15; 0x31; 0xe9; 0x5b;
    0x93; 0x34; 0x7f; 0x29; 0x2d; 0x76; 0xc1; 0x57; 0x4e; 0x6c; 0x42; 0xad; 0x47; 0xc0; 0x17; 0x88].
Definition x25519_expected : list byte := byte_of_Z <$> [
    0x07; 0x91; 0x1f; 0xea; 0x37; 0x85; 0xe6; 0xcd; 0x67; 0x63; 0xe1; 0xfd; 0x5d; 0xab; 0x46; 0x1f;
    0xc0; 0x8a; 0x68; 0x41; 0xaf; 0x21; 0xdb; 0x4a; 0x8a; 0xc7; 0xb7; 0xf9; 0x9b; 0x64; 0x10; 0x3a].
Definition chacha_expected : list byte := byte_of_Z <$> [
    0x76; 0xb8; 0xe0; 0xad; 0xa0; 0xf1; 0x3d; 0x90; 0x40; 0x5d; 0x6a; 0xe5; 0x53; 0x86; 0xbd; 0x28;
    0xbd; 0xd2; 0x19; 0xb8; 0xa0; 0x8d; 0xed; 0x1a; 0xa8; 0x36; 0xef; 0xcc; 0x8b; 0x77; 0x0d; 0xc7;
    0xda; 0x41; 0x59; 0x7c; 0x51; 0x57; 0x48; 0x8d; 0x77; 0x24; 0xe0; 0x3f; 0xb8; 0xd8; 0x4a; 0x37;
    0x6a; 0x43; 0xb8; 0xf4; 0x15; 0x18; 0xa1; 0x1c; 0xc3; 0x87; 0xb6; 0x69; 0xb2; 0xee; 0x65; 0x86].

Definition shawncore_crypto_self_test : M machine ShawncoreCryptoErr :=
  let digest := sha384_digest (bstr "abc") in
  if negb (ct_eq digest sha_expected) then mret CVerificationFailed else
  hmac ← on_platform (hmac_sha384 (replicate 32 x0b) (bstr "Hi There"));
  match hmac with
  | Err _ => mret CVerificationFailed
  | Ok hmac_result =>
  if negb (ct_eq hmac_result hmac_expected) then mret CVerificationFailed else
  hkdf ← on_platform (hkdf_expand_sha384 (replicate 48 x0b) (bstr "test") (zeros 32));
  let '(hkdf_status, hkdf_output) := hkdf in
  if is_err hkdf_status then mret CVerificationFailed else
  if negb (ct_eq hkdf_output hkdf_expected) then mret CVerificationFailed else
  let '(_, alice_secret) := x25519_keygen (replicate 32 x42) in
  let '(bob_public, _) := x25519_keygen (replicate 32 x24) in
  dh ← on_platform (x25519_diffie_hellman alice_secret bob_public);
  match dh with
  | Err _ => mret CVerificationFailed
  | Ok x25519_result =>
  if negb (ct_eq x25519_result x25519_expected) then mret CVerificationFailed else
  sealed ← on_platform (aead_encrypt (zeros 32) (zeros 32) (zeros 12) [] (zeros 64) (zeros 64) (zeros 48));
  let '(aead_status, keystream, _) := sealed in
  if is_err aead_status || negb (ct_eq keystream chacha_expected) then mret CVerificationFailed else
  mret CSuccess
  end
  end.

(** * The interface as a whole *)

(** One call from C, with its arguments. *)
Inductive call : Type :=
| SessionInit (manager : Z)
| SessionDestroy (manager : Z)
| SessionInitiate (manager entropy out_ml_kem_pk out_x25519_pk : Z)
| SessionFinalize (manager peer_x25519_pk ml_kem_ct salt salt_len info info_len : Z)
| SessionEncapsulate (manager peer_ml_kem_pk peer_x25519_pk entropy salt salt_len info info_len
    out_ct out_my_x25519_pk : Z)
| SessionEncapsulateV2 (manager own_signing_key peer_verifying_key peer_ml_kem_pk peer_x25519_pk
    entropy salt salt_len app_info app_info_len out_ct out_my_x25519_pk out_signature
    out_confirmation : Z)
| SessionFinalizeV2 (manager own_signing_key peer_verifying_key peer_x25519_pk ml_kem_ct
    peer_signature peer_confirmation salt salt_len app_info app_info_len out_signature
    out_confirmation : Z)
| SessionConfirmV2 (manager peer_verifying_key peer_signature peer_confirmation : Z)
| SessionZeroize (manager : Z)
| SessionEncrypt (manager aad aad_len plaintext ciphertext data_len out_nonce out_tag : Z)
| SessionDecrypt (manager aad aad_len ciphertext data_len nonce tag plaintext : Z)
| KemKeygen (entropy out_pk out_dk : Z)
| KemDecapsKeyDestroy (dk : Z)
| KemEncapsulate (pk entropy out_shared out_ct : Z)
| KemDecapsulate (dk ct out_shared : Z)
| KemSharedKeyDestroy (sk : Z)
| DsaKeygen (seed out_pk out_sk : Z)
| DsaSigningKeyDestroy (sk : Z)
| DsaSign (sk msg msg_len out_sig : Z)
| DsaVerify (pk msg msg_len sig : Z)
| XKeygen (entropy out_pk out_sk : Z)
| XSecretDestroy (sk : Z)
| XDiffieHellman (sk peer_pk out_shared : Z)
| XSharedSecretDestroy (ss : Z)
| KemPublicKeyToBytes (value out out_len : Z)
| KemPublicKeyFromBytes (bytes len out : Z)
| KemCiphertextToBytes (value out out_len : Z)
| KemCiphertextFromBytes (bytes len out : Z)
| XPublicToBytes (value out out_len : Z)
| XPublicFromBytes (bytes len out : Z)
| DsaPublicKeyToBytes (value out out_len : Z)
| DsaPublicKeyFromBytes (bytes len out : Z)
| DsaSignatureToBytes (value out out_len : Z)
| DsaSignatureFromBytes (bytes len out : Z)
| Hmac (key data data_len out_mac : Z)
| HkdfExpand (prk info info_len out out_len : Z)
| AeadEncrypt (enc_key mac_key nonce aad aad_len plaintext ciphertext data_len out_mac : Z)
| AeadDecrypt (enc_key mac_key nonce aad aad_len ciphertext mac plaintext data_len : Z)
| EntropyPush (chunk : Z)
| EntropyMix
| SelfTest.

Definition run_call (c : call) : M machine ShawncoreCryptoErr :=
  match c with
  | SessionInit a0 => shawncore_crypto_session_manager_init a0
  | SessionDestroy a0 => shawncore_crypto_session_manager_destroy a0
  | SessionInitiate a0 a1 a2 a3 => shawncore_crypto_session_manager_initiate_handshake a0 a1 a2 a3
  | SessionFinalize a0 a1 a2 a3 a4 a5 a6 =>
      shawncore_crypto_session_manager_finalize_handshake a0 a1 a2 a3 a4 a5 a6
  | SessionEncapsulate a0 a1 a2 a3 a4 a5 a6 a7 a8 a9 =>
      shawncore_crypto_session_manager_encapsulate_for_peer a0 a1 a2 a3 a4 a5 a6 a7 a8 a9
  | SessionEncapsulateV2 a0 a1 a2 a3 a4 a5 a6 a7 a8 a9 a10 a11 a12 a13 =>
      shawncore_crypto_session_manager_encapsulate_authenticated_v2 a0 a1 a2 a3 a4 a5 a6 a7 a8 a9 a10 a11 a12 a13
  | SessionFinalizeV2 a0 a1 a2 a3 a4 a5 a6 a7 a8 a9 a10 a11 a12 =>
      shawncore_crypto_session_manager_finalize_authenticated_v2 a0 a1 a2 a3 a4 a5 a6 a7 a8 a9 a10 a11 a12
  | SessionConfirmV2 a0 a1 a2 a3 => shawncore_crypto_session_manager_confirm_peer_v2 a0 a1 a2 a3
  | SessionZeroize a0 => shawncore_crypto_session_manager_zeroize a0
  | SessionEncrypt a0 a1 a2 a3 a4 a5 a6 a7 =>
      shawncore_crypto_session_manager_encrypt_packet a0 a1 a2 a3 a4 a5 a6 a7
  | SessionDecrypt a0 a1 a2 a3 a4 a5 a6 a7 =>
      shawncore_crypto_session_manager_decrypt_packet a0 a1 a2 a3 a4 a5 a6 a7
  | KemKeygen a0 a1 a2 => shawncore_crypto_ml_kem_keygen a0 a1 a2
  | KemDecapsKeyDestroy a0 => shawncore_crypto_ml_kem_decapskey_destroy a0
  | KemEncapsulate a0 a1 a2 a3 => shawncore_crypto_ml_kem_encapsulate a0 a1 a2 a3
  | KemDecapsulate a0 a1 a2 => shawncore_crypto_ml_kem_decapsulate a0 a1 a2
  | KemSharedKeyDestroy a0 => shawncore_crypto_ml_kem_sharedkey_destroy a0
  | DsaKeygen a0 a1 a2 => shawncore_crypto_ml_dsa_keygen a0 a1 a2
  | DsaSigningKeyDestroy a0 => shawncore_crypto_ml_dsa_signingkey_destroy a0
  | DsaSign a0 a1 a2 a3 => shawncore_crypto_ml_dsa_sign a0 a1 a2 a3
  | DsaVerify a0 a1 a2 a3 => shawncore_crypto_ml_dsa_verify a0 a1 a2 a3
  | XKeygen a0 a1 a2 => shawncore_crypto_x25519_keygen a0 a1 a2
  | XSecretDestroy a0 => shawncore_crypto_x25519_secret_destroy a0
  | XDiffieHellman a0 a1 a2 => shawncore_crypto_x25519_diffie_hellman a0 a1 a2
  | XSharedSecretDestroy a0 => shawncore_crypto_x25519_sharedsecret_destroy a0
  | KemPublicKeyToBytes a0 a1 a2 => shawncore_crypto_ml_kem_publickey_to_bytes a0 a1 a2
  | KemPublicKeyFromBytes a0 a1 a2 => shawncore_crypto_ml_kem_publickey_from_bytes a0 a1 a2
  | KemCiphertextToBytes a0 a1 a2 => shawncore_crypto_ml_kem_ciphertext_to_bytes a0 a1 a2
  | KemCiphertextFromBytes a0 a1 a2 => shawncore_crypto_ml_kem_ciphertext_from_bytes a0 a1 a2
  | XPublicToBytes a0 a1 a2 => shawncore_crypto_x25519_publickey_to_bytes a0 a1 a2
  | XPublicFromBytes a0 a1 a2 => shawncore_crypto_x25519_publickey_from_bytes a0 a1 a2
  | DsaPublicKeyToBytes a0 a1 a2 => shawncore_crypto_ml_dsa_publickey_to_bytes a0 a1 a2
  | DsaPublicKeyFromBytes a0 a1 a2 => shawncore_crypto_ml_dsa_publickey_from_bytes a0 a1 a2
  | DsaSignatureToBytes a0 a1 a2 => shawncore_crypto_ml_dsa_signature_to_bytes a0 a1 a2
  | DsaSignatureFromBytes a0 a1 a2 => shawncore_crypto_ml_dsa_signature_from_bytes a0 a1 a2
  | Hmac a0 a1 a2 a3 => shawncore_crypto_hmac_sha384 a0 a1 a2 a3
  | HkdfExpand a0 a1 a2 a3 a4 => shawncore_crypto_hkdf_expand_sha384 a0 a1 a2 a3 a4
  | AeadEncrypt a0 a1 a2 a3 a4 a5 a6 a7 a8 =>
      shawncore_crypto_aead_encrypt a0 a1 a2 a3 a4 a5 a6 a7 a8
  | AeadDecrypt a0 a1 a2 a3 a4 a5 a6 a7 a8 =>
      shawncore_crypto_aead_decrypt a0 a1 a2 a3 a4 a5 a6 a7 a8
  | EntropyPush a0 => shawncore_crypto_entropy_push a0
  | EntropyMix => shawncore_crypto_entropy_mix
  | SelfTest => shawncore_crypto_self_test
  end.

Fixpoint run_calls (cs : list call) : M machine (list ShawncoreCryptoErr) :=
  match cs with
  | [] => mret []
  | c :: cs' => e ← run_call c; es ← run_calls cs'; mret (e :: es)
  end.

End entry_points.

End CryptoC.
