(* ===== verification/CryptoFfiArgs.v ===== *)
(** What the crypto entry points demand of their arguments, stated once for all of
    them: each call has a list of operands, an argument list is admissible when every
    operand is well formed and no operand that is written shares memory with another,
    and the checks of ffi.rs accept exactly the admissible ones. *)

From stdpp Require Import gmap.
From S2P Require Import Prelude CMemory CryptoHost Primitives ToyCrypto EntropyQueue EntropyPool CryptoTypes CryptoFfi.
Local Open Scope Z_scope.

Module CryptoArgs.
Import CryptoC.

Section args.
Context `{CryptoOps} `{CryptoLayout} `{InterruptAnswers}.

(** * Operands *)

(** How a call uses an operand: it reads it, changes it in place, or writes it without
    looking at what was there. *)
Inductive mode : Type := Reads | Updates | Writes.

Definition writes (m : mode) : bool := match m with Reads => false | _ => true end.

(** A typed handle, a buffer of fixed length, a buffer whose length argument has to
    match, and a buffer with its length: empty ones may come with any address. *)
Inductive operand : Type :=
| OHandle (k : kind) (p : Z) (m : mode)
| OArray (p len : Z) (m : mode)
| OExact (p len expected : Z) (m : mode)
| OSlice (p len limit : Z) (on_null : ShawncoreCryptoErr) (m : mode).

(** Address, length and whether the call writes there. *)
Definition region_of (o : operand) : Z * Z * bool :=
  match o with
  | OHandle k p m => (p, size_of k, writes m)
  | OArray p len m | OExact p len _ m | OSlice p len _ _ m => (p, len, writes m)
  end.

Definition operands (c : call) : list operand :=
  match c with
  | SessionInit m => [OHandle KSession m Writes]
  | SessionDestroy m | SessionZeroize m => [OHandle KSession m Updates]
  | SessionInitiate m e pk x =>
      [OHandle KSession m Updates; OArray e 96 Reads; OHandle KPublicKey1024 pk Writes;
       OHandle KX25519Public x Writes]
  | SessionFinalize m x ct s sl i il =>
      [OHandle KSession m Updates; OHandle KX25519Public x Reads; OHandle KCiphertext1024 ct Reads;
       OSlice s sl MAX_SLICE_LEN CInvalidLength Reads; OSlice i il MAX_SLICE_LEN CInvalidLength Reads]
  | SessionEncapsulate m pk x e s sl i il ct my =>
      [OHandle KSession m Updates; OHandle KPublicKey1024 pk Reads; OHandle KX25519Public x Reads;
       OArray e 64 Reads; OSlice s sl MAX_SLICE_LEN CInvalidLength Reads;
       OSlice i il MAX_SLICE_LEN CInvalidLength Reads; OHandle KCiphertext1024 ct Writes;
       OHandle KX25519Public my Writes]
  | SessionEncapsulateV2 m sk vk pk x e s sl i il ct my sig conf =>
      [OHandle KSession m Updates; OHandle KSigningKey87 sk Reads; OHandle KPublicKey87 vk Reads;
       OHandle KPublicKey1024 pk Reads; OHandle KX25519Public x Reads; OArray e 64 Reads;
       OSlice s sl MAX_SLICE_LEN CInvalidLength Reads; OSlice i il MAX_APP_INFO_LEN CInvalidLength Reads;
       OHandle KCiphertext1024 ct Writes; OHandle KX25519Public my Writes; OHandle KSignature87 sig Writes;
       OArray conf 48 Writes]
  | SessionFinalizeV2 m sk vk x ct psig pconf s sl i il sig conf =>
      [OHandle KSession m Updates; OHandle KSigningKey87 sk Reads; OHandle KPublicKey87 vk Reads;
       OHandle KX25519Public x Reads; OHandle KCiphertext1024 ct Reads; OHandle KSignature87 psig Reads;
       OSlice s sl MAX_SLICE_LEN CInvalidLength Reads; OSlice i il MAX_APP_INFO_LEN CInvalidLength Reads;
       OArray pconf 48 Reads; OHandle KSignature87 sig Writes; OArray conf 48 Writes]
  | SessionConfirmV2 m vk sig conf =>
      [OHandle KSession m Updates; OHandle KPublicKey87 vk Reads; OHandle KSignature87 sig Reads;
       OArray conf 48 Reads]
  | SessionEncrypt m a al pt ct dl n t =>
      [OHandle KSession m Updates; OSlice a al MAX_SLICE_LEN CInvalidLength Reads;
       OSlice pt dl CHACHA20_MAX_BYTES CInvalidLength Reads;
       OSlice ct dl CHACHA20_MAX_BYTES CInvalidLength Updates; OArray n 12 Updates; OArray t 48 Updates]
  | SessionDecrypt m a al ct dl n t pt =>
      [OHandle KSession m Updates; OSlice a al MAX_SLICE_LEN CInvalidLength Reads;
       OSlice ct dl CHACHA20_MAX_BYTES CInvalidLength Reads; OArray n 12 Reads; OArray t 48 Reads;
       OSlice pt dl CHACHA20_MAX_BYTES CInvalidLength Updates]
  | KemKeygen e pk dk => [OArray e 64 Reads; OHandle KPublicKey1024 pk Writes; OHandle KDecapsKey1024 dk Writes]
  | KemDecapsKeyDestroy p => [OHandle KDecapsKey1024 p Updates]
  | KemEncapsulate pk e ss ct =>
      [OHandle KPublicKey1024 pk Reads; OArray e 32 Reads; OHandle KSharedKey1024 ss Writes;
       OHandle KCiphertext1024 ct Writes]
  | KemDecapsulate dk ct ss =>
      [OHandle KDecapsKey1024 dk Reads; OHandle KCiphertext1024 ct Reads; OHandle KSharedKey1024 ss Writes]
  | KemSharedKeyDestroy p => [OHandle KSharedKey1024 p Updates]
  | DsaKeygen e pk sk => [OArray e 32 Reads; OHandle KPublicKey87 pk Writes; OHandle KSigningKey87 sk Writes]
  | DsaSigningKeyDestroy p => [OHandle KSigningKey87 p Updates]
  | DsaSign sk m ml sig =>
      [OHandle KSigningKey87 sk Reads; OSlice m ml MAX_SLICE_LEN CInvalidState Reads;
       OHandle KSignature87 sig Writes]
  | DsaVerify pk m ml sig =>
      [OHandle KPublicKey87 pk Reads; OSlice m ml MAX_SLICE_LEN CInvalidState Reads;
       OHandle KSignature87 sig Reads]
  | XKeygen e pk sk => [OArray e 32 Reads; OHandle KX25519Public pk Writes; OHandle KX25519Secret sk Writes]
  | XSecretDestroy p => [OHandle KX25519Secret p Updates]
  | XDiffieHellman sk pk ss =>
      [OHandle KX25519Secret sk Reads; OHandle KX25519Public pk Reads; OHandle KX25519SharedSecret ss Writes]
  | XSharedSecretDestroy p => [OHandle KX25519SharedSecret p Updates]
  | KemPublicKeyToBytes v o l => [OHandle KPublicKey1024 v Reads; OExact o l 1568 Writes]
  | KemPublicKeyFromBytes b l o => [OExact b l 1568 Reads; OHandle KPublicKey1024 o Writes]
  | KemCiphertextToBytes v o l => [OHandle KCiphertext1024 v Reads; OExact o l 1568 Writes]
  | KemCiphertextFromBytes b l o => [OExact b l 1568 Reads; OHandle KCiphertext1024 o Writes]
  | XPublicToBytes v o l => [OHandle KX25519Public v Reads; OExact o l 32 Writes]
  | XPublicFromBytes b l o => [OExact b l 32 Reads; OHandle KX25519Public o Writes]
  | DsaPublicKeyToBytes v o l => [OHandle KPublicKey87 v Reads; OExact o l 2592 Writes]
  | DsaPublicKeyFromBytes b l o => [OExact b l 2592 Reads; OHandle KPublicKey87 o Writes]
  | DsaSignatureToBytes v o l => [OHandle KSignature87 v Reads; OExact o l 4627 Writes]
  | DsaSignatureFromBytes b l o => [OExact b l 4627 Reads; OHandle KSignature87 o Writes]
  | Hmac k d dl o =>
      [OArray k 32 Reads; OSlice d dl MAX_SLICE_LEN CInvalidState Reads; OArray o 48 Updates]
  | HkdfExpand p i il o ol =>
      [OArray p 48 Reads; OSlice i il MAX_SLICE_LEN CInvalidState Reads;
       OSlice o ol MAX_SLICE_LEN CInvalidState Updates]
  | AeadEncrypt ek mk n a al pt ct dl o =>
      [OArray ek 32 Reads; OArray mk 32 Reads; OArray n 12 Reads;
       OSlice a al MAX_SLICE_LEN CInvalidLength Reads; OSlice pt dl CHACHA20_MAX_BYTES CInvalidState Reads;
       OSlice ct dl CHACHA20_MAX_BYTES CInvalidState Updates; OArray o 48 Updates]
  | AeadDecrypt ek mk n a al ct m pt dl =>
      [OArray ek 32 Reads; OArray mk 32 Reads; OArray n 12 Reads;
       OSlice a al MAX_SLICE_LEN CInvalidLength Reads; OSlice ct dl CHACHA20_MAX_BYTES CInvalidState Reads;
       OArray m 48 Reads; OSlice pt dl CHACHA20_MAX_BYTES CInvalidState Updates]
  | EntropyPush p => [OArray p 32 Reads]
  | EntropyMix | SelfTest => []
  end.

(** * Admissible arguments *)

Definition operand_ok (o : operand) : Prop :=
  match o with
  | OHandle k p _ => p <> 0 /\ p mod align_of k = 0
  | OArray p _ _ => p <> 0
  | OExact p len expected _ => p <> 0 /\ len = expected
  | OSlice p len limit _ _ => len <= limit /\ (0 < len -> p <> 0 /\ p + len < 2 ^ 64)
  end.

(** Two operands that must not be used together: one is written, and they share an
    address or one of them runs past the address space. *)
Definition conflict (o o' : operand) : Prop :=
  let '(p, n, w) := region_of o in
  let '(q, k, w') := region_of o' in
  (w = true \/ w' = true) /\ 0 < n /\ 0 < k /\ (2 ^ 64 <= p + n \/ 2 ^ 64 <= q + k \/ meets p n q k).

Definition admissible (c : call) : Prop :=
  Forall operand_ok (operands c) /\ ForallOrdPairs (fun o o' => ~ conflict o o') (operands c).

(** * The answer to the others *)

Definition null_fault (o : operand) : bool :=
  match o with
  | OHandle _ p _ | OArray p _ _ | OExact p _ _ _ => is_null p
  | OSlice p len _ CInvalidState _ => is_null p && (0 <? len)
  | OSlice _ _ _ _ _ => false
  end.

Definition length_fault (o : operand) : bool :=
  match o with OSlice p len _ _ _ => negb (range_ok p len) | _ => false end.

Definition misaligned (o : operand) : bool :=
  match o with OHandle k p _ => negb (ptr_is_aligned k p) | _ => false end.

(** Packet calls know one code; the signature calls look at the message's length
    before the alignment of their handles. *)
Definition argument_error (c : call) : ShawncoreCryptoErr :=
  match c with
  | SessionEncrypt _ _ _ _ _ _ _ _ | SessionDecrypt _ _ _ _ _ _ _ _ => CInvalidLength
  | DsaSign _ _ _ _ | DsaVerify _ _ _ _ =>
      if existsb null_fault (operands c) then CInvalidState
      else if existsb length_fault (operands c) then CInvalidLength
      else if existsb misaligned (operands c) then CInvalidState else CInvalidLength
  | _ =>
      if existsb null_fault (operands c) then CInvalidState
      else if existsb misaligned (operands c) then CInvalidState else CInvalidLength
  end.

(** Addresses and lengths are [usize]. *)
Definition args_in_range (c : call) : Prop :=
  Forall (fun o =>
    match o with
    | OHandle _ p _ | OArray p _ _ => in_width 64 p
    | OExact p len _ _ | OSlice p len _ _ _ => in_width 64 p /\ in_width 64 len
    end) (operands c).

(** The machine without any memory: every dereference is undefined. *)
Definition blank (w : machine) : machine := set_mem (MkMem [] ∅ ∅) w.

End args.

(** * The checks as booleans *)

Lemma crypto_overlap_spec (p n q k : Z) :
  0 <= n -> 0 <= k ->
  ranges_overlap p n q k = true <->
  0 < n /\ 0 < k /\ (2 ^ 64 <= p + n \/ 2 ^ 64 <= q + k \/ meets p n q k).
Proof.
  intros Hn Hk. unfold ranges_overlap.
  destruct (Z.eqb_spec n 0), (Z.eqb_spec k 0); cbn [orb]; try (split; [done|lia]).
  rewrite meets_iff by lia. unfold checked_add.
  destruct (Z.ltb_spec (p + n) (2 ^ 64)), (Z.ltb_spec (q + k) (2 ^ 64));
    try (split; [lia|done]).
  rewrite andb_true_iff, !Z.ltb_lt. lia.
Qed.

Lemma ranges_overlap_comm (p n q k : Z) : ranges_overlap p n q k = ranges_overlap q k p n.
Proof.
  unfold ranges_overlap. rewrite orb_comm. destruct (_ || _); [done|].
  destruct (checked_add 64 p n), (checked_add 64 q k); try done. apply andb_comm.
Qed.

(** The loops test for empty regions once more; [ranges_overlap] has done so. *)
Lemma ranges_overlap_gate (p n q k : Z) :
  0 <= n -> 0 <= k ->
  (0 <? n) && (0 <? k) && ranges_overlap p n q k = ranges_overlap p n q k.
Proof.
  intros. destruct (ranges_overlap p n q k) eqn:E; [|apply andb_false_r].
  apply crypto_overlap_spec in E as (? & ? & _); [|done..].
  rewrite andb_true_r, andb_true_iff, !Z.ltb_lt. done.
Qed.

Lemma overlaps_later_spec (r : Z * Z * bool) (later : list (Z * Z * bool)) :
  overlaps_later r later = true <->
  exists r', In r' later /\ (r.2 || r'.2) && (0 <? r.1.2) && (0 <? r'.1.2)
    && ranges_overlap r.1.1 r.1.2 r'.1.1 r'.1.2 = true.
Proof.
  destruct r as [[p n] w]. induction later as [|[[q k] w'] rest IH]; cbn [overlaps_later].
  - split; [done|]. intros (? & [] & _).
  - case_match eqn:E.
    + split; [|done]. intros _. exists (q, k, w'). split; [by left|exact E].
    + rewrite IH. split.
      * intros (r' & Hin & Hr). exists r'. split; [by right|exact Hr].
      * intros (r' & [<-|Hin] & Hr); [cbn in Hr; congruence|]. exists r'. done.
Qed.

Section checks.
Context `{CryptoOps} `{CryptoLayout} `{!CryptoLayoutLaws} `{InterruptAnswers}.

Lemma size_of_pos (k : kind) : 0 < size_of k.
Proof.
  pose proof layouts_ok as Hl. repeat apply Forall_cons in Hl as [[] Hl]. cbn in *.
  assert (G : forall l, layout_ok l -> 0 < newtype_size l).
  { intros [n a] [Hn Ha]. unfold newtype_size, repr_C. cbn in *.
    pose proof (align_up_ge 0 a Ha). pose proof (align_up_ge (align_up 0 a + n) (Z.max 64 a)). lia. }
  destruct k; cbn; try apply G; done.
Qed.

Lemma align_of_pos (k : kind) : 0 < align_of k.
Proof.
  pose proof layouts_ok as Hl. repeat apply Forall_cons in Hl as [[] Hl]. cbn in *.
  destruct k; cbn; unfold newtype_align; cbn; lia.
Qed.

Lemma ptr_is_aligned_spec (k : kind) (p : Z) : ptr_is_aligned k p = true <-> p mod align_of k = 0.
Proof.
  unfold ptr_is_aligned, is_multiple_of. pose proof (align_of_pos k).
  boolify; split; intros; first [done|lia].
Qed.

Lemma is_null_false (p : Z) : is_null p = false <-> p <> 0.
Proof. apply Z.eqb_neq. Qed.

Definition operand_okb (o : operand) : bool :=
  match o with
  | OHandle k p _ => negb (is_null p) && ptr_is_aligned k p
  | OArray p _ _ => negb (is_null p)
  | OExact p len expected _ => negb (is_null p) && (len =? expected)
  | OSlice p len limit _ _ => negb (is_null p && (0 <? len)) && (range_ok p len && (len <=? limit))
  end.

Definition admissible_b (c : call) : bool :=
  forallb operand_okb (operands c) && negb (writable_regions_overlap (map region_of (operands c))).

(** No limit exceeds that of a slice. *)
Definition limit_ok (o : operand) : Prop :=
  match o with OSlice _ _ limit _ _ => limit <= MAX_SLICE_LEN | _ => True end.

Lemma limits_ok (c : call) : Forall limit_ok (operands c).
Proof.
  assert (MAX_APP_INFO_LEN <= MAX_SLICE_LEN /\ CHACHA20_MAX_BYTES <= MAX_SLICE_LEN) as [] by (vm_compute; done).
  destruct c; repeat constructor; cbn; done || lia.
Qed.

Definition in_range (o : operand) : Prop := 0 <= (region_of o).1.1 /\ 0 <= (region_of o).1.2.

Lemma in_ranges (c : call) : args_in_range c -> Forall in_range (operands c).
Proof.
  assert (Hc : Forall (fun o => match o with OArray _ n _ => 0 <= n | _ => True end) (operands c))
    by (destruct c; repeat constructor; done).
  intros Ha. unfold args_in_range in Ha. induction Ha as [|o os Ho _ IH]; [done|].
  apply Forall_cons in Hc as [Hn Hc]. constructor; [|by apply IH].
  unfold in_range, in_width in *. destruct o as [k| | |]; cbn in *; try lia.
  pose proof (size_of_pos k). lia.
Qed.

Lemma operand_okb_spec (o : operand) :
  limit_ok o -> in_range o -> operand_okb o = true <-> operand_ok o.
Proof.
  unfold in_range. destruct o; cbn; intros Hl [Hp Hn].
  - rewrite andb_true_iff, negb_true_iff, is_null_false, ptr_is_aligned_spec. done.
  - rewrite negb_true_iff, is_null_false. done.
  - rewrite andb_true_iff, negb_true_iff, is_null_false, Z.eqb_eq. done.
  - unfold range_ok, slice_len_valid, is_null.
    rewrite !andb_true_iff, negb_true_iff, andb_false_iff, orb_true_iff, Z.eqb_neq, Z.ltb_nlt,
      !Z.leb_le, Z.eqb_eq, bool_decide_eq_true.
    assert (is_Some (checked_add 64 p len) <-> p + len < 2 ^ 64) as ->.
    { unfold checked_add. destruct (Z.ltb_spec (p + len) (2 ^ 64)); split; intros; try done; lia. }
    intuition lia.
Qed.

Lemma overlap_spec (ops : list operand) :
  Forall in_range ops ->
  writable_regions_overlap (map region_of ops) = false <-> ForallOrdPairs (fun o o' => ~ conflict o o') ops.
Proof.
  induction 1 as [|o os Ho Hos IH]; [split; [constructor|done]|].
  cbn [map writable_regions_overlap]. split.
  - case_match eqn:E; [done|]. intros Hw. constructor; [|by apply IH].
    apply Forall_forall. intros o' Ho' Hc.
    assert (overlaps_later (region_of o) (map region_of os) = true); [|congruence].
    apply overlaps_later_spec. exists (region_of o'). split; [by apply in_map, list_elem_of_In|].
    pose proof (proj1 (Forall_forall _ _) Hos o' Ho') as Hr. unfold conflict, in_range in *.
    destruct (region_of o) as [[p n] w], (region_of o') as [[q k] w']. cbn in *.
    destruct Hc as (Hw' & Hn & Hk & Hm).
    rewrite <-!andb_assoc, (andb_assoc (0 <? n)), ranges_overlap_gate by lia.
    apply andb_true_iff. split; [by apply orb_true_iff|]. apply crypto_overlap_spec; [lia|lia|done].
  - intros Hf. inversion_clear Hf as [|? ? Ho1 Hf1]. case_match eqn:E; [|by apply IH].
    apply overlaps_later_spec in E as (r' & Hin & E). apply in_map_iff in Hin as (o' & <- & Hin).
    rewrite Forall_forall in Ho1. destruct (Ho1 o'); [by apply list_elem_of_In|].
    rewrite Forall_forall in Hos. pose proof (Hos o' (proj2 (list_elem_of_In _ _) Hin)) as Hr.
    unfold conflict, in_range in *.
    destruct (region_of o) as [[p n] w], (region_of o') as [[q k] w']. cbn in *.
    rewrite <-!andb_assoc, (andb_assoc (0 <? n)), ranges_overlap_gate in E by lia.
    apply andb_true_iff in E as [Ew E]. apply orb_true_iff in Ew.
    apply crypto_overlap_spec in E; [|lia..]. done.
Qed.

Lemma admissible_spec (c : call) : args_in_range c -> admissible_b c = true <-> admissible c.
Proof.
  intros Ha%in_ranges. unfold admissible_b, admissible.
  rewrite andb_true_iff, negb_true_iff, overlap_spec by done.
  assert (forallb operand_okb (operands c) = true <-> Forall operand_ok (operands c)) as ->; [|done].
  pose proof (limits_ok c) as Hl. induction (operands c) as [|o os IH]; [done|].
  apply Forall_cons in Ha as [Ho Ha], Hl as [Hlo Hl].
  cbn. rewrite andb_true_iff, Forall_cons, operand_okb_spec, IH by done. done.
Qed.

(** ** Every entry point's list of pairs is the general check *)

Lemma overlaps_later_cons (p n q k : Z) (w w' : bool) (rest : list (Z * Z * bool)) :
  0 <= n -> 0 <= k ->
  overlaps_later (p, n, w) ((q, k, w') :: rest) =
  (w || w') && ranges_overlap p n q k || overlaps_later (p, n, w) rest.
Proof.
  intros. cbn [overlaps_later]. rewrite <-!andb_assoc, (andb_assoc (0 <? n)), ranges_overlap_gate by done.
  by destruct (_ && _).
Qed.

Lemma writable_regions_overlap_cons (r : Z * Z * bool) (rest : list (Z * Z * bool)) :
  writable_regions_overlap (r :: rest) = overlaps_later r rest || writable_regions_overlap rest.
Proof. cbn. by destruct (overlaps_later r rest). Qed.

Lemma size_of_nonneg (k : kind) : 0 <= size_of k.
Proof. pose proof (size_of_pos k). lia. Qed.

End checks.

(** Both sides are disjunctions of the same pairs. *)
Ltac nonneg := first [apply size_of_nonneg | assumption | lia].
Ltac same_pairs :=
  repeat first
    [ rewrite writable_regions_overlap_cons
    | rewrite overlaps_later_cons by nonneg ];
  cbn [overlaps_later writable_regions_overlap orb andb];
  repeat match goal with
  | |- context [ranges_overlap ?p ?n ?q ?k] =>
      let E := fresh in
      destruct (ranges_overlap p n q k) eqn:E; rewrite ?(ranges_overlap_comm q k p n), ?E; clear E;
      rewrite ?orb_true_r; [reflexivity|]; cbn [orb]
  end; reflexivity.

Section lists.
Context `{CryptoOps} `{CryptoLayout} `{!CryptoLayoutLaws} `{InterruptAnswers}.

Lemma session_encrypt_pairs (m a al pt ct dl n t : Z) :
  0 <= al -> 0 <= dl ->
  session_encrypt_buffers_overlap m a al pt ct dl n t =
  writable_regions_overlap (map region_of (operands (SessionEncrypt m a al pt ct dl n t))).
Proof. intros. unfold session_encrypt_buffers_overlap. cbn [operands map region_of writes]. same_pairs. Qed.

Lemma session_decrypt_pairs (m a al ct dl n t pt : Z) :
  0 <= al -> 0 <= dl ->
  session_decrypt_buffers_overlap m a al ct dl n t pt =
  writable_regions_overlap (map region_of (operands (SessionDecrypt m a al ct dl n t pt))).
Proof. intros. unfold session_decrypt_buffers_overlap. cbn [operands map region_of writes]. same_pairs. Qed.

Lemma aead_encrypt_pairs (ek mk n a al pt ct dl o : Z) :
  0 <= al -> 0 <= dl ->
  aead_encrypt_buffers_overlap ek mk n a al pt ct o dl =
  writable_regions_overlap (map region_of (operands (AeadEncrypt ek mk n a al pt ct dl o))).
Proof. intros. unfold aead_encrypt_buffers_overlap. cbn [operands map region_of writes]. same_pairs. Qed.

Lemma aead_decrypt_pairs (ek mk n a al ct m pt dl : Z) :
  0 <= al -> 0 <= dl ->
  aead_decrypt_buffers_overlap ek mk n a al ct m pt dl =
  writable_regions_overlap (map region_of (operands (AeadDecrypt ek mk n a al ct m pt dl))).
Proof. intros. unfold aead_decrypt_buffers_overlap. cbn [operands map region_of writes]. same_pairs. Qed.

(** ** Length checks *)

Lemma range_ok_limit (p len : Z) : range_ok p len && (len <=? MAX_SLICE_LEN) = range_ok p len.
Proof.
  unfold range_ok, slice_len_valid. destruct (len <=? MAX_SLICE_LEN); [apply andb_true_r|done].
Qed.

Lemma packet_len_valid_spec (len : Z) : packet_len_valid len = (len <=? CHACHA20_MAX_BYTES).
Proof.
  unfold packet_len_valid, slice_len_valid.
  assert (CHACHA20_MAX_BYTES <= MAX_SLICE_LEN) by (vm_compute; done).
  destruct (Z.leb_spec len CHACHA20_MAX_BYTES); [|apply andb_false_r].
  rewrite andb_true_r. apply Z.leb_le. lia.
Qed.

End lists.

Lemma wire_lengths :
  (Z.of_nat ML_KEM_PUBLICKEY_BYTES = 1568 /\ Z.of_nat ML_KEM_CIPHERTEXT_BYTES = 1568) /\
  (Z.of_nat ML_DSA_PUBLICKEY_BYTES = 2592 /\ Z.of_nat ML_DSA_SIGNATURE_BYTES = 4627) /\
  Z.of_nat X25519_PUBLICKEY_BYTES = 32.
Proof. vm_compute. done. Qed.

Create HintDb entry_points.
#[export] Hint Unfold
  shawncore_crypto_session_manager_init
  shawncore_crypto_session_manager_destroy
  shawncore_crypto_session_manager_initiate_handshake
  shawncore_crypto_session_manager_finalize_handshake
  shawncore_crypto_session_manager_encapsulate_for_peer
  shawncore_crypto_session_manager_encapsulate_authenticated_v2
  shawncore_crypto_session_manager_finalize_authenticated_v2
  shawncore_crypto_session_manager_confirm_peer_v2
  shawncore_crypto_session_manager_zeroize
  shawncore_crypto_session_manager_encrypt_packet
  shawncore_crypto_session_manager_decrypt_packet
  shawncore_crypto_ml_kem_keygen
  shawncore_crypto_ml_kem_decapskey_destroy
  shawncore_crypto_ml_kem_encapsulate
  shawncore_crypto_ml_kem_decapsulate
  shawncore_crypto_ml_kem_sharedkey_destroy
  shawncore_crypto_ml_dsa_keygen
  shawncore_crypto_ml_dsa_signingkey_destroy
  shawncore_crypto_ml_dsa_sign
  shawncore_crypto_ml_dsa_verify
  shawncore_crypto_x25519_keygen
  shawncore_crypto_x25519_secret_destroy
  shawncore_crypto_x25519_diffie_hellman
  shawncore_crypto_x25519_sharedsecret_destroy
  shawncore_crypto_ml_kem_publickey_to_bytes
  shawncore_crypto_ml_kem_publickey_from_bytes
  shawncore_crypto_ml_kem_ciphertext_to_bytes
  shawncore_crypto_ml_kem_ciphertext_from_bytes
  shawncore_crypto_x25519_publickey_to_bytes
  shawncore_crypto_x25519_publickey_from_bytes
  shawncore_crypto_ml_dsa_publickey_to_bytes
  shawncore_crypto_ml_dsa_publickey_from_bytes
  shawncore_crypto_ml_dsa_signature_to_bytes
  shawncore_crypto_ml_dsa_signature_from_bytes
  shawncore_crypto_hmac_sha384
  shawncore_crypto_hkdf_expand_sha384
  shawncore_crypto_aead_encrypt
  shawncore_crypto_aead_decrypt
  shawncore_crypto_entropy_push
  shawncore_crypto_entropy_mix
  shawncore_crypto_self_test
  wire_to_bytes wire_from_bytes : entry_points.

(** The leftmost test of a condition, and its two cases: either the call is refused, or
    the next test is looked at. *)
Ltac first_test b :=
  lazymatch b with
  | ?x || _ => first_test x
  | negb ?x => first_test x
  | _ => constr:(b)
  end.
Ltac tidy :=
  cbn [orb andb negb];
  rewrite ?orb_true_r, ?andb_false_r, ?andb_true_r, ?orb_false_r; cbn [orb andb negb].
Ltac next_test :=
  lazymatch goal with
  | |- context [(if ?b then mret _ else _) _] =>
      let t := first_test b in
      let E := fresh "E" in destruct t eqn:E; rewrite ?E; clear E; tidy
  end.

(** The code of a call beside the specification of its arguments, in the same atoms. *)
Ltac as_regions :=
  try lazymatch goal with
  | |- context [writable_regions_overlap ?rs] =>
      match goal with
      | |- context [if ?b then mret CInvalidLength else _] =>
          lazymatch b with context [ranges_overlap] => idtac end;
          replace b with (writable_regions_overlap rs) by (symmetry; same_pairs)
      end
  end.
Ltac open_call :=
  cbn [run_call operands map region_of writes existsb forallb operand_okb null_fault length_fault misaligned
       argument_error];
  autounfold with entry_points;
  rewrite ?range_ok_limit, ?packet_len_valid_spec,
    ?session_encrypt_pairs, ?session_decrypt_pairs, ?aead_encrypt_pairs, ?aead_decrypt_pairs by assumption;
  cbn [operands map region_of writes];
  repeat match goal with |- context [MAX_APP_INFO_LEN <? ?l] => rewrite (Z.ltb_antisym l) end;
  rewrite ?(proj1 (proj1 wire_lengths)), ?(proj2 (proj1 wire_lengths)),
    ?(proj1 (proj1 (proj2 wire_lengths))), ?(proj2 (proj1 (proj2 wire_lengths))), ?(proj2 (proj2 wire_lengths));
   as_regions; tidy.

(** ** Dereferences of the machine without memory *)

Section blank.
Context `{CryptoOps} `{CryptoLayout} `{!CryptoLayoutLaws} `{InterruptAnswers}.

Lemma blank_array {A} (p : Z) (n : nat) (f : list byte -> M machine A) (w : machine) :
  (array p (S n) ≫= f) (blank w) = Undefined.
Proof.
  unfold array, on_mem, zoom, read_bytes, bytes_at, blank. msimpl. cbn [mem set_mem bytes].
  rewrite Nat2Z.inj_succ, seqZ_cons by lia. cbn [mapM]. rewrite lookup_empty. done.
Qed.

Lemma blank_slice {A} (p len : Z) (f : list byte -> M machine A) (w : machine) :
  f [] (blank w) = Undefined -> (slice_at p len ≫= f) (blank w) = Undefined.
Proof.
  intros Hf. unfold slice_at. destruct (Z.ltb_spec 0 len); [|exact Hf].
  replace (Z.to_nat len) with (S (Z.to_nat len - 1)) by lia. apply blank_array.
Qed.

End blank.

Ltac goes_blank :=
  repeat first [apply blank_array | apply blank_slice | reflexivity].

Section reject.
Context `{CryptoOps} `{CryptoLayout} `{!CryptoLayoutLaws} `{InterruptAnswers}.

(** Every entry point is its checks followed by code that dereferences memory. *)
Lemma checks_split (c : call) :
  args_in_range c -> operands c <> [] ->
  exists body : M machine ShawncoreCryptoErr,
    (forall w, run_call c w = if admissible_b c then body w else Done (argument_error c) w) /\
    (forall w, body (blank w) = Undefined).
Proof.
  intros Ha%in_ranges Hne. unfold admissible_b.
  destruct c; try done; cbn [operands] in Ha; unfold in_range in Ha;
    rewrite ?Forall_cons in Ha; cbn [region_of fst snd] in Ha; destruct_and?; clear Hne.
  all: eexists; split;
    [ intros w; open_call; repeat (next_test; try reflexivity)
    | intros w; cbn beta; goes_blank ].

Qed.

(** A conflict anywhere in the list makes the arguments inadmissible. *)
Lemma conflict_sym (o o' : operand) : conflict o o' -> conflict o' o.
Proof.
  unfold conflict. destruct (region_of o) as [[p n] x], (region_of o') as [[q k] x'].
  intros (Hw & Hn & Hk & Hm). split_and!; [tauto|done|done|].
  destruct Hm as [?|[?|?]]; [tauto|tauto|]. right. right. by apply meets_sym.
Qed.

Lemma admissible_pair (c : call) (i j : nat) (o o' : operand) :
  i <> j -> operands c !! i = Some o -> operands c !! j = Some o' -> conflict o o' -> ~ admissible c.
Proof.
  assert (G : forall i j o o', (i < j)%nat -> operands c !! i = Some o -> operands c !! j = Some o' ->
            conflict o o' -> ~ admissible c).
  { clear i j o o'. intros i j o o' Hij Hi Hj Hc [_ Hp]. revert i j Hij Hi Hj.
    induction Hp as [|x l Hx _ IH]; intros i j Hij Hi Hj; [done|].
    destruct j as [|j]; [lia|]. destruct i as [|i]; cbn in Hi, Hj.
    - simplify_eq. rewrite Forall_lookup in Hx. by eapply Hx.
    - by apply (IH i j); [lia|..]. }
  intros Hij Hi Hj Hc. destruct (decide (i < j)%nat) as [Hlt|Hge]; [by eapply G|].
  apply (G j i o' o); [lia|done|done|by apply conflict_sym].
Qed.

(** Nothing is compared for overlap. *)
Definition unpaired (c : call) : Prop :=
  (length (operands c) <= 1)%nat \/ Forall (fun o => (region_of o).2 = false) (operands c).

Lemma admissible_unpaired (c : call) : unpaired c -> admissible c <-> Forall operand_ok (operands c).
Proof.
  intros Hu. unfold admissible. split; [by intros []|]. intros Hf. split; [done|]. destruct Hu as [Hl|Hr].
  - destruct (operands c) as [|o [|o' l]]; cbn in Hl; [constructor|repeat constructor|lia].
  - induction Hr as [|o l Ho Hr IH]; [constructor|]. apply Forall_cons in Hf as [_ Hf].
    constructor; [|by apply IH]. eapply Forall_impl; [exact Hr|]. intros o' Ho'. cbn beta in Ho'. unfold conflict.
    destruct (region_of o) as [[? ?] ?], (region_of o') as [[? ?] ?]. cbn in Ho, Ho'.
    intros ([?|?] & _); congruence.
Qed.

End reject.

(** A range that is not empty and reaches the end of the address space. *)
Definition runs_past `{CryptoLayout} (o : operand) : Prop :=
  let '(p, n, _) := region_of o in 0 < n /\ 2 ^ 64 <= p + n.

Definition has_length (o : operand) : bool := match o with OSlice _ _ _ _ _ => true | _ => false end.

(** * Claims *)

(** C23: for every entry point that takes pointers, a call with arguments that are not
    admissible is answered with the error of [argument_error] before anything is read or
    written, and nothing changes: a null or misaligned handle, a null array, a length
    over its limit, or two operands of which one is written that share memory.
    Admissible arguments are exactly those with which the code goes on to use the
    caller's memory, which the machine without memory shows. A range that runs past the
    end of the address space is refused where the code looks at the end: an operand with
    a length argument of its own, and an operand that is compared for overlap with
    another one, both not empty and one of them written. It is not looked at elsewhere:
    in a call with one operand (a session or key handle to initialise or destroy, the
    block of [entropy_push]) and in a call that writes nothing ([ml_dsa_verify]), each
    operand is admissible by itself, and a handle or array of fixed size is so as soon
    as it is not null and aligned. *)
Theorem crypto_ffi_checks_exact `{CryptoOps} `{CryptoLayout} `{!CryptoLayoutLaws} `{InterruptAnswers}
    (c : call) (w : machine) :
  args_in_range c -> operands c <> [] ->
  (~ admissible c -> run_call c w = Done (argument_error c) w) /\
  (admissible c <-> run_call c (blank w) = Undefined) /\
  (forall o, o ∈ operands c -> runs_past o -> has_length o = true ->
     run_call c w = Done (argument_error c) w) /\
  (forall i j o o', i <> j -> operands c !! i = Some o -> operands c !! j = Some o' ->
     runs_past o -> 0 < (region_of o').1.2 -> (region_of o).2 || (region_of o').2 = true ->
     run_call c w = Done (argument_error c) w) /\
  (unpaired c -> (admissible c <-> Forall operand_ok (operands c))).
Proof.
  intros Ha Hne. destruct (checks_split c Ha Hne) as (body & Hrun & Hblank).
  pose proof (admissible_spec c Ha) as Hs.
  assert (Href : ~ admissible c -> run_call c w = Done (argument_error c) w).
  { rewrite Hrun. intros Hn. destruct (admissible_b c); [|done]. destruct Hn. by apply Hs. }
  split_and!; [exact Href| | | |exact (admissible_unpaired c)].
  - rewrite Hrun. destruct (admissible_b c).
    + rewrite Hblank. split; [done|]. by intros _; apply Hs.
    + split; [intros Hc; by apply Hs in Hc|done].
  - intros o Ho Hp Hl. apply Href. intros [Hok _]. rewrite Forall_forall in Hok. specialize (Hok o Ho).
    unfold runs_past in Hp. destruct o; try done. cbn in Hok, Hp. lia.
  - intros i j o o' Hij Hi Hj Hp Hn Hw. apply Href. apply (admissible_pair c i j o o' Hij Hi Hj).
    unfold runs_past in Hp. unfold conflict. destruct (region_of o) as [[p n] x], (region_of o') as [[q k] x'].
    cbn in *. apply orb_true_iff in Hw. tauto.
Qed.

(** ** Witnesses *)

#[local] Existing Instance Pool.sample_answers.

Definition empty_machine : machine := MkMachine (MkMem [] ∅ ∅) Pool.sample_world.

(** A ciphertext buffer that runs into the tag is refused, and so is a tag that runs
    past the address space, but the last block of the address space is a session to
    [session_manager_init] whatever its size. *)
Lemma crypto_ffi_checks_exact_witness :
  run_call (SessionEncrypt 8192 0 0 4096 16384 64 20480 16447) empty_machine =
    Done CInvalidLength empty_machine /\
  run_call (SessionEncrypt 8192 0 0 4096 16384 64 20480 (2 ^ 64 - 16)) empty_machine =
    Done CInvalidLength empty_machine /\
  (admissible (SessionInit (2 ^ 64 - 64)) /\ 2 ^ 64 <= 2 ^ 64 - 64 + size_of KSession).
Proof.
  split; [|split].
  - apply (crypto_ffi_checks_exact (SessionEncrypt 8192 0 0 4096 16384 64 20480 16447) empty_machine).
    + repeat constructor; cbn; lia.
    + done.
    + apply (admissible_pair _ 3 5 (OSlice 16384 64 CHACHA20_MAX_BYTES CInvalidLength Updates)
        (OArray 16447 48 Updates)); [done|done|done|].
      cbn. split_and!; [by left|lia|lia|]. right. right. apply meets_iff; lia.
  - refine (proj1 (proj2 (proj2 (proj2 (crypto_ffi_checks_exact
      (SessionEncrypt 8192 0 0 4096 16384 64 20480 (2 ^ 64 - 16)) empty_machine _ _))))
      5%nat 0%nat (OArray (2 ^ 64 - 16) 48 Updates) (OHandle KSession 8192 Updates) _ eq_refl eq_refl _ _ _).
    + repeat constructor; cbn; lia.
    + done.
    + done.
    + split; lia.
    + apply size_of_pos.
    + reflexivity.
  - split; [|vm_compute; discriminate].
    apply (crypto_ffi_checks_exact (SessionInit (2 ^ 64 - 64)) empty_machine).
    + repeat constructor; cbn; lia.
    + done.
    + left. cbn. lia.
    + repeat constructor; vm_compute; done.
Defined.

End CryptoArgs.
