(* ===== verification/CryptoObjects.v ===== *)
(** What the crypto entry points may rely on and what they keep: typed memory, the
    operands a call finds there, and the runs of the single steps the entry points are
    made of. *)

From stdpp Require Import gmap.
From S2P Require Import Prelude CMemory CryptoHost Primitives Session SessionLife EntropyQueue EntropyPool.
From S2P Require Import CryptoTypes CryptoFfi CryptoFfiArgs.
Local Open Scope Z_scope.

Module CryptoObj.
Import CryptoC CryptoArgs.

Section contract.
Context `{CryptoOps} `{CryptoLayout}.

(** * Typed memory *)

(** Arrays have their length, sessions are well formed for some phase. *)
Definition content_ok (v : value) : Prop :=
  match v with
  | MkValue k x =>
      match k return payload k -> Prop with
      | KSession => fun s => exists ph, Life.session_inv ph s
      | KCiphertext1024 => fun c => length c = 1568%nat
      | KSignature87 => fun s => length s = 4627%nat
      | KSharedKey1024 | KX25519Public | KX25519Secret | KX25519SharedSecret => fun b => length b = 32%nat
      | _ => fun _ => True
      end x
  end.

Record typed (m : cmem value) : Prop := {
  ty_wf : mem_wf m;
  ty_content : forall p v, objects m !! p = Some v -> content_ok v
}.

(** Between two calls: memory is typed, the cache-flush callback is registered, and
    nobody is inside the entropy pool. *)
Record machine_ok (w : machine) : Prop := {
  ok_mem : typed (mem w);
  ok_flush : is_Some (c_cache_flush (platform w));
  ok_idle : Pool.locked (Pool.pool (globals w)) = false /\ Pool.mixing (Pool.pool (globals w)) = false /\
            Pool.consumer_gate (globals w) = false;
  ok_queue : exists l, EQ.repr (Pool.queue (globals w)) l
}.

(** * The host's side of the contract *)

(** What a call expects to find at an operand. *)
Definition present (m : cmem value) (o : operand) : Prop :=
  match o with
  | OHandle k p Writes => mapped p (size_of k) m = true
  | OHandle k p _ => is_Some (object_at (T := handle k) p m)
  | OArray p n Writes | OExact p n _ Writes => mapped p n m = true
  | OArray p n _ | OExact p n _ _ => is_Some (bytes_at p (Z.to_nat n) m)
  | OSlice p n _ _ _ => 0 < n -> is_Some (bytes_at p (Z.to_nat n) m)
  end.

(** Arguments that the checks refuse need not point anywhere. *)
Definition call_ok (c : call) (w : machine) : Prop :=
  args_in_range c /\ (admissible c -> Forall (present (mem w)) (operands c)) /\
  (c = EntropyMix -> is_Some (c_disable_interrupts (platform w)) /\ is_Some (c_restore_interrupts (platform w))).

(** The ranges a call may change. *)
Definition written_range (o : operand) : option (Z * Z) :=
  let '(p, n, w) := region_of o in if w : bool then Some (p, n) else None.
Definition written (c : call) : list (Z * Z) := omap written_range (operands c).

(** ** Calls that fail *)

(** The session of a handshake call, which a failure may have wiped. *)
Definition disturbed (c : call) : list (Z * Z) :=
  match c with
  | SessionInitiate m _ _ _ | SessionFinalize m _ _ _ _ _ _ | SessionEncapsulate m _ _ _ _ _ _ _ _ _
  | SessionEncapsulateV2 m _ _ _ _ _ _ _ _ _ _ _ _ _ | SessionFinalizeV2 m _ _ _ _ _ _ _ _ _ _ _ _
  | SessionConfirmV2 m _ _ _ => [(m, size_of KSession)]
  | _ => []
  end.

(** The two outputs that are zeroed on failure: the plaintext of a packet or message
    whose tag does not verify, and the output of an oversized HKDF request. *)
Definition zeroed (c : call) (e : ShawncoreCryptoErr) : list (Z * Z) :=
  match c with
  | SessionDecrypt _ _ _ _ dl _ _ pt | AeadDecrypt _ _ _ _ _ _ _ pt dl =>
      match e with CVerificationFailed => [(pt, dl)] | _ => [] end
  | HkdfExpand _ _ _ o ol => match e with CHkdfError => [(o, ol)] | _ => [] end
  | _ => []
  end.

(** Memory after a call that failed: as before outside these ranges; a disturbed session
    is as before or wiped; the others hold zeros. *)
Record failed (c : call) (e : ShawncoreCryptoErr) (m m' : cmem value) : Prop := {
  fl_frame : untouched (disturbed c ++ zeroed c e) m m';
  fl_session : Forall (fun r => objects m' !! r.1 = objects m !! r.1 \/
                                objects m' !! r.1 = Some (MkValue KSession Sess.new)) (disturbed c);
  fl_zero : Forall (fun r => bytes_at r.1 (Z.to_nat r.2) m' = Some (zeros (Z.to_nat r.2))) (zeroed c e)
}.

(** Memory after a call, from its answer. *)
Definition outcome (c : call) (m : cmem value) (e : ShawncoreCryptoErr) (m' : cmem value) : Prop :=
  match e with CSuccess => untouched (written c) m m' | _ => failed c e m m' end.

End contract.

(** * Steps *)

Section steps.
Context `{CryptoLaws} `{CryptoLayout} `{!CryptoLayoutLaws}.

Lemma extent_pos (v : value) : 0 < extent v.
Proof. apply size_of_pos. Qed.

Lemma handle_at (k : kind) (p : Z) (x : payload k) (m : cmem value) :
  object_at p m = Some (MkHandle x) <-> objects m !! p = Some (MkValue k x).
Proof.
  unfold object_at. split.
  - destruct (objects m !! p) as [v|]; [|done]. cbn. intros E. f_equal. exact (unwrap_Some _ _ E).
  - intros ->. exact (unwrap_wrap (MkHandle x)).
Qed.

Lemma load_run (k : kind) (p : Z) (x : payload k) (w : machine) :
  object_at p (mem w) = Some (MkHandle x) -> load k p w = Done x w.
Proof.
  intros E. unfold load, on_mem, zoom, ptr_read. msimpl. rewrite E. by destruct w.
Qed.

Lemma array_run (p : Z) (n : nat) (l : list byte) (w : machine) :
  bytes_at p n (mem w) = Some l -> array p n w = Done l w.
Proof. intros E. unfold array, on_mem, zoom, read_bytes. msimpl. rewrite E. by destruct w. Qed.

Lemma handle_store_run (k : kind) (p : Z) (x : payload k) (w : machine) :
  mapped p (size_of k) (mem w) = true ->
  store k p x w = Done tt (set_mem (place p (MkValue k x) (mem w)) w).
Proof. intros E. unfold store, on_mem, zoom, ptr_write. msimpl. cbn [csize ct_handle]. by rewrite E. Qed.

Lemma copy_out_run (p : Z) (l : list byte) (w : machine) :
  mapped p (zlen l) (mem w) = true -> copy_out p l w = Done tt (set_mem (place_bytes p l (mem w)) w).
Proof. intros E. unfold copy_out, on_mem, zoom, write_bytes. msimpl. by rewrite E, orb_true_r. Qed.

Lemma with_session_run {A} (p : Z) (s : Sess.SessionManager) (op : M Sess.world A) (r : A) (v : Sess.world)
    (w : machine) :
  object_at p (mem w) = Some (MkHandle (k := KSession) s) -> op (Sess.MkWorld s (platform w)) = Done r v ->
  with_session p op w = Done r (session_back p v w).
Proof.
  intros E Eo. unfold with_session. rewrite (mbind_done _ _ _ _ _ (load_run KSession p s w E)).
  unfold zoom, session_view. by rewrite Eo.
Qed.

(** ** What they keep *)

Lemma typed_place (p : Z) (v : value) (m : cmem value) :
  typed m -> content_ok v -> 0 < p -> mapped p (extent v) m = true ->
  is_multiple_of p (alignment v) = true -> typed (place p v m).
Proof.
  intros [Hw Hc] Hv Hp Hm Ha. split; [apply mem_wf_place; auto using extent_pos|].
  intros q u. destruct (decide (q = p)) as [->|Hne].
  - rewrite place_lookup. by intros [= <-].
  - rewrite place_lookup_ne by done. intros [? _]. eauto.
Qed.

Lemma typed_put_handle (p : Z) (k : kind) (x y : payload k) (m : cmem value) :
  typed m -> objects m !! p = Some (MkValue k x) -> content_ok (MkValue k y) ->
  typed (put_object p (MkValue k y) m).
Proof.
  intros [Hw Hc] Hp Hy. split; [by eapply mem_wf_put|].
  intros q u. cbn. destruct (decide (q = p)) as [->|Hne].
  - rewrite lookup_insert_eq. by intros [= <-].
  - rewrite lookup_insert_ne by done. apply Hc.
Qed.

Lemma typed_remove (p : Z) (m : cmem value) : typed m -> typed (remove p m).
Proof.
  intros [Hw Hc]. split; [by apply mem_wf_remove|]. intros q u. cbn.
  rewrite lookup_delete_Some. intros [_ ?]. eauto.
Qed.

Lemma typed_release (p : Z) (v : value) (l : list byte) (m : cmem value) :
  typed m -> objects m !! p = Some v -> zlen l <= extent v -> typed (put_bytes p l (remove p m)).
Proof.
  intros Hm Hp Hl. destruct (typed_remove p m Hm) as [_ Hc]. destruct Hm as [Hw _].
  split; [by eapply mem_wf_release|done].
Qed.

Lemma typed_put_bytes (p : Z) (l : list byte) (m : cmem value) :
  typed m -> is_Some (bytes_at p (length l) m) -> typed (put_bytes p l m).
Proof. intros [Hw Hc] Hb. split; [by apply mem_wf_put_bytes|done]. Qed.

Lemma typed_place_bytes (p : Z) (l : list byte) (m : cmem value) : typed m -> typed (place_bytes p l m).
Proof.
  intros [Hw Hc]. split; [by apply mem_wf_place_bytes|]. intros q u.
  change (objects (place_bytes p l m)) with (objects (clobber p (zlen l) m)).
  rewrite clobber_lookup. intros [? _]. eauto.
Qed.

Lemma machine_ok_mem (m : cmem value) (w : machine) : machine_ok w -> typed m -> machine_ok (set_mem m w).
Proof. intros [_ Hf Hi Hq] Hm. by split. Qed.

Lemma machine_ok_platform (h : CHost) (w : machine) :
  machine_ok w -> is_Some (c_cache_flush h) -> machine_ok (set_platform h w).
Proof. intros [Hm _ Hi Hq] Hf. by split. Qed.

End steps.

End CryptoObj.
