(* ===== verification/CryptoFfiRun.v ===== *)
(** Runs of the crypto entry points on typed memory: with the operands the contract
    asks for, every call returns, keeps memory typed, and changes nothing outside the
    operands it writes; a call that fails leaves its outputs alone, but for the two
    kinds it zeroes. *)

From stdpp Require Import gmap.
From S2P Require Import Prelude CMemory CryptoHost Primitives ToyCrypto Aead AuthEncoding Session Handshake.
From S2P Require Import AuthSession SessionLife EntropyQueue EntropyPool.
From S2P Require Import CryptoTypes CryptoFfi CryptoFfiArgs CryptoObjects.
Local Open Scope Z_scope.

Module CryptoRun.
Import CryptoC CryptoArgs CryptoObj.

Lemma singleton_in {A} (x : A) (W : list A) : x ∈ W -> [x] ⊆ W.
Proof. set_solver. Qed.

(** * How a call ends *)

Section ends.
Context `{CryptoLaws} `{CryptoLayout} `{!CryptoLayoutLaws} `{InterruptAnswers}.

(** [m] succeeds from [w] and changes at most [W]. *)
Definition succeeds (W : list (Z * Z)) (m : M machine ShawncoreCryptoErr) (w : machine) : Prop :=
  exists w', m w = Done CSuccess w' /\ machine_ok w' /\ untouched W (mem w) (mem w').

(** [m] returns, and its answer and the memory afterwards satisfy [Q]. *)
Definition ends (Q : ShawncoreCryptoErr -> cmem value -> Prop) (m : M machine ShawncoreCryptoErr)
    (w : machine) : Prop :=
  exists e w', m w = Done e w' /\ machine_ok w' /\ Q e (mem w').

Lemma untouched_part (p n k : Z) (m m' : cmem value) :
  n <= k -> untouched [(p, n)] m m' -> untouched [(p, k)] m m'.
Proof.
  intros Hn [Hs Ho Hb]. split; [done| |].
  - intros q u Hq. apply Ho. inversion_clear Hq as [|? ? Hm _]. constructor; [|done]. cbn in *.
    intros (a & Ha & Hu). apply Hm. exists a. unfold within in *. split; [lia|done].
  - intros a Ha. apply Hb. inversion_clear Ha as [|? ? Hm _]. constructor; [|done]. unfold within in *. cbn in *. lia.
Qed.

(** What was done before a call succeeds must lie in what it may write. *)
Lemma succeeds_ends (c : call) (m0 : cmem value) (m : M machine ShawncoreCryptoErr) (w : machine) :
  untouched (written c) m0 (mem w) -> succeeds (written c) m w -> ends (outcome c m0) m w.
Proof. intros Hu (w' & E & Hw & Hu'). exists CSuccess, w'. split; [done|]. split; [done|]. cbn. by etrans. Qed.

Lemma ends_ret (Q : ShawncoreCryptoErr -> cmem value -> Prop) (e : ShawncoreCryptoErr) (w : machine) :
  machine_ok w -> Q e (mem w) -> ends Q (mret e) w.
Proof. intros Hw HQ. by exists e, w. Qed.

Lemma succeeds_ret (W : list (Z * Z)) (w : machine) : machine_ok w -> succeeds W (mret CSuccess) w.
Proof. intros Hw. exists w. split; [done|]. split; [done|reflexivity]. Qed.

(** Nothing has been changed. *)
Lemma outcome_same (c : call) (e : ShawncoreCryptoErr) (m : cmem value) :
  zeroed c e = [] -> outcome c m e m.
Proof.
  intros Hz. assert (failed c e m m).
  { split; [reflexivity| |by rewrite Hz]. induction (disturbed c); constructor; [by left|done]. }
  unfold outcome. by destruct e.
Qed.

(** Only the session of a handshake call has been changed, and a failure kept or wiped it. *)
Lemma outcome_session (c : call) (p : Z) (s s' : Sess.SessionManager) (e : ShawncoreCryptoErr) (m : cmem value) :
  (p, size_of KSession) ∈ written c -> disturbed c = [(p, size_of KSession)] -> zeroed c e = [] ->
  objects m !! p = Some (MkValue KSession s) -> (e <> CSuccess -> s' = s \/ s' = Sess.new) ->
  outcome c m e (put_object p (MkValue KSession s') m).
Proof.
  intros HW Hd Hz Hs He.
  pose proof (untouched_put p (MkValue KSession s') m extent_pos) as Hu. cbn in Hu.
  assert (Hf : e <> CSuccess -> failed c e m (put_object p (MkValue KSession s') m)).
  { intros Hne. split; [by rewrite Hd, Hz| |by rewrite Hz]. rewrite Hd. constructor; [|done]. cbn.
    rewrite lookup_insert_eq, Hs. destruct (He Hne) as [->| ->]; [by left|by right]. }
  unfold outcome. destruct e; try (apply Hf; done). eapply untouched_weaken; [|exact Hu]. by apply singleton_in.
Qed.

(** A first step. *)
Lemma ends_step {A} (Q : ShawncoreCryptoErr -> cmem value -> Prop) (m : M machine A)
    (f : A -> M machine ShawncoreCryptoErr) (a : A) (w w1 : machine) :
  m w = Done a w1 -> ends Q (f a) w1 -> ends Q (m ≫= f) w.
Proof. intros E (e & w' & E' & H'). exists e, w'. by rewrite (mbind_done _ _ _ _ _ E). Qed.

Lemma succeeds_step {A} (W V : list (Z * Z)) (m : M machine A) (f : A -> M machine ShawncoreCryptoErr)
    (a : A) (w w1 : machine) :
  m w = Done a w1 -> untouched V (mem w) (mem w1) -> V ⊆ W -> succeeds W (f a) w1 ->
  succeeds W (m ≫= f) w.
Proof.
  intros E Hu HW (w' & E' & Hw' & Hu'). exists w'.
  rewrite (mbind_done _ _ _ _ _ E). split; [done|]. split; [done|].
  etrans; [|exact Hu']. by eapply untouched_weaken.
Qed.

(** ** Reads *)

Lemma content_of (k : kind) (p : Z) (x : payload k) (w : machine) :
  machine_ok w -> object_at p (mem w) = Some (MkHandle x) -> content_ok (MkValue k x).
Proof. intros Hw E%handle_at. exact (ty_content _ (ok_mem _ Hw) _ _ E). Qed.

Lemma ends_load (Q : ShawncoreCryptoErr -> cmem value -> Prop) (k : kind) (p : Z)
    (f : payload k -> M machine ShawncoreCryptoErr) (w : machine) :
  machine_ok w -> is_Some (object_at (T := handle k) p (mem w)) ->
  (forall x, object_at p (mem w) = Some (MkHandle x) -> content_ok (MkValue k x) -> ends Q (f x) w) ->
  ends Q (load k p ≫= f) w.
Proof.
  intros Hw [[x] E] Hf. eapply ends_step; [by apply load_run|]. by apply Hf, (content_of k p x w Hw E).
Qed.

Lemma ends_array (Q : ShawncoreCryptoErr -> cmem value -> Prop) (p : Z) (n : nat)
    (f : list byte -> M machine ShawncoreCryptoErr) (w : machine) :
  is_Some (bytes_at p n (mem w)) ->
  (forall l, length l = n -> bytes_at p n (mem w) = Some l -> ends Q (f l) w) ->
  ends Q (array p n ≫= f) w.
Proof.
  intros [l E] Hf. eapply ends_step; [by apply array_run|]. apply Hf; [by eapply bytes_at_length|done].
Qed.

(** A slice is as long as said; empty ones are not looked at. *)
Lemma ends_slice (Q : ShawncoreCryptoErr -> cmem value -> Prop) (p len : Z)
    (f : list byte -> M machine ShawncoreCryptoErr) (w : machine) :
  0 <= len -> (0 < len -> is_Some (bytes_at p (Z.to_nat len) (mem w))) ->
  (forall l, zlen l = len -> bytes_at p (length l) (mem w) = Some l -> ends Q (f l) w) ->
  ends Q (slice_at p len ≫= f) w.
Proof.
  intros Hlen Hb Hf. unfold slice_at. destruct (Z.ltb_spec 0 len) as [Hlt|Hge].
  - apply ends_array; [by apply Hb|]. intros l Hl E. apply Hf; [unfold zlen; lia|by rewrite Hl].
  - apply (Hf []); [unfold zlen; cbn; lia|done].
Qed.

(** ** Writes *)

Lemma succeeds_store (W : list (Z * Z)) (k : kind) (p : Z) (x : payload k)
    (f : unit -> M machine ShawncoreCryptoErr) (w : machine) :
  machine_ok w -> content_ok (MkValue k x) -> 0 < p -> ptr_is_aligned k p = true ->
  mapped p (size_of k) (mem w) = true -> (p, size_of k) ∈ W ->
  (forall m', storage m' = storage (mem w) -> machine_ok (set_mem m' w) -> succeeds W (f tt) (set_mem m' w)) ->
  succeeds W (store k p x ≫= f) w.
Proof.
  intros Hw Hx Hp Ha Hm Hin Hf.
  refine (succeeds_step _ [(p, size_of k)] _ _ tt _ _ (handle_store_run k p x w Hm)
    (untouched_place p (MkValue k x) (mem w) extent_pos) _ _); [by apply singleton_in|].
  apply Hf; [done|]. apply machine_ok_mem; [done|]. by apply typed_place; [apply ok_mem|..].
Qed.

Lemma succeeds_copy (W : list (Z * Z)) (p n : Z) (l : list byte) (f : unit -> M machine ShawncoreCryptoErr)
    (w : machine) :
  machine_ok w -> length l = Z.to_nat n -> 0 <= n -> mapped p n (mem w) = true -> (p, n) ∈ W ->
  (forall m', storage m' = storage (mem w) -> machine_ok (set_mem m' w) -> succeeds W (f tt) (set_mem m' w)) ->
  succeeds W (copy_out p l ≫= f) w.
Proof.
  intros Hw Hl Hn. assert (n = zlen l) as -> by (unfold zlen; lia). intros Hm Hin Hf.
  eapply succeeds_step; [by apply copy_out_run|apply untouched_place_bytes|by apply singleton_in|].
  apply Hf; [done|]. apply machine_ok_mem; [done|]. by apply typed_place_bytes, ok_mem.
Qed.

(** In place: bytes that were there are replaced. *)
Lemma succeeds_fill (W : list (Z * Z)) (p n : Z) (l l0 : list byte) (f : unit -> M machine ShawncoreCryptoErr)
    (w : machine) :
  machine_ok w -> length l = length l0 -> zlen l0 = n -> is_Some (bytes_at p (length l0) (mem w)) ->
  (p, n) ∈ W ->
  (forall m', (forall q n, is_Some (bytes_at q n (mem w)) -> is_Some (bytes_at q n m')) ->
     machine_ok (set_mem m' w) -> succeeds W (f tt) (set_mem m' w)) ->
  succeeds W (fill p l ≫= f) w.
Proof.
  intros Hw Hl Hn Hb HW Hf. rewrite <- Hl in Hb. unfold zlen in Hn. rewrite <- Hl in Hn.
  fold (zlen l) in Hn. subst n.
  eapply succeeds_step; [done|apply (untouched_put_bytes p l)|by apply singleton_in|].
  apply Hf; [intros q n; apply put_bytes_present|]. apply machine_ok_mem; [done|].
  apply typed_put_bytes; [by apply ok_mem|done].
Qed.

(** Bytes written back as they were read change nothing. *)
Lemma fill_same (p : Z) (l : list byte) (w : machine) :
  bytes_at p (length l) (mem w) = Some l -> fill p l w = Done tt w.
Proof.
  intros E. unfold fill, on_mem, zoom. msimpl. rewrite put_bytes_same by exact E. by destruct w.
Qed.

Lemma ends_fill_same (Q : ShawncoreCryptoErr -> cmem value -> Prop) (p : Z) (n : nat) (l : list byte)
    (f : unit -> M machine ShawncoreCryptoErr) (w : machine) :
  bytes_at p n (mem w) = Some l -> ends Q (f tt) w -> ends Q (fill p l ≫= f) w.
Proof.
  intros E. eapply ends_step. apply fill_same. by rewrite (bytes_at_length _ _ _ _ E).
Qed.

(** The last step of a call that zeroes its output. *)
Lemma ends_zeroed (c : call) (p n : Z) (l : list byte) (e : ShawncoreCryptoErr) (w : machine) :
  machine_ok w -> zlen l = n -> bytes_at p (length l) (mem w) = Some l ->
  disturbed c = [] -> zeroed c e = [(p, n)] -> e <> CSuccess ->
  ends (outcome c (mem w)) (fill p (zeros (length l)) ;; mret e) w.
Proof.
  intros Hw Hn Hb Hd Hz He. set (z := zeros (length l)).
  assert (Hl : length z = length l) by apply length_zeros.
  eapply ends_step; [done|]. apply ends_ret.
  - apply machine_ok_mem; [done|]. apply typed_put_bytes; [by apply ok_mem|]. rewrite Hl. by eexists.
  - assert (failed c e (mem w) (put_bytes p z (mem w))); [|by destruct e].
    split; [|by rewrite Hd|].
    + rewrite Hd, Hz. cbn [app]. replace n with (zlen z) by (unfold zlen in *; lia). apply untouched_put_bytes.
    + rewrite Hz. constructor; [|done]. cbn.
      replace (Z.to_nat n) with (length l) by (unfold zlen in *; lia). fold z. rewrite <- Hl. apply bytes_at_put.
Qed.

(** ** Calls into the crate *)

(** A function that only needs the platform. *)
Lemma ends_platform {A} (Q : ShawncoreCryptoErr -> cmem value -> Prop) (R : A -> Prop) (op : M CHost A)
    (f : A -> M machine ShawncoreCryptoErr) (w : machine) :
  machine_ok w -> answers R op ->
  (forall cb h, c_cache_flush h = Some cb -> exists a h', op h = Done a h' /\ c_cache_flush h' = Some cb) ->
  (forall a h, R a -> machine_ok (set_platform h w) -> ends Q (f a) (set_platform h w)) ->
  ends Q (on_platform op ≫= f) w.
Proof.
  intros Hw HR Hop Hf. destruct (ok_flush _ Hw) as [cb Hcb]. destruct (Hop cb _ Hcb) as (a & h' & E & Hh).
  eapply ends_step; [unfold on_platform, zoom; by rewrite E|].
  apply Hf; [by eapply answers_done|]. apply machine_ok_platform; [done|by eexists].
Qed.

(** A method of the session at [p]; [o] is the operation of the phase machine it is. *)
Lemma step_answer {T A} (op : M T A) (g : A -> bool) (v v' : T) (b : bool) :
  (r ← op; mret (g r)) v = Done b v' -> exists r, op v = Done r v' /\ b = g r.
Proof. msimpl. destruct (op v) as [r v1| |]; [|done..]. intros [= <- <-]. by exists r. Qed.

Lemma ends_session {A} (Q : ShawncoreCryptoErr -> cmem value -> Prop) (R : A -> Prop) (o : Life.session_op)
    (g : A -> bool) (p : Z) (op : M Sess.world A) (f : A -> M machine ShawncoreCryptoErr) (w : machine) :
  machine_ok w -> is_Some (object_at (T := handle KSession) p (mem w)) ->
  (forall v, Life.session_step o v = (r ← op; mret (g r)) v) -> Life.op_ok o -> answers R op ->
  (forall r s s' h, let m' := put_object p (MkValue KSession s') (mem w) in
     R r -> objects (mem w) !! p = Some (MkValue KSession s) -> (g r = false -> s' = s \/ s' = Sess.new) ->
     machine_ok (set_platform h (set_mem m' w)) -> ends Q (f r) (set_platform h (set_mem m' w))) ->
  ends Q (with_session p op ≫= f) w.
Proof.
  intros Hw [[s] Es] Ho Hok HR Hf. destruct (ok_flush _ Hw) as [cb Hcb].
  destruct (content_of KSession p s w Hw Es) as [ph Hinv].
  destruct (Life.step_follows cb o ph (Sess.MkWorld s (platform w)) Hcb Hinv Hok)
    as (b & v & ph' & E & Hcb' & Hinv' & _ & Hkept).
  rewrite Ho in E. apply step_answer in E as (r & E & ->).
  eapply ends_step; [by eapply with_session_run|]. unfold session_back.
  apply (Hf r s (Sess.sm v)); [by eapply answers_done|by apply handle_at|exact Hkept|].
  apply machine_ok_platform; [|by eexists]. apply machine_ok_mem; [done|].
  eapply typed_put_handle; [by apply ok_mem|by apply handle_at|by exists ph'].
Qed.

(** A method that leaves the session as it was. *)
Lemma ends_session_kept {A} (Q : ShawncoreCryptoErr -> cmem value -> Prop) (p : Z) (s : Sess.SessionManager)
    (op : M Sess.world A) (r : A) (v : Sess.world) (f : A -> M machine ShawncoreCryptoErr) (w : machine) :
  object_at p (mem w) = Some (MkHandle (k := KSession) s) -> op (Sess.MkWorld s (platform w)) = Done r v ->
  Sess.sm v = s -> ends Q (f r) (set_platform (Sess.ch v) w) -> ends Q (with_session p op ≫= f) w.
Proof.
  intros Es E Hs. apply ends_step. rewrite (with_session_run p s op r v w Es E). f_equal. unfold session_back.
  rewrite Hs. apply handle_at in Es. destruct w as [[st ob by_] g]. cbn in *. unfold put_object. cbn.
  by rewrite insert_id.
Qed.

End ends.

(** * What the crate's functions answer *)

Lemma answers_true {T A} (op : M T A) : answers (fun _ => True) op.
Proof. intros s. by destruct (op s). Qed.

Section functions.
Context `{CryptoLaws}.

(** Functions of the platform that return whenever the flush callback is there. *)
Definition total {A} (op : M CHost A) : Prop :=
  forall cb h, c_cache_flush h = Some cb -> exists a h', op h = Done a h' /\ c_cache_flush h' = Some cb.

Lemma total_ret {A} (a : A) : total (mret a).
Proof. intros cb h Hcb. by exists a, h. Qed.

Lemma total_flush {A} (l : list byte) (f : unit -> M CHost A) : total (f tt) -> total (secure_cache_flush l ≫= f).
Proof.
  intros Hf cb h Hcb. rewrite (mbind_done _ _ _ _ _ (secure_cache_flush_ok cb l h Hcb)). by apply Hf.
Qed.

Ltac totals :=
  repeat match goal with
  | |- total (match ?x with _ => _ end) => destruct x
  | |- total (mret _) => apply total_ret
  | |- total (_ ≫= _) => apply total_flush
  end.

Lemma total_kem_encapsulate (ek : PublicKey1024) (e : list byte) : total (ml_kem_encapsulate ek e).
Proof. unfold ml_kem_encapsulate. totals. Qed.
Lemma total_kem_decapsulate (dk : DecapsKey1024) (ct : list byte) : total (ml_kem_decapsulate dk ct).
Proof. unfold ml_kem_decapsulate. totals. Qed.
Lemma total_sign (sk : SigningKey87) (m : list byte) : total (ml_dsa_sign sk m).
Proof. unfold ml_dsa_sign. totals. Qed.
Lemma total_dh (sk pk : list byte) : total (x25519_diffie_hellman sk pk).
Proof. unfold x25519_diffie_hellman. totals. Qed.
Lemma total_hmac (k m : list byte) : total (hmac_sha384 k m).
Proof. unfold hmac_sha384. totals. Qed.
Lemma total_hkdf (k i o : list byte) : total (hkdf_expand_sha384 k i o).
Proof. unfold hkdf_expand_sha384. totals. Qed.
Lemma total_aead_encrypt (ek mk n a pt ct mac : list byte) : total (aead_encrypt ek mk n a pt ct mac).
Proof. unfold aead_encrypt. totals. Qed.
Lemma total_aead_decrypt (ek mk n a ct mac pt : list byte) : total (aead_decrypt ek mk n a ct mac pt).
Proof. unfold aead_decrypt. cbv zeta. totals. Qed.

(** ** Lengths *)

(** Up to the next call whose answer matters. *)
Ltac deciding :=
  repeat match goal with
  | |- answers _ (match ?x with _ => _ end) => destruct x eqn:?
  | |- answers _ (mret _) => apply answers_ret
  end.

Definition ok_answer {A} (P : A -> Prop) (r : result A CryptoError) : Prop :=
  match r with Ok a => P a | Err _ => True end.

Lemma answers_kem_encapsulate (ek : PublicKey1024) (e : list byte) :
  answers (ok_answer (fun a => length a.1 = 32%nat /\ length a.2 = 1568%nat)) (ml_kem_encapsulate ek e).
Proof.
  unfold ml_kem_encapsulate. pose proof (kem_ct_len ek e) as Hc. pose proof (kem_enc_ss_len ek e) as Hs.
  destruct (encapsulate_deterministic ek e). answering. done.
Qed.

Lemma answers_kem_decapsulate (dk : DecapsKey1024) (ct : list byte) :
  answers (ok_answer (fun a => length a = 32%nat)) (ml_kem_decapsulate dk ct).
Proof. unfold ml_kem_decapsulate. answering. apply kem_ss_len. Qed.

Lemma answers_sign (sk : SigningKey87) (m : list byte) :
  answers (ok_answer (fun a => length a = 4627%nat)) (ml_dsa_sign sk m).
Proof. unfold ml_dsa_sign. answering; [done|]. apply sig_len. Qed.

Lemma answers_dh (sk pk : list byte) :
  answers (ok_answer (fun a => length a = 32%nat)) (x25519_diffie_hellman sk pk).
Proof. unfold x25519_diffie_hellman. answering; [done|done|]. apply dh_len. Qed.

Lemma answers_hmac (k m : list byte) : answers (ok_answer (fun a => length a = 48%nat)) (hmac_sha384 k m).
Proof. unfold hmac_sha384. answering; [|done]. apply hmac_len. Qed.

Lemma answers_aead_encrypt (ek mk n a pt ct mac : list byte) :
  length mac = 48%nat ->
  answers (fun r => length r.1.2 = length ct /\ length r.2 = 48%nat) (aead_encrypt ek mk n a pt ct mac).
Proof.
  intros Hm. unfold aead_encrypt.
  destruct (negb _ || _) eqn:E; [by apply answers_ret|]. apply orb_false_iff in E as [E _].
  apply negb_false_iff, Nat.eqb_eq in E. cbv zeta.
  answering; cbn; rewrite ?secure_zeroize_length, ?hmac_len; split; try done.
  all: by erewrite keystream_len by eassumption.
Qed.

Lemma answers_aead_decrypt (ek mk n a ct mac pt : list byte) :
  answers (fun r => length r.2 = length pt) (aead_decrypt ek mk n a ct mac pt).
Proof.
  unfold aead_decrypt. destruct (negb _ || _) eqn:E; [by apply answers_ret|]. apply orb_false_iff in E as [E _].
  apply negb_false_iff, Nat.eqb_eq in E. cbv zeta.
  answering; cbn; rewrite ?secure_zeroize_length; try done. by erewrite keystream_len by eassumption.
Qed.

Lemma answers_seal (aad pt ct n tag : list byte) :
  length n = 12%nat -> length tag = 48%nat ->
  answers (fun r => length r.1.1.2 = length ct /\ length r.1.2 = 12%nat /\ length r.2 = 48%nat)
    (Sess.encrypt_packet aad pt ct n tag).
Proof.
  intros Hn Ht. unfold Sess.encrypt_packet. cbv zeta. apply answers_any. intros w. deciding; try done.
  eapply answers_bind; [apply answers_zoom, answers_aead_encrypt; exact Ht|].
  intros [[[[]|e] ct'] tag'] [Hc' Ht']; cbn in Hc', Ht'; answering; cbn; split_and!; try done.
  all: apply Sess.length_nonce_of.
Qed.

Lemma answers_open (aad ct n tag pt : list byte) :
  answers (fun r => length r.2 = length pt) (Sess.decrypt_packet aad ct n tag pt).
Proof.
  unfold Sess.decrypt_packet. cbv zeta. apply answers_any. intros w. deciding; try done.
  apply answers_any. intros fresh. deciding; try done.
  eapply answers_bind; [apply answers_zoom, answers_aead_decrypt|].
  intros [[[]|e] pt'] Hp; cbn in Hp; answering; done.
Qed.

(** ** Answers after the checks *)

Lemma answers_hmac_ok (k m : list byte) :
  answers (fun r => exists mac, r = Ok mac /\ length mac = 48%nat) (hmac_sha384 k m).
Proof.
  unfold hmac_sha384. destruct (hmac_any_key k) as [x ->]. answering. eexists. split; [done|apply hmac_len].
Qed.

Lemma answers_hkdf_exact (k i o : list byte) :
  length k = 48%nat ->
  answers (fun r => r.1 = Ok tt /\ length r.2 = length o \/ r = (Err HkdfError, zeros (length o)))
    (hkdf_expand_sha384 k i o).
Proof.
  intros Hk. unfold hkdf_expand_sha384.
  destruct (proj2 (hkdf_prk_len k)) as [x ->]; [lia|]. answering; [|by right].
  left. split; [done|]. by eapply hkdf_expand_len.
Qed.

Lemma answers_aead_encrypt_ok (ek mk n a pt ct mac : list byte) :
  length ek = 32%nat -> length n = 12%nat -> length ct = length pt -> zlen pt <= CHACHA20_MAX_BYTES ->
  answers (fun r => r.1.1 = Ok tt /\ length r.1.2 = length ct /\ length r.2 = 48%nat)
    (aead_encrypt ek mk n a pt ct mac).
Proof.
  intros He Hn Hl Hm. unfold aead_encrypt.
  rewrite <- Hl, Nat.eqb_refl, (proj2 (Z.ltb_ge _ _) Hm). cbn [negb orb]. cbv zeta.
  destruct (chacha20_new_ok ek n He Hn) as [c ->]. destruct (keystream_ok c pt Hm) as [o Eo]. rewrite Eo.
  destruct (hmac_any_key mk) as [x ->]. answering. cbn. apply keystream_len in Eo.
  split_and!; [done|congruence|apply hmac_len].
Qed.

Lemma answers_aead_decrypt_exact (ek mk n a ct mac pt : list byte) :
  length ek = 32%nat -> length n = 12%nat -> length pt = length ct -> zlen ct <= CHACHA20_MAX_BYTES ->
  answers (fun r => r.1 = Ok tt /\ length r.2 = length pt \/ r = (Err VerificationFailed, zeros (length pt)))
    (aead_decrypt ek mk n a ct mac pt).
Proof.
  intros He Hn Hl Hm. unfold aead_decrypt.
  rewrite Hl, Nat.eqb_refl, (proj2 (Z.ltb_ge _ _) Hm). cbn [negb orb]. cbv zeta.
  destruct (hmac_any_key mk) as [x ->]. destruct (negb _); [apply answers_ret; right; by rewrite <- Hl|].
  destruct (chacha20_new_ok ek n He Hn) as [c ->]. destruct (keystream_ok c ct Hm) as [o Eo]. rewrite Eo.
  answering. left. cbn. apply keystream_len in Eo. split; [done|congruence].
Qed.

(** A seal on a well-formed session succeeds or changes nothing at all. *)
Lemma seal_exact (cb : CFnPtr) (ph : Life.phase) (aad pt ct n tag : list byte) (v : Sess.world) :
  c_cache_flush (Sess.ch v) = Some cb -> Life.session_inv ph (Sess.sm v) ->
  length ct = length pt -> zlen pt <= CHACHA20_MAX_BYTES ->
  exists r v', Sess.encrypt_packet aad pt ct n tag v = Done r v' /\ c_cache_flush (Sess.ch v') = Some cb /\
    (r.1.1.1 = Ok tt \/ r = (Err InvalidState, ct, n, tag) /\ v' = v).
Proof.
  intros Hcb Hi Hl Hm. pose proof (Life.si_counter _ _ Hi) as Hw.
  unfold Sess.encrypt_packet. msimpl.
  destruct (negb _ || _ || _) eqn:Eg; [by eexists _, _; split; [done|split; [done|right]]|].
  destruct (Z.eqb_spec (Sess.tx_counter (Sess.sm v)) u64_max) as [|Hne];
    [by eexists _, _; split; [done|split; [done|right]]|].
  apply orb_false_iff in Eg as [[Ee _]%orb_false_iff _]. apply negb_false_iff in Ee.
  destruct (Life.established_keys ph (Sess.sm v) Hi Ee) as (tx & rx & -> & _ & Htx & _).
  edestruct (Sess.aead_encrypt_total cb) as (r & h' & E & Hcb'); [exact Hcb|].
  erewrite Sess.session_host_done by exact E.
  assert (HR := answers_done _ _ _ _ _ (answers_aead_encrypt_ok (take 32 tx) _ _ aad pt ct tag
    ltac:(rewrite length_take; lia) (Sess.length_nonce_of _) Hl Hm) E).
  destruct r as [[res ct'] tag']. cbn in HR. destruct HR as [-> _].
  unfold in_width, u64_max in *. unfold checked_add. rewrite (proj2 (Z.ltb_lt _ _)) by lia.
  eexists _, _. split; [done|]. split; [done|]. by left.
Qed.

(** An opening succeeds, or refuses the tag and zeroes the buffer, or changes nothing. *)
Lemma open_exact (cb : CFnPtr) (ph : Life.phase) (aad ct n tag pt : list byte) (v : Sess.world) :
  c_cache_flush (Sess.ch v) = Some cb -> Life.session_inv ph (Sess.sm v) ->
  length n = 12%nat -> length pt = length ct -> zlen ct <= CHACHA20_MAX_BYTES ->
  exists r v', Sess.decrypt_packet aad ct n tag pt v = Done r v' /\ c_cache_flush (Sess.ch v') = Some cb /\
    (r.1 = Ok tt \/
     r = (Err VerificationFailed, zeros (length pt)) /\ Sess.sm v' = Sess.sm v \/
     r = (Err InvalidState, pt) /\ v' = v).
Proof.
  intros Hcb Hi Hn Hl Hm. destruct (Life.si_window _ _ Hi) as [seen Hwin].
  unfold Sess.decrypt_packet. msimpl.
  destruct (negb _ || _ || _) eqn:Eg; [by eexists _, _; split; [done|split; [done|right; right]]|].
  apply orb_false_iff in Eg as [[Ee _]%orb_false_iff _]. apply negb_false_iff in Ee.
  destruct (Life.established_keys ph (Sess.sm v) Hi Ee) as (tx & rx & _ & -> & _ & Hrx).
  destruct (Sess.check_run n v seen Hwin Hn) as (c & -> & Hc & Hinv).
  destruct c as [[]|e]; [|rewrite (Hinv ltac:(done)); by eexists _, _; split; [done|split; [done|right; right]]].
  destruct (proj1 Hc eq_refl) as [_ Hf].
  edestruct (Sess.aead_decrypt_total cb) as (r & h' & E' & Hcb'); [exact Hcb|].
  erewrite Sess.session_host_done by exact E'.
  assert (HR := answers_done _ _ _ _ _ (answers_aead_decrypt_exact (take 32 rx) _ n aad ct tag pt
    ltac:(rewrite length_take; lia) Hn Hl Hm) E').
  destruct r as [res pt']. cbn in HR. destruct HR as [[-> _]|[= -> ->]].
  - destruct (Sess.commit_run n (Sess.set_ch h' v) seen Hwin Hf) as (s' & -> & _).
    eexists _, _. split; [done|]. split; [done|]. by left.
  - eexists _, _. split; [done|]. split; [done|]. right. by left.
Qed.

Lemma answers_initiate (e : list byte) :
  answers (ok_answer (fun a => length a.2 = 32%nat)) (Hs.initiate_handshake e).
Proof.
  unfold Hs.initiate_handshake, ml_kem_keygen, x25519_keygen. cbv zeta. answering; [done|]. apply public_len.
Qed.

Lemma answers_encapsulate_inner (ek : PublicKey1024) (peer e salt info ct0 pk0 : list byte) (want : bool) :
  answers (fun r => is_ok r.1.1 = true -> length r.1.2 = 1568%nat /\ length r.2 = 32%nat)
    (Hs.encapsulate_inner ek peer e salt info ct0 pk0 want).
Proof.
  unfold Hs.encapsulate_inner. cbv zeta. deciding; [done|].
  eapply answers_bind; [apply answers_zoom, answers_kem_encapsulate|]. intros [[ss ct]|err] Hk; [|by answering].
  cbn in Hk. answering; cbn; try done. intros _. split; [by destruct Hk|]. unfold x25519_keygen in *. simplify_eq.
  apply public_len.
Qed.

Lemma answers_encapsulate (ek : PublicKey1024) (peer e salt info ct0 pk0 : list byte) :
  answers (fun r => is_ok r.1.1 = true -> length r.1.2 = 1568%nat /\ length r.2 = 32%nat)
    (Hs.encapsulate_for_peer ek peer e salt info ct0 pk0).
Proof.
  unfold Hs.encapsulate_for_peer. eapply answers_bind; [apply answers_encapsulate_inner|].
  intros [[[]] ] Hr; answering; done.
Qed.

Lemma answers_sign_ctx (sk : SigningKey87) (m c : list byte) :
  answers (ok_answer (fun a => length a = 4627%nat)) (ml_dsa_sign_with_context sk m c).
Proof. unfold ml_dsa_sign_with_context. answering; cbn; try done. by eapply sig_ctx_len. Qed.

Lemma answers_tag (k l d : list byte) : answers (ok_answer (fun a => length a = 48%nat)) (confirmation_tag k l d).
Proof. unfold confirmation_tag. cbv zeta. deciding; [done|]. apply answers_hmac. Qed.

Lemma answers_encapsulate_auth (own : SigningKey87) (vk : PublicKey87) (ek : PublicKey1024)
    (peer e salt app ct0 pk0 sig0 conf0 : list byte) :
  answers (fun r => is_ok r.1.1.1.1 = true -> length r.1.1.1.2 = 1568%nat /\ length r.1.1.2 = 32%nat /\
                    length r.1.2 = 4627%nat /\ length r.2 = 48%nat)
    (Auth.encapsulate_authenticated own vk ek peer e salt app ct0 pk0 sig0 conf0).
Proof.
  unfold Auth.encapsulate_authenticated. cbv zeta. deciding; [|done].
  eapply answers_bind; [apply answers_encapsulate_inner|].
  intros [[[[confirmation|]|] ct] pk] Hr; [|by answering..]. cbn in Hr. cbv iota beta.
  eapply (answers_bind (ok_answer (fun a => length a.1.1 = 48%nat /\ length a.2 = 4627%nat))).
  - eapply answers_bind; [apply answers_zoom, answers_tag|]. intros [tag|] Ht; [|by answering].
    eapply answers_bind; [apply answers_zoom, answers_sign_ctx|]. intros [sig|] Hs; answering; done.
  - intros [[[tag digest] sig]|] Ho; answering; cbn; [|done]. cbn in Ho. naive_solver.
Qed.

Lemma answers_complete (own : SigningKey87) (peer ct conf salt binding transcript digest : list byte) :
  answers (ok_answer (fun a => length a.1.1 = 4627%nat /\ length a.1.2 = 48%nat))
    (Auth.complete_authenticated_finalize own peer ct conf salt binding transcript digest).
Proof.
  unfold Auth.complete_authenticated_finalize. cbv zeta.
  apply answers_any. intros w. deciding; try done.
  do 3 (apply answers_any; intros ?; deciding; try done).
  apply answers_any. intros expected. deciding; try done.
  eapply answers_bind; [apply answers_zoom, answers_tag|]. intros [tag|] Ht; [|by answering].
  eapply answers_bind; [apply answers_zoom, answers_sign_ctx|]. intros [sig|] Hs; answering; done.
Qed.

Lemma answers_finalize_auth (own : SigningKey87) (vk : PublicKey87)
    (peer ct sig conf salt app sig0 conf0 : list byte) :
  answers (fun r => is_ok r.1.1 = true -> length r.1.2 = 4627%nat /\ length r.2 = 48%nat)
    (Auth.finalize_authenticated own vk peer ct sig conf salt app sig0 conf0).
Proof.
  unfold Auth.finalize_authenticated. cbv zeta. apply answers_any. intros w. deciding; try done.
  eapply answers_bind; [apply answers_complete|]. intros [[[s t] k]|] Ho; answering; done.
Qed.

End functions.

(** * Every call *)

(** Go through the checks of an admissible call. *)
Ltac pass_checks :=
  repeat lazymatch goal with
  | |- _ -> ends _ (if ?b then _ else _) _ =>
      let t := first_test b in
      let E := fresh "T" in
      destruct t eqn:E; rewrite ?E; tidy; try (intros; discriminate)
  end; intros _.

(** The arguments of a call as facts, and its code after the checks. *)
Ltac enter :=
  intros w Hw Ha Hp; pose proof (in_ranges _ Ha) as Hr; unfold in_range in Hr; unfold args_in_range in Ha;
  unfold admissible_b;
  cbn [operands] in Ha, Hp, Hr; rewrite ?Forall_cons in Ha, Hp, Hr;
  cbn [present] in Hp; cbn [region_of fst snd] in Hr; destruct_and?;
  open_call; pass_checks.

(** One step of the code. *)
Ltac reads :=
  repeat lazymatch goal with
  | Hw : machine_ok ?w, Hp : is_Some (object_at ?p (mem ?w)) |- ends ?Q (load ?k ?p ≫= ?f) ?w =>
      refine (ends_load Q k p f w Hw Hp _); intros ? ? ?
  | Hp : is_Some (bytes_at ?p _ (mem ?w)) |- ends ?Q (array ?p ?n ≫= ?f) ?w =>
      refine (ends_array Q p n f w Hp _); intros ? ? ?
  | Hn : 0 <= ?n, Hp : 0 < ?n -> is_Some (bytes_at ?p _ (mem ?w)) |- ends ?Q (slice_at ?p ?n ≫= ?f) ?w =>
      refine (ends_slice Q p n f w Hn Hp _); intros ? ? ?
  end.

Ltac listed :=
  unfold written; cbn [operands omap list_omap written_range region_of writes];
  repeat first [apply list_elem_of_here | apply list_elem_of_further].

Ltac session_as o g lem :=
  lazymatch goal with
  | Hw : machine_ok ?w |- ends ?Q (with_session ?p ?op ≫= ?f) ?w =>
      refine (ends_session Q _ o g p op f w Hw _ _ _ lem _);
        [assumption|reflexivity|first [exact I|assumption]|];
      let r := fresh "r" in let s := fresh "s" in let h := fresh "h" in
      intros r s ? h m' HQ Hobj Hkept Hw'
  end.
Ltac session :=
  lazymatch goal with
  | |- ends _ (with_session _ ?op ≫= _) _ =>
      lazymatch op with
      | Hs.initiate_handshake ?e =>
          session_as (Life.OInitiate e) (@is_ok (PublicKey1024 * X25519Public) CryptoError) (answers_initiate e)
      | Hs.finalize_handshake ?x ?c ?s ?i =>
          session_as (Life.OFinalize x c s i) (@is_ok unit CryptoError) (answers_true op)
      | Hs.encapsulate_for_peer ?k ?x ?e ?s ?i ?c0 ?p0 =>
          session_as (Life.OEncapsulate k x e s i c0 p0)
            (fun r : result unit CryptoError * Ciphertext1024 * X25519Public => is_ok r.1.1)
            (answers_encapsulate k x e s i c0 p0)
      | Auth.encapsulate_authenticated ?o ?v ?k ?x ?e ?s ?i ?c0 ?p0 ?s0 ?t0 =>
          session_as (Life.OEncapsulateAuth o v k x e s i c0 p0 s0 t0)
            (fun r : result unit CryptoError * Ciphertext1024 * X25519Public * Signature87 * list byte =>
               is_ok r.1.1.1.1)
            (answers_encapsulate_auth o v k x e s i c0 p0 s0 t0)
      | Auth.finalize_authenticated ?o ?v ?x ?c ?g ?t ?s ?i ?s0 ?t0 =>
          session_as (Life.OFinalizeAuth o v x c g t s i s0 t0)
            (fun r : result unit CryptoError * Signature87 * list byte => is_ok r.1.1)
            (answers_finalize_auth o v x c g t s i s0 t0)
      | Auth.confirm_peer ?v ?g ?t =>
          session_as (Life.OConfirm v g t) (@is_ok unit CryptoError) (answers_true op)
      | Sess.encrypt_packet ?a ?p ?c ?n ?t =>
          session_as (Life.OSeal a p c n t)
            (fun r : result unit CryptoError * list byte * list byte * list byte => is_ok r.1.1.1)
            (answers_seal a p c n t ltac:(assumption) ltac:(assumption))
      | Sess.decrypt_packet ?a ?c ?n ?t ?p =>
          session_as (Life.OOpen a c n t p) (fun r : result unit CryptoError * list byte => is_ok r.1)
            (answers_open a c n t p)
      | Sess.zeroize_session => session_as (@Life.OZeroize _) (fun _ : unit => true) (answers_true op)
      end
  end.

Ltac platform tot lem :=
  lazymatch goal with
  | Hw : machine_ok ?w |- ends ?Q (on_platform ?op ≫= ?f) ?w =>
      refine (ends_platform Q _ op f w Hw lem tot _);
      let r := fresh "r" in let h := fresh "h" in intros r h HQ Hw'
  end.

Ltac returns_from tot :=
  lazymatch goal with
  | Hw : machine_ok ?w |- ends ?Q (on_platform ?op ≫= ?f) ?w =>
      refine (ends_platform Q (fun _ => True) op f w Hw (answers_true op) _ _); [apply tot|];
      let r := fresh "r" in let h := fresh "h" in intros r h _ ?; clear Hw
  end.

(** The end of a call that changed nothing, and of one that changed only its session. *)
Ltac unchanged := apply ends_ret; [assumption|apply outcome_same; reflexivity].
Ltac session_only :=
  match goal with
  | Hobj : objects _ !! _ = Some (MkValue KSession ?s), Hkept : _ -> _ \/ _ |- ends (outcome ?c _) (mret ?e) _ =>
      apply ends_ret; [assumption|];
      refine (outcome_session c _ s _ e _ _ eq_refl eq_refl Hobj _);
        [listed|intros He; apply Hkept; first [reflexivity|by destruct (_ : result _ _)]]
  end.

(** Lengths after the checks. *)
Ltac lens :=
  unfold zlen in *;
  repeat match goal with T : (_ <=? _) = true |- _ => apply Z.leb_le in T end; lia.

(** From here on the call succeeds; what it did before is in its outputs. *)
Ltac succeeding :=
  apply succeeds_ends;
  [ first [ reflexivity
          | refine (untouched_weaken _ _ _ _ _ (untouched_put _ (MkValue KSession _) _ extent_pos));
            apply singleton_in; listed ]
  | ].

Lemma aligned_pos (p : Z) : in_width 64 p -> is_null p = false -> 0 < p.
Proof. intros [? ?] Hn. apply is_null_false in Hn. lia. Qed.

Lemma mapped_storage {U} (p n : Z) (m m' : cmem U) :
  storage m' = storage m -> mapped p n m' = mapped p n m.
Proof. unfold mapped. by intros ->. Qed.

Ltac room :=
  first [assumption
    | match goal with
      | Hs : storage ?m' = storage ?m |- mapped ?p ?n _ = true =>
          change (mapped p n m' = true); rewrite (mapped_storage p n m m' Hs); clear Hs; room
      end].
Ltac writes_out :=
  repeat lazymatch goal with
  | |- succeeds ?W (store ?k ?p ?x ≫= ?f) ?w =>
      refine (succeeds_store W k p x f w _ _ _ _ _ _ _);
        [assumption|first [exact I|assumption]|by apply aligned_pos|assumption|room|listed|intros ? ? ?]
  | Hm : mapped ?p ?n _ = true |- succeeds ?W (copy_out ?p ?l ≫= ?f) ?w =>
      refine (succeeds_copy W p n l f w _ _ _ _ _ _);
        [assumption|assumption|done|room|listed|intros ? ? ?]
  | |- succeeds ?W (mret CSuccess) ?w => by apply succeeds_ret
  end.

(** The buffer at [p] was read as [l0]; a buffer of the same length replaces it. *)
Ltac fills :=
  repeat lazymatch goal with
  | E : bytes_at ?p _ _ = Some ?l0 |- succeeds ?W (fill ?p ?l ≫= ?f) ?w =>
      refine (succeeds_fill W p _ l l0 f w _ _ _ _ _ _);
        [ assumption | congruence
        | first [eassumption | unfold zlen; match goal with L : length l0 = _ |- _ => rewrite L end; reflexivity]
        | repeat match goal with Hk : forall q n, is_Some _ -> is_Some _ |- _ => apply Hk; clear Hk end;
          match goal with L : length l0 = _ |- _ => rewrite L | _ => idtac end; eexists; exact E
        | listed | intros ? ? ? ]
  end; by apply succeeds_ret.

#[local] Opaque bytes_at object_at.

Section calls.
Context `{CryptoLaws} `{CryptoLayout} `{!CryptoLayoutLaws} `{InterruptAnswers}.

Definition safe_call (c : call) : Prop :=
  forall w, machine_ok w -> args_in_range c -> Forall (present (mem w)) (operands c) ->
    admissible_b c = true -> ends (outcome c (mem w)) (run_call c) w.

(** A packet call is a method of a well-formed session. *)
Lemma session_there (m : Z) (w : machine) :
  machine_ok w -> is_Some (object_at (T := handle KSession) m (mem w)) ->
  exists s ph cb, object_at m (mem w) = Some (MkHandle (k := KSession) s) /\ Life.session_inv ph s /\
    c_cache_flush (platform w) = Some cb.
Proof.
  intros Hw [[s] Es]. destruct (content_of KSession m s w Hw Es) as [ph Hi]. destruct (ok_flush _ Hw) as [cb Hcb].
  by exists s, ph, cb.
Qed.

(** A packet call that succeeds goes on with the session written back. *)
Lemma ends_packet {A} (c : call) (R : A -> Prop) (o : Life.session_op) (g : A -> bool) (cb : CFnPtr) (ph : Life.phase)
    (p : Z) (s : Sess.SessionManager) (op : M Sess.world A) (r : A) (v : Sess.world)
    (f : A -> M machine ShawncoreCryptoErr) (w : machine) :
  machine_ok w -> object_at p (mem w) = Some (MkHandle (k := KSession) s) ->
  op (Sess.MkWorld s (platform w)) = Done r v -> answers R op ->
  (forall v, Life.session_step o v = (r ← op; mret (g r)) v) ->
  Life.follows cb o ph (Sess.MkWorld s (platform w)) -> (p, size_of KSession) ∈ written c ->
  (forall m', (forall q n, is_Some (bytes_at q n (mem w)) -> is_Some (bytes_at q n m')) -> R r ->
     machine_ok (set_platform (Sess.ch v) (set_mem m' w)) ->
     succeeds (written c) (f r) (set_platform (Sess.ch v) (set_mem m' w))) ->
  ends (outcome c (mem w)) (with_session p op ≫= f) w.
Proof.
  intros Hw Es E HR Hstep (b & v' & ph' & E' & Hcb' & Hinv' & _) HW Hf.
  rewrite Hstep in E'. apply step_answer in E' as (r' & E' & _). rewrite E in E'. injection E' as <- <-.
  eapply ends_step; [by eapply with_session_run|]. unfold session_back. apply succeeds_ends.
  { refine (untouched_weaken _ _ _ _ _ (untouched_put _ (MkValue KSession _) _ extent_pos)). by apply singleton_in. }
  apply Hf; [done|by eapply answers_done|]. apply machine_ok_platform; [|by eexists]. apply machine_ok_mem; [done|].
  eapply typed_put_handle; [by apply ok_mem|by apply handle_at|by exists ph'].
Qed.

(** ** Sessions *)

Lemma safe_init (m : Z) : safe_call (SessionInit m).
Proof.
  enter. assert (content_ok (MkValue KSession Sess.new)) by (exists Life.Idle; apply Life.new_inv).
  succeeding. writes_out.
Qed.

Lemma safe_initiate (m e pk x : Z) : safe_call (SessionInitiate m e pk x).
Proof.
  enter. reads. session. destruct r as [[pk' x']|err]; [|session_only]. succeeding. writes_out.
Qed.

Lemma safe_finalize (m x ct s sl i il : Z) : safe_call (SessionFinalize m x ct s sl i il).
Proof. enter. reads. session. destruct r as [|err]; session_only. Qed.

Lemma safe_encapsulate (m pk x e s sl i il ct my : Z) : safe_call (SessionEncapsulate m pk x e s sl i il ct my).
Proof.
  enter. reads. session. destruct r as [[[u|err] ct'] my']; [|session_only].
  destruct (HQ eq_refl). succeeding. writes_out.
Qed.

Lemma safe_encapsulate_v2 (m sk vk pk x e s sl i il ct my sig conf : Z) :
  safe_call (SessionEncapsulateV2 m sk vk pk x e s sl i il ct my sig conf).
Proof.
  enter. reads. session. destruct r as [[[[[u|err] ct'] my'] sig'] conf']; [|session_only].
  destruct (HQ eq_refl) as (? & ? & ? & ?). succeeding. writes_out.
Qed.

Lemma safe_finalize_v2 (m sk vk x ct psig pconf s sl i il sig conf : Z) :
  safe_call (SessionFinalizeV2 m sk vk x ct psig pconf s sl i il sig conf).
Proof.
  enter. reads. session. destruct r as [[[u|err] sig'] conf']; [|session_only].
  destruct (HQ eq_refl) as (? & ?). succeeding. writes_out.
Qed.

Lemma safe_confirm (m vk sig conf : Z) : safe_call (SessionConfirmV2 m vk sig conf).
Proof. enter. reads. session. destruct r as [|err]; session_only. Qed.

Lemma safe_zeroize (m : Z) : safe_call (SessionZeroize m).
Proof. enter. session. succeeding. by apply succeeds_ret. Qed.

Lemma safe_encrypt (m a al pt ct dl n t : Z) : safe_call (SessionEncrypt m a al pt ct dl n t).
Proof.
  enter. reads.
  match goal with Hp : is_Some (object_at m _) |- _ =>
    destruct (session_there m w Hw Hp) as (s & ph & cb & Es & Hi & Hcb) end.
  destruct (seal_exact cb ph l l0 l1 l2 l3 (Sess.MkWorld s (platform w)) Hcb Hi ltac:(lens) ltac:(lens))
    as (r & v & E & Hcb' & [Hok|[-> ->]]).
  - refine (ends_packet _ _ (Life.OSeal l l0 l1 l2 l3)
      (fun r : result unit CryptoError * list byte * list byte * list byte => is_ok r.1.1.1) cb ph m s _ r v _ w Hw Es E
      (answers_seal l l0 l1 l2 l3 ltac:(done) ltac:(done)) (fun _ => eq_refl)
      (Life.seal_follows cb l l0 l1 l2 l3 ph (Sess.MkWorld s (platform w)) Hcb Hi) _ _); [listed|].
    intros m' Hb HQ Hw'. destruct r as [[[res ct'] n'] t']. cbn in Hok, HQ. subst res.
    destruct HQ as (? & ? & ?). fills.
  - eapply ends_session_kept; [exact Es|exact E|done|]. cbv zeta iota.
    assert (machine_ok (set_platform (platform w) w)) by (apply machine_ok_platform; [done|by eexists]).
    repeat (eapply ends_fill_same; [eassumption|]). unchanged.
Qed.

Lemma safe_decrypt (m a al ct dl n t pt : Z) : safe_call (SessionDecrypt m a al ct dl n t pt).
Proof.
  enter. reads.
  match goal with Hp : is_Some (object_at m _) |- _ =>
    destruct (session_there m w Hw Hp) as (s & ph & cb & Es & Hi & Hcb) end.
  destruct (open_exact cb ph l l0 l1 l2 l3 (Sess.MkWorld s (platform w)) Hcb Hi ltac:(done) ltac:(lens) ltac:(lens))
    as (r & v & E & Hcb' & [Hok|[[-> Hs]|[-> ->]]]).
  - refine (ends_packet _ _ (Life.OOpen l l0 l1 l2 l3) (fun r : result unit CryptoError * list byte => is_ok r.1)
      cb ph m s _ r v _ w Hw Es E (answers_open l l0 l1 l2 l3) (fun _ => eq_refl)
      (Life.open_follows cb l l0 l1 l2 l3 ph (Sess.MkWorld s (platform w)) Hcb Hi ltac:(done)) _ _); [listed|].
    intros m' Hb HQ Hw'. destruct r as [res pt']. cbn in Hok, HQ. subst res. fills.
  - eapply ends_session_kept; [exact Es|exact E|exact Hs|].
    apply (ends_zeroed _ _ dl _ _ (set_platform (Sess.ch v) w)); try done.
    apply machine_ok_platform; [done|by eexists].
  - eapply ends_session_kept; [exact Es|exact E|done|]. cbv zeta iota.
    assert (machine_ok (set_platform (platform w) w)) by (apply machine_ok_platform; [done|by eexists]).
    eapply ends_fill_same; [eassumption|]. unchanged.
Qed.

(** ** Keys *)

Lemma safe_kem_keygen (e pk dk : Z) : safe_call (KemKeygen e pk dk).
Proof. enter. reads. succeeding. unfold ml_kem_keygen. writes_out. Qed.

Lemma safe_kem_encapsulate (pk e ss ct : Z) : safe_call (KemEncapsulate pk e ss ct).
Proof.
  enter. reads. platform (total_kem_encapsulate x l) (answers_kem_encapsulate x l).
  destruct r as [[ss' ct']|err]; [|unchanged]. destruct HQ. succeeding. writes_out.
Qed.

Lemma safe_kem_decapsulate (dk ct ss : Z) : safe_call (KemDecapsulate dk ct ss).
Proof.
  enter. reads. platform (total_kem_decapsulate x x0) (answers_kem_decapsulate x x0).
  destruct r as [ss'|err]; [|unchanged]. succeeding. writes_out.
Qed.

Lemma safe_dsa_keygen (e pk sk : Z) : safe_call (DsaKeygen e pk sk).
Proof. enter. reads. succeeding. unfold ml_dsa_keygen. writes_out. Qed.

Lemma safe_sign (sk m ml sig : Z) : safe_call (DsaSign sk m ml sig).
Proof.
  enter. reads. platform (total_sign x l) (answers_sign x l).
  destruct r as [s'|err]; [|unchanged]. succeeding. writes_out.
Qed.

Lemma safe_verify (pk m ml sig : Z) : safe_call (DsaVerify pk m ml sig).
Proof. enter. reads. unchanged. Qed.

Lemma safe_x_keygen (e pk sk : Z) : safe_call (XKeygen e pk sk).
Proof.
  enter. reads. pose proof (public_len (secret_from l)). pose proof (secret_len l ltac:(assumption)).
  succeeding. unfold x25519_keygen. writes_out.
Qed.

Lemma safe_dh (sk pk ss : Z) : safe_call (XDiffieHellman sk pk ss).
Proof.
  enter. reads. platform (total_dh x x0) (answers_dh x x0).
  destruct r as [ss'|err]; [|unchanged]. succeeding. writes_out.
Qed.

(** ** Destruction *)

Lemma succeeds_drop_key (W : list (Z * Z)) (k : kind) (p : Z) (w : machine) :
  machine_ok w -> is_Some (object_at (T := handle k) p (mem w)) -> (p, size_of k) ∈ W ->
  succeeds W (drop_key k p ;; mret CSuccess) w.
Proof.
  intros Hw [[x] E] HW. refine (succeeds_step _ [(p, size_of k)] _ _ tt _ (set_mem (remove p (mem w)) w) _ _ _ _).
  - unfold drop_key. by rewrite (mbind_done _ _ _ _ _ (load_run k p x w E)).
  - apply untouched_remove; [apply size_of_pos|apply extent_pos].
  - by apply singleton_in.
  - apply succeeds_ret, machine_ok_mem; [done|]. by apply typed_remove, ok_mem.
Qed.

Lemma succeeds_drop_array (W : list (Z * Z)) (k : kind) (n : nat) (p : Z) (w : machine) :
  machine_ok w -> is_Some (object_at (T := handle k) p (mem w)) -> Z.of_nat n <= size_of k ->
  (p, size_of k) ∈ W -> succeeds W (drop_array k n p ;; mret CSuccess) w.
Proof.
  intros Hw [[x] E] Hn HW.
  assert (Hz : zlen (zeros n) = Z.of_nat n) by (unfold zlen; by rewrite length_zeros).
  refine (succeeds_step _ [(p, size_of k)] _ _ tt _ (set_mem (put_bytes p (zeros n) (remove p (mem w))) w) _ _ _ _).
  - unfold drop_array. by rewrite (mbind_done _ _ _ _ _ (load_run k p x w E)).
  - etrans; [apply (untouched_remove p (size_of k)); [apply size_of_pos|apply extent_pos]|].
    apply untouched_part with (n := zlen (zeros n)); [lia|]. apply untouched_put_bytes.
  - by apply singleton_in.
  - apply succeeds_ret, machine_ok_mem; [done|].
    eapply (typed_release p (MkValue k x)); [by apply ok_mem|by apply handle_at|cbn; lia].
Qed.

Lemma safe_decapskey_destroy (p : Z) : safe_call (KemDecapsKeyDestroy p).
Proof. enter. succeeding. apply succeeds_drop_key; [done|done|listed]. Qed.

Lemma safe_signingkey_destroy (p : Z) : safe_call (DsaSigningKeyDestroy p).
Proof. enter. succeeding. apply succeeds_drop_key; [done|done|listed]. Qed.

Lemma safe_sharedkey_destroy (p : Z) : safe_call (KemSharedKeyDestroy p).
Proof. enter. succeeding. apply succeeds_drop_array; [done|done|by vm_compute|listed]. Qed.

Lemma safe_x_secret_destroy (p : Z) : safe_call (XSecretDestroy p).
Proof. enter. succeeding. apply succeeds_drop_array; [done|done|by vm_compute|listed]. Qed.

Lemma safe_x_sharedsecret_destroy (p : Z) : safe_call (XSharedSecretDestroy p).
Proof. enter. succeeding. apply succeeds_drop_array; [done|done|by vm_compute|listed]. Qed.

Lemma safe_session_destroy (m : Z) : safe_call (SessionDestroy m).
Proof.
  enter. session. succeeding.
  eapply (succeeds_step _ [(m, size_of KSession)]); [reflexivity| | |].
  - apply untouched_remove; [apply size_of_pos|apply extent_pos].
  - apply singleton_in. listed.
  - apply succeeds_ret, machine_ok_mem; [done|]. apply typed_remove, (ok_mem _ Hw').
Qed.

(** ** Wire encoding *)

(** The length argument has been compared. *)
Ltac exact_length :=
  match goal with T : (?l =? _) = true |- _ => apply Z.eqb_eq in T; subst l end.

Lemma safe_kem_pk_to (v o l : Z) : safe_call (KemPublicKeyToBytes v o l).
Proof.
  enter. exact_length. reads. succeeding. pose proof (ek_bytes_len x). cbv zeta. writes_out.
Qed.

Lemma safe_kem_ct_to (v o l : Z) : safe_call (KemCiphertextToBytes v o l).
Proof. enter. exact_length. reads. succeeding. cbv zeta. writes_out. Qed.

Lemma safe_x_pk_to (v o l : Z) : safe_call (XPublicToBytes v o l).
Proof. enter. exact_length. reads. succeeding. cbv zeta. writes_out. Qed.

Lemma safe_dsa_pk_to (v o l : Z) : safe_call (DsaPublicKeyToBytes v o l).
Proof.
  enter. exact_length. reads. succeeding. pose proof (vk_bytes_len x). cbv zeta. writes_out.
Qed.

Lemma safe_dsa_sig_to (v o l : Z) : safe_call (DsaSignatureToBytes v o l).
Proof. enter. exact_length. reads. succeeding. cbv zeta. writes_out. Qed.

Lemma safe_kem_pk_from (b l o : Z) : safe_call (KemPublicKeyFromBytes b l o).
Proof.
  enter. exact_length. reads. destruct (PublicKey1024_from_bytes _) as [x|]; [|unchanged].
  succeeding. writes_out.
Qed.

Lemma safe_kem_ct_from (b l o : Z) : safe_call (KemCiphertextFromBytes b l o).
Proof. enter. exact_length. reads. succeeding. unfold ml_kem_ciphertext_decode. writes_out. Qed.

Lemma safe_x_pk_from (b l o : Z) : safe_call (XPublicFromBytes b l o).
Proof. enter. exact_length. reads. succeeding. unfold x25519_publickey_decode. writes_out. Qed.

Lemma safe_dsa_pk_from (b l o : Z) : safe_call (DsaPublicKeyFromBytes b l o).
Proof.
  enter. exact_length. reads. destruct (PublicKey87_from_bytes _) as [x|]; [|unchanged].
  succeeding. writes_out.
Qed.

Lemma safe_dsa_sig_from (b l o : Z) : safe_call (DsaSignatureFromBytes b l o).
Proof. enter. exact_length. reads. succeeding. unfold ml_dsa_signature_decode. writes_out. Qed.

(** ** Symmetric functions *)

Lemma safe_hmac (k d dl o : Z) : safe_call (Hmac k d dl o).
Proof.
  enter. reads. platform (total_hmac l l0) (answers_hmac_ok l l0).
  destruct HQ as (mac & -> & ?). succeeding. fills.
Qed.

Lemma safe_hkdf (p i il o ol : Z) : safe_call (HkdfExpand p i il o ol).
Proof.
  enter. reads. platform (total_hkdf l l0 l1) (answers_hkdf_exact l l0 l1 ltac:(done)).
  destruct r as [res out]. destruct HQ as [[Hok ?]|[= -> ->]]; cbn in *.
  - subst res. succeeding. fills.
  - by apply (ends_zeroed _ _ ol _ _ (set_platform h w)).
Qed.

Lemma safe_aead_encrypt (ek mk n a al pt ct dl o : Z) : safe_call (AeadEncrypt ek mk n a al pt ct dl o).
Proof.
  enter. reads.
  platform (total_aead_encrypt l l0 l1 l2 l3 l4 l5)
    (answers_aead_encrypt_ok l l0 l1 l2 l3 l4 l5 ltac:(done) ltac:(done) ltac:(lens) ltac:(lens)).
  destruct r as [[res ct'] mac']. destruct HQ as (Hok & ? & ?). cbn in *. subst res. succeeding. fills.
Qed.

Lemma safe_aead_decrypt (ek mk n a al ct m pt dl : Z) : safe_call (AeadDecrypt ek mk n a al ct m pt dl).
Proof.
  enter. reads. platform (total_aead_decrypt l l0 l1 l2 l3 l4 l5)
    (answers_aead_decrypt_exact l l0 l1 l2 l3 l4 l5 ltac:(done) ltac:(done) ltac:(lens) ltac:(lens)).
  destruct r as [res pt']. destruct HQ as [[Hok ?]|[= -> ->]]; cbn in *.
  - subst res. succeeding. fills.
  - by apply (ends_zeroed _ _ dl _ _ (set_platform h w)).
Qed.

(** ** Entropy and self-test *)

Lemma machine_ok_globals (g : Pool.world) (w : machine) :
  machine_ok w -> is_Some (c_cache_flush (Pool.ch g)) ->
  Pool.locked (Pool.pool g) = false /\ Pool.mixing (Pool.pool g) = false /\ Pool.consumer_gate g = false ->
  (exists l, EQ.repr (Pool.queue g) l) -> machine_ok (set_globals g w).
Proof. intros [Hm _ _ _] Hf Hi Hq. by split. Qed.

Lemma entropy_push_run (x : list byte) (w : machine) :
  machine_ok w ->
  exists r q, on_globals (Pool.on_queue (EQ.push x)) w = Done r (set_globals (Pool.set_queue q (globals w)) w) /\
    machine_ok (set_globals (Pool.set_queue q (globals w)) w).
Proof.
  intros Hw. destruct (ok_queue _ Hw) as [l R]. unfold on_globals, Pool.on_queue, zoom.
  destruct (decide (length l < 64)%nat) as [Hl|Hl].
  - destruct (EQ.push_room _ l x R Hl) as (q & -> & R'). exists (Ok tt), q. split; [done|].
    apply machine_ok_globals; [done|apply (ok_flush _ Hw)|apply (ok_idle _ Hw)|by exists (l ++ [x])].
  - pose proof (EQ.r_len _ _ R) as Hle. unfold zlen in Hle.
    rewrite (EQ.push_full _ l x R) by lia. exists (Err InvalidState), (Pool.queue (globals w)). split; [done|].
    apply machine_ok_globals; [done|apply (ok_flush _ Hw)|apply (ok_idle _ Hw)|by exists l].
Qed.

Lemma safe_entropy_push (p : Z) : safe_call (EntropyPush p).
Proof.
  enter. reads. destruct (_ || _); [unchanged|].
  destruct (entropy_push_run l w Hw) as (r & q & E & Hw').
  eapply ends_step; [exact E|]. unchanged.
Qed.

Lemma safe_entropy_mix (w : machine) :
  machine_ok w -> is_Some (c_disable_interrupts (platform w)) -> is_Some (c_restore_interrupts (platform w)) ->
  ends (outcome EntropyMix (mem w)) shawncore_crypto_entropy_mix w.
Proof.
  intros Hw [d Hd] [r Hr]. destruct (ok_flush _ Hw) as [f Hf]. destruct (ok_queue _ Hw) as [l R].
  destruct (ok_idle _ Hw) as (Hl & Hm & Hg). destruct w as [m [[lk dt rc mx] q g h]]. cbn in Hl, Hm, Hg. subst.
  destruct (Pool.mix_run d r f l (Pool.set_pool (Pool.set_mixing true (Pool.MkPool false dt rc false))
    (Pool.MkWorld (Pool.MkPool false dt rc false) q false h))) as (q' & es & E & R' & _); [done|done|done|exact R|].
  unfold shawncore_crypto_entropy_mix, on_globals, zoom, Pool.mix_entropy, Pool.on_pool. msimpl.
  eexists CSuccess, _. cbn [globals Pool.pool Pool.mixing]. rewrite E. split; [reflexivity|].
  split; [|by apply outcome_same]. split; [apply (ok_mem _ Hw)|by exists f| |by exists (drop 8 l)].
  cbn. split_and!; [by destruct (take 8 l)|done|done].
Qed.

Lemma safe_self_test (w : machine) : machine_ok w -> ends (outcome SelfTest (mem w)) shawncore_crypto_self_test w.
Proof.
  intros Hw. unfold shawncore_crypto_self_test, x25519_keygen.
  destruct (negb _); [unchanged|]. returns_from total_hmac. destruct r as [mac|]; [|unchanged].
  destruct (negb _); [unchanged|]. returns_from total_hkdf. destruct r as [[|] out]; [|unchanged].
  cbn [is_err is_ok negb].
  destruct (negb _); [unchanged|]. returns_from total_dh. destruct r as [ss|]; [|unchanged].
  destruct (negb _); [unchanged|]. returns_from total_aead_encrypt. destruct r as [[st ks] mac'].
  destruct (_ || _); unchanged.
Qed.

(** ** All of them *)

Lemma run_admissible (c : call) : operands c <> [] -> safe_call c.
Proof.
  destruct c; intros Hne; try done; eauto using safe_init, safe_initiate, safe_finalize, safe_encapsulate,
    safe_encapsulate_v2, safe_finalize_v2, safe_confirm, safe_zeroize, safe_encrypt, safe_decrypt,
    safe_session_destroy, safe_kem_keygen, safe_kem_encapsulate, safe_kem_decapsulate, safe_dsa_keygen, safe_sign,
    safe_verify, safe_x_keygen, safe_dh, safe_decapskey_destroy, safe_signingkey_destroy, safe_sharedkey_destroy,
    safe_x_secret_destroy, safe_x_sharedsecret_destroy, safe_kem_pk_to, safe_kem_ct_to, safe_x_pk_to,
    safe_dsa_pk_to, safe_dsa_sig_to, safe_kem_pk_from, safe_kem_ct_from, safe_x_pk_from, safe_dsa_pk_from,
    safe_dsa_sig_from, safe_hmac, safe_hkdf, safe_aead_encrypt, safe_aead_decrypt, safe_entropy_push.
Qed.

(** A refused call zeroes nothing. *)
Lemma refused_zeroes_nothing (c : call) : zeroed c (argument_error c) = [].
Proof. destruct c; try done; unfold zeroed, argument_error; repeat case_match; done. Qed.

Lemma call_runs (c : call) (w : machine) :
  machine_ok w -> call_ok c w -> ends (outcome c (mem w)) (run_call c) w.
Proof.
  intros Hw (Ha & Hp & Hm). destruct (decide (operands c = [])) as [Hn|Hn].
  { destruct c; try done; [destruct (Hm eq_refl); by apply safe_entropy_mix|by apply safe_self_test]. }
  pose proof (admissible_spec c Ha) as Hs. destruct (admissible_b c) eqn:Eb.
  - apply run_admissible; [done|done|done|by apply Hp, Hs|done].
  - destruct (checks_split c Ha Hn) as (body & Hrun & _). exists (argument_error c), w.
    rewrite Hrun, Eb. split; [done|]. split; [done|]. apply outcome_same, refused_zeroes_nothing.
Qed.

End calls.

(** * Claims *)

Section contract.
Context `{CryptoOps} `{CryptoLayout} `{InterruptAnswers}.

(** Each call of the sequence satisfies the contract in the state it is made in. *)
Fixpoint contract (cs : list call) (w : machine) : Prop :=
  match cs with
  | [] => True
  | c :: cs' =>
      call_ok c w /\ match run_call c w with Done _ w' => contract cs' w' | _ => True end
  end.

End contract.

(** C13: the C interface is memory safe. From a machine whose memory is typed, whose
    flush callback is registered and whose entropy pool is idle, any sequence of calls
    for which the host supplies the operands that the checks let through runs to its
    end without undefined behaviour or halting, and the machine is in such a state
    again: objects still lie disjoint and aligned in the host's storage, arrays have
    their lengths and every session is well formed for its phase. *)
Theorem crypto_ffi_contract_safe `{CryptoLaws} `{CryptoLayout} `{!CryptoLayoutLaws} `{InterruptAnswers}
    (cs : list call) (w : machine) :
  machine_ok w -> contract cs w -> exists es w', run_calls cs w = Done es w' /\ machine_ok w'.
Proof.
  revert w. induction cs as [|c cs IH]; intros w Hw Hc; cbn [run_calls].
  { by exists [], w. }
  destruct Hc as [Hok Hc]. destruct (call_runs c w Hw Hok) as (e & w1 & E & Hw1 & _). rewrite E in Hc.
  destruct (IH w1 Hw1 Hc) as (es & w2 & E2 & Hw2). exists (e :: es), w2. split; [|done].
  rewrite (mbind_done _ _ _ _ _ E). by rewrite (mbind_done _ _ _ _ _ E2).
Qed.

(** C24: a call changes nothing but what it is given to write, and a call that fails
    leaves its outputs alone but for two kinds. It returns; on [CSuccess] every object
    and every byte outside the operands it writes is as before. On any other answer
    nothing at all has changed but the following. The plaintext buffer of a packet or
    message whose tag does not verify holds zeros, and so does the output of an
    oversized HKDF request, in every byte; in particular an opening that is refused
    earlier leaves its buffer as it was, and so do all other outputs and the session of
    a packet call. The session of a handshake call is as before or has been wiped. *)
Theorem crypto_ffi_frame `{CryptoLaws} `{CryptoLayout} `{!CryptoLayoutLaws} `{InterruptAnswers}
    (c : call) (w : machine) :
  machine_ok w -> call_ok c w ->
  exists e w', run_call c w = Done e w' /\
    (e = CSuccess -> untouched (written c) (mem w) (mem w')) /\
    (e <> CSuccess ->
       untouched (disturbed c ++ zeroed c e) (mem w) (mem w') /\
       Forall (fun r => objects (mem w') !! r.1 = objects (mem w) !! r.1 \/
                        objects (mem w') !! r.1 = Some (MkValue KSession Sess.new)) (disturbed c) /\
       Forall (fun r => bytes_at r.1 (Z.to_nat r.2) (mem w') = Some (zeros (Z.to_nat r.2))) (zeroed c e)).
Proof.
  intros Hw Hc. destruct (call_runs c w Hw Hc) as (e & w' & E & _ & Hu). exists e, w'. split; [done|].
  unfold outcome in Hu. destruct e; (split; [done|]); intros Hne; [done|by destruct Hu..].
Qed.

(** ** Witnesses *)

#[local] Existing Instance Pool.sample_answers.

(** 64 KiB of storage, seeds in its first bytes, nothing else in use. *)
Definition sample_memory : cmem value := MkMem [(4096, 65536)] ∅ (map_seqZ 4096 (replicate 96 x07)).
Definition sample_machine : machine := MkMachine sample_memory Pool.sample_world.

Lemma sample_machine_ok : machine_ok sample_machine.
Proof.
  split; [split; [split; done|done]|by eexists|done|].
  exists [replicate 32 x07]. apply Pool.sample_queue.
Qed.

(** Operands of a concrete machine. *)
Ltac supplied :=
  cbn [operands]; repeat first [apply Forall_nil_2 | apply Forall_cons_2]; cbn [present];
  apply (bool_decide_unpack _); vm_compute; exact I.

(** The 96 bytes as keys, nonce, tag and 4-byte buffers of a message that does not
    verify: the plaintext buffer is zeroed and nothing else changes. *)
Definition forged : call := AeadDecrypt 4096 4100 4104 0 0 4110 4112 4180 4.

Lemma crypto_ffi_frame_witness :
  exists w', run_call forged sample_machine = Done CVerificationFailed w' /\
    untouched [(4180, 4)] sample_memory (mem w') /\
    bytes_at 4180 4 (mem w') = Some [x00; x00; x00; x00].
Proof.
  destruct (crypto_ffi_frame forged sample_machine sample_machine_ok) as (e & w' & E & _ & Hf).
  - split; [repeat constructor; cbn; lia|]. split; [|done]. intros _. supplied.
  - assert (Ee : e = CVerificationFailed).
    { assert (Hc : match run_call forged sample_machine with Done e _ => e | _ => CSuccess end = CVerificationFailed)
        by (vm_compute; reflexivity). rewrite E in Hc. exact Hc. }
    rewrite Ee in E, Hf. destruct Hf as (Hu & _ & Hz); [discriminate|].
    exists w'. split; [exact E|]. split; [exact Hu|]. inversion_clear Hz as [|? ? Hb _]. exact Hb.
Defined.

(** The answer and the machine after a call that is known to return. *)
Definition returned {A} (m : M machine A) (w : machine) : bool := match m w with Done _ _ => true | _ => false end.
Definition after {A} (m : M machine A) (w : machine) : machine := match m w with Done _ w' => w' | _ => w end.

Lemma after_run {A} (m : M machine A) (w : machine) : returned m w = true -> exists a, m w = Done a (after m w).
Proof. unfold returned, after. destruct (m w); [by eexists|done..]. Qed.

Lemma crypto_ffi_contract_safe_witness :
  exists es w', run_calls [XKeygen 4096 8192 12288; XSecretDestroy 12288] sample_machine = Done es w' /\
    machine_ok w'.
Proof.
  apply (crypto_ffi_contract_safe [XKeygen 4096 8192 12288; XSecretDestroy 12288] sample_machine sample_machine_ok).
  split.
  { split; [repeat constructor; cbn; lia|]. split; [|done]. intros _.
    supplied. }
  destruct (after_run (run_call (XKeygen 4096 8192 12288)) sample_machine ltac:(vm_compute; reflexivity)) as (e & ->).
  split; [|by destruct (run_call _ _)].
  split; [repeat constructor; cbn; lia|]. split; [|done]. intros _.
  supplied.
Defined.

End CryptoRun.
