(* ===== verification/CryptoClient.v ===== *)
(** What two programs that talk through the C interface observe: values survive the
    wire encoding, packets sealed through one machine open on the other, and destroyed
    secrets are gone from memory. *)

From stdpp Require Import gmap.
From S2P Require Import Prelude CMemory CryptoHost Primitives ToyCrypto Aead Session Handshake SessionLife EntropyPool.
From S2P Require Import CryptoTypes CryptoFfi CryptoFfiArgs CryptoObjects CryptoFfiRun.
Local Open Scope Z_scope.

Module CryptoClient.
Import CryptoC CryptoArgs CryptoObj CryptoRun.

(** * Wire encoding *)

(** The five exported codecs. *)
Inductive codec : Type := KemPublicKey | KemCiphertext | XPublic | DsaPublicKey | DsaSignature.

Definition kind_of (d : codec) : kind :=
  match d with
  | KemPublicKey => KPublicKey1024
  | KemCiphertext => KCiphertext1024
  | XPublic => KX25519Public
  | DsaPublicKey => KPublicKey87
  | DsaSignature => KSignature87
  end.

Definition wire_len (d : codec) : Z :=
  match d with KemPublicKey | KemCiphertext => 1568 | XPublic => 32 | DsaPublicKey => 2592 | DsaSignature => 4627 end.

Definition to_bytes (d : codec) : Z -> Z -> Z -> call :=
  match d with
  | KemPublicKey => KemPublicKeyToBytes
  | KemCiphertext => KemCiphertextToBytes
  | XPublic => XPublicToBytes
  | DsaPublicKey => DsaPublicKeyToBytes
  | DsaSignature => DsaSignatureToBytes
  end.

Definition from_bytes (d : codec) : Z -> Z -> Z -> call :=
  match d with
  | KemPublicKey => KemPublicKeyFromBytes
  | KemCiphertext => KemCiphertextFromBytes
  | XPublic => XPublicFromBytes
  | DsaPublicKey => DsaPublicKeyFromBytes
  | DsaSignature => DsaSignatureFromBytes
  end.

Section wire.
Context `{CryptoLaws} `{CryptoLayout} `{!CryptoLayoutLaws} `{InterruptAnswers}.

Definition encoding (d : codec) : payload (kind_of d) -> list byte :=
  match d with
  | KemPublicKey => PublicKey1024_to_bytes
  | DsaPublicKey => PublicKey87_to_bytes
  | _ => fun b => b
  end.

Lemma encoding_length (d : codec) (x : payload (kind_of d)) :
  content_ok (MkValue (kind_of d) x) -> zlen (encoding d x) = wire_len d.
Proof.
  unfold zlen. destruct d; cbn -[Z.of_nat]; intros Hx;
    rewrite ?Hx, ?ek_bytes_len, ?vk_bytes_len; reflexivity.
Qed.

(** The checks of both directions, from the specification of their arguments. *)
Lemma pair_checks (k : kind) (p q len : Z) (m m' : mode) :
  0 <= p -> 0 <= q -> 0 < len -> writes m || writes m' = true ->
  operand_ok (OHandle k p m) -> operand_ok (OExact q len len m') ->
  ~ conflict (OHandle k p m) (OExact q len len m') ->
  (is_null p || is_null q = false) /\ ptr_is_aligned k p = true /\ ranges_overlap p (size_of k) q len = false.
Proof.
  intros Hp Hq Hl Hw [Hp0 Ha] [Hq0 _] Hc. split_and!.
  - apply orb_false_iff. by rewrite !is_null_false.
  - by apply ptr_is_aligned_spec.
  - apply not_true_is_false. rewrite crypto_overlap_spec by (lia || apply size_of_nonneg).
    intros Ho. apply Hc. cbn. split; [|done]. by apply orb_true_iff.
Qed.

Lemma wire_to_run (k : kind) (n : nat) (encode : payload k -> list byte) (v out : Z) (x : payload k) (w : machine) :
  (is_null v || is_null out = false) -> ptr_is_aligned k v = true ->
  ranges_overlap v (size_of k) out (Z.of_nat n) = false ->
  object_at v (mem w) = Some (MkHandle x) -> length (encode x) = n -> mapped out (Z.of_nat n) (mem w) = true ->
  wire_to_bytes k n encode v out (Z.of_nat n) w = Done CSuccess (set_mem (place_bytes out (encode x) (mem w)) w).
Proof.
  intros Hn Ha Ho Hx Hl Hm. unfold wire_to_bytes. rewrite Hn, Ha, Z.eqb_refl, Ho. cbn [negb].
  rewrite (mbind_done _ _ _ _ _ (load_run k v x w Hx)). subst n.
  by rewrite (mbind_done _ _ _ _ _ (copy_out_run out (encode x) w Hm)).
Qed.

Lemma wire_from_run (k : kind) (n : nat) (decode : list byte -> result (payload k) CryptoError) (b out : Z)
    (l : list byte) (x : payload k) (w : machine) :
  (is_null b || is_null out = false) -> ptr_is_aligned k out = true ->
  ranges_overlap b (Z.of_nat n) out (size_of k) = false ->
  bytes_at b n (mem w) = Some l -> decode l = Ok x -> mapped out (size_of k) (mem w) = true ->
  wire_from_bytes k n decode b (Z.of_nat n) out w = Done CSuccess (set_mem (place out (MkValue k x) (mem w)) w).
Proof.
  intros Hn Ha Ho Hb Hd Hm. unfold wire_from_bytes. rewrite Hn, Ha, Z.eqb_refl, Ho. cbn [negb].
  rewrite (mbind_done _ _ _ _ _ (array_run b n l w Hb)), Hd.
  by rewrite (mbind_done _ _ _ _ _ (handle_store_run k out x w Hm)).
Qed.

Definition decoding (d : codec) : list byte -> result (payload (kind_of d)) CryptoError :=
  match d with
  | KemPublicKey => PublicKey1024_from_bytes
  | DsaPublicKey => PublicKey87_from_bytes
  | _ => fun b => Ok b
  end.

Lemma decode_encode (d : codec) (x : payload (kind_of d)) : decoding d (encoding d x) = Ok x.
Proof.
  destruct d; cbn [decoding encoding]; [|done|done| |done].
  - unfold PublicKey1024_from_bytes, PublicKey1024_to_bytes, ML_KEM_PUBLICKEY_BYTES.
    by rewrite ek_bytes_len, Nat.eqb_refl, ek_roundtrip.
  - unfold PublicKey87_from_bytes, PublicKey87_to_bytes, ML_DSA_PUBLICKEY_BYTES.
    by rewrite vk_bytes_len, Nat.eqb_refl, vk_roundtrip.
Qed.

Definition wire_size (d : codec) : nat := Z.to_nat (wire_len d).

Lemma run_to_bytes (d : codec) (v out : Z) :
  run_call (to_bytes d v out (wire_len d)) =
  wire_to_bytes (kind_of d) (wire_size d) (encoding d) v out (Z.of_nat (wire_size d)).
Proof. destruct d; reflexivity. Qed.

Lemma run_from_bytes (d : codec) (b out : Z) :
  run_call (from_bytes d b (wire_len d) out) =
  wire_from_bytes (kind_of d) (wire_size d) (decoding d) b (Z.of_nat (wire_size d)) out.
Proof. destruct d; reflexivity. Qed.

Lemma operands_to (d : codec) (v out len : Z) :
  operands (to_bytes d v out len) = [OHandle (kind_of d) v Reads; OExact out len (wire_len d) Writes].
Proof. by destruct d. Qed.

Lemma operands_from (d : codec) (b out len : Z) :
  operands (from_bytes d b len out) = [OExact b len (wire_len d) Reads; OHandle (kind_of d) out Writes].
Proof. by destruct d. Qed.

Lemma wire_len_pos (d : codec) : 0 < wire_len d /\ Z.of_nat (wire_size d) = wire_len d.
Proof. by destruct d. Qed.

End wire.

(** Through the checks of an admissible call, towards its code. *)
Ltac through_checks :=
  unfold admissible_b; open_call; repeat (next_test; try (intros; discriminate)); intros _.

(** * Packets *)

Section packets.
Context `{CryptoLaws} `{CryptoLayout} `{!CryptoLayoutLaws} `{InterruptAnswers}.

(** What a buffer with its length holds; an empty one is not looked at. *)
Definition buffer (p len : Z) (m : cmem value) : option (list byte) :=
  if 0 <? len then bytes_at p (Z.to_nat len) m else Some [].

Lemma slice_run (p len : Z) (l : list byte) (w : machine) :
  buffer p len (mem w) = Some l -> slice_at p len w = Done l w.
Proof.
  unfold buffer, slice_at. destruct (0 <? len); [apply array_run|]. by intros [= <-].
Qed.

Lemma buffer_length (p len : Z) (l : list byte) (m : cmem value) :
  0 <= len -> buffer p len m = Some l -> zlen l = len.
Proof.
  unfold buffer, zlen. intros Hn. destruct (Z.ltb_spec 0 len) as [Hl|Hl].
  - intros E%bytes_at_length. lia.
  - intros [= <-]. cbn. lia.
Qed.

Lemma buffer_put (p len : Z) (l : list byte) (m : cmem value) :
  zlen l = len -> buffer p len (put_bytes p l m) = Some l.
Proof.
  intros Hl. unfold buffer. destruct (Z.ltb_spec 0 len) as [Hpos|Hneg].
  - replace (Z.to_nat len) with (length l) by (unfold zlen in Hl; lia). apply bytes_at_put.
  - destruct l; [done|]. unfold zlen in Hl. cbn in Hl. lia.
Qed.

Lemma buffer_put_ne (p q len : Z) (l : list byte) (m : cmem value) :
  ~ meets p (zlen l) q len -> buffer q len (put_bytes p l m) = buffer q len m.
Proof.
  intros Hm. unfold buffer. destruct (Z.ltb_spec 0 len) as [Hpos|]; [|done].
  apply bytes_at_put_ne. by rewrite Z2Nat.id by lia.
Qed.

Lemma seal_call (ma a al p c dl n t : Z) (s : Sess.SessionManager) (aad pt ct0 n0 t0 ct' n' t' : list byte)
    (r : result unit CryptoError) (v : Sess.world) (w : machine) :
  0 <= al -> 0 <= dl -> admissible_b (SessionEncrypt ma a al p c dl n t) = true ->
  object_at ma (mem w) = Some (MkHandle (k := KSession) s) ->
  buffer a al (mem w) = Some aad -> buffer p dl (mem w) = Some pt -> buffer c dl (mem w) = Some ct0 ->
  bytes_at n 12 (mem w) = Some n0 -> bytes_at t 48 (mem w) = Some t0 ->
  Sess.encrypt_packet aad pt ct0 n0 t0 (Sess.MkWorld s (platform w)) = Done (r, ct', n', t') v ->
  run_call (SessionEncrypt ma a al p c dl n t) w =
    Done (code_of r) (set_mem (put_bytes t t' (put_bytes n n' (put_bytes c ct'
      (mem (session_back ma v w))))) (session_back ma v w)).
Proof.
  intros Hal Hdl Hadm Hs Ha Hp Hc Hn Ht E. revert Hadm. through_checks.
  rewrite (mbind_done _ _ _ _ _ (slice_run a al aad w Ha)), (mbind_done _ _ _ _ _ (slice_run p dl pt w Hp)),
    (mbind_done _ _ _ _ _ (slice_run c dl ct0 w Hc)), (mbind_done _ _ _ _ _ (array_run n 12 n0 w Hn)),
    (mbind_done _ _ _ _ _ (array_run t 48 t0 w Ht)).
  rewrite (mbind_done _ _ _ _ _ (with_session_run ma s _ _ _ w Hs E)). done.
Qed.

Lemma open_call_run (mb a al c dl n t p : Z) (s : Sess.SessionManager) (aad ct nonce tag pt0 pt' : list byte)
    (r : result unit CryptoError) (v : Sess.world) (w : machine) :
  0 <= al -> 0 <= dl -> admissible_b (SessionDecrypt mb a al c dl n t p) = true ->
  object_at mb (mem w) = Some (MkHandle (k := KSession) s) ->
  buffer a al (mem w) = Some aad -> buffer c dl (mem w) = Some ct -> bytes_at n 12 (mem w) = Some nonce ->
  bytes_at t 48 (mem w) = Some tag -> buffer p dl (mem w) = Some pt0 ->
  Sess.decrypt_packet aad ct nonce tag pt0 (Sess.MkWorld s (platform w)) = Done (r, pt') v ->
  run_call (SessionDecrypt mb a al c dl n t p) w =
    Done (code_of r) (set_mem (put_bytes p pt' (mem (session_back mb v w))) (session_back mb v w)).
Proof.
  intros Hal Hdl Hadm Hs Ha Hc Hn Ht Hp E. revert Hadm. through_checks.
  rewrite (mbind_done _ _ _ _ _ (slice_run a al aad w Ha)), (mbind_done _ _ _ _ _ (slice_run c dl ct w Hc)),
    (mbind_done _ _ _ _ _ (array_run n 12 nonce w Hn)), (mbind_done _ _ _ _ _ (array_run t 48 tag w Ht)),
    (mbind_done _ _ _ _ _ (slice_run p dl pt0 w Hp)).
  rewrite (mbind_done _ _ _ _ _ (with_session_run mb s _ _ _ w Hs E)). done.
Qed.

Lemma buffer_present (p len : Z) (m : cmem value) :
  (0 < len -> is_Some (bytes_at p (Z.to_nat len) m)) -> exists l, buffer p len m = Some l.
Proof. unfold buffer. intros Hp. destruct (Z.ltb_spec 0 len) as [Hl|]; [by apply Hp|by exists []]. Qed.

(** Operands without a conflict do not share memory. *)
Lemma no_conflict (o o' : operand) :
  ~ conflict o o' -> (region_of o).2 || (region_of o').2 = true ->
  ~ meets (region_of o).1.1 (region_of o).1.2 (region_of o').1.1 (region_of o').1.2.
Proof.
  unfold conflict. destruct (region_of o) as [[p n] w], (region_of o') as [[q k] w']. cbn. intros Hc Hw Hm.
  apply Hc. apply orb_true_iff in Hw. pose proof Hm as (a & Ha & Hb). unfold within in Ha, Hb.
  split_and!; [done|lia|lia|by right; right].
Qed.

(** What the specification of the arguments says about a packet to seal. *)
Lemma seal_arguments (ma a al p c dl n t : Z) :
  args_in_range (SessionEncrypt ma a al p c dl n t) -> admissible (SessionEncrypt ma a al p c dl n t) ->
  0 <= al /\ 0 <= dl <= CHACHA20_MAX_BYTES /\ ~ meets n 12 c dl /\ ~ meets t 48 c dl /\ ~ meets t 48 n 12.
Proof.
  intros Ha [Ho Hc]. unfold args_in_range in Ha. cbn [operands] in *. rewrite ?Forall_cons in Ha, Ho.
  destruct_and?. unfold in_width in *. cbn [operand_ok] in *.
  rewrite ?ForallOrdPairs_cons_iff, ?Forall_cons in Hc. destruct_and?.
  split_and!; try lia; rewrite meets_sym.
  all: match goal with Hx : ~ conflict ?o ?o' |- _ => exact (no_conflict o o' Hx eq_refl) end.
Qed.

End packets.

(** * Destroyed secrets *)

(** The destroyers that erase what they destroy; the two third-party keys erase themselves. *)
Inductive secret : Type := SecretSession | SecretSharedKey | SecretX | SecretXShared.

Definition secret_kind (x : secret) : kind :=
  match x with
  | SecretSession => KSession
  | SecretSharedKey => KSharedKey1024
  | SecretX => KX25519Secret
  | SecretXShared => KX25519SharedSecret
  end.

Definition destroy (x : secret) : Z -> call :=
  match x with
  | SecretSession => SessionDestroy
  | SecretSharedKey => KemSharedKeyDestroy
  | SecretX => XSecretDestroy
  | SecretXShared => XSharedSecretDestroy
  end.

Section erasure.
Context `{CryptoLaws} `{CryptoLayout} `{!CryptoLayoutLaws} `{InterruptAnswers}.

(** A destroyed array is 32 zero bytes. A destroyed session was reset in place before
    its storage was released: just before, the handle holds a new session, and the
    cache-flush callback has been given exactly the ranges of its transmit key, its
    receive key and its confirmation key, as far as it had them, overwritten by zeros. *)
Definition erased (x : secret) (p : Z) (w w' : machine) : Prop :=
  match x with
  | SecretSession =>
      forall s, object_at p (mem w) = Some (MkHandle (k := KSession) s) ->
      exists cb w1, c_cache_flush (platform w) = Some cb /\
        with_session p Sess.zeroize_session w = Done tt w1 /\
        object_at p (mem w1) = Some (MkHandle (k := KSession) Sess.new) /\
        platform w1 = add_events (Sess.wipe_events cb s) (platform w) /\
        w' = set_mem (remove p (mem w1)) w1
  | _ => bytes_at p 32 (mem w') = Some (zeros 32)
  end.

Lemma drop_array_run (k : kind) (n : nat) (p : Z) (x : payload k) (w : machine) :
  object_at p (mem w) = Some (MkHandle x) ->
  drop_array k n p w = Done tt (set_mem (put_bytes p (zeros n) (remove p (mem w))) w).
Proof. intros E. unfold drop_array. by rewrite (mbind_done _ _ _ _ _ (load_run k p x w E)). Qed.

Lemma destroy_session_run (p : Z) (s : Sess.SessionManager) (cb : CFnPtr) (w : machine) :
  object_at p (mem w) = Some (MkHandle (k := KSession) s) -> c_cache_flush (platform w) = Some cb ->
  exists w1, with_session p Sess.zeroize_session w = Done tt w1 /\
    object_at p (mem w1) = Some (MkHandle (k := KSession) Sess.new) /\
    platform w1 = add_events (Sess.wipe_events cb s) (platform w) /\
    (with_session p Sess.zeroize_session ;; on_mem (modify (remove p)) ;; mret CSuccess) w =
      Done CSuccess (set_mem (remove p (mem w1)) w1).
Proof.
  intros E Hcb.
  pose proof (Sess.zeroize_run cb (Sess.MkWorld s (platform w)) Hcb) as Ez.
  pose proof (with_session_run p s _ _ _ w E Ez) as Er. eexists. split; [exact Er|]. split_and!.
  - apply handle_at. cbn. apply lookup_insert_eq.
  - done.
  - by rewrite (mbind_done _ _ _ _ _ Er).
Qed.

End erasure.

(** * Claims *)

(** C25: what is exported for the wire is what the other side imports. For each of the
    five codecs, exporting a value succeeds, leaves the value where it is and fills the
    buffer with exactly the announced number of bytes; a machine that is given these
    bytes, this one or another, reconstructs from them the very same value. *)
Theorem crypto_ffi_wire_roundtrip `{CryptoLaws} `{CryptoLayout} `{!CryptoLayoutLaws} `{InterruptAnswers}
    (d : codec) (v buf : Z) (x : payload (kind_of d)) (w : machine) :
  let export := to_bytes d v buf (wire_len d) in
  machine_ok w -> args_in_range export -> admissible export ->
  object_at v (mem w) = Some (MkHandle x) -> mapped buf (wire_len d) (mem w) = true ->
  exists l w1, run_call export w = Done CSuccess w1 /\
    bytes_at buf (wire_size d) (mem w1) = Some l /\ object_at v (mem w1) = Some (MkHandle x) /\
    forall b out w2, let import := from_bytes d b (wire_len d) out in
      args_in_range import -> admissible import ->
      bytes_at b (wire_size d) (mem w2) = Some l -> mapped out (size_of (kind_of d)) (mem w2) = true ->
      exists w3, run_call import w2 = Done CSuccess w3 /\ object_at out (mem w3) = Some (MkHandle x).
Proof.
  intros export Hw Ha [Ho Hc] Hx Hm. destruct (wire_len_pos d) as [Hpos Hsize].
  pose proof (encoding_length d x (content_of _ _ _ _ Hw Hx)) as Hlen.
  unfold args_in_range, export in *. rewrite operands_to in *.
  apply Forall_cons in Ha as [[Hv _] Ha]. apply Forall_cons in Ha as [[[Hb _] _] _].
  apply Forall_cons in Ho as [Hov Ho]. apply Forall_cons in Ho as [Hob _].
  inversion_clear Hc as [|? ? Hc1 _]. apply Forall_cons in Hc1 as [Hc1 _].
  destruct (pair_checks _ v buf (wire_len d) Reads Writes Hv Hb Hpos eq_refl Hov Hob Hc1) as (C1 & C2 & C3).
  assert (Hl : length (encoding d x) = wire_size d) by (unfold zlen in Hlen; lia).
  rewrite <- Hsize in C3, Hm. pose proof (wire_to_run _ _ (encoding d) v buf x w C1 C2 C3 Hx Hl Hm) as E.
  exists (encoding d x), (set_mem (place_bytes buf (encoding d x) (mem w)) w).
  rewrite run_to_bytes. split; [exact E|]. split; [|split].
  - cbn [mem set_mem]. rewrite <- Hl. unfold place_bytes. apply bytes_at_put.
  - apply handle_at. apply handle_at in Hx. cbn [mem set_mem].
    apply (un_objects _ _ _ (untouched_place_bytes buf (encoding d x) (mem w))); [|done].
    constructor; [|done]. cbn. rewrite Hlen. intros Hmeet.
    rewrite <- not_true_iff_false, crypto_overlap_spec in C3 by (lia || apply size_of_nonneg).
    apply C3. split_and!; [apply size_of_pos|lia|]. right. right. rewrite Hsize. by apply meets_sym.
  - intros b out w2 Ha2 [Ho2 Hc2] Hb2 Hm2. rewrite operands_from in *.
    apply Forall_cons in Ha2 as [[[Hb' _] _] Ha2]. apply Forall_cons in Ha2 as [[Hout _] _].
    apply Forall_cons in Ho2 as [Hob2 Ho2]. apply Forall_cons in Ho2 as [Hoo _].
    inversion_clear Hc2 as [|? ? Hc3 _]. apply Forall_cons in Hc3 as [Hc3 _].
    destruct (pair_checks _ out b (wire_len d) Writes Reads Hout Hb' Hpos eq_refl Hoo Hob2) as (D1 & D2 & D3);
      [intros ?; by apply Hc3, conflict_sym|].
    rewrite orb_comm in D1. rewrite ranges_overlap_comm, <- Hsize in D3.
    rewrite run_from_bytes.
    rewrite (wire_from_run _ _ (decoding d) b out (encoding d x) x w2 D1 D2 D3 Hb2 (decode_encode d x) Hm2).
    eexists. split; [done|]. apply handle_at, place_lookup.
Qed.

(** C15: a packet sealed through the C interface opens on the other side. A live session
    with a usable counter seals any admissible packet: the call succeeds and the three
    buffers hold ciphertext, nonce and tag. On any machine whose session has the same
    key for receiving and has not seen the sequence number, the opening call given these
    bytes and the same associated data succeeds and its buffer holds the plaintext. *)
Theorem crypto_ffi_packet_delivery `{CryptoLaws} `{CryptoLayout} `{!CryptoLayoutLaws} `{InterruptAnswers}
    (ma a al p c dl n t : Z) (sa : Sess.SessionManager) (key aad pt : list byte) (wa : machine) :
  let seal := SessionEncrypt ma a al p c dl n t in
  machine_ok wa -> call_ok seal wa -> admissible seal ->
  object_at ma (mem wa) = Some (MkHandle (k := KSession) sa) ->
  buffer a al (mem wa) = Some aad -> buffer p dl (mem wa) = Some pt ->
  Sess.carries_traffic sa -> Sess.tx_key sa = Some key -> length key = 64%nat ->
  0 <= Sess.tx_counter sa < u64_max ->
  exists ct nonce tag wa', run_call seal wa = Done CSuccess wa' /\
    buffer c dl (mem wa') = Some ct /\ bytes_at n 12 (mem wa') = Some nonce /\ bytes_at t 48 (mem wa') = Some tag /\
    forall mb a' c' n' t' p' sb seen wb,
      let unseal := SessionDecrypt mb a' al c' dl n' t' p' in
      machine_ok wb -> call_ok unseal wb -> admissible unseal ->
      object_at mb (mem wb) = Some (MkHandle (k := KSession) sb) ->
      buffer a' al (mem wb) = Some aad -> buffer c' dl (mem wb) = Some ct ->
      bytes_at n' 12 (mem wb) = Some nonce -> bytes_at t' 48 (mem wb) = Some tag ->
      Sess.carries_traffic sb -> Sess.rx_key sb = Some key -> Sess.window_repr sb seen ->
      Sess.fresh (Sess.rx_counter sb) seen (Sess.tx_counter sa) ->
      exists wb', run_call unseal wb = Done CSuccess wb' /\ buffer p' dl (mem wb') = Some pt.
Proof.
  intros seal Hwa (Ha & Hp & _) Hadm Hsa Haad Hpt Hlive Hkey Hkl Hcnt.
  specialize (Hp Hadm). destruct (seal_arguments _ _ _ _ _ _ _ _ Ha Hadm) as (Hal & Hdl & M1 & M2 & M3).
  apply (admissible_spec seal Ha) in Hadm. unfold seal in *. cbn [operands] in Hp. rewrite ?Forall_cons in Hp.
  cbn [present] in Hp. destruct Hp as (_ & _ & _ & Hct & [n0 Hn0] & [t0 Ht0] & _).
  destruct (buffer_present c dl (mem wa) Hct) as [ct0 Hct0]. destruct (ok_flush _ Hwa) as [cb Hcb].
  pose proof (buffer_length _ _ _ _ (proj1 Hdl) Hpt) as Lpt.
  pose proof (buffer_length _ _ _ _ (proj1 Hdl) Hct0) as Lct.
  assert (Lcp : length ct0 = length pt) by (unfold zlen in *; lia).
  assert (Hm : zlen pt <= CHACHA20_MAX_BYTES) by lia.
  pose proof (Sess.encrypt_packet_run cb key aad pt ct0 n0 t0 (Sess.MkWorld sa (platform wa))
    Hcb Hlive Hkey Hkl Hcnt Lcp Hm) as E. cbv zeta in E. cbn [Sess.sm Sess.ch] in E.
  set (nonce := Sess.nonce_of _) in E. set (ct := stream _ _ _) in E. set (tag := tag_of _ _ _ _) in E.
  pose proof (answers_done _ _ _ _ _ (answers_seal aad pt ct0 n0 t0 (bytes_at_length _ _ _ _ Hn0)
    (bytes_at_length _ _ _ _ Ht0)) E) as (L1 & L2 & L3). cbn [fst snd] in L1, L2, L3.
  assert (Z1 : zlen ct = dl) by (unfold zlen in *; lia).
  assert (Z2 : zlen nonce = 12) by (unfold zlen; lia). assert (Z3 : zlen tag = 48) by (unfold zlen; lia).
  exists ct, nonce, tag. eexists. split.
  { exact (seal_call ma a al p c dl n t sa aad pt ct0 n0 t0 ct nonce tag (Ok tt) _ wa Hal (proj1 Hdl) Hadm
      Hsa Haad Hpt Hct0 Hn0 Ht0 E). }
  cbn [mem set_mem]. split_and!.
  - rewrite buffer_put_ne, buffer_put_ne by (rewrite ?Z2, ?Z3; done). by apply buffer_put.
  - rewrite bytes_at_put_ne by (rewrite Z3; done). rewrite <- L2 at 1. apply bytes_at_put.
  - rewrite <- L3 at 1. apply bytes_at_put.
  - intros mb a' c' n' t' p' sb seen wb Hwb (Ha' & Hp' & _) Hadm' Hsb Haad' Hct' Hn' Ht' Hlive' Hkey' Hrep Hf.
    specialize (Hp' Hadm'). apply (admissible_spec _ Ha') in Hadm'. cbn [operands] in Hp'.
    rewrite ?Forall_cons in Hp'. cbn [present] in Hp'. destruct Hp' as (_ & _ & _ & _ & _ & Hpt' & _).
    destruct (buffer_present p' dl (mem wb) Hpt') as [pt0 Hpt0]. destruct (ok_flush _ Hwb) as [cb' Hcb'].
    pose proof (buffer_length _ _ _ _ (proj1 Hdl) Hpt0) as Lpt0.
    destruct (Sess.packet_crosses cb cb' key aad pt ct0 n0 t0 pt0 (Sess.MkWorld sa (platform wa))
      (Sess.MkWorld sb (platform wb)) seen) as (ct2 & nonce2 & tag2 & a2 & b2 & E2 & E3 & _); try done;
      [unfold zlen in *; lia|].
    rewrite E in E2. injection E2 as <- <- <- <-.
    eexists. split.
    { exact (open_call_run mb a' al c' dl n' t' p' sb aad ct nonce tag pt0 pt (Ok tt) _ wb Hal (proj1 Hdl) Hadm'
        Hsb Haad' Hct' Hn' Ht' Hpt0 E3). }
    by apply buffer_put.
Qed.

(** C26: destroying a secret through the C interface erases it. For the session and the
    three key arrays, a destroyer given a live handle succeeds, nothing is left at its
    address, and the secret is gone: an array is overwritten by zeros; a session is
    reset in place to a new one before its storage is released, and exactly the ranges
    of the keys it held, all overwritten by zeros, went to the cache-flush callback. *)
Theorem crypto_ffi_destroy_erases `{CryptoLaws} `{CryptoLayout} `{!CryptoLayoutLaws} `{InterruptAnswers}
    (x : secret) (p : Z) (w : machine) :
  machine_ok w -> args_in_range (destroy x p) -> admissible (destroy x p) ->
  is_Some (object_at (T := handle (secret_kind x)) p (mem w)) ->
  exists w', run_call (destroy x p) w = Done CSuccess w' /\ objects (mem w') !! p = None /\ erased x p w w'.
Proof.
  intros Hw Ha Hadm [[y] Hy]. apply (admissible_spec _ Ha) in Hadm. revert Hadm.
  destruct x; cbn [destroy secret_kind] in *; through_checks.
  1: { destruct (ok_flush _ Hw) as [cb Hcb].
       destruct (destroy_session_run p y cb w Hy Hcb) as (w1 & E1 & Hnew & Hev & E). rewrite E.
       eexists. split; [done|]. split; [apply lookup_delete_eq|]. intros s Hs.
       rewrite Hy in Hs. simplify_eq. exists cb, w1. split_and!; done. }
  all: rewrite (mbind_done _ _ _ _ _ (drop_array_run _ 32 p y w Hy)); eexists; split; [done|].
  all: split; [apply lookup_delete_eq|apply (bytes_at_put p (zeros 32))].
Qed.

(** ** Witnesses *)

#[local] Existing Instance Pool.sample_answers.

(** Buffers in the first 128 bytes, a live session behind them. *)
Definition packet_memory : cmem value :=
  place 8192 (MkValue KSession Sess.sample_session)
    (MkMem [(4096, 65536)] ∅ (map_seqZ 4096 (replicate 128 x07))).
Definition packet_machine : machine := MkMachine packet_memory Pool.sample_world.

Lemma packet_session_ok : content_ok (MkValue KSession Sess.sample_session).
Proof.
  exists Life.Live.
  change Sess.sample_session with (Sess.set_tx_counter 5 (Hs.established Sess.sample_keys Sess.sample_keys)).
  apply Life.counter_inv; [split; reflexivity || discriminate|]. apply Life.established_inv; reflexivity.
Qed.

Lemma packet_machine_ok : machine_ok packet_machine.
Proof.
  apply (machine_ok_mem packet_memory sample_machine sample_machine_ok).
  unfold packet_memory.
  apply typed_place; [|exact packet_session_ok|reflexivity|vm_compute; reflexivity|vm_compute; reflexivity].
  split; [split; done|done].
Qed.

(** Ranges at concrete addresses. *)
Ltac apart := intros (? & ? & ?); unfold within in *; lia.

(** The receiving machine: the same storage with the packet copied in. *)
Definition delivered (ct nonce tag : list byte) : machine :=
  set_mem (put_bytes 4176 tag (put_bytes 4160 nonce (put_bytes 4144 ct packet_memory))) packet_machine.

Lemma delivered_ok (ct nonce tag : list byte) :
  length ct = 16%nat -> length nonce = 12%nat -> length tag = 48%nat -> machine_ok (delivered ct nonce tag).
Proof.
  intros H1 H2 H3. apply machine_ok_mem; [exact packet_machine_ok|].
  apply typed_put_bytes; [apply typed_put_bytes; [apply typed_put_bytes; [exact (ok_mem _ packet_machine_ok)|]|]|].
  1: rewrite H1. 2: rewrite H2; apply put_bytes_present. 3: rewrite H3; do 2 apply put_bytes_present.
  all: apply (bool_decide_unpack _); vm_compute; exact I.
Qed.

Lemma delivered_packet (ct nonce tag : list byte) :
  zlen ct = 16 -> length nonce = 12%nat -> length tag = 48%nat ->
  buffer 4096 4 (mem (delivered ct nonce tag)) = Some (replicate 4 x07) /\
  buffer 4144 16 (mem (delivered ct nonce tag)) = Some ct /\
  bytes_at 4160 12 (mem (delivered ct nonce tag)) = Some nonce /\
  bytes_at 4176 48 (mem (delivered ct nonce tag)) = Some tag.
Proof.
  intros H1 H2 H3. unfold delivered. cbn [mem set_mem].
  assert (Z2 : zlen nonce = 12) by (unfold zlen; lia). assert (Z3 : zlen tag = 48) by (unfold zlen; lia).
  split_and!.
  - rewrite !buffer_put_ne; [vm_compute; reflexivity|..]; rewrite ?H1, ?Z2, ?Z3; apart.
  - rewrite !buffer_put_ne by (rewrite ?Z2, ?Z3; apart). by apply buffer_put.
  - rewrite bytes_at_put_ne by (rewrite ?Z3; apart). rewrite <- H2. apply bytes_at_put.
  - rewrite <- H3. apply bytes_at_put.
Qed.

Lemma packet_session (m : cmem value) :
  objects m = objects packet_memory -> object_at 8192 m = Some (MkHandle (k := KSession) Sess.sample_session).
Proof. intros E. apply handle_at. rewrite E. apply place_lookup. Qed.

Lemma delivered_present (ct nonce tag : list byte) :
  Forall (present (mem (delivered ct nonce tag))) (operands (SessionDecrypt 8192 4096 4 4144 16 4160 4176 4112)).
Proof.
  cbn [operands]. repeat apply Forall_cons_2; [..|apply Forall_nil_2]; cbn [present];
    unfold delivered; cbn [mem set_mem].
  { eexists. by apply packet_session. }
  all: try intros _; do 3 apply put_bytes_present; apply (bool_decide_unpack _); vm_compute; exact I.
Qed.

(** A packet of 16 bytes with 4 bytes of associated data crosses. *)
Lemma crypto_ffi_packet_delivery_witness :
  exists ct nonce tag wa' wb',
    run_call (SessionEncrypt 8192 4096 4 4112 4144 16 4160 4176) packet_machine = Done CSuccess wa' /\
    run_call (SessionDecrypt 8192 4096 4 4144 16 4160 4176 4112) (delivered ct nonce tag) = Done CSuccess wb' /\
    buffer 4112 16 (mem wb') = Some (replicate 16 x07).
Proof.
  destruct (crypto_ffi_packet_delivery 8192 4096 4 4112 4144 16 4160 4176 Sess.sample_session Sess.sample_keys
    (replicate 4 x07) (replicate 16 x07) packet_machine packet_machine_ok)
    as (ct & nonce & tag & wa' & E & Hc & Hn & Ht & Hopen).
  - split; [repeat constructor; cbn; lia|]. split; [|done]. intros _. supplied.
  - apply admissible_spec; [repeat constructor; cbn; lia|vm_compute; reflexivity].
  - apply packet_session. reflexivity.
  - vm_compute. reflexivity.
  - vm_compute. reflexivity.
  - split; reflexivity.
  - reflexivity.
  - reflexivity.
  - split; [discriminate|reflexivity].
  - assert (Lc : zlen ct = 16) by exact (buffer_length 4144 16 ct (mem wa') (Z.lt_le_incl 0 16 eq_refl) Hc).
    apply bytes_at_length in Hn, Ht. destruct (delivered_packet ct nonce tag Lc Hn Ht) as (D1 & D2 & D3 & D4).
    exists ct, nonce, tag, wa'.
    destruct (Hopen 8192 4096 4144 4160 4176 4112 Sess.sample_session [] (delivered ct nonce tag)
      (delivered_ok ct nonce tag ltac:(unfold zlen in Lc; lia) Hn Ht)) as (wb' & E' & Hp).
    + split; [repeat constructor; cbn; lia|]. split; [|done]. intros _. apply delivered_present.
    + apply admissible_spec; [repeat constructor; cbn; lia|vm_compute; reflexivity].
    + apply packet_session. reflexivity.
    + exact D1.
    + exact D2.
    + exact D3.
    + exact D4.
    + split; reflexivity.
    + reflexivity.
    + exact Sess.sample_window.
    + left. reflexivity.
    + exists wb'. exact (conj E (conj E' Hp)).
Defined.

Lemma crypto_ffi_destroy_erases_witness :
  exists w', run_call (SessionDestroy 8192) packet_machine = Done CSuccess w' /\ objects (mem w') !! 8192 = None /\
    platform w' = add_events [CEvFlush 4 (zeros 64); CEvFlush 4 (zeros 64)] (platform packet_machine).
Proof.
  destruct (crypto_ffi_destroy_erases SecretSession 8192 packet_machine packet_machine_ok)
    as (w' & E & Hno & He).
  - repeat constructor; cbn; lia.
  - apply admissible_spec; [repeat constructor; cbn; lia|vm_compute; reflexivity].
  - eexists. apply packet_session. reflexivity.
  - exists w'. split; [exact E|]. split; [exact Hno|].
    destruct (He Sess.sample_session (packet_session packet_memory eq_refl)) as (cb & w1 & Hcb & _ & _ & Hp & ->).
    injection Hcb as <-. exact Hp.
Defined.

(** An X25519 public key in front of 512 bytes of free storage. *)
Definition wire_machine : machine :=
  set_mem (place 8192 (MkValue KX25519Public (replicate 32 x2a)) sample_memory) sample_machine.

(** Another machine that has received bytes. *)
Definition imported (l : list byte) : machine := set_mem (put_bytes 4096 l sample_memory) sample_machine.

Lemma crypto_ffi_wire_roundtrip_witness :
  exists l w1 w3, run_call (XPublicToBytes 8192 16384 32) wire_machine = Done CSuccess w1 /\
    bytes_at 16384 32 (mem w1) = Some l /\
    run_call (XPublicFromBytes 4096 32 20480) (imported l) = Done CSuccess w3 /\
    object_at 20480 (mem w3) = Some (MkHandle (k := KX25519Public) (replicate 32 x2a)).
Proof.
  assert (Hw : machine_ok wire_machine).
  { apply machine_ok_mem; [exact sample_machine_ok|].
    apply typed_place; [exact (ok_mem _ sample_machine_ok)|reflexivity|reflexivity|vm_compute; reflexivity..]. }
  destruct (crypto_ffi_wire_roundtrip XPublic 8192 16384 (replicate 32 x2a) wire_machine Hw)
    as (l & w1 & E & Hl & _ & Hin).
  - repeat constructor; cbn; lia.
  - apply admissible_spec; [repeat constructor; cbn; lia|vm_compute; reflexivity].
  - apply handle_at, place_lookup.
  - vm_compute. reflexivity.
  - destruct (Hin 4096 20480 (imported l)) as (w3 & E3 & Ho).
    + repeat constructor; cbn; lia.
    + apply admissible_spec; [repeat constructor; cbn; lia|vm_compute; reflexivity].
    + pose proof (bytes_at_put 4096 l sample_memory) as Hp. rewrite (bytes_at_length _ _ _ _ Hl) in Hp. exact Hp.
    + reflexivity.
    + exists l, w1, w3. exact (conj E (conj Hl (conj E3 Ho))).
Defined.

End CryptoClient.
