(* ===== verification/CryptoHandshake.v ===== *)
(** The authenticated handshake as two programs run it through the C interface: four
    calls on two machines, with keys, ciphertext, signatures and confirmation tags in
    the caller's memory. *)

From stdpp Require Import gmap.
From S2P Require Import Prelude CMemory CryptoHost Primitives ToyCrypto Aead Session Handshake AuthSession SessionLife.
From S2P Require Import EntropyPool CryptoTypes CryptoFfi CryptoFfiArgs CryptoObjects CryptoFfiRun CryptoClient.
Local Open Scope Z_scope.

Module CryptoHandshake.
Import CryptoC CryptoArgs CryptoObj CryptoRun CryptoClient.

#[local] Opaque bytes_at object_at.

Section calls.
Context `{CryptoLaws} `{CryptoLayout} `{!CryptoLayoutLaws} `{InterruptAnswers}.

(** * What lies at an address *)

Definition holds {k : kind} (p : Z) (x : payload k) (w : machine) : Prop :=
  object_at p (mem w) = Some (MkHandle x).

(** A call whose arguments pass the checks, on a machine that supplies its operands. *)
Definition ready (c : call) (w : machine) : Prop := machine_ok w /\ call_ok c w /\ admissible c.

(** ** Writes elsewhere *)

Lemma object_place_eq (k : kind) (p : Z) (x : payload k) (m : cmem value) :
  object_at p (place p (MkValue k x) m) = Some (MkHandle x).
Proof. apply handle_at, place_lookup. Qed.

Lemma object_outside (k : kind) (q p n : Z) (m m' : cmem value) :
  untouched [(p, n)] m m' -> ~ meets p n q (size_of k) ->
  object_at (T := handle k) q m' = object_at q m.
Proof.
  intros Hu Hm. apply option_eq. intros [x]. rewrite !handle_at. apply (un_objects _ _ _ Hu).
  constructor; [exact Hm|done].
Qed.

Lemma object_place_ne (k : kind) (q p : Z) (v : value) (m : cmem value) :
  ~ meets p (size_of (vkind v)) q (size_of k) ->
  object_at (T := handle k) q (place p v m) = object_at q m.
Proof. exact (object_outside k q p (extent v) m _ (untouched_place p v m extent_pos)). Qed.

Lemma object_place_bytes_ne (k : kind) (q p : Z) (l : list byte) (m : cmem value) :
  ~ meets p (zlen l) q (size_of k) ->
  object_at (T := handle k) q (place_bytes p l m) = object_at q m.
Proof. exact (object_outside k q p (zlen l) m _ (untouched_place_bytes p l m)). Qed.

Lemma object_put_eq (k : kind) (p : Z) (x : payload k) (m : cmem value) :
  object_at p (put_object p (MkValue k x) m) = Some (MkHandle x).
Proof. apply handle_at. cbn. by rewrite lookup_insert_eq. Qed.

Lemma bytes_place_bytes_eq (p : Z) (l : list byte) (m : cmem value) :
  bytes_at p (length l) (place_bytes p l m) = Some l.
Proof. apply bytes_at_put. Qed.

End calls.

(** The disjointness an admissible argument list guarantees, pair by pair. *)
Ltac separate Hadm :=
  let Hp := fresh in
  pose proof (proj2 Hadm) as Hp; cbn [operands] in Hp;
  rewrite ?ForallOrdPairs_cons_iff, ?Forall_cons in Hp; destruct_and? Hp;
  repeat match goal with
  | Hx : ~ conflict ?o ?o' |- _ =>
      first [ let D := fresh "D" in pose proof (no_conflict o o' Hx eq_refl) as D;
              cbn [region_of fst snd] in D | idtac ]; clear Hx
  end.

Ltac elsewhere := first [assumption | rewrite meets_sym; assumption].

(** The steps of an entry point that read operands. *)
Ltac read_operands :=
  unfold holds in *;
  repeat match goal with
  | Hx : object_at ?p (mem ?w) = Some _ |- context [(load ?k ?p ≫= _) ?w] =>
      rewrite (mbind_done _ _ _ _ _ (load_run k p _ w Hx))
  | Hx : bytes_at ?p ?n (mem ?w) = Some _ |- context [(array ?p ?n ≫= _) ?w] =>
      rewrite (mbind_done _ _ _ _ _ (array_run p n _ w Hx))
  | Hx : buffer ?p ?n (mem ?w) = Some _ |- context [(slice_at ?p ?n ≫= _) ?w] =>
      rewrite (mbind_done _ _ _ _ _ (slice_run p n _ w Hx))
  end.

(** * The four calls *)

Section steps.
Context `{CryptoLaws} `{CryptoLayout} `{!CryptoLayoutLaws} `{InterruptAnswers}.

Lemma c_initiate (m e pk x : Z) (s s' : Sess.SessionManager) (ea : list byte) (ek : PublicKey1024)
    (xpk : X25519Public) (h' : CHost) (w : machine) :
  ready (SessionInitiate m e pk x) w -> holds (k := KSession) m s w -> bytes_at e 96 (mem w) = Some ea ->
  Hs.initiate_handshake ea (Sess.MkWorld s (platform w)) = Done (Ok (ek, xpk)) (Sess.MkWorld s' h') ->
  exists w', run_call (SessionInitiate m e pk x) w = Done CSuccess w' /\
    holds (k := KPublicKey1024) pk ek w' /\ holds (k := KX25519Public) x xpk w' /\ holds (k := KSession) m s' w'.
Proof.
  intros (Hw & (Ha & Hp & _) & Hadm) Hs He E. specialize (Hp Hadm). cbn [operands] in Hp.
  rewrite !Forall_cons in Hp. cbn [present] in Hp. destruct Hp as (_ & _ & Hpk & Hx & _).
  separate Hadm. apply (admissible_spec _ Ha) in Hadm. revert Hadm. through_checks.
  read_operands. rewrite (mbind_done _ _ _ _ _ (with_session_run m s _ _ _ w Hs E)).
  rewrite (mbind_done _ _ _ _ _ (handle_store_run KPublicKey1024 pk ek (session_back m (Sess.MkWorld s' h') w) Hpk)).
  erewrite mbind_done; [|by apply handle_store_run]. eexists. split; [done|]. cbn [mem set_mem].
  split_and!.
  - rewrite object_place_ne by elsewhere. apply object_place_eq.
  - apply object_place_eq.
  - rewrite !object_place_ne by elsewhere. apply object_put_eq.
Qed.

Lemma c_encapsulate (m sk vk pk x e sp sl ip il ct my sig conf : Z) (s s' : Sess.SessionManager)
    (own : SigningKey87) (peer : PublicKey87) (ek : PublicKey1024) (xpk : X25519Public)
    (eb salt app ct1 my1 sig1 conf1 : list byte) (h' : CHost) (w : machine) :
  ready (SessionEncapsulateV2 m sk vk pk x e sp sl ip il ct my sig conf) w ->
  holds (k := KSession) m s w -> holds (k := KSigningKey87) sk own w -> holds (k := KPublicKey87) vk peer w ->
  holds (k := KPublicKey1024) pk ek w -> holds (k := KX25519Public) x xpk w ->
  bytes_at e 64 (mem w) = Some eb -> buffer sp sl (mem w) = Some salt -> buffer ip il (mem w) = Some app ->
  length conf1 = 48%nat ->
  Auth.encapsulate_authenticated own peer ek xpk eb salt app (zeros 1568) (zeros 32) (zeros 4627) (zeros 48)
    (Sess.MkWorld s (platform w)) = Done (Ok tt, ct1, my1, sig1, conf1) (Sess.MkWorld s' h') ->
  exists w', run_call (SessionEncapsulateV2 m sk vk pk x e sp sl ip il ct my sig conf) w = Done CSuccess w' /\
    holds (k := KCiphertext1024) ct ct1 w' /\ holds (k := KX25519Public) my my1 w' /\
    holds (k := KSignature87) sig sig1 w' /\ bytes_at conf 48 (mem w') = Some conf1 /\ holds (k := KSession) m s' w'.
Proof.
  intros (Hw & (Ha & Hp & _) & Hadm) Hs Hsk Hvk Hpk Hx He Hsalt Happ Hl E. specialize (Hp Hadm).
  cbn [operands] in Hp. rewrite !Forall_cons in Hp. cbn [present] in Hp.
  destruct Hp as (_ & _ & _ & _ & _ & _ & _ & _ & Hct & Hmy & Hsig & Hconf & _).
  assert (Z1 : zlen conf1 = 48) by (unfold zlen; lia).
  separate Hadm. apply (admissible_spec _ Ha) in Hadm. revert Hadm. through_checks.
  read_operands. rewrite (mbind_done _ _ _ _ _ (with_session_run m s _ _ _ w Hs E)).
  erewrite mbind_done; [|by apply handle_store_run]. erewrite mbind_done; [|by apply handle_store_run].
  erewrite mbind_done; [|by apply handle_store_run].
  erewrite mbind_done; [|by apply copy_out_run; rewrite Z1].
  eexists. split; [done|]. cbn [mem set_mem]. split_and!.
  - rewrite object_place_bytes_ne by (rewrite Z1; elsewhere). rewrite !object_place_ne by elsewhere.
    apply object_place_eq.
  - rewrite object_place_bytes_ne by (rewrite Z1; elsewhere). rewrite !object_place_ne by elsewhere.
    apply object_place_eq.
  - rewrite object_place_bytes_ne by (rewrite Z1; elsewhere). apply object_place_eq.
  - rewrite <- Hl. apply bytes_place_bytes_eq.
  - rewrite object_place_bytes_ne by (rewrite Z1; elsewhere). rewrite !object_place_ne by elsewhere.
    apply object_put_eq.
Qed.

Lemma c_finalize (m sk vk x ct psig pconf sp sl ip il sig conf : Z) (s s' : Sess.SessionManager)
    (own : SigningKey87) (peer : PublicKey87) (xpk ct1 sig1 conf1 salt app sig2 conf2 : list byte)
    (h' : CHost) (w : machine) :
  ready (SessionFinalizeV2 m sk vk x ct psig pconf sp sl ip il sig conf) w ->
  holds (k := KSession) m s w -> holds (k := KSigningKey87) sk own w -> holds (k := KPublicKey87) vk peer w ->
  holds (k := KX25519Public) x xpk w -> holds (k := KCiphertext1024) ct ct1 w ->
  holds (k := KSignature87) psig sig1 w -> bytes_at pconf 48 (mem w) = Some conf1 ->
  buffer sp sl (mem w) = Some salt -> buffer ip il (mem w) = Some app -> length conf2 = 48%nat ->
  Auth.finalize_authenticated own peer xpk ct1 sig1 conf1 salt app (zeros 4627) (zeros 48)
    (Sess.MkWorld s (platform w)) = Done (Ok tt, sig2, conf2) (Sess.MkWorld s' h') ->
  exists w', run_call (SessionFinalizeV2 m sk vk x ct psig pconf sp sl ip il sig conf) w = Done CSuccess w' /\
    holds (k := KSignature87) sig sig2 w' /\ bytes_at conf 48 (mem w') = Some conf2 /\ holds (k := KSession) m s' w'.
Proof.
  intros (Hw & (Ha & Hp & _) & Hadm) Hs Hsk Hvk Hx Hct Hpsig Hpconf Hsalt Happ Hl E. specialize (Hp Hadm).
  cbn [operands] in Hp. rewrite !Forall_cons in Hp. cbn [present] in Hp.
  destruct Hp as (_ & _ & _ & _ & _ & _ & _ & _ & _ & Hsig & Hconf & _).
  assert (Z1 : zlen conf2 = 48) by (unfold zlen; lia).
  separate Hadm. apply (admissible_spec _ Ha) in Hadm. revert Hadm. through_checks.
  read_operands. rewrite (mbind_done _ _ _ _ _ (with_session_run m s _ _ _ w Hs E)).
  erewrite mbind_done; [|by apply handle_store_run]. erewrite mbind_done; [|by apply copy_out_run; rewrite Z1].
  eexists. split; [done|]. cbn [mem set_mem]. split_and!.
  - rewrite object_place_bytes_ne by (rewrite Z1; elsewhere). apply object_place_eq.
  - rewrite <- Hl. apply bytes_place_bytes_eq.
  - rewrite object_place_bytes_ne by (rewrite Z1; elsewhere). rewrite object_place_ne by elsewhere.
    apply object_put_eq.
Qed.

Lemma c_confirm (m vk sig conf : Z) (s s' : Sess.SessionManager) (peer : PublicKey87) (sig1 conf1 : list byte)
    (h' : CHost) (w : machine) :
  ready (SessionConfirmV2 m vk sig conf) w ->
  holds (k := KSession) m s w -> holds (k := KPublicKey87) vk peer w -> holds (k := KSignature87) sig sig1 w ->
  bytes_at conf 48 (mem w) = Some conf1 ->
  Auth.confirm_peer peer sig1 conf1 (Sess.MkWorld s (platform w)) = Done (Ok tt) (Sess.MkWorld s' h') ->
  exists w', run_call (SessionConfirmV2 m vk sig conf) w = Done CSuccess w' /\ holds (k := KSession) m s' w'.
Proof.
  intros (Hw & (Ha & _ & _) & Hadm) Hs Hvk Hsig Hconf E. apply (admissible_spec _ Ha) in Hadm. revert Hadm.
  through_checks. read_operands. rewrite (mbind_done _ _ _ _ _ (with_session_run m s _ _ _ w Hs E)).
  eexists. split; [done|]. apply object_put_eq.
Qed.

End steps.

(** * Claims *)

(** C16: the authenticated handshake through the C interface. Two machines hold signing
    keys and each other's verifying keys, and agree on salt and application info. For
    sound entropy and an exchange X25519 accepts, each of the four calls succeeds on
    every machine that supplies its operands and still has the session where the call
    before left it: initiate leaves both public keys, encapsulate (given these) the
    ciphertext, its public key, signature and tag while its session awaits
    confirmation, finalize (given these) its own signature and tag, and confirm opens
    the session; the two session objects then hold mirrored keys and fresh counters. *)
Theorem crypto_ffi_authenticated_handshake `{CryptoLaws} `{CryptoLayout} `{!CryptoLayoutLaws} `{InterruptAnswers}
    (ska skb : SigningKey87) (ea eb salt app : list byte)
    (m1 e1 pk1 x1 : Z) (s1 : Sess.SessionManager) (wa : machine) :
  zlen app < 2 ^ 32 -> Hs.degenerate ea = false -> Hs.degenerate eb = false -> Hs.honest_dh ea eb ->
  ready (SessionInitiate m1 e1 pk1 x1) wa -> holds (k := KSession) m1 s1 wa -> bytes_at e1 96 (mem wa) = Some ea ->
  exists ek xpk pend wa1,
    run_call (SessionInitiate m1 e1 pk1 x1) wa = Done CSuccess wa1 /\
    holds (k := KPublicKey1024) pk1 ek wa1 /\ holds (k := KX25519Public) x1 xpk wa1 /\
    holds (k := KSession) m1 pend wa1 /\
  forall m2 sk2 vk2 pk2 x2 e2 sp2 sl2 ip2 il2 ct2 my2 sig2 conf2 s2 wb,
    let encapsulate := SessionEncapsulateV2 m2 sk2 vk2 pk2 x2 e2 sp2 sl2 ip2 il2 ct2 my2 sig2 conf2 in
    ready encapsulate wb -> holds (k := KSession) m2 s2 wb ->
    holds (k := KSigningKey87) sk2 skb wb -> holds (k := KPublicKey87) vk2 (verifying_key ska) wb ->
    holds (k := KPublicKey1024) pk2 ek wb -> holds (k := KX25519Public) x2 xpk wb ->
    bytes_at e2 64 (mem wb) = Some eb ->
    buffer sp2 sl2 (mem wb) = Some salt -> buffer ip2 il2 (mem wb) = Some app ->
  exists ct bpk sigb confb unconfirmed wb1,
    run_call encapsulate wb = Done CSuccess wb1 /\
    holds (k := KCiphertext1024) ct2 ct wb1 /\ holds (k := KX25519Public) my2 bpk wb1 /\
    holds (k := KSignature87) sig2 sigb wb1 /\ bytes_at conf2 48 (mem wb1) = Some confb /\
    holds (k := KSession) m2 unconfirmed wb1 /\ Auth.is_awaiting_peer_confirmation unconfirmed = true /\
  forall m3 sk3 vk3 x3 ct3 psig3 pconf3 sp3 sl3 ip3 il3 sig3 conf3 wa2,
    let finalize := SessionFinalizeV2 m3 sk3 vk3 x3 ct3 psig3 pconf3 sp3 sl3 ip3 il3 sig3 conf3 in
    ready finalize wa2 -> holds (k := KSession) m3 pend wa2 ->
    holds (k := KSigningKey87) sk3 ska wa2 -> holds (k := KPublicKey87) vk3 (verifying_key skb) wa2 ->
    holds (k := KX25519Public) x3 bpk wa2 -> holds (k := KCiphertext1024) ct3 ct wa2 ->
    holds (k := KSignature87) psig3 sigb wa2 -> bytes_at pconf3 48 (mem wa2) = Some confb ->
    buffer sp3 sl3 (mem wa2) = Some salt -> buffer ip3 il3 (mem wa2) = Some app ->
  exists siga confa sa wa3,
    run_call finalize wa2 = Done CSuccess wa3 /\
    holds (k := KSignature87) sig3 siga wa3 /\ bytes_at conf3 48 (mem wa3) = Some confa /\
    holds (k := KSession) m3 sa wa3 /\
  forall m4 vk4 sig4 conf4 wb2,
    let confirm := SessionConfirmV2 m4 vk4 sig4 conf4 in
    ready confirm wb2 -> holds (k := KSession) m4 unconfirmed wb2 ->
    holds (k := KPublicKey87) vk4 (verifying_key ska) wb2 ->
    holds (k := KSignature87) sig4 siga wb2 -> bytes_at conf4 48 (mem wb2) = Some confa ->
  exists sb wb3,
    run_call confirm wb2 = Done CSuccess wb3 /\ holds (k := KSession) m4 sb wb3 /\ Hs.paired sa sb.
Proof.
  intros Hl Hea Heb Hdh Ri Hs1 He1.
  destruct (Auth.auth_chain ska skb ea eb salt app Hl Hea Heb Hdh)
    as (ek & xpk & pend & ct & bpk & sigb & confb & sb1 & siga & confa & sa & sb & Hi & He & Hf & Hk & Haw & P).
  destruct (ok_flush _ (proj1 Ri)) as [cb1 Hc1].
  destruct (Hi cb1 (Sess.MkWorld s1 (platform wa)) Hc1) as (h1 & E1 & _).
  destruct (c_initiate m1 e1 pk1 x1 s1 pend ea ek xpk h1 wa Ri Hs1 He1 E1) as (wa1 & R1 & O1 & O2 & O3).
  exists ek, xpk, pend, wa1. split_and!; [done..|].
  intros m2 sk2 vk2 pk2 x2 e2 sp2 sl2 ip2 il2 ct2 my2 sig2 conf2 s2 wb enc Re Hs2 Hsk Hvk Hpk Hx He2 Hsalt Happ.
  destruct (ok_flush _ (proj1 Re)) as [cb2 Hc2].
  destruct (He cb2 (Sess.MkWorld s2 (platform wb)) (zeros 1568) (zeros 32) (zeros 4627) (zeros 48) Hc2)
    as (h2 & E2 & _).
  pose proof (answers_done _ _ _ _ _ (answers_encapsulate_auth _ _ _ _ _ _ _ _ _ _ _) E2 eq_refl) as (_ & _ & _ & L2).
  destruct (c_encapsulate m2 sk2 vk2 pk2 x2 e2 sp2 sl2 ip2 il2 ct2 my2 sig2 conf2 s2 sb1 skb (verifying_key ska) ek xpk
    eb salt app ct bpk sigb confb h2 wb Re Hs2 Hsk Hvk Hpk Hx He2 Hsalt Happ L2 E2) as (wb1 & R2 & Q1 & Q2 & Q3 & Q4 & Q5).
  exists ct, bpk, sigb, confb, sb1, wb1. split_and!; [done..|].
  intros m3 sk3 vk3 x3 ct3 psig3 pconf3 sp3 sl3 ip3 il3 sig3 conf3 wa2 fin Rf Hs3 Hsk3 Hvk3 Hx3 Hct3 Hps3 Hpc3 Hsalt3 Happ3.
  destruct (ok_flush _ (proj1 Rf)) as [cb3 Hc3].
  destruct (Hf cb3 (platform wa2) (zeros 4627) (zeros 48) Hc3) as (h3 & E3 & _).
  pose proof (answers_done _ _ _ _ _ (answers_finalize_auth _ _ _ _ _ _ _ _ _ _) E3 eq_refl) as (_ & L3).
  destruct (c_finalize m3 sk3 vk3 x3 ct3 psig3 pconf3 sp3 sl3 ip3 il3 sig3 conf3 pend sa ska (verifying_key skb) bpk ct
    sigb confb salt app siga confa h3 wa2 Rf Hs3 Hsk3 Hvk3 Hx3 Hct3 Hps3 Hpc3 Hsalt3 Happ3 L3 E3)
    as (wa3 & R3 & T1 & T2 & T3).
  exists siga, confa, sa, wa3. split_and!; [done..|].
  intros m4 vk4 sig4 conf4 wb2 conf Rc Hs4 Hvk4 Hsg4 Hcf4.
  destruct (ok_flush _ (proj1 Rc)) as [cb4 Hc4]. destruct (Hk cb4 (platform wb2) Hc4) as (h4 & E4 & _).
  destruct (c_confirm m4 vk4 sig4 conf4 sb1 sb (verifying_key ska) siga confa h4 wb2 Rc Hs4 Hvk4 Hsg4 Hcf4 E4)
    as (wb3 & R4 & O4).
  by exists sb, wb3.
Qed.

(** ** Witnesses *)

#[local] Existing Instance Pool.sample_answers.

(** A machine set up for one call: objects from address 8192 on, plain data below, a
    confirmation tag at 4608. *)
Definition desk (bs conf : list byte) : cmem value :=
  place_bytes 4608 conf (MkMem [(4096, 262144)] ∅ (map_seqZ 4096 bs)).
Definition lay (bs conf : list byte) (l : list (Z * value)) : cmem value :=
  foldr (fun '(p, v) m => place p v m) (desk bs conf) l.
Definition stage (bs conf : list byte) (l : list (Z * value)) : machine :=
  MkMachine (lay bs conf l) Pool.sample_world.

(** The addresses are aligned, inside the storage and far enough apart. *)
Fixpoint spread (l : list (Z * kind)) : bool :=
  match l with
  | [] => true
  | (p, k) :: l' =>
      (8192 <=? p) && (p + size_of k <=? 200000) && is_multiple_of p (align_of k) &&
      forallb (fun '(q, k') => (p + size_of k <=? q) || (q + size_of k' <=? p)) l' && spread l'
  end.

Definition kinds (l : list (Z * value)) : list (Z * kind) := (fun '(p, v) => (p, vkind v)) <$> l.

Lemma lay_storage (bs conf : list byte) (l : list (Z * value)) : storage (lay bs conf l) = [(4096, 262144)].
Proof. induction l as [|[p v] l IH]; [done|exact IH]. Qed.

Lemma lay_mapped (bs conf : list byte) (l : list (Z * value)) (p n : Z) :
  4096 <= p -> p + n <= 266240 -> mapped p n (lay bs conf l) = true.
Proof.
  intros H1 H2. unfold mapped. rewrite lay_storage. cbn. rewrite orb_false_r. apply andb_true_iff. lia.
Qed.

Lemma stage_ok (bs conf : list byte) (l : list (Z * value)) :
  spread (kinds l) = true -> Forall (fun e => content_ok e.2) l -> machine_ok (stage bs conf l).
Proof.
  intros Hs Hc. apply (machine_ok_mem (lay bs conf l) sample_machine sample_machine_ok).
  induction l as [|[p v] l IH].
  - apply typed_place_bytes. split; [split; done|done].
  - cbn [kinds fmap list_fmap spread] in Hs. rewrite !andb_true_iff, !Z.leb_le in Hs.
    apply Forall_cons in Hc as [Hv Hc]. destruct Hs as [[[[Hp Hn] Ha] _] Hs].
    cbn [lay foldr]. apply typed_place; [by apply IH|exact Hv|lia|apply lay_mapped; cbn; lia|exact Ha].
Qed.

Lemma stage_holds (bs conf : list byte) (l : list (Z * value)) (k : kind) (p : Z) (x : payload k) :
  spread (kinds l) = true -> (p, MkValue k x) ∈ l -> holds p x (stage bs conf l).
Proof.
  intros Hs Hin. unfold holds, stage. cbn [mem]. induction l as [|[q v] l IH]; [by apply not_elem_of_nil in Hin|].
  cbn [kinds fmap list_fmap spread] in Hs. rewrite !andb_true_iff, !Z.leb_le, forallb_forall in Hs.
  destruct Hs as [[_ Hd] Hs]. cbn [lay foldr]. apply elem_of_cons in Hin as [[= <- <-]|Hin].
  - apply object_place_eq.
  - rewrite object_place_ne; [by apply IH|]. specialize (Hd (p, k)).
    rewrite orb_true_iff, !Z.leb_le in Hd. intros (a & Ha & Hb). unfold within in *.
    destruct Hd as [Hd|Hd]; [|lia..]. apply list_elem_of_In, list_elem_of_fmap. by exists (p, MkValue k x).
Qed.

Lemma stage_bytes (bs conf : list byte) (l : list (Z * value)) (q : Z) (n : nat) :
  spread (kinds l) = true -> q + Z.of_nat n <= 8192 ->
  bytes_at q n (mem (stage bs conf l)) = bytes_at q n (desk bs conf).
Proof.
  intros Hs Hq. unfold stage. cbn [mem]. induction l as [|[p v] l IH]; [done|].
  cbn [kinds fmap list_fmap spread] in Hs. rewrite !andb_true_iff, !Z.leb_le in Hs.
  destruct Hs as [[[[Hp _] _] _] Hs]. rewrite <- (IH Hs). cbn [lay foldr]. apply bytes_at_ext. intros a Ha.
  apply (un_bytes _ _ _ (untouched_place p v _ extent_pos)). constructor; [|done]. cbn. unfold within in *. lia.
Qed.

Lemma desk_low (bs conf : list byte) (q : Z) (n : nat) :
  q + Z.of_nat n <= 4608 ->
  bytes_at q n (desk bs conf) = bytes_at (U := value) q n (MkMem [(4096, 262144)] ∅ (map_seqZ 4096 bs)).
Proof.
  intros Hq. apply bytes_at_ext. intros a Ha. apply (un_bytes _ _ _ (untouched_place_bytes 4608 conf _)).
  constructor; [|done]. cbn. unfold within in *. lia.
Qed.

Lemma stage_conf (bs conf : list byte) (l : list (Z * value)) :
  spread (kinds l) = true -> length conf = 48%nat -> bytes_at 4608 48 (mem (stage bs conf l)) = Some conf.
Proof. intros Hs Hl. rewrite stage_bytes by done. rewrite <- Hl. apply bytes_place_bytes_eq. Qed.

Lemma stage_low (bs conf : list byte) (l : list (Z * value)) (q : Z) (n : nat) (r : list byte) :
  spread (kinds l) = true -> q + Z.of_nat n <= 4608 ->
  bytes_at (U := value) q n (MkMem [(4096, 262144)] ∅ (map_seqZ 4096 bs)) = Some r ->
  bytes_at q n (mem (stage bs conf l)) = Some r.
Proof. intros Hs Hq Hr. rewrite stage_bytes by (done || lia). by rewrite desk_low. Qed.

Lemma stage_ready (c : call) (bs conf : list byte) (l : list (Z * value)) :
  args_in_range c -> admissible_b c = true -> c <> EntropyMix -> machine_ok (stage bs conf l) ->
  Forall (present (lay bs conf l)) (operands c) -> ready c (stage bs conf l).
Proof.
  intros Ha Hb Hc Hw Hp. split; [done|]. split; [|by apply admissible_spec]. split; [done|]. split; [done|].
  by intros ->.
Qed.

(** Operands that lie on the stage. *)
Ltac on_stage :=
  cbn [operands]; repeat first [apply Forall_nil_2 | apply Forall_cons_2]; cbn [present];
  first [ apply lay_mapped; vm_compute; discriminate
        | eexists; eassumption
        | intros _; eexists; eassumption ].

Ltac staged := apply stage_ready;
  [repeat constructor; cbn; lia|vm_compute; reflexivity|discriminate|assumption|on_stage].

Definition call_1 : call := SessionInitiate 8192 4096 28672 32768.
Definition call_2 : call :=
  SessionEncapsulateV2 8192 16384 24576 28672 32768 4096 4200 1 4201 1 36864 40960 45056 4864.
Definition call_3 : call := SessionFinalizeV2 8192 16384 24576 32768 36864 53248 4608 4200 1 4201 1 45056 4864.
Definition call_4 : call := SessionConfirmV2 8192 24576 45056 4608.
Definition data_a : list byte := Hs.entropy_a ++ zeros 8 ++ [x01; x02].
Definition data_b : list byte := Hs.entropy_b ++ zeros 40 ++ [x01; x02].

Definition stage_1 : machine := stage data_a [] [(8192, MkValue KSession Sess.new)].
Definition stage_2 (ek : PublicKey1024) (xpk : X25519Public) : machine :=
  stage data_b []
    [(8192, MkValue KSession Sess.new); (16384, MkValue KSigningKey87 Auth.key_b);
     (24576, MkValue KPublicKey87 (verifying_key Auth.key_a)); (28672, MkValue KPublicKey1024 ek);
     (32768, MkValue KX25519Public xpk)].
Definition stage_3 (pend : Sess.SessionManager) (bpk ct sig conf : list byte) : machine :=
  stage data_a conf
    [(8192, MkValue KSession pend); (16384, MkValue KSigningKey87 Auth.key_a);
     (24576, MkValue KPublicKey87 (verifying_key Auth.key_b)); (32768, MkValue KX25519Public bpk);
     (36864, MkValue KCiphertext1024 ct); (53248, MkValue KSignature87 sig)].
Definition stage_4 (s : Sess.SessionManager) (sig conf : list byte) : machine :=
  stage data_b conf
    [(8192, MkValue KSession s); (24576, MkValue KPublicKey87 (verifying_key Auth.key_a));
     (45056, MkValue KSignature87 sig)].

Lemma after_call (c : call) (w w' : machine) :
  ready c w -> run_call c w = Done CSuccess w' -> machine_ok w'.
Proof.
  intros (Hw & Hc & _) E. destruct (call_runs c w Hw Hc) as (e & w1 & E1 & Hw1 & _). rewrite E in E1.
  by injection E1 as <- <-.
Qed.

(** What a stage holds, from its list of objects, and that the call can be made on it. *)
Ltac set_stage :=
  match goal with |- ready ?c (stage ?bs ?conf ?l) /\ ?F =>
    assert (Sp : spread (kinds l) = true) by (vm_compute; reflexivity);
    assert (Hw : machine_ok (stage bs conf l)) by (apply stage_ok; [exact Sp|repeat constructor; assumption]);
    assert (HF : F) by
      (split_and!; first
        [ apply stage_holds; [exact Sp|repeat first [apply list_elem_of_here | apply list_elem_of_further]]
        | apply stage_low; [exact Sp|vm_compute; discriminate|vm_compute; reflexivity]
        | apply stage_conf; [exact Sp|assumption] ]);
    split; [destruct_and! HF; staged|exact HF]
  end.

Lemma new_content : content_ok (MkValue KSession Sess.new).
Proof. exists Life.Idle. apply Life.new_inv. Qed.

Lemma stage_1_set :
  ready call_1 stage_1 /\
  (holds (k := KSession) 8192 Sess.new stage_1 /\ bytes_at 4096 96 (mem stage_1) = Some Hs.entropy_a).
Proof. pose proof new_content. unfold stage_1. set_stage. Qed.

Lemma stage_2_set (ek : PublicKey1024) (xpk : X25519Public) (w := stage_2 ek xpk) :
  content_ok (MkValue KX25519Public xpk) ->
  ready call_2 w /\
  (holds (k := KSession) 8192 Sess.new w /\ holds (k := KSigningKey87) 16384 Auth.key_b w /\
   holds (k := KPublicKey87) 24576 (verifying_key Auth.key_a) w /\ holds (k := KPublicKey1024) 28672 ek w /\
   holds (k := KX25519Public) 32768 xpk w /\ bytes_at 4096 64 (mem w) = Some Hs.entropy_b /\
   bytes_at 4200 1 (mem w) = Some [x01] /\ bytes_at 4201 1 (mem w) = Some [x02]).
Proof. intros Cx. pose proof new_content. unfold w, stage_2. set_stage. Qed.

Lemma stage_3_set (pend : Sess.SessionManager) (bpk ct sig conf : list byte) (w := stage_3 pend bpk ct sig conf) :
  content_ok (MkValue KSession pend) -> content_ok (MkValue KX25519Public bpk) ->
  content_ok (MkValue KCiphertext1024 ct) -> content_ok (MkValue KSignature87 sig) -> length conf = 48%nat ->
  ready call_3 w /\
  (holds (k := KSession) 8192 pend w /\ holds (k := KSigningKey87) 16384 Auth.key_a w /\
   holds (k := KPublicKey87) 24576 (verifying_key Auth.key_b) w /\ holds (k := KX25519Public) 32768 bpk w /\
   holds (k := KCiphertext1024) 36864 ct w /\ holds (k := KSignature87) 53248 sig w /\
   bytes_at 4608 48 (mem w) = Some conf /\ bytes_at 4200 1 (mem w) = Some [x01] /\
   bytes_at 4201 1 (mem w) = Some [x02]).
Proof. intros. unfold w, stage_3. set_stage. Qed.

Lemma stage_4_set (s : Sess.SessionManager) (sig conf : list byte) (w := stage_4 s sig conf) :
  content_ok (MkValue KSession s) -> content_ok (MkValue KSignature87 sig) -> length conf = 48%nat ->
  ready call_4 w /\
  (holds (k := KSession) 8192 s w /\ holds (k := KPublicKey87) 24576 (verifying_key Auth.key_a) w /\
   holds (k := KSignature87) 45056 sig w /\ bytes_at 4608 48 (mem w) = Some conf).
Proof. intros. unfold w, stage_4. set_stage. Qed.

Lemma crypto_ffi_authenticated_handshake_witness :
  exists ek xpk pend bpk ct sigb confb unconfirmed siga confa sa sb wa1 wb1 wa3 wb3,
    run_call call_1 stage_1 = Done CSuccess wa1 /\
    run_call call_2 (stage_2 ek xpk) = Done CSuccess wb1 /\
    run_call call_3 (stage_3 pend bpk ct sigb confb) = Done CSuccess wa3 /\
    run_call call_4 (stage_4 unconfirmed siga confa) = Done CSuccess wb3 /\
    holds (k := KSession) 8192 sa wa3 /\ holds (k := KSession) 8192 sb wb3 /\ Hs.paired sa sb.
Proof.
  destruct stage_1_set as (R1 & S1 & B1).
  destruct (crypto_ffi_authenticated_handshake Auth.key_a Auth.key_b Hs.entropy_a Hs.entropy_b [x01] [x02]
    8192 4096 28672 32768 Sess.new stage_1 eq_refl eq_refl eq_refl Hs.sample_honest_dh R1 S1 B1)
    as (ek & xpk & pend & wa1 & E1 & O1 & O2 & O3 & Next).
  pose proof (after_call _ _ _ R1 E1) as W1.
  destruct (stage_2_set ek xpk (content_of _ _ _ _ W1 O2)) as (R2 & P1 & P2 & P3 & P4 & P5 & P6 & P7 & P8).
  destruct (Next 8192 16384 24576 28672 32768 4096 4200 1 4201 1 36864 40960 45056 4864 Sess.new (stage_2 ek xpk)
    R2 P1 P2 P3 P4 P5 P6 P7 P8)
    as (ct & bpk & sigb & confb & unconfirmed & wb1 & E2 & Q1 & Q2 & Q3 & Q4 & Q5 & _ & Next').
  pose proof (after_call _ _ _ R2 E2) as W2.
  destruct (stage_3_set pend bpk ct sigb confb (content_of _ _ _ _ W1 O3) (content_of _ _ _ _ W2 Q2)
    (content_of _ _ _ _ W2 Q1) (content_of _ _ _ _ W2 Q3) (bytes_at_length _ _ _ _ Q4))
    as (R3 & T1 & T2 & T3 & T4 & T5 & T6 & T7 & T8 & T9).
  destruct (Next' 8192 16384 24576 32768 36864 53248 4608 4200 1 4201 1 45056 4864 (stage_3 pend bpk ct sigb confb)
    R3 T1 T2 T3 T4 T5 T6 T7 T8 T9) as (siga & confa & sa & wa3 & E3 & U1 & U2 & U3 & Next'').
  pose proof (after_call _ _ _ R3 E3) as W3.
  destruct (stage_4_set unconfirmed siga confa (content_of _ _ _ _ W2 Q5) (content_of _ _ _ _ W3 U1)
    (bytes_at_length _ _ _ _ U2)) as (R4 & V1 & V2 & V3 & V4).
  destruct (Next'' 8192 24576 45056 4608 (stage_4 unconfirmed siga confa) R4 V1 V2 V3 V4) as (sb & wb3 & E4 & O4 & P).
  exists ek, xpk, pend, bpk, ct, sigb, confb, unconfirmed, siga, confa, sa, sb, wa1, wb1, wa3, wb3.
  exact (conj E1 (conj E2 (conj E3 (conj E4 (conj U3 (conj O4 P)))))).
Defined.

End CryptoHandshake.
