(* ===== verification/CryptoFrame.v ===== *)
(** The variables of a program that calls the crypto C interface: addresses with what
    lies there, pairwise apart. A frame says which argument lists the checks accept and
    is carried through writes cell by cell. *)

From stdpp Require Import gmap.
From S2P Require Import Prelude CMemory CryptoHost Primitives Session EntropyPool.
From S2P Require Import CryptoTypes CryptoFfi CryptoFfiArgs CryptoObjects CryptoFfiRun CryptoClient CryptoHandshake.
Local Open Scope Z_scope.

Module CFrame.
Import CryptoC CryptoArgs CryptoObj CryptoRun CryptoClient CryptoHandshake.

Section frames.
Context `{CryptoLaws} `{CryptoLayout} `{!CryptoLayoutLaws} `{InterruptAnswers}.

(** * Cells *)

Inductive shape : Type :=
| SHandle (k : kind)
| SBytes (n : Z).

(** Storage nothing was written to, initialised bytes, an object. *)
Inductive cell : Type :=
| Unset (s : shape)
| Bytes (l : list byte)
| Object (v : value).

Definition shape_of (c : cell) : shape :=
  match c with Unset s => s | Bytes l => SBytes (zlen l) | Object v => SHandle (vkind v) end.
Definition extent_of (s : shape) : Z := match s with SHandle k => size_of k | SBytes n => n end.
Definition aligned (p : Z) (s : shape) : Prop :=
  match s with SHandle k => p mod align_of k = 0 | SBytes _ => True end.
Definition span (c : cell) : Z := extent_of (shape_of c).

Abbreviation frame := (list (Z * cell)).

Definition cell_at (m : cmem value) (a : Z * cell) : Prop :=
  match a.2 with
  | Unset _ => True
  | Bytes l => bytes_at a.1 (length l) m = Some l
  | Object v => objects m !! a.1 = Some v
  end.

(** In the address space, aligned, and inside an allocation. *)
Definition placed (m : cmem value) (a : Z * cell) : Prop :=
  0 < a.1 /\ a.1 + span a.2 < 2 ^ 64 /\ aligned a.1 (shape_of a.2) /\ mapped a.1 (span a.2) m = true.

Definition cells_apart (a b : Z * cell) : Prop := ~ meets a.1 (span a.2) b.1 (span b.2).

Record frame_at (f : frame) (m : cmem value) : Prop := {
  fr_apart : ForallOrdPairs cells_apart f;
  fr_placed : Forall (placed m) f;
  fr_cells : Forall (cell_at m) f
}.

Lemma apart_sym (a b : Z * cell) : cells_apart a b -> cells_apart b a.
Proof. unfold cells_apart. by rewrite meets_sym. Qed.

Lemma apart_lookup (f : frame) (i j : nat) (a b : Z * cell) :
  ForallOrdPairs cells_apart f -> f !! i = Some a -> f !! j = Some b -> i <> j -> cells_apart a b.
Proof.
  intros Hf. revert i j. induction Hf as [|c f Hc Hf IH]; intros i j Hi Hj Hne; [done|].
  rewrite Forall_forall in Hc. destruct i as [|i], j as [|j]; cbn in *; try done; simplify_eq.
  - apply Hc. by eapply list_elem_of_lookup_2.
  - apply apart_sym, Hc. by eapply list_elem_of_lookup_2.
  - eapply IH; [done|done|congruence].
Qed.

Lemma frame_cell (f : frame) (m : cmem value) (i : nat) (a : Z * cell) :
  frame_at f m -> f !! i = Some a -> placed m a /\ cell_at m a.
Proof. intros [_ Hp Hc] Hi. split; by eapply Forall_lookup_1. Qed.

(** * Writes *)

Lemma untouched_wider (p n n' : Z) (m m' : cmem value) :
  n <= n' -> untouched [(p, n)] m m' -> untouched [(p, n')] m m'.
Proof.
  intros Hn [Hs Ho Hb]. split; [done| |].
  - intros q u Hq. apply Ho. inversion_clear Hq as [|? ? Hm _]. constructor; [|done]. cbn in *.
    intros (a & Ha & Hq). apply Hm. exists a. unfold within in *. split; [lia|done].
  - intros a Ha. apply Hb. inversion_clear Ha as [|? ? Hw _]. constructor; [|done]. unfold within in *. cbn in *. lia.
Qed.

Lemma cell_outside (m m' : cmem value) (p n : Z) (a : Z * cell) :
  untouched [(p, n)] m m' -> ~ meets p n a.1 (span a.2) -> cell_at m a -> cell_at m' a.
Proof.
  intros Hu Hm. destruct a as [q [s|l|v]]; unfold cell_at, span in *; cbn in *; [done| |].
  - intros <-. apply bytes_at_ext. intros a Ha. apply (un_bytes _ _ _ Hu). constructor; [|done]. cbn.
    intros Hw. apply Hm. by exists a.
  - intros E. apply (un_objects _ _ _ Hu); [|done]. by constructor.
Qed.

Lemma apart_insert (f : frame) (i : nat) (p : Z) (c c' : cell) :
  f !! i = Some (p, c) -> span c' = span c -> ForallOrdPairs cells_apart f ->
  ForallOrdPairs cells_apart (<[i := (p, c')]> f).
Proof.
  intros Hi Hs Hf. revert i Hi. induction Hf as [|a f Ha Hf IH]; intros [|i] Hi; cbn in *; try done; simplify_eq.
  - constructor; [|done]. eapply Forall_impl; [exact Ha|]. intros b. unfold cells_apart. cbn. by rewrite Hs.
  - constructor; [|by apply IH]. apply Forall_insert; [done|].
    assert (Hpc : cells_apart a (p, c)) by (by eapply (Forall_lookup_1 _ _ _ _ Ha)).
    unfold cells_apart in *. cbn in *. by rewrite Hs.
Qed.

(** One cell changes; everything else stays. *)
Lemma frame_set (f : frame) (i : nat) (p : Z) (c c' : cell) (m m' : cmem value) :
  frame_at f m -> f !! i = Some (p, c) -> shape_of c' = shape_of c ->
  untouched [(p, span c)] m m' -> cell_at m' (p, c') -> frame_at (<[i := (p, c')]> f) m'.
Proof.
  intros Hf Hi Hs Hu Hc. pose proof (frame_cell _ _ _ _ Hf Hi) as [Hp _].
  assert (Hspan : span c' = span c) by (unfold span; by rewrite Hs).
  assert (Hpl : forall a, placed m a -> placed m' a).
  { unfold placed. intros a (? & ? & ? & ?). split_and!; try done. by rewrite (mapped_untouched _ _ _ _ _ Hu). }
  destruct Hf as [Ha Hpf Hcf]. split.
  - by eapply apart_insert.
  - apply Forall_insert; [exact (Forall_impl _ _ _ Hpf Hpl)|]. apply Hpl. revert Hp. unfold placed. cbn. by rewrite Hspan, Hs.
  - apply Forall_lookup_2. intros j b Hj. destruct (decide (j = i)) as [->|Hne].
    + rewrite list_lookup_insert_eq in Hj by (by eapply lookup_lt_Some). by injection Hj as <-.
    + rewrite list_lookup_insert_ne in Hj by done. eapply cell_outside; [exact Hu| |by eapply Forall_lookup_1].
      exact (apart_lookup f i j _ _ Ha Hi Hj (not_eq_sym Hne)).
Qed.

Lemma frame_place (f : frame) (i : nat) (p : Z) (c : cell) (v : value) (m : cmem value) :
  frame_at f m -> f !! i = Some (p, c) -> shape_of c = SHandle (vkind v) ->
  frame_at (<[i := (p, Object v)]> f) (place p v m).
Proof.
  intros Hf Hi Hs. eapply frame_set; [done|done|by rewrite Hs| |apply place_lookup].
  unfold span. rewrite Hs. exact (untouched_place p v m extent_pos).
Qed.

Lemma frame_put_object (f : frame) (i : nat) (p : Z) (k : kind) (x y : payload k) (m : cmem value) :
  frame_at f m -> f !! i = Some (p, Object (MkValue k x)) ->
  frame_at (<[i := (p, Object (MkValue k y))]> f) (put_object p (MkValue k y) m).
Proof.
  intros Hf Hi. eapply frame_set; [done|done|done| |unfold cell_at; cbn; by rewrite lookup_insert_eq].
  exact (untouched_put p (MkValue k y) m extent_pos).
Qed.

Lemma frame_place_bytes (f : frame) (i : nat) (p : Z) (c : cell) (l : list byte) (m : cmem value) :
  frame_at f m -> f !! i = Some (p, c) -> shape_of c = SBytes (zlen l) ->
  frame_at (<[i := (p, Bytes l)]> f) (place_bytes p l m).
Proof.
  intros Hf Hi Hs. eapply frame_set; [done|done|by rewrite Hs| |apply bytes_place_bytes_eq].
  unfold span. rewrite Hs. apply untouched_place_bytes.
Qed.

Lemma bytes_at_prefix (p : Z) (k n : nat) (l : list byte) (m : cmem value) :
  bytes_at p n m = Some l -> (k <= n)%nat -> bytes_at p k m = Some (take k l).
Proof.
  rewrite !bytes_at_Some. intros [Hl Hb] Hk. split; [rewrite length_take; lia|].
  intros i b Hi. apply lookup_take_Some in Hi as [Hi _]. by apply Hb.
Qed.

Lemma bytes_at_overwrite (p : Z) (l old : list byte) (m : cmem value) :
  bytes_at p (length old) m = Some old -> (length l <= length old)%nat ->
  bytes_at p (length old) (put_bytes p l m) = Some (l ++ drop (length l) old).
Proof.
  rewrite !bytes_at_Some. intros [_ Hb] Hl. split; [rewrite length_app, length_drop; lia|].
  intros i b Hi. pose proof (lookup_lt_Some _ _ _ Hi) as Hlt. rewrite length_app, length_drop in Hlt.
  rewrite put_bytes_lookup. unfold within, zlen. destruct (decide _) as [Hw|Hw].
  - rewrite lookup_app_l in Hi by lia. by replace (Z.to_nat (p + Z.of_nat i - p)) with i by lia.
  - rewrite lookup_app_r in Hi by lia. rewrite lookup_drop in Hi. apply Hb.
    by replace (length l + (i - length l))%nat with i in Hi by lia.
Qed.

(** A store to the front of a buffer. *)
Lemma frame_put_bytes (f : frame) (i : nat) (p : Z) (l old : list byte) (m : cmem value) :
  frame_at f m -> f !! i = Some (p, Bytes old) -> (length l <= length old)%nat ->
  frame_at (<[i := (p, Bytes (l ++ drop (length l) old))]> f) (put_bytes p l m).
Proof.
  intros Hf Hi Hl. pose proof (frame_cell _ _ _ _ Hf Hi) as [_ Hc]. unfold cell_at in Hc. cbn in Hc.
  assert (Hlen : length (l ++ drop (length l) old) = length old) by (rewrite length_app, length_drop; lia).
  eapply frame_set; [done|done|cbn; unfold zlen; by rewrite Hlen| |].
  - apply (untouched_wider p (zlen l)); [unfold span, zlen; cbn; unfold zlen; lia|apply untouched_put_bytes].
  - unfold cell_at. cbn. rewrite Hlen. by apply bytes_at_overwrite.
Qed.

(** Storage whose content nobody looks at any more. *)
Definition forget (a : Z * cell) : Z * cell := (a.1, Unset (shape_of a.2)).

Lemma frame_forget (f : frame) (m : cmem value) : frame_at f m -> frame_at (forget <$> f) m.
Proof.
  intros [Ha Hp Hc]. split.
  - clear Hp Hc. induction Ha as [|a f Hf Ha IH]; cbn; constructor; [|done]. apply Forall_fmap.
    eapply Forall_impl; [exact Hf|]. done.
  - apply Forall_fmap. eapply Forall_impl; [exact Hp|]. done.
  - apply Forall_fmap. eapply Forall_impl; [exact Hc|]. done.
Qed.

(** A frame is what its cells say, wherever the layout is known to be right. *)
Lemma frame_refine (f g : frame) (m m' : cmem value) :
  frame_at g m -> storage m' = storage m ->
  Forall2 (fun a b => a.1 = b.1 /\ shape_of a.2 = shape_of b.2) f g -> Forall (cell_at m') f -> frame_at f m'.
Proof.
  intros [Ha Hp _] Hst Hfg Hc. split; [|clear Hc|done].
  - clear Hp Hc. induction Hfg as [|x y f g [E1 E2] Hfg IH]; [constructor|]. inversion_clear Ha as [|? ? Hy Hg].
    constructor; [|by apply IH]. clear IH Hg. induction Hfg as [|x' y' f g [E3 E4] _ IH]; constructor.
    + apply Forall_cons in Hy as [Hy _]. unfold cells_apart, span in *. by rewrite E1, E2, E3, E4.
    + apply IH. by apply Forall_cons in Hy as [_ Hy].
  - clear Ha. induction Hfg as [|x y f g [E1 E2] _ IH]; [done|]. apply Forall_cons in Hp as [Hy Hg].
    constructor; [|by apply IH]. unfold placed, span, mapped in *. by rewrite Hst, E1, E2.
Qed.

Lemma frame_app_l (f g : frame) (m : cmem value) : frame_at (f ++ g) m -> frame_at f m.
Proof.
  intros [Ha Hp Hc]. apply Forall_app in Hp as [Hp _], Hc as [Hc _]. split; [|done|done]. clear Hp Hc.
  induction f as [|x f IH]; [constructor|]. inversion_clear Ha as [|? ? Hx Hf].
  apply Forall_app in Hx as [Hx _]. constructor; [done|by apply IH].
Qed.

(** ** During a run *)

Definition inside (st : list (Z * Z)) (f : frame) (w : machine) : Prop := frame_at f (mem w) /\ storage (mem w) = st.

Lemma copy_step (st : list (Z * Z)) (f : frame) (i : nat) (p : Z) (c : cell) (l : list byte) (w : machine) :
  inside st f w -> f !! i = Some (p, c) -> shape_of c = SBytes (zlen l) ->
  exists w', copy_out p l w = Done tt w' /\ platform w' = platform w /\ inside st (<[i := (p, Bytes l)]> f) w'.
Proof.
  intros [Hf Hst] Hi Hs. destruct (proj1 (frame_cell _ _ _ _ Hf Hi)) as (_ & _ & _ & Hm).
  unfold span in Hm. cbn in Hm. rewrite Hs in Hm. cbn in Hm.
  eexists. split; [by apply copy_out_run|]. split; [done|]. split; [by eapply frame_place_bytes|done].
Qed.

(** * Reads *)

Lemma frame_object (f : frame) (m : cmem value) (i : nat) (k : kind) (p : Z) (x : payload k) :
  frame_at f m -> f !! i = Some (p, Object (MkValue k x)) -> object_at p m = Some (MkHandle x).
Proof. intros Hf Hi. apply handle_at. exact (proj2 (frame_cell _ _ _ _ Hf Hi)). Qed.

Lemma frame_bytes (f : frame) (m : cmem value) (i : nat) (p : Z) (l : list byte) :
  frame_at f m -> f !! i = Some (p, Bytes l) -> bytes_at p (length l) m = Some l.
Proof. intros Hf Hi. exact (proj2 (frame_cell _ _ _ _ Hf Hi)). Qed.

Lemma frame_buffer (f : frame) (m : cmem value) (i : nat) (p n : Z) (l : list byte) :
  frame_at f m -> f !! i = Some (p, Bytes l) -> 0 <= n <= zlen l ->
  buffer p n m = Some (take (Z.to_nat n) l).
Proof.
  intros Hf Hi Hn. unfold buffer. destruct (Z.ltb_spec 0 n).
  - eapply bytes_at_prefix; [by eapply frame_bytes|unfold zlen in *; lia].
  - by replace n with 0 by lia.
Qed.

Lemma frame_mapped (f : frame) (m : cmem value) (i : nat) (p : Z) (c : cell) :
  frame_at f m -> f !! i = Some (p, c) -> mapped p (span c) m = true.
Proof. intros Hf Hi. by destruct (frame_cell _ _ _ _ Hf Hi) as [(_ & _ & _ & ?) _]. Qed.

(** * Arguments *)

(** The operand uses the cell. *)
Definition fits (a : Z * cell) (o : operand) : Prop :=
  match o with
  | OHandle k p _ => a.1 = p /\ shape_of a.2 = SHandle k
  | OArray p n _ => a.1 = p /\ shape_of a.2 = SBytes n /\ 0 < n
  | OExact p n e _ => a.1 = p /\ shape_of a.2 = SBytes n /\ n = e /\ 0 <= n
  | OSlice p n limit _ _ => a.1 = p /\ exists k, shape_of a.2 = SBytes k /\ 0 <= n <= k /\ n <= limit
  end.

Definition supplies (f : frame) (o : operand) (i : nat) : Prop := exists a, f !! i = Some a /\ fits a o.

Lemma fits_operand (m : cmem value) (a : Z * cell) (o : operand) :
  placed m a -> fits a o ->
  operand_ok o /\ 0 <= (region_of o).1.1 /\ (region_of o).1.1 = a.1 /\
  0 <= (region_of o).1.2 <= span a.2 /\ (region_of o).1.1 + (region_of o).1.2 < 2 ^ 64.
Proof.
  intros (Hp & Hs & Ha & _) Hf. destruct a as [q c]. unfold span in *. cbn [fst snd] in *.
  destruct o as [k p|p n|p n e|p n limit]; cbn in *.
  - destruct Hf as [<- E]. rewrite E in *. cbn in *. pose proof (size_of_pos k). split_and!; (done || lia).
  - destruct Hf as (<- & E & ?). rewrite E in *. cbn in *. split_and!; (done || lia).
  - destruct Hf as (<- & E & <- & ?). rewrite E in *. cbn in *. split_and!; (done || lia).
  - destruct Hf as (<- & k & E & Hn & Hl). rewrite E in *. cbn in *. split_and!; (lia || intros; split; lia).
Qed.

Lemma fits_apart (m : cmem value) (a b : Z * cell) (o o' : operand) :
  placed m a -> placed m b -> cells_apart a b -> fits a o -> fits b o' -> ~ conflict o o'.
Proof.
  intros Ha Hb Hab Ho Ho'.
  destruct (fits_operand _ _ _ Ha Ho) as (_ & _ & E1 & S1 & L1), (fits_operand _ _ _ Hb Ho') as (_ & _ & E2 & S2 & L2).
  unfold conflict. destruct (region_of o) as [[p n] w], (region_of o') as [[q k] w']. cbn in *. subst.
  intros (_ & _ & _ & [?|[?|(x & Hx & Hy)]]); [lia|lia|]. apply Hab. exists x. unfold within in *. lia.
Qed.

Lemma supplied_in_range (f : frame) (m : cmem value) (os : list operand) (ns : list nat) :
  frame_at f m -> Forall2 (supplies f) os ns ->
  Forall (fun o => operand_ok o /\ 0 < (region_of o).1.1 /\ 0 <= (region_of o).1.2 /\
                   (region_of o).1.1 + (region_of o).1.2 < 2 ^ 64) os.
Proof.
  intros Hf Hs. induction Hs as [|o i os ns (a & Hi & Hfit) _ IH]; constructor; [|done].
  pose proof (proj1 (frame_cell _ _ _ _ Hf Hi)) as Hp.
  destruct (fits_operand _ _ _ Hp Hfit) as (Ho & _ & E & S1 & L1). destruct Hp as [Hp _]. split_and!; (done || lia).
Qed.

Lemma frame_args (c : call) (f : frame) (m : cmem value) (ns : list nat) :
  frame_at f m -> Forall2 (supplies f) (operands c) ns -> args_in_range c.
Proof.
  intros Hf Hs. unfold args_in_range. eapply Forall_impl; [by eapply supplied_in_range|]. cbn.
  intros o (_ & Hp & Hn & Hl). unfold in_width. destruct o; cbn in *; lia.
Qed.

Lemma apart_operands (f : frame) (m : cmem value) (os : list operand) (ns : list nat) :
  frame_at f m -> Forall2 (supplies f) os ns -> NoDup ns -> ForallOrdPairs (fun o o' => ~ conflict o o') os.
Proof.
  intros Hf Hs. assert (Hpl : forall i a, f !! i = Some a -> placed m a) by (intros; by eapply frame_cell).
  induction Hs as [|o i os ns (a & Hi & Hfit) Hs IH]; intros Hn; constructor.
  - apply NoDup_cons in Hn as [Hni _]. clear IH. induction Hs as [|o' j os ns (b & Hj & Hfit') _ IH]; constructor.
    + assert (i <> j) by (intros ->; apply Hni; by left).
      pose proof (apart_lookup f i j a b (fr_apart _ _ Hf) Hi Hj ltac:(done)) as Hab.
      exact (fits_apart m a b o o' (Hpl _ _ Hi) (Hpl _ _ Hj) Hab Hfit Hfit').
    + apply IH. intros Hin. apply Hni. by right.
  - apply NoDup_cons in Hn as [_ Hn]. by apply IH.
Qed.

(** Operands in different cells pass the checks. *)
Lemma frame_admissible (c : call) (f : frame) (m : cmem value) (ns : list nat) :
  frame_at f m -> Forall2 (supplies f) (operands c) ns -> NoDup ns -> admissible_b c = true.
Proof.
  intros Hf Hs Hn. apply admissible_spec; [by eapply frame_args|]. split; [|by eapply apart_operands].
  eapply Forall_impl; [by eapply supplied_in_range|]. by intros o [? _].
Qed.

Lemma supplied_no_null (f : frame) (m : cmem value) (os : list operand) (ns : list nat) :
  frame_at f m -> Forall2 (supplies f) os ns -> existsb null_fault os = false.
Proof.
  intros Hf Hs. pose proof (supplied_in_range f m os ns Hf Hs) as Hr. clear Hs.
  induction Hr as [|o os (_ & Hp & _) _ IH]; [done|]. cbn [existsb]. rewrite IH, orb_false_r.
  assert (Hn : forall p, 0 < p -> is_null p = false) by (intros p ?; apply is_null_false; lia).
  destruct o as [| | |p n limit []]; cbn in *; rewrite ?Hn by done; done.
Qed.

(** Two operands in the same cell do not, when one is written. *)
Lemma same_cell_refused (c : call) (i j : nat) (o o' : operand) (w : machine) :
  args_in_range c -> operands c !! i = Some o -> operands c !! j = Some o' -> (i < j)%nat -> conflict o o' ->
  run_call c w = Done (argument_error c) w.
Proof.
  intros Ha Hi Hj Hij Hc. destruct (checks_split c Ha) as (body & -> & _); [by intros E; rewrite E in Hi|].
  destruct (admissible_b c) eqn:E; [|done]. apply (admissible_spec c Ha) in E as [_ Hp]. exfalso.
  revert i j Hi Hj Hij. induction Hp as [|x os Hx Hp IH]; intros [|i] [|j] Hi Hj Hij; cbn in *; try done; [lia| |lia|].
  - simplify_eq. rewrite Forall_forall in Hx. exact (Hx o' (list_elem_of_lookup_2 _ _ _ Hj) Hc).
  - eapply IH; [exact Hi|exact Hj|lia].
Qed.

End frames.

End CFrame.
