(* ===== verification/AeadFuzz.v ===== *)
(** ffi_aead_fuzz.rs: one sealing and three openings of a fuzzed message through the C
    interface, the arrays of the target being storage at given addresses. A failed
    assertion is [halt]. *)

From stdpp Require Import gmap.
From S2P Require Import Prelude CMemory CryptoHost Primitives ToyCrypto Aead Session EntropyPool.
From S2P Require Import CryptoTypes CryptoFfi CryptoFfiArgs CryptoObjects CryptoFfiRun CryptoClient CryptoHandshake CryptoFrame.
Local Open Scope Z_scope.

Module AeadFuzz.
Import CryptoC CryptoArgs CryptoObj CryptoRun CryptoClient CryptoHandshake CFrame.

Definition MAX_DATA : nat := 256.
Definition MAX_AAD : nat := 128.

#[local] Opaque bytes_at object_at.

(** * The arrays *)

Record locals : Type := MkLocals {
  enc_key : list byte;
  mac_key : list byte;
  nonce : list byte;
  aad : list byte;
  ciphertext : list byte;
  mac : list byte;
  plaintext : list byte
}.

Definition zeroed : locals :=
  MkLocals (zeros 32) (zeros 32) (zeros 12) (zeros MAX_AAD) (zeros MAX_DATA) (zeros 48) (zeros MAX_DATA).

Definition set_enc_key (v : list byte) (l : locals) : locals :=
  MkLocals v (mac_key l) (nonce l) (aad l) (ciphertext l) (mac l) (plaintext l).
Definition set_mac_key (v : list byte) (l : locals) : locals :=
  MkLocals (enc_key l) v (nonce l) (aad l) (ciphertext l) (mac l) (plaintext l).
Definition set_nonce (v : list byte) (l : locals) : locals :=
  MkLocals (enc_key l) (mac_key l) v (aad l) (ciphertext l) (mac l) (plaintext l).
Definition set_aad (v : list byte) (l : locals) : locals :=
  MkLocals (enc_key l) (mac_key l) (nonce l) v (ciphertext l) (mac l) (plaintext l).
Definition set_ciphertext (v : list byte) (l : locals) : locals :=
  MkLocals (enc_key l) (mac_key l) (nonce l) (aad l) v (mac l) (plaintext l).
Definition set_mac (v : list byte) (l : locals) : locals :=
  MkLocals (enc_key l) (mac_key l) (nonce l) (aad l) (ciphertext l) v (plaintext l).
Definition set_plaintext (v : list byte) (l : locals) : locals :=
  MkLocals (enc_key l) (mac_key l) (nonce l) (aad l) (ciphertext l) (mac l) v.

(** [l[i] ^= b]; every index below is reduced modulo the length first. *)
Definition xor_at (i : nat) (b : Z) (l : list byte) : list byte :=
  alter (fun x => byte_of_Z (Z.lxor (bval x) b)) i l.
Definition xor_into (i : nat) (b : Z) (l : list byte) : list byte := xor_at (i mod length l) b l.

(** The first loop, from the given index on. *)
Fixpoint spread (index : nat) (input : list byte) (l : locals) : locals :=
  match input with
  | [] => l
  | byte :: rest =>
      let i := (index / 6)%nat in
      let b := bval byte in
      spread (S index) rest
        match (index mod 6)%nat with
        | 0%nat => set_enc_key (xor_into i b (enc_key l)) l
        | 1%nat => set_mac_key (xor_into i b (mac_key l)) l
        | 2%nat => set_nonce (xor_into i b (nonce l)) l
        | 3%nat => set_aad (xor_into i b (aad l)) l
        | 4%nat => set_ciphertext (xor_into i b (ciphertext l)) l
        | _ => set_mac (xor_into i b (mac l)) l
        end
  end.

(** The second loop. *)
Fixpoint mix (index : nat) (input : list byte) (l : locals) : locals :=
  match input with
  | [] => l
  | byte :: rest =>
      let l := set_plaintext (xor_at (index mod MAX_DATA) (bval byte) (plaintext l)) l in
      let l := set_aad (xor_at (index mod MAX_AAD) (rotate_left 8 (bval byte) (Z.of_nat (index mod 8))) (aad l)) l in
      mix (S index) rest l
  end.

Definition data_len (input : list byte) : Z := bval (default x00 (input !! 0%nat)) mod (Z.of_nat MAX_DATA + 1).
Definition aad_len (input : list byte) : Z := bval (default x00 (input !! 1%nat)) mod (Z.of_nat MAX_AAD + 1).

(** What the arrays hold when the first call is made. *)
Definition prepared (input : list byte) : locals := mix 0 (drop 2 input) (spread 0 input zeroed).

(** * The target *)

Section target.
Context `{CryptoOps} `{CryptoLayout} `{InterruptAnswers}.

Definition assert (b : bool) : M machine unit := if b then mret tt else halt.

(** Where the seven arrays are. *)
Record addresses : Type := MkAddresses {
  at_enc_key : Z;
  at_mac_key : Z;
  at_nonce : Z;
  at_aad : Z;
  at_ciphertext : Z;
  at_mac : Z;
  at_plaintext : Z
}.

Variable fuzz_cache_flush : CFnPtr.
Variable a : addresses.

Definition install_fuzz_callbacks : M machine unit :=
  modify (fun w => set_platform (crypto_register_cache_flush (Some fuzz_cache_flush) (platform w)) w).

Definition declare (l : locals) : M machine unit :=
  copy_out (at_enc_key a) (enc_key l) ;;
  copy_out (at_mac_key a) (mac_key l) ;;
  copy_out (at_nonce a) (nonce l) ;;
  copy_out (at_aad a) (aad l) ;;
  copy_out (at_ciphertext a) (ciphertext l) ;;
  copy_out (at_mac a) (mac l) ;;
  copy_out (at_plaintext a) (plaintext l).

Definition seal (aad_len data_len : Z) : M machine ShawncoreCryptoErr :=
  shawncore_crypto_aead_encrypt (at_enc_key a) (at_mac_key a) (at_nonce a) (at_aad a) aad_len (at_plaintext a)
    (at_ciphertext a) data_len (at_mac a).
Definition open (aad_len data_len : Z) : M machine ShawncoreCryptoErr :=
  shawncore_crypto_aead_decrypt (at_enc_key a) (at_mac_key a) (at_nonce a) (at_aad a) aad_len (at_ciphertext a)
    (at_mac a) (at_plaintext a) data_len.

(** [ciphertext[0] ^= 1] and the call that has to refuse it. *)
Definition tampered (aad_len data_len : Z) : M machine unit :=
  first ← array (at_ciphertext a) 1;
  fill (at_ciphertext a) (xor_at 0 1 first) ;;
  tampered_result ← open aad_len data_len;
  assert (bool_decide (tampered_result = CVerificationFailed)).

(** Aliased buffers and a null pointer with a length. *)
Definition bad_pointers (aad_len data_len : Z) : M machine unit :=
  let alias_len := if data_len =? 0 then 1 else data_len in
  alias_result ← shawncore_crypto_aead_encrypt (at_enc_key a) (at_mac_key a) (at_nonce a) (at_aad a) aad_len
    (at_plaintext a) (at_plaintext a) alias_len (at_mac a);
  assert (bool_decide (alias_result = CInvalidLength)) ;;
  null_result ← shawncore_crypto_aead_decrypt (at_enc_key a) (at_mac_key a) (at_nonce a) 0 1 (at_ciphertext a)
    (at_mac a) (at_plaintext a) data_len;
  assert (bool_decide (null_result = CInvalidLength)).

(** The message is sealed and opened again. *)
Definition round_trip (expected_plaintext : list byte) (aad_len data_len : Z) : M machine unit :=
  encrypt_result ← seal aad_len data_len;
  assert (bool_decide (encrypt_result = CSuccess)) ;;
  result ← open aad_len data_len;
  assert (bool_decide (result = CSuccess)) ;;
  opened ← array (at_plaintext a) MAX_DATA;
  assert (bool_decide (take (Z.to_nat data_len) opened = take (Z.to_nat data_len) expected_plaintext)).

Definition fuzz_target (input : list byte) : M machine unit :=
  install_fuzz_callbacks ;;
  let aad_len := aad_len input in
  let data_len := data_len input in
  let expected_plaintext := plaintext (prepared input) in
  declare (prepared input) ;;
  round_trip expected_plaintext aad_len data_len ;;
  (if 0 <? data_len then tampered aad_len data_len else mret tt) ;;
  bad_pointers aad_len data_len.

End target.

(** * Runs of its parts *)

(** The arrays have their lengths. *)
Definition sized (l : locals) : Prop :=
  length (enc_key l) = 32%nat /\ length (mac_key l) = 32%nat /\ length (nonce l) = 12%nat /\
  length (aad l) = MAX_AAD /\ length (ciphertext l) = MAX_DATA /\ length (mac l) = 48%nat /\
  length (plaintext l) = MAX_DATA.

Lemma length_xor_at (i : nat) (b : Z) (l : list byte) : length (xor_at i b l) = length l.
Proof. apply length_alter. Qed.
Lemma length_xor_into (i : nat) (b : Z) (l : list byte) : length (xor_into i b l) = length l.
Proof. apply length_alter. Qed.

Lemma sized_spread (input : list byte) (i : nat) (l : locals) : sized l -> sized (spread i input l).
Proof.
  revert i l. induction input as [|b rest IH]; intros i l Hl; cbn [spread]; [done|]. apply IH.
  destruct Hl as (? & ? & ? & ? & ? & ? & ?). unfold sized.
  do 5 (case_match; [cbn; rewrite ?length_xor_into; done|]); cbn; rewrite ?length_xor_into; done.
Qed.

Lemma sized_mix (input : list byte) (i : nat) (l : locals) : sized l -> sized (mix i input l).
Proof.
  revert i l. induction input as [|b rest IH]; intros i l Hl; cbn [mix]; [done|]. apply IH.
  unfold sized in *. cbn. rewrite !length_xor_at. done.
Qed.

Lemma prepared_sized (input : list byte) : sized (prepared input).
Proof. apply sized_mix, sized_spread. by split_and!. Qed.

Lemma sized_ciphertext (l : locals) (c : list byte) : sized l -> length c = MAX_DATA -> sized (set_ciphertext c l).
Proof. intros (? & ? & ? & ? & ? & ? & ?) ?. by split_and!. Qed.
Lemma sized_mac (l : locals) (t : list byte) : sized l -> length t = 48%nat -> sized (set_mac t l).
Proof. intros (? & ? & ? & ? & ? & ? & ?) ?. by split_and!. Qed.
Lemma sized_plaintext (l : locals) (p : list byte) : sized l -> length p = MAX_DATA -> sized (set_plaintext p l).
Proof. intros (? & ? & ? & ? & ? & ? & ?) ?. by split_and!. Qed.

Lemma lens_range (input : list byte) : 0 <= data_len input <= 256 /\ 0 <= aad_len input <= 128.
Proof.
  unfold data_len, aad_len, MAX_DATA, MAX_AAD.
  pose proof (Z.mod_pos_bound (bval (default x00 (input !! 0%nat))) (Z.of_nat 256 + 1) ltac:(lia)).
  pose proof (Z.mod_pos_bound (bval (default x00 (input !! 1%nat))) (Z.of_nat 128 + 1) ltac:(lia)). lia.
Qed.

Section runs.
Context `{CryptoLaws} `{CryptoLayout} `{!CryptoLayoutLaws} `{InterruptAnswers}.
Variable a : addresses.

(** Storage for the arrays, and the arrays in it. *)
Definition room : list (Z * cell) :=
  [(at_enc_key a, Unset (SBytes 32)); (at_mac_key a, Unset (SBytes 32)); (at_nonce a, Unset (SBytes 12));
   (at_aad a, Unset (SBytes 128)); (at_ciphertext a, Unset (SBytes 256)); (at_mac a, Unset (SBytes 48));
   (at_plaintext a, Unset (SBytes 256))].
Definition cells (l : locals) : list (Z * cell) :=
  [(at_enc_key a, Bytes (enc_key l)); (at_mac_key a, Bytes (mac_key l)); (at_nonce a, Bytes (nonce l));
   (at_aad a, Bytes (aad l)); (at_ciphertext a, Bytes (ciphertext l)); (at_mac a, Bytes (mac l));
   (at_plaintext a, Bytes (plaintext l))].

Lemma declare_run (l : locals) (w : machine) :
  frame_at room (mem w) -> sized l ->
  exists w', declare a l w = Done tt w' /\ platform w' = platform w /\ frame_at (cells l) (mem w').
Proof.
  intros Hf (L1 & L2 & L3 & L4 & L5 & L6 & L7). unfold declare.
  assert (Hz : forall (x : list byte) n, length x = n -> SBytes (Z.of_nat n) = SBytes (zlen x))
    by (intros ? ? <-; done).
  assert (F0 : inside (storage (mem w)) room w) by done.
  destruct (copy_step _ _ 0 _ _ (enc_key l) w F0 eq_refl (Hz _ _ L1)) as (w1 & E1 & P1 & F1).
  destruct (copy_step _ _ 1 _ _ (mac_key l) w1 F1 eq_refl (Hz _ _ L2)) as (w2 & E2 & P2 & F2).
  destruct (copy_step _ _ 2 _ _ (nonce l) w2 F2 eq_refl (Hz _ _ L3)) as (w3 & E3 & P3 & F3).
  destruct (copy_step _ _ 3 _ _ (aad l) w3 F3 eq_refl (Hz _ _ L4)) as (w4 & E4 & P4 & F4).
  destruct (copy_step _ _ 4 _ _ (ciphertext l) w4 F4 eq_refl (Hz _ _ L5)) as (w5 & E5 & P5 & F5).
  destruct (copy_step _ _ 5 _ _ (mac l) w5 F5 eq_refl (Hz _ _ L6)) as (w6 & E6 & P6 & F6).
  destruct (copy_step _ _ 6 _ _ (plaintext l) w6 F6 eq_refl (Hz _ _ L7)) as (w7 & E7 & P7 & F7).
  exists w7. erewrite mbind_done by exact E1. erewrite mbind_done by exact E2. erewrite mbind_done by exact E3.
  erewrite mbind_done by exact E4. erewrite mbind_done by exact E5. erewrite mbind_done by exact E6.
  split; [exact E7|]. split; [congruence|exact (proj1 F7)].
Qed.

(** Which cell each operand is. *)
Ltac in_cells :=
  cbn [operands]; repeat (apply Forall2_cons_2; [eexists; split; [reflexivity|]|]); [..|apply Forall2_nil_2];
  cbn [fits fst snd shape_of];
  (split; [reflexivity|]); unfold zlen, MAX_AAD, MAX_DATA in *;
  repeat match goal with Hl : length ?x = _ |- context [length ?x] => rewrite Hl end;
  first [split; [reflexivity|lia] | eexists; split; [reflexivity|]; split; [lia|]];
  unfold CHACHA20_MAX_BYTES, MAX_SLICE_LEN, u32_max; lia.

Lemma aead_seal_call (ek mk n ad al p c dl t : Z) (ekb mkb nb adb pb cb0 tb0 cb1 tb1 : list byte)
    (r : result unit CryptoError) (h : CHost) (w : machine) :
  0 <= al -> 0 <= dl -> admissible_b (AeadEncrypt ek mk n ad al p c dl t) = true ->
  bytes_at ek 32 (mem w) = Some ekb -> bytes_at mk 32 (mem w) = Some mkb -> bytes_at n 12 (mem w) = Some nb ->
  buffer ad al (mem w) = Some adb -> buffer p dl (mem w) = Some pb -> buffer c dl (mem w) = Some cb0 ->
  bytes_at t 48 (mem w) = Some tb0 ->
  aead_encrypt ekb mkb nb adb pb cb0 tb0 (platform w) = Done (r, cb1, tb1) h ->
  run_call (AeadEncrypt ek mk n ad al p c dl t) w =
    Done (code_of r) (set_mem (put_bytes t tb1 (put_bytes c cb1 (mem w))) (set_platform h w)).
Proof.
  intros Hal Hdl Hadm B0 B1 B2 B3 B4 B5 B6 E. revert Hadm.
  assert (Ep : on_platform (aead_encrypt ekb mkb nb adb pb cb0 tb0) w = Done (r, cb1, tb1) (set_platform h w))
    by (unfold on_platform, zoom; by rewrite E).
  through_checks. all: read_operands; by rewrite (mbind_done _ _ _ _ _ Ep).
Qed.

Lemma aead_open_call (ek mk n ad al c t p dl : Z) (ekb mkb nb adb cb tb pb0 pb1 : list byte)
    (r : result unit CryptoError) (h : CHost) (w : machine) :
  0 <= al -> 0 <= dl -> admissible_b (AeadDecrypt ek mk n ad al c t p dl) = true ->
  bytes_at ek 32 (mem w) = Some ekb -> bytes_at mk 32 (mem w) = Some mkb -> bytes_at n 12 (mem w) = Some nb ->
  buffer ad al (mem w) = Some adb -> buffer c dl (mem w) = Some cb -> bytes_at t 48 (mem w) = Some tb ->
  buffer p dl (mem w) = Some pb0 ->
  aead_decrypt ekb mkb nb adb cb tb pb0 (platform w) = Done (r, pb1) h ->
  run_call (AeadDecrypt ek mk n ad al c t p dl) w =
    Done (code_of r) (set_mem (put_bytes p pb1 (mem w)) (set_platform h w)).
Proof.
  intros Hal Hdl Hadm B0 B1 B2 B3 B4 B5 B6 E. revert Hadm.
  assert (Ep : on_platform (aead_decrypt ekb mkb nb adb cb tb pb0) w = Done (r, pb1) (set_platform h w))
    by (unfold on_platform, zoom; by rewrite E).
  through_checks. all: read_operands; by rewrite (mbind_done _ _ _ _ _ Ep).
Qed.

Lemma seal_run (cb : CFnPtr) (l : locals) (al dl : Z) (w : machine) :
  frame_at (cells l) (mem w) -> sized l -> c_cache_flush (platform w) = Some cb ->
  0 <= al <= 128 -> 0 <= dl <= 256 ->
  let c := stream (enc_key l) (nonce l) (take (Z.to_nat dl) (plaintext l)) in
  let t := tag_of (mac_key l) (nonce l) (take (Z.to_nat al) (aad l)) c in
  exists w', seal a al dl w = Done CSuccess w' /\ c_cache_flush (platform w') = Some cb /\
    let l' := set_mac t (set_ciphertext (c ++ drop (length c) (ciphertext l)) l) in
    sized l' /\ frame_at (cells l') (mem w').
Proof.
  intros Hf Hl Hcb Hal Hdl c t. pose proof Hl as (L1 & L2 & L3 & L4 & L5 & L6 & L7). unfold MAX_AAD, MAX_DATA in *.
  assert (Hadm : admissible_b (AeadEncrypt (at_enc_key a) (at_mac_key a) (at_nonce a) (at_aad a) al (at_plaintext a)
    (at_ciphertext a) dl (at_mac a)) = true).
  { apply (frame_admissible _ _ _ [0; 1; 2; 3; 6; 4; 5]%nat Hf); [in_cells|by apply (bool_decide_unpack _)]. }
  assert (Hpl : zlen (take (Z.to_nat dl) (plaintext l)) = dl) by (unfold zlen; rewrite length_take; lia).
  assert (Hm : zlen (take (Z.to_nat dl) (plaintext l)) <= CHACHA20_MAX_BYTES)
    by (rewrite Hpl; unfold CHACHA20_MAX_BYTES, u32_max; lia).
  assert (Hc : length c = Z.to_nat dl) by (unfold c; rewrite length_stream by done; unfold zlen in Hpl; lia).
  pose proof (frame_bytes _ _ 0 _ _ Hf eq_refl) as B0. rewrite L1 in B0.
  pose proof (frame_bytes _ _ 1 _ _ Hf eq_refl) as B1. rewrite L2 in B1.
  pose proof (frame_bytes _ _ 2 _ _ Hf eq_refl) as B2. rewrite L3 in B2.
  pose proof (frame_bytes _ _ 5 _ _ Hf eq_refl) as B5. rewrite L6 in B5.
  pose proof (frame_buffer _ _ 3 _ al (aad l) Hf eq_refl ltac:(unfold zlen; lia)) as B3.
  pose proof (frame_buffer _ _ 6 _ dl (plaintext l) Hf eq_refl ltac:(unfold zlen; lia)) as B6.
  pose proof (frame_buffer _ _ 4 _ dl (ciphertext l) Hf eq_refl ltac:(unfold zlen; lia)) as B4.
  pose proof (encrypt_run cb (enc_key l) (mac_key l) (nonce l) (take (Z.to_nat al) (aad l))
    (take (Z.to_nat dl) (plaintext l)) (take (Z.to_nat dl) (ciphertext l)) (mac l) (platform w) L1 L3
    ltac:(rewrite !length_take; lia) Hm Hcb) as E. cbv zeta in E. fold c t in E.
  eexists. split; [exact (aead_seal_call _ _ _ _ _ _ _ _ _ _ _ _ _ _ _ _ _ _ _ _ _
    (proj1 Hal) (proj1 Hdl) Hadm B0 B1 B2 B3 B6 B4 B5 E)|]. split; [exact Hcb|]. split.
  { apply sized_mac; [apply sized_ciphertext; [done|]|apply length_tag_of].
    rewrite length_app, length_drop, Hc, L5. unfold MAX_DATA. lia. }
  cbn [mem set_mem].
  pose proof (frame_put_bytes _ 4 _ c (ciphertext l) _ Hf eq_refl ltac:(lia)) as F1.
  pose proof (frame_put_bytes _ 5 _ t (mac l) _ F1 eq_refl ltac:(unfold t; rewrite length_tag_of; lia)) as F2.
  unfold t in F2 at 2. rewrite length_tag_of, drop_ge, app_nil_r in F2 by lia. exact F2.
Qed.

Lemma open_run (cb : CFnPtr) (l : locals) (al dl : Z) (w : machine) :
  frame_at (cells l) (mem w) -> sized l -> c_cache_flush (platform w) = Some cb ->
  0 <= al <= 128 -> 0 <= dl <= 256 ->
  let ct := take (Z.to_nat dl) (ciphertext l) in
  let valid := bool_decide (mac l = tag_of (mac_key l) (nonce l) (take (Z.to_nat al) (aad l)) ct) in
  let pt := if valid then stream (enc_key l) (nonce l) ct else zeros (length ct) in
  exists w', open a al dl w = Done (if valid then CSuccess else CVerificationFailed) w' /\
    c_cache_flush (platform w') = Some cb /\
    let l' := set_plaintext (pt ++ drop (length ct) (plaintext l)) l in
    sized l' /\ frame_at (cells l') (mem w').
Proof.
  intros Hf Hl Hcb Hal Hdl ct valid pt. pose proof Hl as (L1 & L2 & L3 & L4 & L5 & L6 & L7). unfold MAX_AAD, MAX_DATA in *.
  assert (Hadm : admissible_b (AeadDecrypt (at_enc_key a) (at_mac_key a) (at_nonce a) (at_aad a) al
    (at_ciphertext a) (at_mac a) (at_plaintext a) dl) = true).
  { apply (frame_admissible _ _ _ [0; 1; 2; 3; 4; 5; 6]%nat Hf); [in_cells|by apply (bool_decide_unpack _)]. }
  assert (Hc : length ct = Z.to_nat dl) by (unfold ct; rewrite length_take; lia).
  assert (Hm : zlen ct <= CHACHA20_MAX_BYTES) by (unfold zlen, CHACHA20_MAX_BYTES, u32_max; lia).
  assert (Hp : length pt = length ct) by (unfold pt; case_match; [by apply length_stream|apply length_zeros]).
  pose proof (frame_bytes _ _ 0 _ _ Hf eq_refl) as B0. rewrite L1 in B0.
  pose proof (frame_bytes _ _ 1 _ _ Hf eq_refl) as B1. rewrite L2 in B1.
  pose proof (frame_bytes _ _ 2 _ _ Hf eq_refl) as B2. rewrite L3 in B2.
  pose proof (frame_bytes _ _ 5 _ _ Hf eq_refl) as B5. rewrite L6 in B5.
  pose proof (frame_buffer _ _ 3 _ al (aad l) Hf eq_refl ltac:(unfold zlen; lia)) as B3.
  pose proof (frame_buffer _ _ 6 _ dl (plaintext l) Hf eq_refl ltac:(unfold zlen; lia)) as B6.
  pose proof (frame_buffer _ _ 4 _ dl (ciphertext l) Hf eq_refl ltac:(unfold zlen; lia)) as B4. fold ct in B4.
  assert (exists h, c_cache_flush h = Some cb /\
    aead_decrypt (enc_key l) (mac_key l) (nonce l) (take (Z.to_nat al) (aad l)) ct (mac l)
      (take (Z.to_nat dl) (plaintext l)) (platform w) =
    Done (if valid then Ok tt else Err VerificationFailed, pt) h) as (h & Hh & E).
  { rewrite (decrypt_run cb); [|done|done|rewrite length_take; lia|done|done].
    unfold pt, valid. rewrite length_take, Hc, L7. replace (Z.to_nat dl `min` 256)%nat with (Z.to_nat dl) by lia.
    case_decide as Et; [rewrite bool_decide_true by done|rewrite bool_decide_false by done];
      (eexists; split; [|reflexivity]; exact Hcb). }
  eexists. split.
  { etrans; [exact (aead_open_call _ _ _ _ _ _ _ _ _ _ _ _ _ _ _ _ _ _ _ _
      (proj1 Hal) (proj1 Hdl) Hadm B0 B1 B2 B3 B4 B5 B6 E)|]. by destruct valid. }
  split; [exact Hh|]. split.
  { apply sized_plaintext; [done|]. rewrite length_app, length_drop, Hp, Hc, L7. unfold MAX_DATA. lia. }
  cbn [mem set_mem]. rewrite <- Hp. apply (frame_put_bytes _ 6 _ pt (plaintext l) _ Hf eq_refl).
  lia.
Qed.

Lemma bad_pointers_run (l : locals) (al dl : Z) (w : machine) :
  frame_at (cells l) (mem w) -> sized l -> 0 <= al <= 128 -> 0 <= dl <= 256 -> bad_pointers a al dl w = Done tt w.
Proof.
  intros Hf (L1 & L2 & L3 & L4 & L5 & L6 & L7) Hal Hdl. unfold bad_pointers.
  set (n := if dl =? 0 then 1 else dl).
  assert (Hn : 0 < n <= 256) by (unfold n; destruct (Z.eqb_spec dl 0); lia).
  set (c := AeadEncrypt (at_enc_key a) (at_mac_key a) (at_nonce a) (at_aad a) al (at_plaintext a) (at_plaintext a) n
    (at_mac a)).
  assert (Hs : Forall2 (supplies (cells l)) (operands c) [0; 1; 2; 3; 6; 6; 5]%nat) by (unfold c; in_cells).
  assert (E : run_call c w = Done CInvalidLength w).
  { rewrite (same_cell_refused c 4 5 _ _ w (frame_args _ _ _ _ Hf Hs) eq_refl eq_refl ltac:(lia)).
    - unfold argument_error, c. fold c. by rewrite (supplied_no_null _ _ _ _ Hf Hs).
    - cbn. split_and!; [by right|lia|lia|]. right. right. exists (at_plaintext a). unfold within. lia. }
  rewrite (mbind_done _ _ _ _ _ E). erewrite mbind_done by reflexivity.
  assert (Hp : forall i q y, cells l !! i = Some (q, y) -> is_null q = false).
  { intros i q y Hi. apply is_null_false. destruct (frame_cell _ _ _ _ Hf Hi) as [[Hq _] _]. cbn in Hq. lia. }
  assert (En : shawncore_crypto_aead_decrypt (at_enc_key a) (at_mac_key a) (at_nonce a) 0 1 (at_ciphertext a) (at_mac a)
    (at_plaintext a) dl w = Done CInvalidLength w); [|by rewrite (mbind_done _ _ _ _ _ En)].
  unfold shawncore_crypto_aead_decrypt.
  rewrite (Hp 0%nat _ _ eq_refl), (Hp 1%nat _ _ eq_refl), (Hp 2%nat _ _ eq_refl), (Hp 4%nat _ _ eq_refl),
    (Hp 5%nat _ _ eq_refl), (Hp 6%nat _ _ eq_refl). reflexivity.
Qed.

(** The flipped bit changes the ciphertext but not its tag. *)
Definition tag_collides (input : list byte) : bool :=
  let l := prepared input in
  let ct := stream (enc_key l) (nonce l) (take (Z.to_nat (data_len input)) (plaintext l)) in
  let tag := tag_of (mac_key l) (nonce l) (take (Z.to_nat (aad_len input)) (aad l)) in
  (0 <? data_len input) && bool_decide (tag ct = tag (xor_at 0 1 ct)).

Lemma tampered_run (cb : CFnPtr) (l : locals) (al dl : Z) (w : machine) :
  frame_at (cells l) (mem w) -> sized l -> c_cache_flush (platform w) = Some cb ->
  0 <= al <= 128 -> 0 < dl <= 256 ->
  let ct := xor_at 0 1 (ciphertext l) in
  exists w' l', sized l' /\ frame_at (cells l') (mem w') /\
    tampered a al dl w =
    if bool_decide (mac l = tag_of (mac_key l) (nonce l) (take (Z.to_nat al) (aad l)) (take (Z.to_nat dl) ct))
    then Halted w' else Done tt w'.
Proof.
  intros Hf Hl Hcb Hal Hdl ct. unfold tampered. pose proof (proj1 (proj2 (proj2 (proj2 (proj2 Hl))))) as L5.
  destruct (ciphertext l) as [|b rest] eqn:Ec; [done|].
  pose proof (bytes_at_prefix _ 1 _ _ _ (frame_bytes _ _ 4 _ _ Hf eq_refl) ltac:(rewrite Ec; cbn; lia)) as B.
  rewrite (mbind_done _ _ _ _ _ (array_run _ 1 _ w B)), Ec. cbn [take xor_at alter list_alter].
  pose proof (frame_put_bytes _ 4 _ (xor_at 0 1 [b]) (ciphertext l) _ Hf eq_refl ltac:(rewrite Ec; cbn; lia)) as F1.
  rewrite Ec in F1. change (xor_at 0 1 [b] ++ drop (length (xor_at 0 1 [b])) (b :: rest)) with ct in F1.
  erewrite (mbind_done (fill _ _)) by reflexivity.
  set (w1 := set_mem _ w).
  destruct (open_run cb (set_ciphertext ct l) al dl w1 F1) as (w2 & E & _ & Hl2 & F2); [|done|done|lia|].
  { apply sized_ciphertext; [done|]. by rewrite <- L5. }
  eexists w2, _. split; [exact Hl2|]. split; [exact F2|]. rewrite (mbind_done _ _ _ _ _ E).
  cbn [ciphertext set_ciphertext mac mac_key nonce aad]. by destruct (bool_decide (mac l = _)).
Qed.

Lemma room_again (l : locals) (w : machine) : sized l -> frame_at (cells l) (mem w) -> frame_at room (mem w).
Proof.
  intros (L1 & L2 & L3 & L4 & L5 & L6 & L7) Hf%frame_forget. cbn in Hf. unfold forget, zlen in Hf. cbn [fst snd shape_of] in Hf.
  unfold zlen in Hf. by rewrite L1, L2, L3, L4, L5, L6, L7 in Hf.
Qed.

(** What the arrays hold after the message was sealed and opened. *)
Definition sealed (al dl : Z) (l : locals) : locals :=
  let c := stream (enc_key l) (nonce l) (take (Z.to_nat dl) (plaintext l)) in
  set_mac (tag_of (mac_key l) (nonce l) (take (Z.to_nat al) (aad l)) c)
    (set_ciphertext (c ++ drop (length c) (ciphertext l)) l).

Lemma sealed_flipped (l : locals) (al dl : Z) :
  sized l -> 0 < dl <= 256 ->
  take (Z.to_nat dl) (xor_at 0 1 (ciphertext (sealed al dl l))) =
  xor_at 0 1 (stream (enc_key l) (nonce l) (take (Z.to_nat dl) (plaintext l))).
Proof.
  intros (L1 & _ & L3 & _ & _ & _ & L7) Hdl. unfold MAX_DATA in *.
  assert (Hc : length (stream (enc_key l) (nonce l) (take (Z.to_nat dl) (plaintext l))) = Z.to_nat dl).
  { rewrite length_stream, length_take; [lia|done|done|].
    unfold zlen, CHACHA20_MAX_BYTES, u32_max. rewrite length_take. lia. }
  unfold xor_at. cbn. rewrite alter_app_l by lia. apply take_app_length'. by rewrite length_alter.
Qed.

Lemma round_trip_run (cb : CFnPtr) (l : locals) (al dl : Z) (w : machine) :
  frame_at (cells l) (mem w) -> sized l -> c_cache_flush (platform w) = Some cb ->
  0 <= al <= 128 -> 0 <= dl <= 256 ->
  exists w', round_trip a (plaintext l) al dl w = Done tt w' /\ c_cache_flush (platform w') = Some cb /\
    sized (sealed al dl l) /\ frame_at (cells (sealed al dl l)) (mem w').
Proof.
  intros F1 Hl C1 Hal Hdl. unfold round_trip.
  destruct (seal_run _ l al dl w F1 Hl C1 Hal Hdl) as (w2 & E2 & C2 & Hl2 & F2). rewrite (mbind_done _ _ _ _ _ E2).
  erewrite (mbind_done (assert _)) by reflexivity. fold (sealed al dl l) in *.
  set (c := stream (enc_key l) (nonce l) (take (Z.to_nat dl) (plaintext l))) in *.
  assert (Hpt : zlen (take (Z.to_nat dl) (plaintext l)) <= CHACHA20_MAX_BYTES).
  { unfold zlen. rewrite length_take. unfold CHACHA20_MAX_BYTES, u32_max. lia. }
  pose proof Hl as (L1 & _ & L3 & _ & _ & _ & L7). unfold MAX_DATA in *.
  assert (Hc : length c = Z.to_nat dl) by (unfold c; rewrite length_stream, length_take by done; lia).
  assert (Hct : take (Z.to_nat dl) (ciphertext (sealed al dl l)) = c) by (cbn; by rewrite take_app_length').
  destruct (open_run _ _ al dl w2 F2 Hl2 C2 Hal Hdl) as (w3 & E3 & C3 & Hl3 & F3). rewrite Hct in *.
  rewrite bool_decide_true in * by reflexivity. rewrite (mbind_done _ _ _ _ _ E3).
  erewrite (mbind_done (assert _)) by reflexivity.
  replace (stream (enc_key (sealed al dl l)) (nonce (sealed al dl l)) c) with (take (Z.to_nat dl) (plaintext l)) in F3
    by (symmetry; by apply stream_stream).
  rewrite Hc in F3. cbn [plaintext sealed set_mac set_ciphertext] in F3. rewrite take_drop in F3.
  pose proof (frame_bytes _ _ 6 _ (plaintext l) F3 eq_refl) as B. rewrite L7 in B.
  rewrite (mbind_done _ _ _ _ _ (array_run _ _ _ w3 B)), bool_decide_true by done.
  exists w3. by split_and!.
Qed.

End runs.

(** * Claim *)

(** C22: what an input to the AEAD target can do. Given storage for its seven arrays, the
    target seals the message, opens it to the same bytes, is refused when the
    ciphertext was altered, when the output aliases the input and when a null pointer
    comes with a length, and returns. It fails exactly when the one flipped bit leaves
    the authentication tag unchanged; no input leads to undefined behaviour. *)
Theorem aead_fuzz_exact `{CryptoLaws} `{CryptoLayout} `{!CryptoLayoutLaws} `{InterruptAnswers}
    (fuzz_cache_flush : CFnPtr) (a : addresses) (input : list byte) (w : machine) :
  frame_at (room a) (mem w) ->
  exists w', frame_at (room a) (mem w') /\
    fuzz_target fuzz_cache_flush a input w = if tag_collides input then Halted w' else Done tt w'.
Proof.
  intros Hroom. unfold fuzz_target. erewrite (mbind_done (install_fuzz_callbacks _)); [|reflexivity].
  destruct (lens_range input) as [Hdl Hal]. pose proof (prepared_sized input) as Hl.
  unfold tag_collides. set (dl := data_len input) in *. set (al := aad_len input) in *. set (l := prepared input) in *.
  set (w0 := set_platform _ w). cbv zeta.
  destruct (declare_run a l w0 Hroom Hl) as (w1 & E1 & P1 & F1). rewrite (mbind_done _ _ _ _ _ E1).
  assert (C1 : c_cache_flush (platform w1) = Some fuzz_cache_flush) by (by rewrite P1).
  destruct (round_trip_run a _ l al dl w1 F1 Hl C1 Hal Hdl) as (w3 & E3 & C3 & Hl3 & F3).
  rewrite (mbind_done _ _ _ _ _ E3). destruct (Z.ltb_spec 0 dl) as [Hpos|Hzero]; cbn [andb].
  - destruct (tampered_run a _ _ al dl w3 F3 Hl3 C3 Hal ltac:(lia)) as (w4 & l4 & Hl4 & F4 & E4).
    exists w4. split; [by apply (room_again a l4)|]. rewrite (sealed_flipped l al dl Hl ltac:(lia)) in E4.
    cbn [mac mac_key nonce aad sealed set_mac set_ciphertext] in E4.
    destruct (bool_decide _); [by apply mbind_halted|]. rewrite (mbind_done _ _ _ _ _ E4).
    apply (bad_pointers_run a l4); done || lia.
  - exists w3. split; [by apply (room_again a (sealed al dl l))|]. erewrite (mbind_done (mret _)) by reflexivity.
    apply (bad_pointers_run a (sealed al dl l)); done || lia.
Qed.

(** ** Witness *)

#[local] Existing Instance Pool.sample_answers.

Definition sample_addresses : addresses := MkAddresses 4096 4128 4160 4224 4352 4608 4672.

Lemma sample_room : frame_at (room sample_addresses) (mem packet_machine).
Proof.
  split.
  - repeat constructor; unfold cells_apart; cbn; apart.
  - repeat constructor; cbn; done || lia.
  - repeat constructor.
Qed.

(** A message of five bytes with two bytes of associated data. *)
Definition sample_input : list byte := [x05; x02; x11; x22; x33; x44; x55; x66; x77].

Lemma aead_fuzz_exact_witness :
  exists w', frame_at (room sample_addresses) (mem w') /\
    fuzz_target 9 sample_addresses sample_input packet_machine = Done tt w'.
Proof.
  destruct (aead_fuzz_exact 9 sample_addresses sample_input packet_machine sample_room) as (w' & Hw & E).
  assert (Ec : tag_collides sample_input = false) by (vm_compute; reflexivity).
  rewrite Ec in E. exists w'. exact (conj Hw E).
Defined.

End AeadFuzz.
