(* ===== verification/ReplayFuzz.v ===== *)
(** session_replay_fuzz.rs: the program that drives two session managers through the C
    interface with bytes from a fuzzer: handshakes, packets in both directions, replays,
    corrupted packets, wiping. A failed assertion is [halt].

    The session managers are boxes at two addresses; every function of the target has
    storage for its own variables, which may be shared between functions, as stack
    frames are. The list of packets is a list. *)

From stdpp Require Import gmap.
From S2P Require Import Prelude CMemory CryptoHost Primitives Session EntropyPool CryptoTypes CryptoFfi.
Local Open Scope Z_scope.

Module Replay.
Import CryptoC.

Definition MAX_AAD : nat := 32.
Definition MAX_DATA : nat := 96.
Definition MAX_PACKETS : nat := 16.
Definition MAX_OPERATIONS : nat := 48.

Inductive Recipient : Type := Initiator | Responder.

#[export] Instance Recipient_eq_dec : EqDecision Recipient.
Proof. solve_decision. Defined.

Definition other (r : Recipient) : Recipient :=
  match r with Initiator => Responder | Responder => Initiator end.

Record Packet : Type := MkPacket {
  epoch : Z;
  recipient : Recipient;
  aad : list byte;
  aad_len : Z;
  plaintext : list byte;
  data_len : Z;
  ciphertext : list byte;
  nonce : list byte;
  tag : list byte;
  delivered : bool
}.

Definition set_delivered (p : Packet) : Packet :=
  MkPacket (epoch p) (recipient p) (aad p) (aad_len p) (plaintext p) (data_len p) (ciphertext p) (nonce p) (tag p) true.
Definition set_recipient (r : Recipient) (p : Packet) : Packet :=
  MkPacket (epoch p) r (aad p) (aad_len p) (plaintext p) (data_len p) (ciphertext p) (nonce p) (tag p) (delivered p).
Definition set_tag (t : list byte) (p : Packet) : Packet :=
  MkPacket (epoch p) (recipient p) (aad p) (aad_len p) (plaintext p) (data_len p) (ciphertext p) (nonce p) t
    (delivered p).
Definition set_nonce (n : list byte) (p : Packet) : Packet :=
  MkPacket (epoch p) (recipient p) (aad p) (aad_len p) (plaintext p) (data_len p) (ciphertext p) n (tag p)
    (delivered p).

(** * Bytes of the input *)

Definition byte_at (input : list byte) (index : Z) : byte :=
  match input !! Z.to_nat (index mod Z.max (zlen input) 1) with
  | Some b => b
  | None => byte_of_Z (wrapping_add 8 (cast 8 (cast 8 index * 37)) 0x5A)
  end.

Definition material_byte (input : list byte) (offset domain : Z) (index : nat) : byte :=
  byte_of_Z (Z.lxor
    (rotate_left 8 (bval (byte_at input (wrapping_add 64 offset (Z.of_nat index)))) (Z.of_nat (index mod 8)))
    (wrapping_add 8 domain (cast 8 (Z.of_nat index)))).

Definition material (n : nat) (input : list byte) (offset domain : Z) : list byte :=
  let output := material_byte input offset domain <$> seq 0 n in
  let output := <[0%nat := byte_of_Z domain]> output in
  <[(n - 1)%nat := byte_of_Z (Z.lxor domain 0xA5)]> output.

(** * The target *)

(** The two boxes, and the variables of each function. *)
Record addresses : Type := MkAddresses {
  at_initiator : Z;
  at_responder : Z;
  (* exercise_callback_replacement *)
  cb_key : Z; cb_message : Z; cb_output : Z;
  (* establish *)
  es_responder_entropy : Z; es_initiator_entropy : Z; es_salt : Z; es_info : Z;
  es_responder_kem : Z; es_responder_x25519 : Z; es_ciphertext : Z; es_initiator_x25519 : Z; es_invalid_peer : Z;
  (* transmit *)
  tx_aad : Z; tx_plaintext : Z; tx_ciphertext : Z; tx_nonce : Z; tx_tag : Z;
  (* the packet decrypt is given, and its buffer *)
  rx_aad : Z; rx_ciphertext : Z; rx_nonce : Z; rx_tag : Z; rx_plaintext : Z;
  (* verify_teardown *)
  td_ciphertext : Z; td_nonce : Z; td_tag : Z
}.

Section target.
Context `{CryptoOps} `{CryptoLayout} `{InterruptAnswers}.

Variables cache_callback_a cache_callback_b : CFnPtr.
Variable a : addresses.

Definition assert (b : bool) : M machine unit := if b then mret tt else halt.
Definition assert_success (call : M machine ShawncoreCryptoErr) : M machine unit :=
  r ← call; assert (bool_decide (r = CSuccess)).
Definition assert_refused (call : M machine ShawncoreCryptoErr) : M machine unit :=
  r ← call; assert (bool_decide (r <> CSuccess)).

(** ** The pair of sessions *)

Definition manager (r : Recipient) : Z :=
  match r with Initiator => at_initiator a | Responder => at_responder a end.

Definition new_pair : M machine unit :=
  assert_success (shawncore_crypto_session_manager_init (at_initiator a)) ;;
  assert_success (shawncore_crypto_session_manager_init (at_responder a)).

Definition zeroize_pair : M machine unit :=
  assert_success (shawncore_crypto_session_manager_zeroize (at_initiator a)) ;;
  assert_success (shawncore_crypto_session_manager_zeroize (at_responder a)).

Definition drop_pair : M machine unit :=
  assert_success (shawncore_crypto_session_manager_destroy (at_initiator a)) ;;
  assert_success (shawncore_crypto_session_manager_destroy (at_responder a)).

(** ** Callbacks *)

Definition register (cb : option CFnPtr) : M machine unit :=
  modify (fun w => set_platform (crypto_register_cache_flush cb (platform w)) w).

(** A counter is the number of calls of the callback less the number when the counter
    was cleared. *)
Definition is_flush (cb : CFnPtr) (e : cevent) : bool :=
  match e with CEvFlush cb' _ => cb' =? cb | _ => false end.
Definition flushes (cb : CFnPtr) (w : machine) : Z :=
  zlen (base.filter (fun e => is_flush cb e = true) (c_trace (platform w))).
Definition count (cb : CFnPtr) (cleared : Z) : M machine Z := gets (fun w => flushes cb w - cleared).

Definition call_hmac : M machine ShawncoreCryptoErr :=
  shawncore_crypto_hmac_sha384 (cb_key a) (cb_message a) 7 (cb_output a).

Definition exercise_callback_replacement (cleared_a cleared_b : Z) : M machine unit :=
  copy_out (cb_key a) (replicate 32 xa5) ;;
  copy_out (cb_message a) (replicate 7 x5a) ;;
  copy_out (cb_output a) (zeros 48) ;;
  register (Some cache_callback_a) ;;
  before_a ← count cache_callback_a cleared_a;
  assert_success call_hmac ;;
  now_a ← count cache_callback_a cleared_a;
  assert (before_a <? now_a) ;;
  register (Some cache_callback_b) ;;
  after_a ← count cache_callback_a cleared_a;
  before_b ← count cache_callback_b cleared_b;
  assert_success call_hmac ;;
  now_a ← count cache_callback_a cleared_a;
  assert (now_a =? after_a) ;;
  now_b ← count cache_callback_b cleared_b;
  assert (before_b <? now_b) ;;
  register None ;;
  register (Some cache_callback_a).

(** ** Handshake *)

Definition responder_entropy (input : list byte) (offset : Z) : list byte := material 96 input offset 0x31.
Definition initiator_entropy (input : list byte) (offset : Z) : list byte :=
  material 64 input (wrapping_add 64 offset 96) 0x52.
Definition salt (input : list byte) (offset : Z) : list byte := material 16 input (wrapping_add 64 offset 160) 0x73.
Definition info (input : list byte) (offset : Z) : list byte := material 16 input (wrapping_add 64 offset 176) 0x94.

Definition initiate : M machine ShawncoreCryptoErr :=
  shawncore_crypto_session_manager_initiate_handshake (at_responder a) (es_responder_entropy a)
    (es_responder_kem a) (es_responder_x25519 a).
Definition encapsulate : M machine ShawncoreCryptoErr :=
  shawncore_crypto_session_manager_encapsulate_for_peer (at_initiator a) (es_responder_kem a)
    (es_responder_x25519 a) (es_initiator_entropy a) (es_salt a) 16 (es_info a) 16 (es_ciphertext a)
    (es_initiator_x25519 a).
Definition finalize (peer : Z) : M machine ShawncoreCryptoErr :=
  shawncore_crypto_session_manager_finalize_handshake (at_responder a) peer (es_ciphertext a) (es_salt a) 16
    (es_info a) 16.

(** The fatal failure and the new start after it. *)
Definition failed_recovery : M machine unit :=
  store KX25519Public (es_invalid_peer a) (zeros 32) ;;
  assert_refused (finalize (es_invalid_peer a)) ;;
  assert_success (shawncore_crypto_session_manager_zeroize (at_initiator a)) ;;
  assert_success (shawncore_crypto_session_manager_zeroize (at_responder a)) ;;
  assert_success initiate ;;
  assert_success encapsulate.

Definition establish (input : list byte) (offset : Z) (test_failed_recovery : bool) : M machine unit :=
  copy_out (es_responder_entropy a) (responder_entropy input offset) ;;
  copy_out (es_initiator_entropy a) (initiator_entropy input offset) ;;
  copy_out (es_salt a) (salt input offset) ;;
  copy_out (es_info a) (info input offset) ;;
  assert_success initiate ;;
  assert_success encapsulate ;;
  (if test_failed_recovery then failed_recovery else mret tt) ;;
  assert_success (finalize (es_initiator_x25519 a)).

(** ** Packets *)

Definition packet_aad (input : list byte) (offset : Z) : list byte := material MAX_AAD input offset 0xB5.
Definition packet_aad_len (input : list byte) (offset : Z) : Z :=
  bval (byte_at input (wrapping_add 64 offset 1)) mod (Z.of_nat MAX_AAD + 1).
Definition packet_plaintext (input : list byte) (offset : Z) : list byte :=
  material MAX_DATA input (wrapping_add 64 offset 2) 0xD6.
Definition packet_data_len (input : list byte) (offset : Z) : Z :=
  bval (byte_at input (wrapping_add 64 offset 3)) mod (Z.of_nat MAX_DATA + 1).

Definition transmit (recipient : Recipient) (epoch : Z) (input : list byte) (offset : Z) : M machine Packet :=
  let aad := packet_aad input offset in
  let aad_len := packet_aad_len input offset in
  let plaintext := packet_plaintext input offset in
  let data_len := packet_data_len input offset in
  copy_out (tx_aad a) aad ;;
  copy_out (tx_plaintext a) plaintext ;;
  copy_out (tx_ciphertext a) (zeros MAX_DATA) ;;
  copy_out (tx_nonce a) (zeros 12) ;;
  copy_out (tx_tag a) (zeros 48) ;;
  assert_success (shawncore_crypto_session_manager_encrypt_packet (manager (other recipient)) (tx_aad a) aad_len
    (tx_plaintext a) (tx_ciphertext a) data_len (tx_nonce a) (tx_tag a)) ;;
  ciphertext ← array (tx_ciphertext a) MAX_DATA;
  nonce ← array (tx_nonce a) 12;
  tag ← array (tx_tag a) 48;
  mret (MkPacket epoch recipient aad aad_len plaintext data_len ciphertext nonce tag false).

Definition decrypt (packet : Packet) : M machine ShawncoreCryptoErr :=
  copy_out (rx_aad a) (aad packet) ;;
  copy_out (rx_ciphertext a) (ciphertext packet) ;;
  copy_out (rx_nonce a) (nonce packet) ;;
  copy_out (rx_tag a) (tag packet) ;;
  copy_out (rx_plaintext a) (zeros MAX_DATA) ;;
  result ← shawncore_crypto_session_manager_decrypt_packet (manager (recipient packet)) (rx_aad a) (aad_len packet)
    (rx_ciphertext a) (data_len packet) (rx_nonce a) (rx_tag a) (rx_plaintext a);
  (if bool_decide (result = CSuccess)
   then opened ← array (rx_plaintext a) MAX_DATA;
        assert (bool_decide (take (Z.to_nat (data_len packet)) opened =
                             take (Z.to_nat (data_len packet)) (plaintext packet)))
   else mret tt) ;;
  mret result.

Definition verify_teardown : M machine unit :=
  copy_out (td_ciphertext a) (zeros 1) ;;
  copy_out (td_nonce a) (zeros 12) ;;
  copy_out (td_tag a) (zeros 48) ;;
  assert_refused (shawncore_crypto_session_manager_encrypt_packet (at_initiator a) 0 0 (td_ciphertext a)
    (td_ciphertext a) 1 (td_nonce a) (td_tag a)).

(** ** The loop *)

Record loop : Type := MkLoop {
  established : bool;
  current_epoch : Z;
  packets : list Packet
}.

Definition set_packets (ps : list Packet) (l : loop) : loop := MkLoop (established l) (current_epoch l) ps.

(** [packets[index].delivered = true] *)
Definition mark (index : nat) (l : loop) : loop := set_packets (alter set_delivered index (packets l)) l.

Definition should_succeed (l : loop) (p : Packet) : bool :=
  established l && (epoch p =? current_epoch l) && negb (delivered p).

(** The arm of operation 4. *)
Definition deliver (index : nat) (packet : Packet) (l : loop) : M machine loop :=
  result ← decrypt packet;
  if should_succeed l packet
  then assert (bool_decide (result = CSuccess)) ;; mret (mark index l)
  else assert (bool_decide (result <> CSuccess)) ;; mret l.

(** The arm of operation 5. *)
Definition deliver_twice (index : nat) (packet : Packet) (l : loop) : M machine loop :=
  if should_succeed l packet
  then assert_success (decrypt packet) ;; assert_refused (decrypt packet) ;; mret (mark index l)
  else mret l.

(** The arms of operations 6, 7 and 8: another packet first, then this one. *)
Definition deliver_after (invalid : Packet) (index : nat) (packet : Packet) (l : loop) : M machine loop :=
  if should_succeed l packet
  then assert_refused (decrypt invalid) ;; assert_success (decrypt packet) ;; mret (mark index l)
  else mret l.

Definition corrupted (operation : Z) (packet : Packet) : Packet :=
  if Z.land operation 1 =? 0
  then set_tag (alter (fun b => byte_of_Z (Z.lxor (bval b) 1)) 0%nat (tag packet)) packet
  else set_nonce (<[8%nat := x01]> (nonce packet)) packet.

(** [packets[index]], with the index taken from the input *)
Definition pick (input : list byte) (offset : Z) (l : loop) (k : nat -> Packet -> M machine loop) : M machine loop :=
  let index := Z.to_nat (bval (byte_at input offset) mod zlen (packets l)) in
  match packets l !! index with
  | Some packet => k index packet
  | None => halt
  end.

Definition keep_recent (ps : list Packet) : list Packet := if (MAX_PACKETS <? length ps)%nat then drop 1 ps else ps.

Definition operation_step (cleared_a cleared_b : Z) (input : list byte) (step : nat) (operation : Z) (l : loop)
  : M machine loop :=
  let offset := cast 64 (Z.of_nat step * 23) in
  let code := Z.land operation 0x0F in
  let waiting := negb (bool_decide (packets l = [])) in
  if (code =? 0) || (code =? 1) then
    establish input offset (negb (Z.land operation 1 =? 0)) ;;
    mret (MkLoop true (wrapping_add 32 (current_epoch l) 1) [])
  else if ((code =? 2) || (code =? 3)) && established l then
    let recipient := if Z.land operation 1 =? 0 then Responder else Initiator in
    packet ← transmit recipient (current_epoch l) input offset;
    mret (set_packets (keep_recent (packets l ++ [packet])) l)
  else if (code =? 4) && waiting then
    pick input offset l (fun index packet => deliver index packet l)
  else if (code =? 5) && waiting then
    pick input offset l (fun index packet => deliver_twice index packet l)
  else if ((code =? 6) || (code =? 7)) && waiting then
    pick input offset l (fun index packet => deliver_after (corrupted operation packet) index packet l)
  else if (code =? 8) && waiting then
    pick input offset l (fun index packet =>
      deliver_after (set_recipient (other (recipient packet)) packet) index packet l)
  else if (code =? 9) || (code =? 10) then
    zeroize_pair ;; zeroize_pair ;; verify_teardown ;; mret (MkLoop false (current_epoch l) (packets l))
  else if code =? 11 then
    exercise_callback_replacement cleared_a cleared_b ;; mret l
  else verify_teardown ;; mret l.

Fixpoint operations (cleared_a cleared_b : Z) (input : list byte) (step : nat) (rest : list byte) (l : loop)
  : M machine loop :=
  match rest with
  | [] => mret l
  | operation :: rest =>
      l ← operation_step cleared_a cleared_b input step (bval operation) l;
      operations cleared_a cleared_b input (S step) rest l
  end.

(** The pair is dropped when the target returns. *)
Definition fuzz_target (input : list byte) : M machine unit :=
  cleared_a ← gets (flushes cache_callback_a);
  cleared_b ← gets (flushes cache_callback_b);
  exercise_callback_replacement cleared_a cleared_b ;;
  new_pair ;;
  verify_teardown ;;
  operations cleared_a cleared_b input 0 (take MAX_OPERATIONS input) (MkLoop false 0 []) ;;
  drop_pair.

End target.

End Replay.
