(* ===== verification/ReplayRun.v ===== *)
(** Runs of the functions of session_replay_fuzz.rs, up to the loop: what each call does
    to the frame of variables it is given. *)

From stdpp Require Import gmap.
From S2P Require Import Prelude CMemory CryptoHost Primitives Aead Session Handshake EntropyPool.
From S2P Require Import CryptoTypes CryptoFfi CryptoFfiArgs CryptoObjects CryptoFfiRun CryptoClient CryptoHandshake.
From S2P Require Import CryptoFrame ReplayFuzz.
Local Open Scope Z_scope.

Module ReplayRun.
Import CryptoC CryptoArgs CryptoObj CryptoRun CryptoClient CryptoHandshake CFrame Replay.

#[local] Opaque bytes_at object_at.

(** * Calls on a session, with the memory they leave *)

Section calls.
Context `{CryptoLaws} `{CryptoLayout} `{!CryptoLayoutLaws} `{InterruptAnswers}.

Lemma init_call (p : Z) (w : machine) :
  admissible_b (SessionInit p) = true -> mapped p (size_of KSession) (mem w) = true ->
  run_call (SessionInit p) w = Done CSuccess (set_mem (place p (MkValue KSession Sess.new) (mem w)) w).
Proof.
  intros Hadm Hm. revert Hadm. through_checks. by rewrite (mbind_done _ _ _ _ _ (handle_store_run KSession p _ w Hm)).
Qed.

Lemma zeroize_call (p : Z) (s : Sess.SessionManager) (v : Sess.world) (w : machine) :
  admissible_b (SessionZeroize p) = true -> object_at p (mem w) = Some (MkHandle (k := KSession) s) ->
  Sess.zeroize_session (Sess.MkWorld s (platform w)) = Done tt v ->
  run_call (SessionZeroize p) w = Done CSuccess (session_back p v w).
Proof.
  intros Hadm Hs E. revert Hadm. through_checks. by rewrite (mbind_done _ _ _ _ _ (with_session_run p s _ _ _ w Hs E)).
Qed.

Lemma destroy_call (p : Z) (s : Sess.SessionManager) (v : Sess.world) (w : machine) :
  admissible_b (SessionDestroy p) = true -> object_at p (mem w) = Some (MkHandle (k := KSession) s) ->
  Sess.zeroize_session (Sess.MkWorld s (platform w)) = Done tt v ->
  run_call (SessionDestroy p) w =
    Done CSuccess (set_mem (remove p (mem (session_back p v w))) (session_back p v w)).
Proof.
  intros Hadm Hs E. revert Hadm. through_checks. by rewrite (mbind_done _ _ _ _ _ (with_session_run p s _ _ _ w Hs E)).
Qed.

Lemma initiate_call (m e pk x : Z) (s : Sess.SessionManager) (ea : list byte) (ek : PublicKey1024)
    (xpk : X25519Public) (v : Sess.world) (w : machine) :
  admissible_b (SessionInitiate m e pk x) = true -> object_at m (mem w) = Some (MkHandle (k := KSession) s) ->
  bytes_at e 96 (mem w) = Some ea -> mapped pk (size_of KPublicKey1024) (mem w) = true ->
  mapped x (size_of KX25519Public) (mem w) = true ->
  Hs.initiate_handshake ea (Sess.MkWorld s (platform w)) = Done (Ok (ek, xpk)) v ->
  run_call (SessionInitiate m e pk x) w =
    Done CSuccess (set_mem (place x (MkValue KX25519Public xpk) (place pk (MkValue KPublicKey1024 ek)
      (mem (session_back m v w)))) (session_back m v w)).
Proof.
  intros Hadm Hs He Hpk Hx E. revert Hadm. through_checks. read_operands.
  rewrite (mbind_done _ _ _ _ _ (with_session_run m s _ _ _ w Hs E)).
  erewrite mbind_done; [|by apply handle_store_run]. erewrite mbind_done; [|by apply handle_store_run]. done.
Qed.

Lemma encapsulate_call (m pk x e sp sl ip il ct my : Z) (s : Sess.SessionManager) (ek : PublicKey1024)
    (xpk eb salt app ct1 my1 : list byte) (v : Sess.world) (w : machine) :
  0 <= sl -> 0 <= il ->
  admissible_b (SessionEncapsulate m pk x e sp sl ip il ct my) = true ->
  object_at m (mem w) = Some (MkHandle (k := KSession) s) ->
  object_at pk (mem w) = Some (MkHandle (k := KPublicKey1024) ek) ->
  object_at x (mem w) = Some (MkHandle (k := KX25519Public) xpk) ->
  bytes_at e 64 (mem w) = Some eb -> buffer sp sl (mem w) = Some salt -> buffer ip il (mem w) = Some app ->
  mapped ct (size_of KCiphertext1024) (mem w) = true -> mapped my (size_of KX25519Public) (mem w) = true ->
  Hs.encapsulate_for_peer ek xpk eb salt app (zeros 1568) (zeros 32) (Sess.MkWorld s (platform w)) =
    Done (Ok tt, ct1, my1) v ->
  run_call (SessionEncapsulate m pk x e sp sl ip il ct my) w =
    Done CSuccess (set_mem (place my (MkValue KX25519Public my1) (place ct (MkValue KCiphertext1024 ct1)
      (mem (session_back m v w)))) (session_back m v w)).
Proof.
  intros Hsl Hil Hadm Hs Hpk Hx He Hsalt Happ Hct Hmy E. revert Hadm. through_checks.
  all: read_operands; rewrite (mbind_done _ _ _ _ _ (with_session_run m s _ _ _ w Hs E)).
  all: erewrite mbind_done; [|by apply handle_store_run].
  all: erewrite mbind_done; [|by apply handle_store_run]; done.
Qed.

Lemma finalize_call (m x ct sp sl ip il : Z) (s : Sess.SessionManager) (xpk ct1 salt app : list byte)
    (r : result unit CryptoError) (v : Sess.world) (w : machine) :
  0 <= sl -> 0 <= il ->
  admissible_b (SessionFinalize m x ct sp sl ip il) = true ->
  object_at m (mem w) = Some (MkHandle (k := KSession) s) ->
  object_at x (mem w) = Some (MkHandle (k := KX25519Public) xpk) ->
  object_at ct (mem w) = Some (MkHandle (k := KCiphertext1024) ct1) ->
  buffer sp sl (mem w) = Some salt -> buffer ip il (mem w) = Some app ->
  Hs.finalize_handshake xpk ct1 salt app (Sess.MkWorld s (platform w)) = Done r v ->
  run_call (SessionFinalize m x ct sp sl ip il) w = Done (code_of r) (session_back m v w).
Proof.
  intros Hsl Hil Hadm Hs Hx Hct Hsalt Happ E. revert Hadm. through_checks.
  all: read_operands; by rewrite (mbind_done _ _ _ _ _ (with_session_run m s _ _ _ w Hs E)).
Qed.

Lemma hmac_call (k d dl o : Z) (kb db ob mac : list byte) (h : CHost) (w : machine) :
  0 <= dl -> admissible_b (Hmac k d dl o) = true -> bytes_at k 32 (mem w) = Some kb ->
  buffer d dl (mem w) = Some db -> bytes_at o 48 (mem w) = Some ob ->
  hmac_sha384 kb db (platform w) = Done (Ok mac) h ->
  run_call (Hmac k d dl o) w = Done CSuccess (set_mem (put_bytes o mac (mem w)) (set_platform h w)).
Proof.
  intros Hdl Hadm B0 B1 B2 E. revert Hadm.
  assert (Ep : on_platform (hmac_sha384 kb db) w = Done (Ok mac) (set_platform h w))
    by (unfold on_platform, zoom; by rewrite E).
  through_checks. all: read_operands; by rewrite (mbind_done _ _ _ _ _ Ep).
Qed.

End calls.

(** * Functions of the target *)

Section functions.
Context `{CryptoLaws} `{CryptoLayout} `{!CryptoLayoutLaws} `{InterruptAnswers}.
Variable a : addresses.

Definition session (s : Sess.SessionManager) : cell := Object (MkValue KSession s).

Definition pair (ci cr : cell) : list (Z * cell) := [(at_initiator a, ci); (at_responder a, cr)].

Definition cb_locals : list (Z * cell) :=
  [(cb_key a, Unset (SBytes 32)); (cb_message a, Unset (SBytes 7)); (cb_output a, Unset (SBytes 48))].
Definition es_locals : list (Z * cell) :=
  [(es_responder_entropy a, Unset (SBytes 96)); (es_initiator_entropy a, Unset (SBytes 64));
   (es_salt a, Unset (SBytes 16)); (es_info a, Unset (SBytes 16));
   (es_responder_kem a, Unset (SHandle KPublicKey1024)); (es_responder_x25519 a, Unset (SHandle KX25519Public));
   (es_ciphertext a, Unset (SHandle KCiphertext1024)); (es_initiator_x25519 a, Unset (SHandle KX25519Public));
   (es_invalid_peer a, Unset (SHandle KX25519Public))].
Definition tx_locals : list (Z * cell) :=
  [(tx_aad a, Unset (SBytes 32)); (tx_plaintext a, Unset (SBytes 96)); (tx_ciphertext a, Unset (SBytes 96));
   (tx_nonce a, Unset (SBytes 12)); (tx_tag a, Unset (SBytes 48))].
Definition rx_locals : list (Z * cell) :=
  [(rx_aad a, Unset (SBytes 32)); (rx_ciphertext a, Unset (SBytes 96)); (rx_nonce a, Unset (SBytes 12));
   (rx_tag a, Unset (SBytes 48)); (rx_plaintext a, Unset (SBytes 96))].
Definition td_locals : list (Z * cell) :=
  [(td_ciphertext a, Unset (SBytes 1)); (td_nonce a, Unset (SBytes 12)); (td_tag a, Unset (SBytes 48))].
Definition all_locals : list (list (Z * cell)) := [cb_locals; es_locals; tx_locals; rx_locals; td_locals].

Definition boxes : list (Z * cell) := pair (Unset (SHandle KSession)) (Unset (SHandle KSession)).

(** The boxes and the variables of each function have room, apart from each other. *)
Definition layout (st : list (Z * Z)) : Prop :=
  Forall (fun ls => frame_at (boxes ++ ls) (MkMem st ∅ ∅)) all_locals.

(** Between two functions. *)
Record at_rest (ci cr : cell) (w : machine) : Prop := {
  ar_boxes : frame_at (pair ci cr) (mem w);
  ar_shape : shape_of ci = SHandle KSession /\ shape_of cr = SHandle KSession;
  ar_layout : layout (storage (mem w))
}.

Lemma enter (ci cr : cell) (ls : list (Z * cell)) (w : machine) :
  at_rest ci cr w -> ls ∈ all_locals -> inside (storage (mem w)) (pair ci cr ++ ls) w.
Proof.
  intros [Hf [Hi Hr] Hl] Hls. split; [|done]. pose proof (proj1 (Forall_forall _ _) Hl ls Hls) as Hg.
  assert (Hun : forall m, Forall (cell_at m) ls).
  { intros m. unfold all_locals in Hls. repeat setoid_rewrite elem_of_cons in Hls.
    destruct Hls as [->|[->|[->|[->|[->|[]%not_elem_of_nil]]]]]; repeat constructor. }
  eapply frame_refine; [exact Hg|done| |apply Forall_app; split; [exact (fr_cells _ _ Hf)|apply Hun]].
  apply Forall2_app; [|apply Forall_Forall2_diag, Forall_forall; done].
  repeat constructor; done.
Qed.

Lemma leave (st : list (Z * Z)) (ci cr : cell) (g : list (Z * cell)) (w : machine) :
  shape_of ci = SHandle KSession -> shape_of cr = SHandle KSession -> layout st ->
  inside st (pair ci cr ++ g) w -> at_rest ci cr w.
Proof. intros Hi Hr Hl [Hf <-]. split; [by eapply frame_app_l|done|done]. Qed.

Lemma cell_address (st : list (Z * Z)) (f : list (Z * cell)) (i : nat) (p : Z) (c : cell) (w : machine) :
  inside st f w -> f !! i = Some (p, c) -> 0 < p /\ p + span c < 2 ^ 64.
Proof. intros [Hf _] Hi. by destruct (proj1 (frame_cell _ _ _ _ Hf Hi)) as (Hp & Hs & _ & _). Qed.

(** ** verify_teardown *)

(** The same buffer is plaintext and ciphertext, so the call is refused whatever state
    the session is in. *)
Lemma verify_teardown_run (ci cr : cell) (w : machine) :
  at_rest ci cr w ->
  exists w', verify_teardown a w = Done tt w' /\ platform w' = platform w /\ at_rest ci cr w'.
Proof.
  intros Hw. pose proof (enter ci cr td_locals w Hw ltac:(do 4 right; left)) as I0.
  destruct (copy_step _ _ 2 _ _ (zeros 1) w I0 eq_refl eq_refl) as (w1 & E1 & P1 & I1).
  destruct (copy_step _ _ 3 _ _ (zeros 12) w1 I1 eq_refl eq_refl) as (w2 & E2 & P2 & I2).
  destruct (copy_step _ _ 4 _ _ (zeros 48) w2 I2 eq_refl eq_refl) as (w3 & E3 & P3 & I3).
  unfold verify_teardown. rewrite (mbind_done _ _ _ _ _ E1), (mbind_done _ _ _ _ _ E2), (mbind_done _ _ _ _ _ E3).
  set (c := SessionEncrypt (at_initiator a) 0 0 (td_ciphertext a) (td_ciphertext a) 1 (td_nonce a) (td_tag a)).
  assert (Hc : run_call c w3 = Done CInvalidLength w3).
  { eapply (same_cell_refused c 2 3); [|reflexivity|reflexivity|lia|].
    - pose proof (cell_address _ _ 0 _ _ w3 I3 eq_refl) as A0. pose proof (cell_address _ _ 2 _ _ w3 I3 eq_refl) as A2.
      pose proof (cell_address _ _ 3 _ _ w3 I3 eq_refl) as A3. pose proof (cell_address _ _ 4 _ _ w3 I3 eq_refl) as A4.
      unfold span in A0. rewrite (proj1 (ar_shape _ _ _ Hw)) in A0. cbn [extent_of] in A0.
      change (span (Bytes (zeros 1))) with 1 in A2. change (span (Bytes (zeros 12))) with 12 in A3.
      change (span (Bytes (zeros 48))) with 48 in A4. pose proof (size_of_pos KSession) as Hk. clear - A0 A2 A3 A4 Hk.
      repeat constructor; cbn; unfold in_width; lia.
    - cbn. split_and!; [by right|lia|lia|]. right. right. exists (td_ciphertext a). unfold within. lia. }
  unfold assert_refused. rewrite (mbind_done _ _ _ _ _ Hc). exists w3. split; [done|]. split; [congruence|].
  destruct Hw as [_ [Hi Hr] Hl]. exact (leave _ ci cr _ w3 Hi Hr Hl I3).
Qed.

(** ** exercise_callback_replacement *)

Lemma hmac_flushes (cb : CFnPtr) (key data : list byte) (h : CHost) :
  c_cache_flush h = Some cb ->
  exists mac, length mac = 48%nat /\ hmac_sha384 key data h = Done (Ok mac) (add_events [CEvFlush cb mac] h).
Proof.
  intros Hcb. unfold hmac_sha384. destruct (hmac_any_key key) as [k ->]. exists (hmac_mac k data).
  split; [apply hmac_len|]. erewrite mbind_done; [|by apply (secure_cache_flush_ok cb)].
  unfold flush_events. by rewrite hmac_len.
Qed.

(** The frame of the function once its arrays are there. *)
Definition cb_frame (ci cr : cell) (output : list byte) : list (Z * cell) :=
  pair ci cr ++ [(cb_key a, Bytes (replicate 32 xa5)); (cb_message a, Bytes (replicate 7 x5a)); (cb_output a, Bytes output)].

Lemma call_hmac_run (st : list (Z * Z)) (cb : CFnPtr) (ci cr : cell) (output : list byte) (w : machine) :
  inside st (cb_frame ci cr output) w -> length output = 48%nat -> c_cache_flush (platform w) = Some cb ->
  exists mac w', assert_success (call_hmac a) w = Done tt w' /\ length mac = 48%nat /\
    platform w' = add_events [CEvFlush cb mac] (platform w) /\ inside st (cb_frame ci cr mac) w'.
Proof.
  intros [Hf Hst] Hl Hcb.
  assert (Hadm : admissible_b (Hmac (cb_key a) (cb_message a) 7 (cb_output a)) = true).
  { apply (frame_admissible _ _ _ [2; 3; 4]%nat Hf); [|by apply (bool_decide_unpack _)].
    repeat (apply Forall2_cons_2; [eexists; split; [reflexivity|]|]); [..|apply Forall2_nil_2];
      cbn [fits fst snd shape_of]; (split; [reflexivity|]).
    - split; [reflexivity|lia].
    - exists 7. split; [reflexivity|]. split; [lia|]. unfold MAX_SLICE_LEN. lia.
    - unfold zlen. rewrite Hl. split; [reflexivity|lia]. }
  destruct (hmac_flushes cb (replicate 32 xa5) (replicate 7 x5a) (platform w) Hcb) as (mac & Hm & E).
  pose proof (frame_bytes _ _ 2 _ _ Hf eq_refl) as B0. pose proof (frame_bytes _ _ 4 _ _ Hf eq_refl) as B2.
  rewrite Hl in B2.
  pose proof (frame_buffer _ _ 3 _ 7 _ Hf eq_refl ltac:(by cbn)) as B1.
  pose proof (hmac_call _ _ 7 _ _ _ _ _ _ w ltac:(lia) Hadm B0 B1 B2 E) as R.
  eexists mac, _. split; [unfold assert_success; erewrite mbind_done by exact R; reflexivity|].
  split; [done|]. split; [done|]. split; [|done]. cbn [mem set_mem].
  pose proof (frame_put_bytes _ 4 _ mac output _ Hf eq_refl ltac:(lia)) as F1.
  rewrite Hm, drop_ge, app_nil_r in F1 by lia. exact F1.
Qed.

Lemma flushes_add (cb cb' : CFnPtr) (mac : list byte) (w w' : machine) :
  platform w' = add_events [CEvFlush cb mac] (platform w) ->
  flushes cb' w' = flushes cb' w + (if cb =? cb' then 1 else 0).
Proof.
  intros E. unfold flushes, zlen. rewrite E. cbn [add_events c_trace]. rewrite filter_app, length_app.
  cbn. destruct (cb =? cb'); [rewrite decide_True by done|rewrite decide_False by done]; cbn; lia.
Qed.

(** ** The pair of sessions *)

Lemma one_handle (st : list (Z * Z)) (f : list (Z * cell)) (i : nat) (p : Z) (c : cell) (x : call) (w : machine) :
  inside st f w -> f !! i = Some (p, c) -> shape_of c = SHandle KSession ->
  operands x = [OHandle KSession p Writes] \/ operands x = [OHandle KSession p Updates] -> admissible_b x = true.
Proof.
  intros [Hf _] Hi Hs Hx. apply (frame_admissible _ _ _ [i] Hf); [|repeat constructor; apply not_elem_of_nil].
  destruct Hx as [-> | ->]; (apply Forall2_cons_2; [|apply Forall2_nil_2]); by exists (p, c).
Qed.

Lemma init_step (st : list (Z * Z)) (f : list (Z * cell)) (i : nat) (p : Z) (c : cell) (w : machine) :
  inside st f w -> f !! i = Some (p, c) -> shape_of c = SHandle KSession ->
  exists w', assert_success (shawncore_crypto_session_manager_init p) w = Done tt w' /\ platform w' = platform w /\
    inside st (<[i := (p, session Sess.new)]> f) w'.
Proof.
  intros Hw Hi Hs. pose proof (one_handle st f i p c (SessionInit p) w Hw Hi Hs (or_introl eq_refl)) as Hadm.
  destruct Hw as [Hf Hst]. pose proof (frame_mapped _ _ _ _ _ Hf Hi) as Hm. unfold span in Hm. rewrite Hs in Hm.
  eexists. split; [unfold assert_success; erewrite mbind_done by exact (init_call p w Hadm Hm); reflexivity|].
  split; [done|]. split; [|done]. by apply (frame_place _ _ _ _ (MkValue KSession Sess.new) _ Hf Hi).
Qed.

(** A method of a session in a frame. *)
Lemma session_frame (st : list (Z * Z)) (f : list (Z * cell)) (i : nat) (p : Z) (s : Sess.SessionManager)
    (v : Sess.world) (w : machine) :
  inside st f w -> f !! i = Some (p, session s) ->
  inside st (<[i := (p, session (Sess.sm v))]> f) (session_back p v w).
Proof. intros [Hf Hst] Hi. split; [|done]. exact (frame_put_object _ _ _ KSession _ _ _ Hf Hi). Qed.

Lemma zeroize_step (st : list (Z * Z)) (f : list (Z * cell)) (i : nat) (p : Z) (s : Sess.SessionManager)
    (cb : CFnPtr) (w : machine) :
  inside st f w -> f !! i = Some (p, session s) -> c_cache_flush (platform w) = Some cb ->
  exists w', assert_success (shawncore_crypto_session_manager_zeroize p) w = Done tt w' /\
    c_cache_flush (platform w') = Some cb /\ inside st (<[i := (p, session Sess.new)]> f) w'.
Proof.
  intros Hw Hi Hcb. pose proof (one_handle st f i p _ (SessionZeroize p) w Hw Hi eq_refl (or_intror eq_refl)) as Hadm.
  pose proof (frame_object _ _ _ KSession _ _ (proj1 Hw) Hi) as Ho.
  pose proof (Sess.zeroize_run cb (Sess.MkWorld s (platform w)) Hcb) as Ez.
  eexists. split; [unfold assert_success; erewrite mbind_done by exact (zeroize_call p s _ w Hadm Ho Ez); reflexivity|].
  split; [done|].
  exact (session_frame st f i p s (Sess.MkWorld Sess.new (add_events (Sess.wipe_events cb s) (platform w))) w Hw Hi).
Qed.

Lemma destroy_step (st : list (Z * Z)) (f : list (Z * cell)) (i : nat) (p : Z) (s : Sess.SessionManager)
    (cb : CFnPtr) (w : machine) :
  inside st f w -> f !! i = Some (p, session s) -> c_cache_flush (platform w) = Some cb ->
  exists w', assert_success (shawncore_crypto_session_manager_destroy p) w = Done tt w' /\
    c_cache_flush (platform w') = Some cb /\ inside st (<[i := (p, Unset (SHandle KSession))]> f) w'.
Proof.
  intros Hw Hi Hcb. pose proof (one_handle st f i p _ (SessionDestroy p) w Hw Hi eq_refl (or_intror eq_refl)) as Hadm.
  pose proof (frame_object _ _ _ KSession _ _ (proj1 Hw) Hi) as Ho.
  pose proof (Sess.zeroize_run cb (Sess.MkWorld s (platform w)) Hcb) as Ez.
  eexists. split; [unfold assert_success; erewrite mbind_done by exact (destroy_call p s _ w Hadm Ho Ez); reflexivity|].
  split; [done|]. destruct (session_frame st f i p s (Sess.MkWorld Sess.new (add_events (Sess.wipe_events cb s) (platform w)))
    w Hw Hi) as [F1 S1]. split; [|exact S1].
  rewrite <- (list_insert_insert_eq f i (p, Unset (SHandle KSession)) (p, session Sess.new)).
  apply (frame_set _ i p (session Sess.new) _ _ _ F1); [|done| |done].
  - by apply list_lookup_insert_eq, (lookup_lt_Some _ _ _ Hi).
  - apply untouched_remove; [apply size_of_pos|apply extent_pos].
Qed.

Variables cache_callback_a cache_callback_b : CFnPtr.

Definition quiet (w : machine) : Prop := c_cache_flush (platform w) = Some cache_callback_a.

Lemma new_pair_run (ci cr : cell) (w : machine) :
  at_rest ci cr w -> quiet w ->
  exists w', new_pair a w = Done tt w' /\ quiet w' /\ at_rest (session Sess.new) (session Sess.new) w'.
Proof.
  intros [Hf [Hi Hr] Hl] Hq.
  destruct (init_step _ _ 0 _ _ w (conj Hf eq_refl) eq_refl Hi) as (w1 & E1 & P1 & I1).
  destruct (init_step _ _ 1 _ _ w1 I1 eq_refl Hr) as (w2 & E2 & P2 & I2).
  exists w2. unfold new_pair. rewrite (mbind_done _ _ _ _ _ E1). split; [exact E2|].
  split; [unfold quiet; by rewrite P2, P1|]. destruct I2 as [F2 S2]. by split; [|split|rewrite S2].
Qed.

Lemma zeroize_pair_run (si sr : Sess.SessionManager) (w : machine) :
  at_rest (session si) (session sr) w -> quiet w ->
  exists w', zeroize_pair a w = Done tt w' /\ quiet w' /\ at_rest (session Sess.new) (session Sess.new) w'.
Proof.
  intros [Hf _ Hl] Hq.
  destruct (zeroize_step _ _ 0 _ _ _ w (conj Hf eq_refl) eq_refl Hq) as (w1 & E1 & P1 & I1).
  destruct (zeroize_step _ _ 1 _ _ _ w1 I1 eq_refl P1) as (w2 & E2 & P2 & I2).
  exists w2. unfold zeroize_pair. rewrite (mbind_done _ _ _ _ _ E1). split; [exact E2|]. split; [done|].
  destruct I2 as [F2 S2]. by split; [|split|rewrite S2].
Qed.

Lemma drop_pair_run (si sr : Sess.SessionManager) (w : machine) :
  at_rest (session si) (session sr) w -> quiet w ->
  exists w', drop_pair a w = Done tt w' /\ quiet w' /\
    at_rest (Unset (SHandle KSession)) (Unset (SHandle KSession)) w'.
Proof.
  intros [Hf _ Hl] Hq.
  destruct (destroy_step _ _ 0 _ _ _ w (conj Hf eq_refl) eq_refl Hq) as (w1 & E1 & P1 & I1).
  destruct (destroy_step _ _ 1 _ _ _ w1 I1 eq_refl P1) as (w2 & E2 & P2 & I2).
  exists w2. unfold drop_pair. rewrite (mbind_done _ _ _ _ _ E1). split; [exact E2|]. split; [done|].
  destruct I2 as [F2 S2]. by split; [|split|rewrite S2].
Qed.

Lemma exercise_run (cleared_a cleared_b : Z) (ci cr : cell) (w : machine) :
  cache_callback_a <> cache_callback_b -> at_rest ci cr w ->
  exists w', exercise_callback_replacement cache_callback_a cache_callback_b a cleared_a cleared_b w = Done tt w' /\
    c_cache_flush (platform w') = Some cache_callback_a /\ at_rest ci cr w'.
Proof.
  intros Hab Hw. pose proof (enter ci cr cb_locals w Hw ltac:(left)) as I0.
  destruct (copy_step _ _ 2 _ _ (replicate 32 xa5) w I0 eq_refl eq_refl) as (w1 & E1 & P1 & I1).
  destruct (copy_step _ _ 3 _ _ (replicate 7 x5a) w1 I1 eq_refl eq_refl) as (w2 & E2 & P2 & I2).
  destruct (copy_step _ _ 4 _ _ (zeros 48) w2 I2 eq_refl eq_refl) as (w3 & E3 & P3 & I3).
  unfold exercise_callback_replacement.
  rewrite (mbind_done _ _ _ _ _ E1), (mbind_done _ _ _ _ _ E2), (mbind_done _ _ _ _ _ E3).
  erewrite (mbind_done (register _)) by reflexivity. set (w4 := set_platform _ w3).
  erewrite (mbind_done (count _ _)) by reflexivity.
  destruct (call_hmac_run _ cache_callback_a ci cr (zeros 48) w4 I3 eq_refl eq_refl) as (m5 & w5 & E5 & L5 & P5 & I5).
  rewrite (mbind_done _ _ _ _ _ E5). erewrite (mbind_done (count _ _)) by reflexivity.
  pose proof (flushes_add _ cache_callback_a _ _ _ P5) as N5. rewrite Z.eqb_refl in N5.
  rewrite (proj2 (Z.ltb_lt _ _)) by lia. erewrite (mbind_done (assert _)) by reflexivity.
  erewrite (mbind_done (register _)) by reflexivity. set (w6 := set_platform _ w5).
  erewrite (mbind_done (count _ _)) by reflexivity. erewrite (mbind_done (count _ _)) by reflexivity.
  destruct (call_hmac_run _ cache_callback_b ci cr m5 w6 I5 L5 eq_refl) as (m7 & w7 & E7 & L7 & P7 & I7).
  rewrite (mbind_done _ _ _ _ _ E7). erewrite (mbind_done (count _ _)) by reflexivity.
  pose proof (flushes_add _ cache_callback_a _ _ _ P7) as N7. rewrite (proj2 (Z.eqb_neq _ _)) in N7 by done.
  pose proof (flushes_add _ cache_callback_b _ _ _ P7) as N8. rewrite Z.eqb_refl in N8.
  rewrite (proj2 (Z.eqb_eq _ _)) by lia. erewrite (mbind_done (assert _)) by reflexivity.
  erewrite (mbind_done (count _ _)) by reflexivity. rewrite (proj2 (Z.ltb_lt _ _)) by lia.
  erewrite (mbind_done (assert _)) by reflexivity. erewrite (mbind_done (register _)) by reflexivity.
  eexists. split; [reflexivity|]. split; [done|].
  destruct Hw as [_ [Hi Hr] Hl]. eapply (leave _ ci cr); [done|done|exact Hl|exact I7].
Qed.

(** ** establish *)

Section handshake.
Variables (input : list byte) (offset : Z).

Abbreviation ea := (responder_entropy input offset).
Abbreviation eb := (initiator_entropy input offset).

Definition kem_secret : DecapsKey1024 := kem_from_seed (slice 0 64 ea).
Definition responder_public : X25519Public := public_from (secret_from (slice 64 96 ea)).
Definition initiator_secret : StaticSecret := secret_from (slice 32 64 eb).
Definition encapsulated : list byte * list byte :=
  encapsulate_deterministic (encapsulation_key kem_secret) (slice 0 32 eb).

(** The 128 bytes both sides derive. *)
Definition shared_key : list byte :=
  Hs.hybrid_key encapsulated.2 (Hs.dh_bytes (secret_to_bytes initiator_secret) responder_public) (salt input offset)
    (info input offset) encapsulated.1 (public_from initiator_secret).

Definition es_frame (si sr : Sess.SessionManager) (kem xr ct xi inv : cell) : list (Z * cell) :=
  pair (session si) (session sr) ++
  [(es_responder_entropy a, Bytes ea); (es_initiator_entropy a, Bytes eb); (es_salt a, Bytes (salt input offset));
   (es_info a, Bytes (info input offset)); (es_responder_kem a, kem); (es_responder_x25519 a, xr);
   (es_ciphertext a, ct); (es_initiator_x25519 a, xi); (es_invalid_peer a, inv)].

Definition kem_cell : cell := Object (MkValue KPublicKey1024 (encapsulation_key kem_secret)).
Definition xr_cell : cell := Object (MkValue KX25519Public responder_public).
Definition ct_cell : cell := Object (MkValue KCiphertext1024 encapsulated.1).
Definition xi_cell : cell := Object (MkValue KX25519Public (public_from initiator_secret)).

Lemma length_material (n : nat) (i : list byte) (o d : Z) : length (material n i o d) = n.
Proof. unfold material. by rewrite !length_insert, length_fmap, length_seq. Qed.

Lemma sixteen : 0 <= 16 <= zlen (salt input offset) /\ 0 <= 16 <= zlen (info input offset).
Proof. unfold zlen, salt, info. rewrite !length_material. lia. Qed.

Lemma material_sound (n : nat) (i : list byte) (o d : Z) :
  (1 < n)%nat -> byte_of_Z d <> x00 -> byte_of_Z d <> xff -> Hs.degenerate (material n i o d) = false.
Proof.
  intros Hn H0' Hf. assert (Hh : material n i o d !! 0%nat = Some (byte_of_Z d)).
  { unfold material. rewrite list_lookup_insert_ne by lia. apply list_lookup_insert_eq.
    rewrite length_fmap, length_seq. lia. }
  unfold Hs.degenerate, all_eq. destruct (material n i o d) as [|b l]; [done|]. injection Hh as ->. cbn [forallb].
  assert (Hne : forall x, byte_of_Z d <> x -> Byte.eqb x (byte_of_Z d) = false).
  { intros x Hx. destruct (Byte.eqb x (byte_of_Z d)) eqn:E; [|done]. by apply Byte.byte_dec_bl in E as ->. }
  by rewrite !Hne.
Qed.

Lemma entropies_sound : Hs.degenerate ea = false /\ Hs.degenerate eb = false.
Proof. split; apply material_sound; (lia || by vm_compute). Qed.

(** Operands that are cells of this frame. *)
Ltac in_es_frame :=
  cbn [operands]; repeat (apply Forall2_cons_2; [eexists; split; [reflexivity|]|]); [..|apply Forall2_nil_2];
  cbn [fits fst snd shape_of]; (split; [reflexivity|]);
  try (eexists; split; [reflexivity|]);
  unfold zlen, responder_entropy, initiator_entropy, salt, info; rewrite ?length_material; unfold MAX_SLICE_LEN;
  try assumption; try reflexivity; try (split; [reflexivity|lia]); lia.

Lemma initiate_step (st : list (Z * Z)) (si sr : Sess.SessionManager) (kem xr ct xi inv : cell) (w : machine) :
  inside st (es_frame si sr kem xr ct xi inv) w -> quiet w ->
  shape_of kem = SHandle KPublicKey1024 -> shape_of xr = SHandle KX25519Public ->
  exists w', assert_success (initiate a) w = Done tt w' /\ quiet w' /\
    inside st (es_frame si (Hs.pending_session ea) kem_cell xr_cell ct xi inv) w'.
Proof.
  intros [Hf Hst] Hq Hk Hx.
  assert (Hadm : admissible_b (SessionInitiate (at_responder a) (es_responder_entropy a) (es_responder_kem a)
    (es_responder_x25519 a)) = true).
  { apply (frame_admissible _ _ _ [1; 2; 6; 7]%nat Hf); [in_es_frame|by apply (bool_decide_unpack _)]. }
  destruct (Hs.initiate_run cache_callback_a ea (Sess.MkWorld sr (platform w)) Hq (proj1 entropies_sound))
    as (h & E & Fl).
  pose proof (frame_object _ _ 1 KSession _ _ Hf eq_refl) as Ho.
  pose proof (frame_bytes _ _ 2 _ _ Hf eq_refl) as B. unfold responder_entropy in B. rewrite length_material in B.
  pose proof (frame_mapped _ _ 6 _ _ Hf eq_refl) as M6. unfold span in M6. rewrite Hk in M6.
  pose proof (frame_mapped _ _ 7 _ _ Hf eq_refl) as M7. unfold span in M7. rewrite Hx in M7.
  pose proof (initiate_call _ _ _ _ _ _ _ _ _ w Hadm Ho B M6 M7 E) as R.
  eexists. split; [unfold assert_success; erewrite mbind_done by exact R; reflexivity|].
  split; [exact (Hs.flushed_cb _ _ _ Fl Hq)|]. split; [|done]. cbn [mem set_mem].
  destruct (session_frame st _ 1 _ _ (Sess.MkWorld (Hs.pending_session ea) h) w (conj Hf Hst) eq_refl) as [F1 _].
  pose proof (frame_place _ 6 _ kem (MkValue KPublicKey1024 (encapsulation_key kem_secret)) _ F1 eq_refl Hk) as F2.
  exact (frame_place _ 7 _ xr (MkValue KX25519Public responder_public) _ F2 eq_refl Hx).
Qed.

Lemma encapsulate_step (st : list (Z * Z)) (si sr : Sess.SessionManager) (ct xi inv : cell) (w : machine) :
  inside st (es_frame si sr kem_cell xr_cell ct xi inv) w -> quiet w -> Hs.honest_dh ea eb ->
  shape_of ct = SHandle KCiphertext1024 -> shape_of xi = SHandle KX25519Public ->
  exists w', assert_success (encapsulate a) w = Done tt w' /\ quiet w' /\
    inside st (es_frame (Hs.established (Hs.inner_key shared_key) (Hs.outer_key shared_key)) sr kem_cell xr_cell
      ct_cell xi_cell inv) w'.
Proof.
  intros [Hf Hst] Hq Hdh Hc Hx.
  assert (Hadm : admissible_b (SessionEncapsulate (at_initiator a) (es_responder_kem a) (es_responder_x25519 a)
    (es_initiator_entropy a) (es_salt a) 16 (es_info a) 16 (es_ciphertext a) (es_initiator_x25519 a)) = true).
  { apply (frame_admissible _ _ _ [0; 6; 7; 3; 4; 5; 8; 9]%nat Hf); [in_es_frame|by apply (bool_decide_unpack _)]. }
  destruct (Hs.encapsulate_inner_run cache_callback_a (encapsulation_key kem_secret) responder_public eb
    (salt input offset) (info input offset) (zeros 1568) (zeros 32) false (Sess.MkWorld si (platform w)) Hq
    (proj2 entropies_sound)) as (h & Fl & E).
  assert (D1 : Hs.dh_accepts (secret_to_bytes (secret_from (slice 32 64 eb))) responder_public = true)
    by exact (proj1 (Hs.honest_dh_accepts ea eb Hdh)).
  rewrite D1 in E.
  assert (Ee : Hs.encapsulate_for_peer (encapsulation_key kem_secret) responder_public eb (salt input offset)
    (info input offset) (zeros 1568) (zeros 32) (Sess.MkWorld si (platform w)) =
    Done (Ok tt, encapsulated.1, public_from initiator_secret)
      (Sess.MkWorld (Hs.established (Hs.inner_key shared_key) (Hs.outer_key shared_key)) h)).
  { unfold Hs.encapsulate_for_peer. by rewrite (mbind_done _ _ _ _ _ E). }
  pose proof (frame_object _ _ 0 KSession _ _ Hf eq_refl) as Ho.
  pose proof (frame_object _ _ 6 KPublicKey1024 _ _ Hf eq_refl) as Ok6.
  pose proof (frame_object _ _ 7 KX25519Public _ _ Hf eq_refl) as Ok7.
  pose proof (frame_bytes _ _ 3 _ _ Hf eq_refl) as B. unfold initiator_entropy in B. rewrite length_material in B.
  pose proof (frame_buffer _ _ 4 _ 16 (salt input offset) Hf eq_refl (proj1 sixteen)) as B4.
  pose proof (frame_buffer _ _ 5 _ 16 (info input offset) Hf eq_refl (proj2 sixteen)) as B5.
  rewrite take_ge in B4, B5 by (unfold salt, info; by rewrite length_material).
  pose proof (frame_mapped _ _ 8 _ _ Hf eq_refl) as M8. unfold span in M8. rewrite Hc in M8.
  pose proof (frame_mapped _ _ 9 _ _ Hf eq_refl) as M9. unfold span in M9. rewrite Hx in M9.
  pose proof (encapsulate_call _ _ _ _ _ 16 _ 16 _ _ _ _ _ _ _ _ _ _ _ w ltac:(lia) ltac:(lia) Hadm Ho Ok6 Ok7 B B4 B5
    M8 M9 Ee) as R.
  eexists. split; [unfold assert_success; erewrite mbind_done by exact R; reflexivity|].
  split; [exact (Hs.flushed_cb _ _ _ Fl Hq)|]. split; [|done]. cbn [mem set_mem].
  destruct (session_frame st _ 0 _ _
    (Sess.MkWorld (Hs.established (Hs.inner_key shared_key) (Hs.outer_key shared_key)) h) w (conj Hf Hst) eq_refl)
    as [F1 _].
  pose proof (frame_place _ 8 _ ct (MkValue KCiphertext1024 encapsulated.1) _ F1 eq_refl Hc) as F2.
  exact (frame_place _ 9 _ xi (MkValue KX25519Public (public_from initiator_secret)) _ F2 eq_refl Hx).
Qed.

(** The responder's half, with whatever public key it is given. *)
Lemma finalize_runs (st : list (Z * Z)) (si : Sess.SessionManager) (xi inv : cell) (n : nat) (p : Z)
    (peer : X25519Public) (w : machine) :
  inside st (es_frame si (Hs.pending_session ea) kem_cell xr_cell ct_cell xi inv) w -> quiet w ->
  es_frame si (Hs.pending_session ea) kem_cell xr_cell ct_cell xi inv !! n =
    Some (p, Object (MkValue KX25519Public peer)) -> n = 9%nat \/ n = 10%nat ->
  let sk := secret_to_bytes (secret_from (slice 64 96 ea)) in
  let k := Hs.hybrid_key encapsulated.2 (Hs.dh_bytes sk peer) (salt input offset) (info input offset) encapsulated.1 peer in
  let ok := Hs.dh_accepts sk peer in
  exists w', finalize a p w = Done (if ok then CSuccess else CInvalidState) w' /\ quiet w' /\
    inside st (es_frame si (if ok then Hs.established (Hs.outer_key k) (Hs.inner_key k) else Sess.new) kem_cell xr_cell
      ct_cell xi inv) w'.
Proof.
  intros [Hf Hst] Hq Hn Hcase sk k ok.
  assert (Hadm : admissible_b (SessionFinalize (at_responder a) p (es_ciphertext a) (es_salt a) 16 (es_info a) 16) = true).
  { apply (frame_admissible _ _ _ [1; n; 8; 4; 5]%nat Hf);
      [|destruct Hcase as [-> | ->]; by apply (bool_decide_unpack _)].
    apply Forall2_cons_2; [eexists; split; [reflexivity|done]|].
    apply Forall2_cons_2; [eexists; split; [exact Hn|done]|]. in_es_frame. }
  destruct (Hs.finalize_run cache_callback_a kem_secret sk peer encapsulated.1 (salt input offset) (info input offset)
    (Sess.MkWorld (Hs.pending_session ea) (platform w)) Hq eq_refl eq_refl) as (h & Fl & E).
  fold ok in E. change (decapsulate kem_secret encapsulated.1) with
    (decapsulate kem_secret (encapsulate_deterministic (encapsulation_key kem_secret) (slice 0 32 eb)).1) in E.
  rewrite kem_correct in E. fold encapsulated k in E. cbv zeta in E.
  pose proof (frame_object _ _ 1 KSession _ _ Hf eq_refl) as Ho.
  pose proof (frame_object _ _ n KX25519Public _ _ Hf Hn) as On.
  pose proof (frame_object _ _ 8 KCiphertext1024 _ _ Hf eq_refl) as O8.
  pose proof (frame_buffer _ _ 4 _ 16 (salt input offset) Hf eq_refl (proj1 sixteen)) as B4.
  pose proof (frame_buffer _ _ 5 _ 16 (info input offset) Hf eq_refl (proj2 sixteen)) as B5.
  rewrite take_ge in B4, B5 by (unfold salt, info; by rewrite length_material).
  assert (exists r s', Hs.finalize_handshake peer encapsulated.1 (salt input offset) (info input offset)
      (Sess.MkWorld (Hs.pending_session ea) (platform w)) = Done r (Sess.MkWorld s' h) /\
    code_of r = (if ok then CSuccess else CInvalidState) /\
    s' = (if ok then Hs.established (Hs.outer_key k) (Hs.inner_key k) else Sess.new)) as (r & s' & Ef & Hr & Hs').
  { destruct ok; eexists _, _; (split; [exact E|done]). }
  pose proof (finalize_call _ _ _ _ 16 _ 16 _ _ _ _ _ _ _ w ltac:(lia) ltac:(lia) Hadm Ho On O8 B4 B5 Ef) as R.
  rewrite Hr in R. eexists. split; [exact R|]. split; [exact (Hs.flushed_cb _ _ _ Fl Hq)|]. rewrite <- Hs'.
  exact (session_frame st _ 1 _ _ (Sess.MkWorld s' h) w (conj Hf Hst) eq_refl).
Qed.

Abbreviation initiator_side := (Hs.established (Hs.inner_key shared_key) (Hs.outer_key shared_key)).
Abbreviation responder_side := (Hs.established (Hs.outer_key shared_key) (Hs.inner_key shared_key)).

Lemma failed_recovery_run (st : list (Z * Z)) (inv : cell) (w : machine) :
  inside st (es_frame initiator_side (Hs.pending_session ea) kem_cell xr_cell ct_cell xi_cell inv) w -> quiet w ->
  Hs.honest_dh ea eb -> shape_of inv = SHandle KX25519Public ->
  exists w' inv', failed_recovery a w = Done tt w' /\ quiet w' /\
    inside st (es_frame initiator_side (Hs.pending_session ea) kem_cell xr_cell ct_cell xi_cell inv') w'.
Proof.
  intros [Hf Hst] Hq Hdh Hi. unfold failed_recovery.
  pose proof (frame_mapped _ _ 10 _ _ Hf eq_refl) as M. unfold span in M. rewrite Hi in M.
  rewrite (mbind_done _ _ _ _ _ (handle_store_run KX25519Public _ (zeros 32) w M)).
  pose proof (frame_place _ 10 _ inv (MkValue KX25519Public (zeros 32)) _ Hf eq_refl Hi) as F1.
  set (w1 := set_mem _ w) in *. assert (Hq1 : quiet w1) by exact Hq.
  assert (I1 : inside st (es_frame initiator_side (Hs.pending_session ea) kem_cell xr_cell ct_cell xi_cell
    (Object (MkValue KX25519Public (zeros 32)))) w1) by exact (conj F1 Hst).
  destruct (finalize_runs st _ _ _ 10 _ (zeros 32) w1 I1 Hq1 eq_refl (or_intror eq_refl)) as (w2 & E2 & Q2 & I2).
  change (Hs.dh_accepts (secret_to_bytes (secret_from (slice 64 96 ea))) (zeros 32)) with false in *.
  erewrite (mbind_done (assert_refused _)); [|unfold assert_refused; by rewrite (mbind_done _ _ _ _ _ E2)].
  destruct (zeroize_step st _ 0 _ _ _ w2 I2 eq_refl Q2) as (w3 & E3 & Q3 & I3). rewrite (mbind_done _ _ _ _ _ E3).
  destruct (zeroize_step st _ 1 _ _ _ w3 I3 eq_refl Q3) as (w4 & E4 & Q4 & I4). rewrite (mbind_done _ _ _ _ _ E4).
  destruct (initiate_step st Sess.new Sess.new _ _ _ _ _ w4 I4 Q4 eq_refl eq_refl) as (w5 & E5 & Q5 & I5).
  rewrite (mbind_done _ _ _ _ _ E5).
  destruct (encapsulate_step st _ _ _ _ _ w5 I5 Q5 Hdh eq_refl eq_refl) as (w6 & E6 & Q6 & I6).
  exists w6. eexists. split; [exact E6|]. split; [exact Q6|exact I6].
Qed.

(** Both sessions hold the mirrored keys of this handshake. *)
Lemma establish_run (si sr : Sess.SessionManager) (recovery : bool) (w : machine) :
  at_rest (session si) (session sr) w -> quiet w -> Hs.honest_dh ea eb ->
  exists w', establish a input offset recovery w = Done tt w' /\ quiet w' /\
    at_rest (session initiator_side) (session responder_side) w'.
Proof.
  intros Hw Hq Hdh. pose proof (enter _ _ es_locals w Hw ltac:(right; left)) as I0. set (st := storage (mem w)) in *.
  assert (Hz : forall n i o d, SBytes (Z.of_nat n) = SBytes (zlen (material n i o d)))
    by (intros; unfold zlen; by rewrite length_material).
  destruct (copy_step _ _ 2 _ _ ea w I0 eq_refl (Hz 96%nat _ _ _)) as (w1 & E1 & P1 & I1).
  destruct (copy_step _ _ 3 _ _ eb w1 I1 eq_refl (Hz 64%nat _ _ _)) as (w2 & E2 & P2 & I2).
  destruct (copy_step _ _ 4 _ _ (salt input offset) w2 I2 eq_refl (Hz 16%nat _ _ _)) as (w3 & E3 & P3 & I3).
  destruct (copy_step _ _ 5 _ _ (info input offset) w3 I3 eq_refl (Hz 16%nat _ _ _)) as (w4 & E4 & P4 & I4).
  unfold establish. rewrite (mbind_done _ _ _ _ _ E1), (mbind_done _ _ _ _ _ E2), (mbind_done _ _ _ _ _ E3),
    (mbind_done _ _ _ _ _ E4).
  assert (Q4 : quiet w4) by (unfold quiet; by rewrite P4, P3, P2, P1).
  destruct (initiate_step st si sr _ _ _ _ _ w4 I4 Q4 eq_refl eq_refl) as (w5 & E5 & Q5 & I5).
  rewrite (mbind_done _ _ _ _ _ E5).
  destruct (encapsulate_step st _ _ _ _ _ w5 I5 Q5 Hdh eq_refl eq_refl) as (w6 & E6 & Q6 & I6).
  rewrite (mbind_done _ _ _ _ _ E6).
  assert (exists w7 inv', (if recovery then failed_recovery a else mret tt) w6 = Done tt w7 /\ quiet w7 /\
    inside st (es_frame initiator_side (Hs.pending_session ea) kem_cell xr_cell ct_cell xi_cell inv') w7)
    as (w7 & inv & E7 & Q7 & I7).
  { destruct recovery; [by eapply failed_recovery_run|]. by eexists w6, _. }
  rewrite (mbind_done _ _ _ _ _ E7).
  destruct (finalize_runs st _ _ _ 9 _ _ w7 I7 Q7 eq_refl (or_introl eq_refl)) as (w8 & E8 & Q8 & I8).
  destruct (Hs.honest_dh_accepts ea eb Hdh) as (_ & D2 & D3). fold initiator_secret in D2, D3.
  rewrite D2, D3 in *. exists w8. split; [unfold assert_success; by rewrite (mbind_done _ _ _ _ _ E8)|].
  split; [exact Q8|]. exact (leave st (session initiator_side) (session responder_side) _ w8 eq_refl eq_refl (ar_layout _ _ _ Hw) I8).
Qed.

End handshake.

(** ** Packets *)

Definition packet_sized (p : Packet) : Prop :=
  length (aad p) = 32%nat /\ 0 <= aad_len p <= 32 /\ length (plaintext p) = 96%nat /\ 0 <= data_len p <= 96 /\
  length (ciphertext p) = 96%nat /\ length (nonce p) = 12%nat /\ length (tag p) = 48%nat.

(** The session of one side, and the pair with that session replaced. *)
Definition side (r : Recipient) (si sr : Sess.SessionManager) : Sess.SessionManager :=
  match r with Initiator => si | Responder => sr end.
Definition side_index (r : Recipient) : nat := match r with Initiator => 0%nat | Responder => 1%nat end.
Definition with_side (r : Recipient) (s si sr : Sess.SessionManager) (w : machine) : Prop :=
  match r with
  | Initiator => at_rest (session s) (session sr) w
  | Responder => at_rest (session si) (session s) w
  end.

Lemma side_lookup (r : Recipient) (si sr : Sess.SessionManager) (g : list (Z * cell)) :
  (pair (session si) (session sr) ++ g) !! side_index r = Some (manager a r, session (side r si sr)).
Proof. by destruct r. Qed.

Lemma side_updated (r : Recipient) (s si sr : Sess.SessionManager) (st : list (Z * Z)) (g : list (Z * cell))
    (w : machine) :
  layout st ->
  inside st (<[side_index r := (manager a r, session s)]> (pair (session si) (session sr) ++ g)) w ->
  with_side r s si sr w.
Proof.
  intros Hl Hi. destruct r; cbn [with_side].
  - exact (leave st (session s) (session sr) g w eq_refl eq_refl Hl Hi).
  - exact (leave st (session si) (session s) g w eq_refl eq_refl Hl Hi).
Qed.

Definition rx_frame (si sr : Sess.SessionManager) (p : Packet) (buffer : list byte) : list (Z * cell) :=
  pair (session si) (session sr) ++
  [(rx_aad a, Bytes (aad p)); (rx_ciphertext a, Bytes (ciphertext p)); (rx_nonce a, Bytes (nonce p));
   (rx_tag a, Bytes (tag p)); (rx_plaintext a, Bytes buffer)].

Lemma receive_run (st : list (Z * Z)) (si sr : Sess.SessionManager) (p : Packet) (r : result unit CryptoError)
    (pt : list byte) (v : Sess.world) (w : machine) :
  inside st (rx_frame si sr p (zeros 96)) w -> packet_sized p -> length pt = Z.to_nat (data_len p) ->
  Sess.decrypt_packet (take (Z.to_nat (aad_len p)) (aad p)) (take (Z.to_nat (data_len p)) (ciphertext p)) (nonce p)
    (tag p) (zeros (Z.to_nat (data_len p))) (Sess.MkWorld (side (recipient p) si sr) (platform w)) = Done (r, pt) v ->
  exists w', shawncore_crypto_session_manager_decrypt_packet (manager a (recipient p)) (rx_aad a) (aad_len p)
      (rx_ciphertext a) (data_len p) (rx_nonce a) (rx_tag a) (rx_plaintext a) w = Done (code_of r) w' /\
    platform w' = Sess.ch v /\
    inside st (<[side_index (recipient p) := (manager a (recipient p), session (Sess.sm v))]>
      (rx_frame si sr p (pt ++ drop (length pt) (zeros 96)))) w'.
Proof.
  intros [Hf Hst] (L1 & L2 & L3 & L4 & L5 & L6 & L7) Hpt E.
  assert (Hadm : admissible_b (SessionDecrypt (manager a (recipient p)) (rx_aad a) (aad_len p) (rx_ciphertext a)
    (data_len p) (rx_nonce a) (rx_tag a) (rx_plaintext a)) = true).
  { apply (frame_admissible _ _ _ [side_index (recipient p); 2; 3; 4; 5; 6]%nat Hf).
    2: destruct (recipient p); by apply (bool_decide_unpack _).
    cbn [operands]. apply Forall2_cons_2; [eexists; split; [apply side_lookup|done]|].
    repeat (apply Forall2_cons_2; [eexists; split; [reflexivity|]|]); [..|apply Forall2_nil_2];
      cbn [fits fst snd shape_of]; (split; [reflexivity|]); unfold zlen; rewrite ?L1, ?L5, ?L6, ?L7, ?length_zeros;
      try (split; [reflexivity|lia]); (eexists; split; [reflexivity|]);
      unfold MAX_SLICE_LEN, CHACHA20_MAX_BYTES, u32_max; lia. }
  pose proof (frame_object _ _ _ KSession _ _ Hf (side_lookup (recipient p) si sr _)) as Ho.
  pose proof (frame_buffer _ _ 2 _ (aad_len p) (aad p) Hf eq_refl ltac:(unfold zlen; lia)) as B2.
  pose proof (frame_buffer _ _ 3 _ (data_len p) (ciphertext p) Hf eq_refl ltac:(unfold zlen; lia)) as B3.
  pose proof (frame_bytes _ _ 4 _ _ Hf eq_refl) as B4. rewrite L6 in B4.
  pose proof (frame_bytes _ _ 5 _ _ Hf eq_refl) as B5. rewrite L7 in B5.
  pose proof (frame_buffer _ _ 6 _ (data_len p) (zeros 96) Hf eq_refl ltac:(unfold zlen; rewrite length_zeros; lia)) as B6.
  unfold zeros in B6. rewrite take_replicate, Nat.min_l in B6 by lia. fold (zeros (Z.to_nat (data_len p))) in B6.
  pose proof (open_call_run _ _ _ _ _ _ _ _ _ _ _ _ _ _ _ _ _ w (proj1 L2) (proj1 L4) Hadm Ho B2 B3 B4 B5 B6 E) as R.
  eexists. split; [exact R|]. split; [done|]. split; [|done]. cbn [mem set_mem].
  destruct (session_frame st _ _ _ _ v w (conj Hf Hst) (side_lookup (recipient p) si sr _)) as [F1 _].
  assert (Hlen : (length pt <= length (zeros 96))%nat) by (rewrite length_zeros; lia).
  destruct (recipient p); exact (frame_put_bytes _ 6 _ pt (zeros 96) _ F1 eq_refl Hlen).
Qed.

Lemma replay_decrypt_run (si sr : Sess.SessionManager) (p : Packet) (r : result unit CryptoError) (pt : list byte)
    (v : Sess.world) (w : machine) :
  at_rest (session si) (session sr) w -> packet_sized p -> length pt = Z.to_nat (data_len p) ->
  Sess.decrypt_packet (take (Z.to_nat (aad_len p)) (aad p)) (take (Z.to_nat (data_len p)) (ciphertext p)) (nonce p)
    (tag p) (zeros (Z.to_nat (data_len p))) (Sess.MkWorld (side (recipient p) si sr) (platform w)) = Done (r, pt) v ->
  exists w', decrypt a p w =
      match r with
      | Ok _ => if bool_decide (pt = take (Z.to_nat (data_len p)) (plaintext p)) then Done CSuccess w' else Halted w'
      | Err e => Done (crypto_of_error e) w'
      end /\ platform w' = Sess.ch v /\
    with_side (recipient p) (Sess.sm v) si sr w'.
Proof.
  intros Hw Hp Hpt E. pose proof Hp as (L1 & L2 & L3 & L4 & L5 & L6 & L7).
  pose proof (enter _ _ rx_locals w Hw ltac:(do 3 right; left)) as I0. set (st := storage (mem w)) in *.
  assert (Hz : forall (x : list byte) n, length x = n -> SBytes (Z.of_nat n) = SBytes (zlen x)) by (intros ? ? <-; done).
  destruct (copy_step _ _ 2 _ _ (aad p) w I0 eq_refl (Hz _ _ L1)) as (w1 & E1 & P1 & I1).
  destruct (copy_step _ _ 3 _ _ (ciphertext p) w1 I1 eq_refl (Hz _ _ L5)) as (w2 & E2 & P2 & I2).
  destruct (copy_step _ _ 4 _ _ (nonce p) w2 I2 eq_refl (Hz _ _ L6)) as (w3 & E3 & P3 & I3).
  destruct (copy_step _ _ 5 _ _ (tag p) w3 I3 eq_refl (Hz _ _ L7)) as (w4 & E4 & P4 & I4).
  destruct (copy_step _ _ 6 _ _ (zeros 96) w4 I4 eq_refl (Hz _ _ (length_zeros 96))) as (w5 & E5 & P5 & I5).
  unfold decrypt. rewrite (mbind_done _ _ _ _ _ E1), (mbind_done _ _ _ _ _ E2), (mbind_done _ _ _ _ _ E3),
    (mbind_done _ _ _ _ _ E4), (mbind_done _ _ _ _ _ E5).
  replace (platform w) with (platform w5) in E by (by rewrite P5, P4, P3, P2, P1).
  destruct (receive_run st si sr p r pt v w5 I5 Hp Hpt E) as (w6 & E6 & P6 & I6).
  rewrite (mbind_done _ _ _ _ _ E6). exists w6.
  assert (Hend : with_side (recipient p) (Sess.sm v) si sr w6).
  { exact (side_updated _ _ si sr st _ w6 (ar_layout _ _ _ Hw) I6). }
  destruct r as [[]|e]; cbn [code_of]; [|by destruct e].
  rewrite bool_decide_true by done.
  assert (B : bytes_at (rx_plaintext a) 96 (mem w6) = Some (pt ++ drop (length pt) (zeros 96))).
  { assert (Hl : length (pt ++ drop (length pt) (zeros 96)) = 96%nat)
      by (rewrite length_app, length_drop, length_zeros; lia).
    rewrite <- Hl at 1. destruct (recipient p); exact (frame_bytes _ _ 6 _ _ (proj1 I6) eq_refl). }
  split; [|done]. unfold mbind at 1, M_bind at 1. rewrite (mbind_done _ _ _ _ _ (array_run _ _ _ w6 B)).
  rewrite take_app_length' by done. by destruct (bool_decide _).
Qed.

(** The packet a session seals for the other side. *)
Section sealing.
Variables (input : list byte) (offset : Z).

Definition sealed_packet (r : Recipient) (e counter : Z) (key : list byte) : Packet :=
  let n := Sess.nonce_of counter in
  let c := stream (take 32 key) n (take (Z.to_nat (packet_data_len input offset)) (packet_plaintext input offset)) in
  let t := tag_of (drop 32 key) n (take (Z.to_nat (packet_aad_len input offset)) (packet_aad input offset)) c in
  MkPacket e r (packet_aad input offset) (packet_aad_len input offset) (packet_plaintext input offset)
    (packet_data_len input offset) (c ++ drop (length c) (zeros 96)) n t false.

Lemma packet_lens : 0 <= packet_aad_len input offset <= 32 /\ 0 <= packet_data_len input offset <= 96.
Proof.
  unfold packet_aad_len, packet_data_len, MAX_AAD, MAX_DATA.
  pose proof (Z.mod_pos_bound (bval (byte_at input (wrapping_add 64 offset 1))) (Z.of_nat 32 + 1) ltac:(lia)).
  pose proof (Z.mod_pos_bound (bval (byte_at input (wrapping_add 64 offset 3))) (Z.of_nat 96 + 1) ltac:(lia)). lia.
Qed.

Lemma packet_fits : zlen (take (Z.to_nat (packet_data_len input offset)) (packet_plaintext input offset)) =
  packet_data_len input offset /\ packet_data_len input offset <= CHACHA20_MAX_BYTES.
Proof.
  pose proof packet_lens as [_ Hd]. unfold zlen. rewrite length_take. unfold packet_plaintext, MAX_DATA.
  rewrite length_material. unfold CHACHA20_MAX_BYTES, u32_max. lia.
Qed.

Lemma length_sealed (key n : list byte) :
  length key = 64%nat -> length n = 12%nat ->
  length (stream (take 32 key) n (take (Z.to_nat (packet_data_len input offset)) (packet_plaintext input offset))) =
  Z.to_nat (packet_data_len input offset).
Proof.
  intros Hk Hn. pose proof packet_fits as [H1' H2']. rewrite length_stream; [|rewrite length_take; lia|done|lia].
  unfold zlen in H1'. lia.
Qed.

Lemma sealed_sized (r : Recipient) (e counter : Z) (key : list byte) :
  length key = 64%nat -> packet_sized (sealed_packet r e counter key).
Proof.
  intros Hk. pose proof packet_lens as [Ha Hd]. unfold sealed_packet. 
  pose proof (length_sealed key (Sess.nonce_of counter) Hk (Sess.length_nonce_of _)) as Hl.
  split_and!; cbn [aad aad_len plaintext data_len ciphertext nonce tag]; try lia; try apply length_material;
    [|apply Sess.length_nonce_of|apply length_tag_of].
  rewrite length_app, length_drop, length_zeros. lia.
Qed.

Definition tx_frame (si sr : Sess.SessionManager) (ct n t : list byte) : list (Z * cell) :=
  pair (session si) (session sr) ++
  [(tx_aad a, Bytes (packet_aad input offset)); (tx_plaintext a, Bytes (packet_plaintext input offset));
   (tx_ciphertext a, Bytes ct); (tx_nonce a, Bytes n); (tx_tag a, Bytes t)].

Lemma send_run (st : list (Z * Z)) (r : Recipient) (e : Z) (si sr : Sess.SessionManager) (key : list byte) (w : machine) :
  inside st (tx_frame si sr (zeros 96) (zeros 12) (zeros 48)) w -> quiet w -> let s := side r si sr in
  Sess.carries_traffic s -> Sess.tx_key s = Some key -> length key = 64%nat -> 0 <= Sess.tx_counter s < u64_max ->
  let p := sealed_packet (other r) e (Sess.tx_counter s) key in
  exists w', shawncore_crypto_session_manager_encrypt_packet (manager a r) (tx_aad a) (packet_aad_len input offset)
      (tx_plaintext a) (tx_ciphertext a) (packet_data_len input offset) (tx_nonce a) (tx_tag a) w = Done CSuccess w' /\
    quiet w' /\
    inside st (<[side_index r := (manager a r, session (Sess.set_tx_counter (Sess.tx_counter s + 1) s))]>
      (tx_frame si sr (ciphertext p) (nonce p) (tag p))) w'.
Proof.
  intros [Hf Hst] Hq s Ht Hkey Hk Hc p. pose proof packet_lens as [Ha Hd]. pose proof packet_fits as [Hz Hm].
  assert (L2 : length (packet_aad input offset) = 32%nat) by apply length_material.
  assert (L3 : length (packet_plaintext input offset) = 96%nat) by apply length_material.
  assert (Hadm : admissible_b (SessionEncrypt (manager a r) (tx_aad a) (packet_aad_len input offset) (tx_plaintext a)
    (tx_ciphertext a) (packet_data_len input offset) (tx_nonce a) (tx_tag a)) = true).
  { apply (frame_admissible _ _ _ [side_index r; 2; 3; 4; 5; 6]%nat Hf).
    2: destruct r; by apply (bool_decide_unpack _).
    cbn [operands]. apply Forall2_cons_2; [eexists; split; [apply side_lookup|done]|].
    repeat (apply Forall2_cons_2; [eexists; split; [reflexivity|]|]); [..|apply Forall2_nil_2];
      cbn [fits fst snd shape_of]; (split; [reflexivity|]); unfold zlen; rewrite ?L2, ?L3, ?length_zeros;
      try (split; [reflexivity|lia]); (eexists; split; [reflexivity|]); unfold MAX_SLICE_LEN; lia. }
  pose proof (frame_object _ _ _ KSession _ _ Hf (side_lookup r si sr _)) as Ho. fold s in Ho.
  pose proof (frame_buffer _ _ 2 _ (packet_aad_len input offset) (packet_aad input offset) Hf eq_refl
    ltac:(unfold zlen; rewrite L2; lia)) as B2.
  pose proof (frame_buffer _ _ 3 _ (packet_data_len input offset) (packet_plaintext input offset) Hf eq_refl
    ltac:(unfold zlen; rewrite L3; lia)) as B3.
  pose proof (frame_buffer _ _ 4 _ (packet_data_len input offset) (zeros 96) Hf eq_refl
    ltac:(unfold zlen; rewrite length_zeros; lia)) as B4.
  pose proof (frame_bytes _ _ 5 _ _ Hf eq_refl) as B5. rewrite length_zeros in B5.
  pose proof (frame_bytes _ _ 6 _ _ Hf eq_refl) as B6. rewrite length_zeros in B6.
  pose proof (Sess.encrypt_packet_run cache_callback_a key (take (Z.to_nat (packet_aad_len input offset)) (packet_aad input offset))
    (take (Z.to_nat (packet_data_len input offset)) (packet_plaintext input offset))
    (take (Z.to_nat (packet_data_len input offset)) (zeros 96)) (zeros 12) (zeros 48) (Sess.MkWorld s (platform w)) Hq Ht
    Hkey Hk Hc ltac:(rewrite !length_take, L3, length_zeros; done) ltac:(lia)) as E. cbv zeta in E. cbn [Sess.sm Sess.ch] in E.
  pose proof (seal_call _ _ _ _ _ _ _ _ _ _ _ _ _ _ _ _ _ _ _ w (proj1 Ha) (proj1 Hd) Hadm Ho B2 B3 B4 B5 B6 E) as R.
  eexists. split; [exact R|]. split; [exact Hq|]. split; [|done]. cbn [mem set_mem].
  pose proof (length_sealed key (Sess.nonce_of (Sess.tx_counter s)) Hk (Sess.length_nonce_of _)) as Lc.
  change (tag p) with (tag_of (drop 32 key) (Sess.nonce_of (Sess.tx_counter s))
    (take (Z.to_nat (packet_aad_len input offset)) (packet_aad input offset))
    (stream (take 32 key) (Sess.nonce_of (Sess.tx_counter s))
      (take (Z.to_nat (packet_data_len input offset)) (packet_plaintext input offset)))).
  set (t := tag_of _ _ _ _). pose proof (length_tag_of _ _ _ _ : length t = 48%nat) as Lt.
  change (nonce p) with (Sess.nonce_of (Sess.tx_counter s)). set (n := Sess.nonce_of (Sess.tx_counter s)) in *.
  pose proof (Sess.length_nonce_of _ : length n = 12%nat) as Ln. unfold p, sealed_packet. cbn [ciphertext].
  fold n. set (c := stream _ _ _) in *. clearbody t n c.
  match goal with |- context [session_back _ ?v w] =>
    destruct (session_frame st _ _ _ _ v w (conj Hf Hst) (side_lookup r si sr _)) as [F1 _] end.
  destruct r.
  all: pose proof (frame_put_bytes _ 4 _ c (zeros 96) _ F1 eq_refl ltac:(rewrite length_zeros; lia)) as F2.
  all: pose proof (frame_put_bytes _ 5 _ n (zeros 12) _ F2 eq_refl ltac:(rewrite length_zeros; lia)) as F3.
  all: pose proof (frame_put_bytes _ 6 _ t (zeros 48) _ F3 eq_refl ltac:(rewrite length_zeros; lia)) as F4.
  all: rewrite Lt, Ln, (drop_ge (zeros 48)), (drop_ge (zeros 12)), !app_nil_r in F4 by (by rewrite length_zeros).
  all: exact F4.
Qed.

Lemma transmit_run (r : Recipient) (e : Z) (si sr : Sess.SessionManager) (key : list byte) (w : machine) :
  at_rest (session si) (session sr) w -> quiet w -> let s := side (other r) si sr in
  Sess.carries_traffic s -> Sess.tx_key s = Some key -> length key = 64%nat -> 0 <= Sess.tx_counter s < u64_max ->
  exists w', transmit a r e input offset w = Done (sealed_packet r e (Sess.tx_counter s) key) w' /\ quiet w' /\
    with_side (other r) (Sess.set_tx_counter (Sess.tx_counter s + 1) s) si sr w'.
Proof.
  intros Hw Hq s Ht Hkey Hk Hc. pose proof packet_lens as [Ha Hd]. pose proof packet_fits as [Hz Hm].
  pose proof (enter _ _ tx_locals w Hw ltac:(do 2 right; left)) as I0. set (st := storage (mem w)) in *.
  assert (Hsz : forall (x : list byte) n, length x = n -> SBytes (Z.of_nat n) = SBytes (zlen x)) by (intros ? ? <-; done).
  destruct (copy_step _ _ 2 _ _ (packet_aad input offset) w I0 eq_refl (Hsz _ _ (length_material 32 _ _ _)))
    as (w1 & E1 & P1 & I1).
  destruct (copy_step _ _ 3 _ _ (packet_plaintext input offset) w1 I1 eq_refl (Hsz _ _ (length_material 96 _ _ _)))
    as (w2 & E2 & P2 & I2).
  destruct (copy_step _ _ 4 _ _ (zeros 96) w2 I2 eq_refl (Hsz _ _ (length_zeros 96))) as (w3 & E3 & P3 & I3).
  destruct (copy_step _ _ 5 _ _ (zeros 12) w3 I3 eq_refl (Hsz _ _ (length_zeros 12))) as (w4 & E4 & P4 & I4).
  destruct (copy_step _ _ 6 _ _ (zeros 48) w4 I4 eq_refl (Hsz _ _ (length_zeros 48))) as (w5 & E5 & P5 & I5).
  unfold transmit. rewrite (mbind_done _ _ _ _ _ E1), (mbind_done _ _ _ _ _ E2), (mbind_done _ _ _ _ _ E3),
    (mbind_done _ _ _ _ _ E4), (mbind_done _ _ _ _ _ E5).
  assert (Q5 : quiet w5) by (unfold quiet; by rewrite P5, P4, P3, P2, P1).
  destruct (send_run st (other r) e si sr key w5 I5 Q5 Ht Hkey Hk Hc) as (w6 & E6 & Q6 & I6). fold s in E6, I6.
  replace (other (other r)) with r in I6 by (by destruct r).
  erewrite (mbind_done (assert_success _)); [|unfold assert_success; by rewrite (mbind_done _ _ _ _ _ E6)].
  pose proof (sealed_sized r e (Sess.tx_counter s) key Hk) as (_ & _ & _ & _ & L5 & L6 & L7).
  set (p := sealed_packet r e (Sess.tx_counter s) key) in *.
  assert (B4 : bytes_at (tx_ciphertext a) 96 (mem w6) = Some (ciphertext p)).
  { rewrite <- L5. destruct r; exact (frame_bytes _ _ 4 _ _ (proj1 I6) eq_refl). }
  assert (B5 : bytes_at (tx_nonce a) 12 (mem w6) = Some (nonce p)).
  { rewrite <- L6. destruct r; exact (frame_bytes _ _ 5 _ _ (proj1 I6) eq_refl). }
  assert (B6 : bytes_at (tx_tag a) 48 (mem w6) = Some (tag p)).
  { rewrite <- L7. destruct r; exact (frame_bytes _ _ 6 _ _ (proj1 I6) eq_refl). }
  rewrite (mbind_done _ _ _ _ _ (array_run _ _ _ w6 B4)), (mbind_done _ _ _ _ _ (array_run _ _ _ w6 B5)),
    (mbind_done _ _ _ _ _ (array_run _ _ _ w6 B6)).
  exists w6. split; [done|]. split; [done|]. exact (side_updated _ _ si sr st _ w6 (ar_layout _ _ _ Hw) I6).
Qed.

End sealing.

End functions.

End ReplayRun.
