(* ===== verification/ReplayLoop.v ===== *)
(** The loop of session_replay_fuzz.rs: the invariant that ties the two sessions to the
    target's own record of packets, and what an input can make of it. *)

From stdpp Require Import gmap.
From S2P Require Import Prelude CMemory CryptoHost Primitives ToyCrypto Aead Kdf Session Handshake EntropyPool.
From S2P Require Import CryptoTypes CryptoFfi CryptoFfiArgs CryptoObjects CryptoFfiRun CryptoClient CryptoFrame.
From S2P Require Import ReplayFuzz ReplayRun.
Local Open Scope Z_scope.

Module ReplayLoop.
Import CFrame CryptoRun CryptoClient Replay ReplayRun.

Section loop.
Context `{CryptoLaws} `{CryptoLayout} `{!CryptoLayoutLaws} `{InterruptAnswers}.
Variable input : list byte.

(** * Keys and packets of a run *)

Definition offset_of (step : nat) : Z := cast 64 (Z.of_nat step * 23).

(** The key of the handshake at one step, and its half for packets to one side. *)
Definition epoch_key (e : nat) : list byte := shared_key input (offset_of e).
Definition key_to (r : Recipient) (k : list byte) : list byte :=
  match r with Initiator => Hs.outer_key k | Responder => Hs.inner_key k end.

(** The packet transmitted at step [t], the [n]-th in its direction, under the keys of
    the handshake at step [e]. *)
Definition honest (e t : nat) (r : Recipient) (n ep : Z) : Packet :=
  sealed_packet input (offset_of t) r ep n (key_to r (epoch_key e)).

(** Its tag is also the tag under the key of the other direction. *)
Definition collides (e t : nat) (r : Recipient) (n : nat) : bool :=
  let p := honest e t r (Z.of_nat n) 0 in
  bool_decide (tag p = tag_of (drop 32 (key_to (other r) (epoch_key e))) (nonce p)
    (take (Z.to_nat (aad_len p)) (aad p)) (take (Z.to_nat (data_len p)) (ciphertext p))).

(** One of the packets the input can lead to does. *)
Definition cross_collision : bool :=
  let steps := seq 0 (length (take MAX_OPERATIONS input)) in
  existsb (fun e => existsb (fun t => existsb (fun n =>
    collides e t Initiator n || collides e t Responder n) steps) steps) steps.

Lemma length_epoch_key (e : nat) : length (epoch_key e) = 128%nat.
Proof. apply length_session_material. Qed.

Lemma length_key_to (r : Recipient) (e : nat) : length (key_to r (epoch_key e)) = 64%nat.
Proof. destruct r; [apply Hs.length_outer_key|apply Hs.length_inner_key]; apply length_epoch_key. Qed.

Lemma collision_found (e t : nat) (r : Recipient) (n : nat) (count : nat) :
  count = length (take MAX_OPERATIONS input) -> (e < count)%nat -> (t < count)%nat -> (n < count)%nat ->
  collides e t r n = true -> cross_collision = true.
Proof.
  intros -> He Ht Hn Hc. unfold cross_collision.
  assert (Hin : forall i, (i < length (take MAX_OPERATIONS input))%nat -> In i (seq 0 (length (take MAX_OPERATIONS input)))).
  { intros i Hi. apply in_seq. lia. }
  apply existsb_exists. exists e. split; [by apply Hin|]. apply existsb_exists. exists t. split; [by apply Hin|].
  apply existsb_exists. exists n. split; [by apply Hin|]. apply orb_true_iff. destruct r; auto.
Qed.

(** * One side of an established pair *)

Record live (k : list byte) (r : Recipient) (s : Sess.SessionManager) (seen : list Z) : Prop := {
  lv_traffic : Sess.carries_traffic s;
  lv_tx : Sess.tx_key s = Some (key_to (other r) k);
  lv_rx : Sess.rx_key s = Some (key_to r k);
  lv_count : 0 <= Sess.tx_counter s;
  lv_window : Sess.window_repr s seen;
  lv_high : Sess.rx_counter s < 64
}.

Lemma live_fresh (k : list byte) :
  live k Initiator (Hs.established (Hs.inner_key k) (Hs.outer_key k)) [] /\
  live k Responder (Hs.established (Hs.outer_key k) (Hs.inner_key k)) [].
Proof. split; split; try done; apply Hs.established_window. Qed.

Lemma live_sent (k : list byte) (r : Recipient) (s : Sess.SessionManager) (seen : list Z) :
  live k r s seen -> live k r (Sess.set_tx_counter (Sess.tx_counter s + 1) s) seen.
Proof. intros [? ? ? ? [] ?]. split; try done; cbn; lia. Qed.

(** The arguments the target's packets give to the session. *)
Definition opening (p : Packet) : M Sess.world (result unit CryptoError * list byte) :=
  Sess.decrypt_packet (take (Z.to_nat (aad_len p)) (aad p)) (take (Z.to_nat (data_len p)) (ciphertext p)) (nonce p)
    (tag p) (zeros (Z.to_nat (data_len p))).

Lemma sized_opening (p : Packet) :
  packet_sized p -> length (zeros (Z.to_nat (data_len p))) = length (take (Z.to_nat (data_len p)) (ciphertext p)) /\
  zlen (take (Z.to_nat (data_len p)) (ciphertext p)) <= CHACHA20_MAX_BYTES.
Proof.
  intros (_ & _ & _ & L4 & L5 & _). unfold zlen. rewrite length_zeros, length_take, L5.
  unfold CHACHA20_MAX_BYTES, u32_max. lia.
Qed.

(** A packet is only opened when it is new and bears the tag of this direction's key. *)
Lemma opened_means (cb : CFnPtr) (e : nat) (r : Recipient) (s : Sess.SessionManager) (seen : list Z) (p : Packet)
    (pt : list byte) (v : Sess.world) (h : CHost) :
  live (epoch_key e) r s seen -> packet_sized p -> c_cache_flush h = Some cb ->
  opening p (Sess.MkWorld s h) = Done (Ok tt, pt) v ->
  Sess.well_formed_nonce (nonce p) /\ Sess.fresh (Sess.rx_counter s) seen (Sess.sequence_of (nonce p)) /\
  tag p = tag_of (drop 32 (key_to r (epoch_key e))) (nonce p) (take (Z.to_nat (aad_len p)) (aad p))
    (take (Z.to_nat (data_len p)) (ciphertext p)).
Proof.
  intros [Ht _ Hrx _ Hw _] Hp Hcb E. destruct (sized_opening p Hp) as [Hl Hm]. destruct Hp as (_ & _ & _ & _ & _ & L6 & _).
  destruct (Sess.decrypt_packet_frame cb (take (Z.to_nat (aad_len p)) (aad p))
    (take (Z.to_nat (data_len p)) (ciphertext p)) (nonce p) (tag p) (zeros (Z.to_nat (data_len p))) (Sess.MkWorld s h) seen
    Hcb Hw L6) as (r' & pt' & w' & E' & _ & Hy & _).
  unfold opening in E. rewrite E in E'. injection E' as <- <- <-. destruct (Hy eq_refl) as (Hwf & Hf & _).
  split; [done|]. split; [done|].
  pose proof (Sess.decrypt_packet_run cb _ (take (Z.to_nat (aad_len p)) (aad p)) _ _ (tag p) _ (Sess.MkWorld s h) seen Hcb
    Ht Hrx (length_key_to r e) Hw Hwf Hf Hl Hm) as Hd.
  case_decide as Ed; [exact Ed|]. rewrite E in Hd. done.
Qed.

(** The packet of the other side opens, once. *)
Lemma opening_honest (cb : CFnPtr) (e t : nat) (r : Recipient) (n ep : Z) (s : Sess.SessionManager) (seen : list Z)
    (h : CHost) :
  live (epoch_key e) r s seen -> c_cache_flush h = Some cb -> 0 <= n < 64 -> n ∉ seen ->
  let p := honest e t r n ep in
  exists s' h', opening p (Sess.MkWorld s h) = Done (Ok tt, take (Z.to_nat (data_len p)) (plaintext p)) (Sess.MkWorld s' h') /\
    c_cache_flush h' = Some cb /\ live (epoch_key e) r s' (n :: seen) /\ Sess.tx_counter s' = Sess.tx_counter s.
Proof.
  intros Hlive Hcb Hn Hni p. pose proof (sealed_sized input (offset_of t) r ep n _ (length_key_to r e)) as Hp.
  fold (honest e t r n ep) p in Hp. destruct (sized_opening p Hp) as [Hl Hm].
  pose proof Hlive as [Ht Htx Hrx Hc Hw Hh].
  set (key := key_to r (epoch_key e)) in *. pose proof (length_key_to r e : length key = 64%nat) as Hk.
  assert (Hq : Sess.sequence_of (nonce p) = n) by (apply Sess.sequence_nonce_of; unfold in_width; lia).
  assert (Hct : take (Z.to_nat (data_len p)) (ciphertext p) = stream (take 32 key) (nonce p)
    (take (Z.to_nat (data_len p)) (plaintext p))).
  { unfold p, honest, sealed_packet. cbn [ciphertext data_len nonce plaintext]. apply take_app_length'.
    symmetry. apply (length_sealed input (offset_of t) key); [done|apply Sess.length_nonce_of]. }
  assert (Hfr : Sess.fresh (Sess.rx_counter s) seen (Sess.sequence_of (nonce p))).
  { rewrite Hq. right. split; [lia|done]. }
  pose proof (Sess.decrypt_packet_run cb key (take (Z.to_nat (aad_len p)) (aad p)) _ _ (tag p) _ (Sess.MkWorld s h) seen Hcb
    Ht Hrx Hk Hw (Sess.well_formed_nonce_of n) Hfr Hl Hm) as Hd.
  rewrite decide_True in Hd by (rewrite Hct; reflexivity).
  destruct Hd as (s' & Hd & Hrep & Hsame & Hmax). change (Sess.nonce_of n) with (nonce p) in *.
  assert (Hst : stream (take 32 key) (nonce p) (take (Z.to_nat (data_len p)) (ciphertext p)) =
    take (Z.to_nat (data_len p)) (plaintext p)).
  { rewrite Hct. destruct (packet_fits input (offset_of t)) as [Hz Hb]. apply stream_stream.
    - rewrite length_take. lia.
    - apply Sess.length_nonce_of.
    - etrans; [|exact Hb]. by apply Z.eq_le_incl. }
  rewrite Hst in Hd. rewrite Hq in Hrep. eexists s', _. split; [exact Hd|]. split; [exact Hcb|].
  cbn [Sess.sm] in Hmax, Hsame. rewrite Hq in Hmax.
  split; [|by rewrite Hsame]. split; try (rewrite Hsame; done); [done|lia].
Qed.

(** * What the target knows *)

Variable cache_callback_a : CFnPtr.
Variable a : addresses.

Abbreviation at_rest si sr := (at_rest a (session si) (session sr)).
Abbreviation quiet := (quiet cache_callback_a).

Definition flagged (b : bool) (p : Packet) : Packet := if b then set_delivered p else p.

(** A recorded packet is one that was sent in this epoch, and its flag says whether
    the recipient has accepted its number. *)
Definition tied (e i : nat) (ep : Z) (si sr : Sess.SessionManager) (seen : Recipient -> list Z) (p : Packet) : Prop :=
  exists t n, (t < i)%nat /\ 0 <= n < Sess.tx_counter (side (other (recipient p)) si sr) /\
    p = flagged (delivered p) (honest e t (recipient p) n ep) /\ (delivered p = true <-> n ∈ seen (recipient p)).

Record ties (e i : nat) (ep : Z) (ps : list Packet) (si sr : Sess.SessionManager) (seen : Recipient -> list Z) : Prop := {
  t_epoch : (e < i)%nat;
  t_live : forall r, live (epoch_key e) r (side r si sr) (seen r);
  t_count : forall r, Sess.tx_counter (side r si sr) <= Z.of_nat i;
  t_seen : forall r, Forall (fun q => q < Sess.tx_counter (side (other r) si sr)) (seen r);
  t_packets : Forall (tied e i ep si sr seen) ps;
  t_distinct : NoDup ((fun p => (recipient p, nonce p)) <$> ps)
}.

Definition loop_inv (i : nat) (l : loop) (si sr : Sess.SessionManager) : Prop :=
  if established l then exists e seen, ties e i (current_epoch l) (packets l) si sr seen
  else si = Sess.new /\ sr = Sess.new /\ Forall packet_sized (packets l).

Definition good (i : nat) (l : loop) (w : machine) : Prop :=
  exists si sr, at_rest si sr w /\ quiet w /\ loop_inv i l si sr.

(** ** Packets that are refused *)

Lemma refused (si sr : Sess.SessionManager) (p : Packet) (seen : list Z) (w : machine) :
  at_rest si sr w -> quiet w -> packet_sized p -> Sess.window_repr (side (recipient p) si sr) seen ->
  (forall pt v, opening p (Sess.MkWorld (side (recipient p) si sr) (platform w)) <> Done (Ok tt, pt) v) ->
  exists c w', decrypt a p w = Done c w' /\ c <> CSuccess /\ quiet w' /\ at_rest si sr w'.
Proof.
  intros Hw Hq Hp Hrep Hno. pose proof Hp as (_ & _ & _ & _ & _ & L6 & _).
  destruct (Sess.decrypt_packet_frame cache_callback_a (take (Z.to_nat (aad_len p)) (aad p))
    (take (Z.to_nat (data_len p)) (ciphertext p)) (nonce p) (tag p) (zeros (Z.to_nat (data_len p)))
    (Sess.MkWorld (side (recipient p) si sr) (platform w)) seen Hq Hrep L6) as (r & pt & v & E & Hc & _ & Hn).
  pose proof (answers_done _ _ _ _ _ (answers_open _ _ _ _ _) E) as Hl. cbn in Hl. rewrite length_zeros in Hl.
  destruct (replay_decrypt_run a si sr p r pt v w Hw Hp Hl E) as (w' & Ed & Pv & Hside).
  destruct r as [[]|err]; [by destruct (Hno pt v)|]. eexists _, w'. split; [exact Ed|].
  split; [by destruct err|]. split; [unfold ReplayRun.quiet; by rewrite Pv|].
  rewrite (Hn ltac:(done)) in Hside. by destruct (recipient p).
Qed.

Lemma refused_new (p : Packet) (w : machine) :
  at_rest Sess.new Sess.new w -> quiet w -> packet_sized p ->
  exists c w', decrypt a p w = Done c w' /\ c <> CSuccess /\ quiet w' /\ at_rest Sess.new Sess.new w'.
Proof.
  intros Hw Hq Hp. apply (refused _ _ p []); [done|done|done|destruct (recipient p); apply Sess.window_new|].
  intros pt v E. assert (Hs : side (recipient p) Sess.new Sess.new = Sess.new) by (by destruct (recipient p)).
  rewrite Hs in E. unfold opening in E.
  by rewrite (proj2 (Sess.session_refuses_unready (Sess.MkWorld Sess.new (platform w)) (or_introl eq_refl))) in E.
Qed.

Lemma tied_honest (e i : nat) (ep : Z) (si sr : Sess.SessionManager) (seen : Recipient -> list Z) (p : Packet) :
  tied e i ep si sr seen p -> packet_sized p /\ epoch p = ep.
Proof.
  intros (t & n & _ & _ & E & _). pose proof (sealed_sized input (offset_of t) (recipient p) ep n _ (length_key_to (recipient p) e)) as Hs.
  rewrite E. unfold flagged. by case_match.
Qed.

(** ** The packet that is accepted *)

Lemma with_side_split (r : Recipient) (s si sr : Sess.SessionManager) (w : machine) :
  with_side a r s si sr w ->
  exists si' sr', at_rest si' sr' w /\ forall r', side r' si' sr' = if decide (r' = r) then s else side r' si sr.
Proof.
  destruct r; cbn [with_side]; intros Hw; eexists _, _; (split; [exact Hw|]); intros []; cbn; by case_decide.
Qed.

(** The numbers each side has accepted, with one more. *)
Definition also (r : Recipient) (n : Z) (seen : Recipient -> list Z) : Recipient -> list Z :=
  fun r' => if decide (r' = r) then n :: seen r' else seen r'.

Lemma tied_number (e i : nat) (ep : Z) (si sr : Sess.SessionManager) (seen : Recipient -> list Z) (p : Packet) :
  (i <= 48)%nat -> (forall r, Sess.tx_counter (side r si sr) <= Z.of_nat i) -> tied e i ep si sr seen p ->
  let n := Sess.sequence_of (nonce p) in
  nonce p = Sess.nonce_of n /\ 0 <= n < 48 /\ n < Sess.tx_counter (side (other (recipient p)) si sr) /\
  (delivered p = true <-> n ∈ seen (recipient p)) /\
  exists t, (t < i)%nat /\ p = flagged (delivered p) (honest e t (recipient p) n ep).
Proof.
  intros Hi Hc (t & m & Ht & Hm & E & Hd) n. specialize (Hc (other (recipient p))).
  assert (Hn : nonce p = Sess.nonce_of m) by (rewrite E; unfold flagged; by case_match).
  assert (Hnm : n = m) by (unfold n; rewrite Hn; apply Sess.sequence_nonce_of; unfold in_width; lia).
  rewrite Hnm. split_and!; try done; try lia. by exists t.
Qed.

Lemma marked_keys (idx : nat) (ps : list Packet) :
  (fun p => (recipient p, nonce p)) <$> alter set_delivered idx ps = (fun p => (recipient p, nonce p)) <$> ps.
Proof. revert idx. induction ps as [|p ps IH]; intros [|idx]; cbn; [done..|]. by rewrite IH. Qed.

Lemma ties_accept (e i : nat) (ep : Z) (ps : list Packet) (si sr si' sr' s' : Sess.SessionManager)
    (seen : Recipient -> list Z) (idx : nat) (p : Packet) :
  let r := recipient p in let n := Sess.sequence_of (nonce p) in
  (i <= 48)%nat -> ties e i ep ps si sr seen -> ps !! idx = Some p ->
  (forall r', side r' si' sr' = if decide (r' = r) then s' else side r' si sr) ->
  live (epoch_key e) r s' (n :: seen r) -> Sess.tx_counter s' = Sess.tx_counter (side r si sr) ->
  ties e i ep (alter set_delivered idx ps) si' sr' (also r n seen).
Proof.
  intros r n Hi [He Hlive Hcount Hseen Hps Hd] Hidx Hside Hs Htx.
  assert (Htx' : forall r', Sess.tx_counter (side r' si' sr') = Sess.tx_counter (side r' si sr)).
  { intros r'. rewrite Hside. by case_decide as E; [rewrite E|]. }
  pose proof (tied_number e i ep si sr seen p Hi Hcount (Forall_lookup_1 _ _ _ _ Hps Hidx)) as (En & Hn & Hlt & _ & t & Ht & Ep).
  fold r n in En, Hn, Hlt, Ep. split.
  - done.
  - intros r'. rewrite Hside. unfold also. case_decide as E; [by rewrite E|apply Hlive].
  - intros r'. by rewrite Htx'.
  - intros r'. unfold also. rewrite Htx'. case_decide as E; [rewrite E; constructor; [done|]|]; apply Hseen.
  - apply Forall_lookup_2. intros j q Hj. rewrite list_lookup_alter in Hj.
    destruct (decide (j = idx)) as [->|Hne].
    + rewrite decide_True, Hidx in Hj by done. injection Hj as <-. exists t, n. cbn [recipient delivered set_delivered].
      fold r. rewrite Htx'. split_and!; [done|lia|done| |].
      * rewrite Ep at 1. unfold flagged. by destruct (delivered p).
      * unfold also. rewrite decide_True by done. split; [intros _; by left|done].
    + rewrite decide_False in Hj by done.
      destruct (tied_number e i ep si sr seen q Hi Hcount (Forall_lookup_1 _ _ _ _ Hps Hj)) as (Eq & Hm & Hmlt & Hdel & t' & Ht' & Eqq).
      exists t', (Sess.sequence_of (nonce q)). rewrite Htx'. split_and!; [done|lia|done|done|].
      rewrite Hdel. unfold also. case_decide as E; [|done]. rewrite elem_of_cons. split; [by right|].
      intros [Hsame|]; [|done]. destruct Hne.
      eapply (NoDup_lookup _ j idx (recipient q, nonce q) Hd); rewrite list_lookup_fmap; [by rewrite Hj|].
      rewrite Hidx. cbn. rewrite En, Eq, Hsame, E. done.
  - by rewrite marked_keys.
Qed.

Lemma accepted (e i : nat) (ep : Z) (ps : list Packet) (si sr : Sess.SessionManager) (seen : Recipient -> list Z)
    (idx : nat) (p : Packet) (w : machine) :
  (i <= 48)%nat -> at_rest si sr w -> quiet w -> ties e i ep ps si sr seen -> ps !! idx = Some p -> delivered p = false ->
  exists w' si' sr', decrypt a p w = Done CSuccess w' /\ quiet w' /\ at_rest si' sr' w' /\
    ties e i ep (alter set_delivered idx ps) si' sr' (also (recipient p) (Sess.sequence_of (nonce p)) seen).
Proof.
  intros Hi Hw Hq Ht Hidx Hdel. pose proof (Forall_lookup_1 _ _ _ _ (t_packets _ _ _ _ _ _ _ Ht) Hidx) as Hp.
  pose proof (proj1 (tied_honest _ _ _ _ _ _ _ Hp)) as Hsz. pose proof (proj1 (proj2 (proj2 (proj2 Hsz)))) as L4.
  destruct (tied_number e i ep si sr seen p Hi (t_count _ _ _ _ _ _ _ Ht) Hp) as (En & Hn & Hlt & Hd & t & Htt & Ep).
  rewrite Hdel in Ep, Hd. cbn [flagged] in Ep.
  assert (Hni : Sess.sequence_of (nonce p) ∉ seen (recipient p)) by (intros Hin; by apply Hd in Hin).
  destruct (opening_honest cache_callback_a e t (recipient p) (Sess.sequence_of (nonce p)) ep _ _ (platform w)
    (t_live _ _ _ _ _ _ _ Ht (recipient p)) Hq ltac:(lia) Hni) as (s' & h' & E & Hh & Hlive & Htx).
  rewrite <- Ep in E.
  assert (Hl : length (take (Z.to_nat (data_len p)) (plaintext p)) = Z.to_nat (data_len p)).
  { destruct Hsz as (_ & _ & L3 & _). rewrite length_take, L3. lia. }
  destruct (replay_decrypt_run a si sr p _ _ _ w Hw Hsz Hl E) as (w' & Ed & Pv & Hside).
  rewrite bool_decide_true in Ed by done. destruct (with_side_split _ _ _ _ _ Hside) as (si' & sr' & Hw' & Hs').
  exists w', si', sr'. split; [exact Ed|]. split; [unfold ReplayRun.quiet; by rewrite Pv|]. split; [done|].
  by eapply ties_accept.
Qed.

(** ** The packets that are not *)

Lemma stale_refused (e : nat) (si sr : Sess.SessionManager) (seen : list Z) (p : Packet) (w : machine) :
  at_rest si sr w -> quiet w -> live (epoch_key e) (recipient p) (side (recipient p) si sr) seen -> packet_sized p ->
  Sess.sequence_of (nonce p) ∈ seen ->
  exists c w', decrypt a p w = Done c w' /\ c <> CSuccess /\ quiet w' /\ at_rest si sr w'.
Proof.
  intros Hw Hq Hl Hp Hin. apply (refused si sr p seen); [done|done|done|exact (lv_window _ _ _ _ Hl)|].
  intros pt v E. destruct (opened_means _ e _ _ _ p pt v _ Hl Hp Hq E) as (_ & Hf & _).
  exact (Sess.seen_not_fresh _ _ _ (lv_window _ _ _ _ Hl) Hin Hf).
Qed.

Lemma honest_tag (e i : nat) (ep : Z) (si sr : Sess.SessionManager) (seen : Recipient -> list Z) (p : Packet) :
  tied e i ep si sr seen p ->
  tag p = tag_of (drop 32 (key_to (recipient p) (epoch_key e))) (nonce p) (take (Z.to_nat (aad_len p)) (aad p))
    (take (Z.to_nat (data_len p)) (ciphertext p)).
Proof.
  intros (t & n & _ & _ & E & _).
  assert (G : forall q, q = honest e t (recipient p) n ep ->
    tag q = tag_of (drop 32 (key_to (recipient p) (epoch_key e))) (nonce q) (take (Z.to_nat (aad_len q)) (aad q))
      (take (Z.to_nat (data_len q)) (ciphertext q))).
  { intros q ->. unfold honest, sealed_packet. cbn [tag nonce aad_len aad data_len ciphertext]. f_equal. symmetry.
    apply take_app_length'. symmetry. apply length_sealed; [apply length_key_to|apply Sess.length_nonce_of]. }
  rewrite E. unfold flagged. case_match; cbn [set_delivered tag nonce aad_len aad data_len ciphertext recipient]; by apply G.
Qed.

Lemma flipped_tag (t : list byte) : length t = 48%nat -> alter (fun b => byte_of_Z (Z.lxor (bval b) 1)) 0%nat t <> t.
Proof.
  destruct t as [|b t]; [done|]. intros _ E. cbn in E. injection E as Eb.
  apply (f_equal bval) in Eb. rewrite bval_of_Z in Eb. pose proof (bval_range b) as Hb.
  pose proof (lxor_width 8 (bval b) 1 ltac:(lia) Hb ltac:(done)) as Hx. unfold in_width in Hx.
  rewrite Z.mod_small in Eb by (change 256 with (2 ^ 8); done).
  apply (f_equal (fun z => Z.lxor z (bval b))) in Eb.
  by rewrite Z.lxor_nilpotent, (Z.lxor_comm (bval b)), Z.lxor_assoc, Z.lxor_nilpotent in Eb.
Qed.

Lemma corrupted_sized (op : Z) (p : Packet) : packet_sized p -> packet_sized (corrupted op p).
Proof.
  unfold packet_sized, corrupted, set_tag, set_nonce.
  case_match; cbn [aad aad_len plaintext data_len ciphertext nonce tag]; by rewrite ?length_alter, ?length_insert.
Qed.

Lemma corrupted_refused (e i : nat) (ep op : Z) (si sr : Sess.SessionManager) (seen : Recipient -> list Z) (p : Packet)
    (w : machine) :
  at_rest si sr w -> quiet w -> live (epoch_key e) (recipient p) (side (recipient p) si sr) (seen (recipient p)) ->
  tied e i ep si sr seen p ->
  exists c w', decrypt a (corrupted op p) w = Done c w' /\ c <> CSuccess /\ quiet w' /\ at_rest si sr w'.
Proof.
  intros Hw Hq Hl Ht. pose proof (proj1 (tied_honest _ _ _ _ _ _ _ Ht)) as Hp.
  pose proof (corrupted_sized op p Hp) as Hc. pose proof Hp as (_ & _ & _ & _ & _ & L6 & L7).
  assert (Hr : recipient (corrupted op p) = recipient p) by (unfold corrupted; by case_match).
  apply (refused si sr _ (seen (recipient p))); [done|done|done|rewrite Hr; exact (lv_window _ _ _ _ Hl)|].
  rewrite Hr. intros pt v E. destruct (opened_means _ e _ _ _ _ pt v _ Hl Hc Hq E) as (Hwf & _ & Htag).
  unfold corrupted in Hwf, Htag. case_match.
  - cbn [set_tag tag nonce aad_len aad data_len ciphertext] in Htag. rewrite <- (honest_tag _ _ _ _ _ _ _ Ht) in Htag.
    by apply flipped_tag in Htag.
  - destruct Hwf as [_ Hz]. cbn [set_nonce nonce] in Hz.
    assert (Hx : drop 8 (<[8%nat := x01]> (nonce p)) !! 0%nat = Some x01).
    { rewrite lookup_drop. apply list_lookup_insert_eq. lia. }
    rewrite Hz in Hx. done.
Qed.

(** * Runs that fail for one reason only *)

Definition runs {A} (m : M machine A) (w : machine) (Q : A -> machine -> Prop) : Prop :=
  match m w with
  | Done x w' => Q x w'
  | Halted _ => cross_collision = true
  | Undefined => False
  end.

Lemma runs_done {A} (m : M machine A) (w w' : machine) (x : A) (Q : A -> machine -> Prop) :
  m w = Done x w' -> Q x w' -> runs m w Q.
Proof. intros E HQ. unfold runs. by rewrite E. Qed.

Lemma runs_bind {A B} (m : M machine A) (f : A -> M machine B) (w : machine) (P : A -> machine -> Prop)
    (Q : B -> machine -> Prop) :
  runs m w P -> (forall x w', P x w' -> runs (f x) w' Q) -> runs (m ≫= f) w Q.
Proof.
  unfold runs. unfold mbind, M_bind. destruct (m w) as [x w'|w'|]; [|done|done]. intros HP Hf. by apply Hf.
Qed.

Lemma runs_refused (p : Packet) (w : machine) (Q : unit -> machine -> Prop) :
  (exists c w', decrypt a p w = Done c w' /\ c <> CSuccess /\ Q tt w') -> runs (assert_refused (decrypt a p)) w Q.
Proof.
  intros (c & w' & E & Hc & HQ). apply (runs_done _ _ w' tt); [|done]. unfold assert_refused.
  rewrite (mbind_done _ _ _ _ _ E). by rewrite bool_decide_true.
Qed.

(** The epoch and the flag are the target's own. *)
Lemma flagged_fields (b : bool) (e t : nat) (r : Recipient) (n ep : Z) (p : Packet) :
  p = flagged b (honest e t r n ep) -> let q := honest e t r n 0 in
  tag p = tag q /\ nonce p = nonce q /\ aad_len p = aad_len q /\ aad p = aad q /\ data_len p = data_len q /\
  ciphertext p = ciphertext q.
Proof. intros ->. by destruct b. Qed.

(** Given to the side that sent it, a packet is refused unless its tag collides. *)
Lemma wrong_direction (e i : nat) (ep : Z) (si sr : Sess.SessionManager) (seen : Recipient -> list Z) (p : Packet)
    (ps : list Packet) (w : machine) :
  (i <= length (take MAX_OPERATIONS input))%nat ->
  at_rest si sr w -> quiet w -> ties e i ep ps si sr seen -> p ∈ ps ->
  runs (assert_refused (decrypt a (set_recipient (other (recipient p)) p))) w (fun _ w' => quiet w' /\ at_rest si sr w').
Proof.
  intros Hi Hw Hq Ht Hin. set (q := set_recipient _ p).
  pose proof (proj1 (Forall_forall _ _) (t_packets _ _ _ _ _ _ _ Ht) p Hin) as Hp.
  pose proof (proj1 (tied_honest _ _ _ _ _ _ _ Hp)) as Hs. assert (Hsq : packet_sized q) by exact Hs.
  pose proof (t_live _ _ _ _ _ _ _ Ht (other (recipient p))) as Hl.
  destruct (opening q (Sess.MkWorld (side (recipient q) si sr) (platform w))) as [[[[]|err] pt] v|v|] eqn:E.
  2-4: apply runs_refused; apply (refused si sr q (seen (recipient q))); try done;
    [exact (lv_window _ _ _ _ Hl)|intros; rewrite E; done].
  destruct (opened_means _ e _ _ _ q pt v _ Hl Hsq Hq E) as (_ & _ & Htag).
  assert (Hbad : cross_collision = true).
  { destruct (tied_number e i ep si sr seen p) as (_ & Hn & Hlt & _ & t & Htt & Ep); [|apply (t_count _ _ _ _ _ _ _ Ht)|done|].
    { unfold MAX_OPERATIONS in Hi. rewrite length_take in Hi. lia. }
    pose proof (t_count _ _ _ _ _ _ _ Ht (other (recipient p))) as Hc. pose proof (t_epoch _ _ _ _ _ _ _ Ht) as He.
    apply (collision_found e t (recipient p) (Z.to_nat (Sess.sequence_of (nonce p))) _ eq_refl); [lia|lia|lia|].
    unfold collides. rewrite Z2Nat.id by lia. apply bool_decide_eq_true.
    destruct (flagged_fields _ _ _ _ _ _ p Ep) as (<- & <- & <- & <- & <- & <-). exact Htag. }
  pose proof (answers_done _ _ _ _ _ (answers_open _ _ _ _ _) E) as Hlen. cbn in Hlen. rewrite length_zeros in Hlen.
  destruct (replay_decrypt_run a si sr q _ pt v w Hw Hsq Hlen E) as (w' & Ed & _). unfold runs, assert_refused.
  unfold mbind, M_bind. rewrite Ed. by case_bool_decide.
Qed.

(** * The arms of the loop *)

Abbreviation total := (length (take MAX_OPERATIONS input)).

Lemma total_small : (total <= 48)%nat.
Proof. rewrite length_take. unfold MAX_OPERATIONS. lia. Qed.

Lemma ties_later (e i : nat) (ep : Z) (ps : list Packet) (si sr : Sess.SessionManager) (seen : Recipient -> list Z) :
  ties e i ep ps si sr seen -> ties e (S i) ep ps si sr seen.
Proof.
  intros [He Hl Hc Hs Hp Hd]. split; [lia|done|intros r; specialize (Hc r); lia|done| |done].
  eapply Forall_impl; [exact Hp|]. intros p (t & n & Ht & Hrest). exists t, n. split; [lia|done].
Qed.

Lemma good_later (i : nat) (l : loop) (w : machine) : good i l w -> good (S i) l w.
Proof.
  intros (si & sr & Hw & Hq & Hi). exists si, sr. split; [done|]. split; [done|]. unfold loop_inv in *.
  destruct (established l); [|done]. destruct Hi as (e & seen & Ht). exists e, seen. by apply ties_later.
Qed.

(** A recorded packet is expected to open exactly when its session lives and it was not
    delivered yet. *)
Lemma expectation (i : nat) (l : loop) (si sr : Sess.SessionManager) (p : Packet) :
  loop_inv i l si sr -> p ∈ packets l -> should_succeed l p = established l && negb (delivered p).
Proof.
  unfold loop_inv, should_succeed. destruct (established l); [|done]. intros (e & seen & Ht) Hin.
  pose proof (proj1 (Forall_forall _ _) (t_packets _ _ _ _ _ _ _ Ht) p Hin) as Hp.
  by rewrite (proj2 (tied_honest _ _ _ _ _ _ _ Hp)), Z.eqb_refl.
Qed.

(** Delivery of a packet that is due. *)
Lemma due_packet (i : nat) (l : loop) (si sr : Sess.SessionManager) (idx : nat) (p : Packet) (w : machine) :
  (i <= 48)%nat -> at_rest si sr w -> quiet w -> loop_inv i l si sr -> packets l !! idx = Some p ->
  should_succeed l p = true ->
  exists w' si' sr', decrypt a p w = Done CSuccess w' /\ quiet w' /\ at_rest si' sr' w' /\ loop_inv i (mark idx l) si' sr' /\
    exists c w'', decrypt a p w' = Done c w'' /\ c <> CSuccess /\ quiet w'' /\ at_rest si' sr' w''.
Proof.
  intros Hi Hw Hq Hinv Hidx Hs. rewrite (expectation i l si sr p Hinv) in Hs by (by eapply list_elem_of_lookup_2).
  apply andb_true_iff in Hs as [He Hd]. apply negb_true_iff in Hd. unfold loop_inv in *. rewrite He in Hinv.
  destruct Hinv as (e & seen & Ht).
  destruct (accepted e i _ _ si sr seen idx p w Hi Hw Hq Ht Hidx Hd) as (w' & si' & sr' & E & Hq' & Hw' & Ht').
  exists w', si', sr'. split_and!; [done|done|done| |].
  - cbn [established mark set_packets]. rewrite He. by eexists e, _.
  - pose proof (Forall_lookup_1 _ _ _ _ (t_packets _ _ _ _ _ _ _ Ht) Hidx) as Hp.
    apply (stale_refused e si' sr' _ p w' Hw' Hq' (t_live _ _ _ _ _ _ _ Ht' (recipient p))).
    + exact (proj1 (tied_honest _ _ _ _ _ _ _ Hp)).
    + unfold also. rewrite decide_True by done. by left.
Qed.

Lemma deliver_runs (i : nat) (l : loop) (idx : nat) (p : Packet) (w : machine) :
  (i < total)%nat -> good i l w -> packets l !! idx = Some p -> runs (deliver a idx p l) w (good (S i)).
Proof.
  intros Hi (si & sr & Hw & Hq & Hinv) Hidx. pose proof total_small as Hm. unfold deliver.
  destruct (should_succeed l p) eqn:Hs.
  - destruct (due_packet i l si sr idx p w ltac:(lia) Hw Hq Hinv Hidx Hs) as (w' & si' & sr' & E & Hq' & Hw' & Hinv' & _).
    eapply runs_done; [rewrite (mbind_done _ _ _ _ _ E); reflexivity|]. apply good_later. by exists si', sr'.
  - assert (exists c w', decrypt a p w = Done c w' /\ c <> CSuccess /\ quiet w' /\ at_rest si sr w') as (c & w' & E & Hc & Hq' & Hw').
    { pose proof (expectation i l si sr p Hinv ltac:(by eapply list_elem_of_lookup_2)) as Hx. rewrite Hs in Hx.
      unfold loop_inv in Hinv. destruct (established l); cbn in Hx.
      - destruct Hinv as (e & seen & Ht). pose proof (Forall_lookup_1 _ _ _ _ (t_packets _ _ _ _ _ _ _ Ht) Hidx) as Hp.
        apply (stale_refused e si sr _ p w Hw Hq (t_live _ _ _ _ _ _ _ Ht (recipient p)) (proj1 (tied_honest _ _ _ _ _ _ _ Hp))).
        apply (tied_number e i _ si sr seen p ltac:(lia) (t_count _ _ _ _ _ _ _ Ht) Hp). by destruct (delivered p).
      - destruct Hinv as (-> & -> & Hps). exact (refused_new p w Hw Hq (Forall_lookup_1 _ _ _ _ Hps Hidx)). }
    eapply runs_done; [rewrite (mbind_done _ _ _ _ _ E), bool_decide_true by done; reflexivity|].
    apply good_later. by exists si, sr.
Qed.

Lemma deliver_twice_runs (i : nat) (l : loop) (idx : nat) (p : Packet) (w : machine) :
  (i < total)%nat -> good i l w -> packets l !! idx = Some p -> runs (deliver_twice a idx p l) w (good (S i)).
Proof.
  intros Hi Hg Hidx. pose proof total_small as Hm. unfold deliver_twice.
  destruct (should_succeed l p) eqn:Hs; [|eapply runs_done; [reflexivity|by apply good_later]].
  destruct Hg as (si & sr & Hw & Hq & Hinv).
  destruct (due_packet i l si sr idx p w ltac:(lia) Hw Hq Hinv Hidx Hs)
    as (w' & si' & sr' & E & Hq' & Hw' & Hinv' & c & w'' & E2 & Hc & Hq2 & Hw2).
  eapply runs_done; [|apply good_later; by exists si', sr'].
  erewrite (mbind_done (assert_success _)); [|unfold assert_success; by rewrite (mbind_done _ _ _ _ _ E)].
  erewrite (mbind_done (assert_refused _)); [reflexivity|].
  unfold assert_refused. rewrite (mbind_done _ _ _ _ _ E2). by rewrite bool_decide_true.
Qed.

(** Another packet first, which is refused and changes nothing. *)
Lemma deliver_after_runs (i : nat) (l : loop) (invalid : Packet) (idx : nat) (p : Packet) (w : machine) :
  (i < total)%nat -> good i l w -> packets l !! idx = Some p ->
  (forall e si sr seen w0, established l = true -> at_rest si sr w0 -> quiet w0 ->
     ties e i (current_epoch l) (packets l) si sr seen ->
     runs (assert_refused (decrypt a invalid)) w0 (fun _ w' => quiet w' /\ at_rest si sr w')) ->
  runs (deliver_after a invalid idx p l) w (good (S i)).
Proof.
  intros Hi Hg Hidx Hbad. pose proof total_small as Hm. unfold deliver_after.
  destruct (should_succeed l p) eqn:Hs; [|eapply runs_done; [reflexivity|by apply good_later]].
  destruct Hg as (si & sr & Hw & Hq & Hinv). pose proof Hinv as Hi2. unfold loop_inv in Hi2.
  assert (He : established l = true) by (unfold should_succeed in Hs; by destruct (established l)).
  rewrite He in Hi2. destruct Hi2 as (e & seen & Ht).
  eapply runs_bind; [exact (Hbad e si sr seen w He Hw Hq Ht)|]. intros [] w1 [Hq1 Hw1].
  destruct (due_packet i l si sr idx p w1 ltac:(lia) Hw1 Hq1 Hinv Hidx Hs) as (w' & si' & sr' & E & Hq' & Hw' & Hinv' & _).
  eapply runs_done; [|apply good_later; by exists si', sr'].
  erewrite (mbind_done (assert_success _)); [reflexivity|]. unfold assert_success. by rewrite (mbind_done _ _ _ _ _ E).
Qed.

(** A new packet is recorded. *)
Lemma ties_sent (e i : nat) (ep : Z) (ps : list Packet) (si sr si' sr' : Sess.SessionManager)
    (seen : Recipient -> list Z) (r : Recipient) :
  let s := side (other r) si sr in
  (i < 48)%nat -> ties e i ep ps si sr seen ->
  (forall r', side r' si' sr' = if decide (r' = other r) then Sess.set_tx_counter (Sess.tx_counter s + 1) s else side r' si sr) ->
  ties e (S i) ep (ps ++ [honest e i r (Sess.tx_counter s) ep]) si' sr' seen.
Proof.
  intros s Hi [He Hl Hc Hseen Hp Hd] Hside.
  assert (Hmono : forall r', Sess.tx_counter (side r' si sr) <= Sess.tx_counter (side r' si' sr')).
  { intros r'. rewrite Hside. case_decide as E; [rewrite E; cbn; unfold s; lia|lia]. }
  assert (Hs : Sess.tx_counter (side (other r) si' sr') = Sess.tx_counter s + 1) by (by rewrite Hside, decide_True).
  assert (Hni : Sess.tx_counter s ∉ seen r).
  { intros Hin. pose proof (proj1 (Forall_forall _ _) (Hseen r) _ Hin) as Hlt. cbn in Hlt. unfold s in Hlt. lia. }
  pose proof (lv_count _ _ _ _ (Hl (other r))) as Hpos. fold s in Hpos. split.
  - lia.
  - intros r'. rewrite Hside. case_decide as E; [rewrite E; apply live_sent, Hl|apply Hl].
  - intros r'. rewrite Hside. specialize (Hc r'). case_decide as E; [|lia]. cbn. unfold s. rewrite <- E. lia.
  - intros r'. eapply Forall_impl; [apply Hseen|]. cbn. intros q Hq. specialize (Hmono (other r')). lia.
  - apply Forall_app. split.
    + eapply Forall_impl; [exact Hp|]. intros p (t & n & Ht & Hn & Hrest). exists t, n.
      specialize (Hmono (other (recipient p))). split; [lia|]. split; [lia|done].
    + constructor; [|done]. exists i, (Sess.tx_counter s). cbn [recipient delivered honest sealed_packet].
      rewrite Hs. split; [lia|]. split; [lia|]. split; [done|]. split; [done|]. intros Hin. by apply Hni in Hin.
  - rewrite fmap_app. apply NoDup_app. split; [done|]. split; [|apply NoDup_singleton].
    intros x Hx Hx'. apply list_elem_of_singleton in Hx'. apply list_elem_of_fmap in Hx as (p & -> & Hin).
    pose proof (proj1 (Forall_forall _ _) Hp p Hin) as Ht.
    destruct (tied_number e i ep si sr seen p ltac:(lia) Hc Ht) as (En & Hn & Hlt & _).
    injection Hx' as Er Hnonce. rewrite Er in Hlt. fold s in Hlt. specialize (Hc (other r)). fold s in Hc.
    assert (Eq : Sess.sequence_of (nonce p) = Sess.tx_counter s); [|lia].
    rewrite Hnonce. apply Sess.sequence_nonce_of. unfold in_width. lia.
Qed.

Lemma ties_recent (e i : nat) (ep : Z) (ps : list Packet) (si sr : Sess.SessionManager) (seen : Recipient -> list Z) :
  ties e i ep ps si sr seen -> ties e i ep (keep_recent ps) si sr seen.
Proof.
  intros [He Hl Hc Hs Hp Hd]. unfold keep_recent. case_match; [|by split]. split; try done.
  - by apply Forall_drop.
  - rewrite fmap_drop. eapply sublist_NoDup; [exact Hd|apply sublist_drop].
Qed.

Lemma transmit_runs (i : nat) (l : loop) (r : Recipient) (w : machine) :
  (i < total)%nat -> good i l w -> established l = true ->
  runs (packet ← transmit a r (current_epoch l) input (offset_of i);
        mret (set_packets (keep_recent (packets l ++ [packet])) l)) w (good (S i)).
Proof.
  intros Hi (si & sr & Hw & Hq & Hinv) He. pose proof total_small as Hm. unfold loop_inv in Hinv. rewrite He in Hinv.
  destruct Hinv as (e & seen & Ht). pose proof (t_live _ _ _ _ _ _ _ Ht (other r)) as Hl.
  pose proof (t_count _ _ _ _ _ _ _ Ht (other r)) as Hc. pose proof (lv_tx _ _ _ _ Hl) as Htx.
  replace (other (other r)) with r in Htx by (by destruct r).
  destruct (transmit_run a cache_callback_a input (offset_of i) r (current_epoch l) si sr _ w Hw Hq (lv_traffic _ _ _ _ Hl) Htx
    (length_key_to r e)) as (w' & E & Hq' & Hside).
  { pose proof (lv_count _ _ _ _ Hl). unfold u64_max. lia. }
  destruct (with_side_split _ _ _ _ _ Hside) as (si' & sr' & Hw' & Hs').
  eapply runs_done; [rewrite (mbind_done _ _ _ _ _ E); reflexivity|]. exists si', sr'. split; [done|]. split; [done|].
  unfold loop_inv. cbn [established set_packets packets current_epoch]. rewrite He. exists e, seen.
  apply ties_recent. by apply (ties_sent e i _ _ si sr si' sr' seen r ltac:(lia) Ht).
Qed.

Lemma establish_runs (i : nat) (l : loop) (recovery : bool) (ep : Z) (w : machine) :
  good i l w -> Hs.honest_dh (responder_entropy input (offset_of i)) (initiator_entropy input (offset_of i)) ->
  runs (establish a input (offset_of i) recovery ;; mret (MkLoop true ep [])) w (good (S i)).
Proof.
  intros (si & sr & Hw & Hq & _) Hdh.
  destruct (establish_run a cache_callback_a input (offset_of i) si sr recovery w Hw Hq Hdh) as (w' & E & Hq' & Hw').
  eapply runs_done; [rewrite (mbind_done _ _ _ _ _ E); reflexivity|]. eexists _, _. split; [exact Hw'|]. split; [done|].
  exists i, (fun _ => []). destruct (live_fresh (epoch_key i)) as [L1 L2]. split; try done.
  - lia.
  - by intros [].
  - intros []; cbn; lia.
  - apply NoDup_nil_2.
Qed.

Lemma zeroize_runs (i : nat) (l : loop) (w : machine) :
  good i l w ->
  runs (zeroize_pair a ;; zeroize_pair a ;; verify_teardown a ;; mret (MkLoop false (current_epoch l) (packets l))) w
    (good (S i)).
Proof.
  intros (si & sr & Hw & Hq & Hinv).
  destruct (zeroize_pair_run a cache_callback_a si sr w Hw Hq) as (w1 & E1 & Q1 & W1).
  destruct (zeroize_pair_run a cache_callback_a _ _ w1 W1 Q1) as (w2 & E2 & Q2 & W2).
  destruct (verify_teardown_run a _ _ w2 W2) as (w3 & E3 & P3 & W3).
  eapply runs_done; [rewrite (mbind_done _ _ _ _ _ E1), (mbind_done _ _ _ _ _ E2), (mbind_done _ _ _ _ _ E3); reflexivity|].
  exists Sess.new, Sess.new. split; [done|]. split; [unfold ReplayRun.quiet; by rewrite P3|]. split; [done|]. split; [done|].
  unfold loop_inv in Hinv. cbn [packets]. destruct (established l); [|by destruct Hinv as (_ & _ & ?)].
  destruct Hinv as (e & seen & Ht). eapply Forall_impl; [exact (t_packets _ _ _ _ _ _ _ Ht)|].
  intros p Hp. exact (proj1 (tied_honest _ _ _ _ _ _ _ Hp)).
Qed.

Lemma teardown_runs (i : nat) (l : loop) (w : machine) :
  good i l w -> runs (verify_teardown a ;; mret l) w (good (S i)).
Proof.
  intros (si & sr & Hw & Hq & Hinv). destruct (verify_teardown_run a _ _ w Hw) as (w' & E & P & Hw').
  eapply runs_done; [rewrite (mbind_done _ _ _ _ _ E); reflexivity|]. apply good_later. exists si, sr.
  split; [done|]. split; [unfold ReplayRun.quiet; by rewrite P|done].
Qed.

Lemma pick_runs (i : nat) (l : loop) (k : nat -> Packet -> M machine loop) (w : machine) :
  packets l <> [] -> (forall idx p, packets l !! idx = Some p -> runs (k idx p) w (good (S i))) ->
  runs (pick input (offset_of i) l k) w (good (S i)).
Proof.
  intros Hne Hk. unfold pick. set (idx := Z.to_nat _).
  assert (Hlt : (idx < length (packets l))%nat).
  { assert (0 < zlen (packets l)) by (destruct (packets l); [done|unfold zlen; cbn; lia]).
    pose proof (Z.mod_pos_bound (bval (byte_at input (offset_of i))) (zlen (packets l)) ltac:(done)).
    unfold idx, zlen in *. lia. }
  destruct (lookup_lt_is_Some_2 _ _ Hlt) as [p Hp]. rewrite Hp. by apply Hk.
Qed.

Variable cache_callback_b : CFnPtr.
Hypothesis callbacks_differ : cache_callback_a <> cache_callback_b.
Hypothesis exchanges : forall i, (i < total)%nat ->
  Hs.honest_dh (responder_entropy input (offset_of i)) (initiator_entropy input (offset_of i)).

Lemma exercise_runs (ca cb : Z) (i : nat) (l : loop) (w : machine) :
  good i l w ->
  runs (exercise_callback_replacement cache_callback_a cache_callback_b a ca cb ;; mret l) w (good (S i)).
Proof.
  intros (si & sr & Hw & Hq & Hinv).
  destruct (exercise_run a cache_callback_a cache_callback_b ca cb _ _ w callbacks_differ Hw) as (w' & E & Hq' & Hw').
  eapply runs_done; [rewrite (mbind_done _ _ _ _ _ E); reflexivity|]. apply good_later. by exists si, sr.
Qed.

Lemma operation_runs (ca cb op : Z) (i : nat) (l : loop) (w : machine) :
  (i < total)%nat -> good i l w ->
  runs (operation_step cache_callback_a cache_callback_b a ca cb input i op l) w (good (S i)).
Proof.
  intros Hi Hg. unfold operation_step. fold (offset_of i).
  destruct ((_ =? 0) || _); [apply (establish_runs i l); auto|].
  destruct (((_ =? 2) || _) && established l) eqn:E2.
  { apply andb_true_iff in E2 as [_ He]. by apply (transmit_runs i l). }
  assert (Hne : negb (bool_decide (packets l = [])) = true -> packets l <> []).
  { intros Hn Hp. by rewrite bool_decide_true in Hn. }
  destruct (_ && negb (bool_decide _)) eqn:E4 at 1.
  { apply andb_true_iff in E4 as [_ Hn%Hne]. apply (pick_runs i l); [done|]. intros. by apply deliver_runs. }
  destruct (_ && negb (bool_decide _)) eqn:E5 at 1.
  { apply andb_true_iff in E5 as [_ Hn%Hne]. apply (pick_runs i l); [done|]. intros. by apply deliver_twice_runs. }
  destruct (_ && negb (bool_decide _)) eqn:E6 at 1.
  { apply andb_true_iff in E6 as [_ Hn%Hne]. apply (pick_runs i l); [done|]. intros idx p Hp.
    apply deliver_after_runs; [done|done|done|]. intros e si sr seen w0 _ Hw Hq Ht. apply runs_refused.
    eapply corrupted_refused; [done|done|exact (t_live _ _ _ _ _ _ _ Ht (recipient p))|].
    exact (Forall_lookup_1 _ _ _ _ (t_packets _ _ _ _ _ _ _ Ht) Hp). }
  destruct (_ && negb (bool_decide _)) eqn:E8 at 1.
  { apply andb_true_iff in E8 as [_ Hn%Hne]. apply (pick_runs i l); [done|]. intros idx p Hp.
    apply deliver_after_runs; [done|done|done|]. intros e si sr seen w0 _ Hw Hq Ht.
    eapply wrong_direction; [|done|done|exact Ht|by eapply list_elem_of_lookup_2]. lia. }
  destruct ((_ =? 9) || _); [by apply zeroize_runs|].
  destruct (_ =? 11); [by apply exercise_runs|by apply teardown_runs].
Qed.

Lemma replay_operations_run (ca cb : Z) (rest : list byte) (i : nat) (l : loop) (w : machine) :
  (i + length rest = total)%nat -> good i l w ->
  runs (operations cache_callback_a cache_callback_b a ca cb input i rest l) w (good total).
Proof.
  revert i l w. induction rest as [|op rest IH]; intros i l w Hn Hg; cbn [operations length] in *.
  - eapply runs_done; [reflexivity|]. by replace total with i by lia.
  - eapply runs_bind; [apply operation_runs; [lia|exact Hg]|]. intros l' w' Hg'. apply IH; [lia|done].
Qed.

Lemma target_runs (w : machine) :
  ReplayRun.at_rest a (Unset (SHandle KSession)) (Unset (SHandle KSession)) w ->
  runs (fuzz_target cache_callback_a cache_callback_b a input) w
    (fun _ w' => ReplayRun.at_rest a (Unset (SHandle KSession)) (Unset (SHandle KSession)) w').
Proof.
  intros Hw. unfold fuzz_target. eapply runs_bind; [by eapply (runs_done (gets _)); [reflexivity|instantiate (1 := fun _ w' => w' = w)]|].
  intros ca ? ->. eapply runs_bind; [by eapply (runs_done (gets _)); [reflexivity|instantiate (1 := fun _ w' => w' = w)]|].
  intros cb ? ->.
  destruct (exercise_run a cache_callback_a cache_callback_b ca cb _ _ w callbacks_differ Hw) as (w1 & E1 & Q1 & W1).
  destruct (new_pair_run a cache_callback_a _ _ w1 W1 Q1) as (w2 & E2 & Q2 & W2).
  destruct (verify_teardown_run a _ _ w2 W2) as (w3 & E3 & P3 & W3).
  unfold runs. rewrite (mbind_done _ _ _ _ _ E1), (mbind_done _ _ _ _ _ E2), (mbind_done _ _ _ _ _ E3).
  change (runs (operations cache_callback_a cache_callback_b a ca cb input 0 (take MAX_OPERATIONS input) (MkLoop false 0 []) ;;
    drop_pair a) w3 (fun _ w' => ReplayRun.at_rest a (Unset (SHandle KSession)) (Unset (SHandle KSession)) w')).
  eapply runs_bind; [apply (replay_operations_run ca cb _ 0); [done|]|].
  - exists Sess.new, Sess.new. split; [done|]. split; [unfold ReplayRun.quiet; by rewrite P3|]. by split_and!.
  - intros l w4 (si & sr & W4 & Q4 & _). destruct (drop_pair_run a cache_callback_a si sr w4 W4 Q4) as (w5 & E5 & _ & W5).
    by eapply runs_done.
Qed.

End loop.

(** * Claim *)

(** C21: what an input to the replay target can do. Given room for the two boxes and for
    the variables of each function, and X25519 exchanges that are contributory, the
    target never reads or writes where it must not, and it returns unless a packet it
    sealed bears the same tag under the keys of both directions: every handshake
    succeeds, also after the failed one; every packet that was not delivered opens to
    its plaintext, in any order and also after a corrupted copy or one sent to the
    wrong side; everything delivered before, corrupted or left from a wiped session is
    refused; the callbacks are replaced at once; and the boxes are free again. *)
Theorem replay_fuzz_fails_only_on_collision `{CryptoLaws} `{CryptoLayout} `{!CryptoLayoutLaws} `{InterruptAnswers}
    (cache_callback_a cache_callback_b : CFnPtr) (a : addresses) (input : list byte) (w : machine) :
  cache_callback_a <> cache_callback_b ->
  (forall i, (i < length (take MAX_OPERATIONS input))%nat ->
     Hs.honest_dh (responder_entropy input (offset_of i)) (initiator_entropy input (offset_of i))) ->
  at_rest a (Unset (SHandle KSession)) (Unset (SHandle KSession)) w ->
  match fuzz_target cache_callback_a cache_callback_b a input w with
  | Done _ w' => at_rest a (Unset (SHandle KSession)) (Unset (SHandle KSession)) w'
  | Halted _ => cross_collision input = true
  | Undefined => False
  end.
Proof. intros Hab Hdh Hw. exact (target_runs input cache_callback_a a cache_callback_b Hab Hdh w Hw). Qed.

(** * A run *)

#[local] Existing Instance Pool.sample_answers.

(** The boxes first; behind them every function has its own variables. *)
Definition sample_addresses : addresses := MkAddresses 4096 11136
  18176 18208 18216
  18176 18272 18336 18352 18368 21568 21632 23232 23296
  18176 18208 18304 18400 18412
  18176 18208 18304 18316 18364
  18176 18177 18189.

Definition sample_machine : machine := MkMachine (MkMem [(4096, 65536)] ∅ ∅) Pool.sample_world.

Lemma sample_layout_ok : layout sample_addresses (storage (mem sample_machine)).
Proof.
  unfold layout, all_locals. repeat apply Forall_cons_2; [..|apply Forall_nil_2]; split.
  all: cbn [boxes pair app cb_locals es_locals tx_locals rx_locals td_locals].
  all: once (repeat constructor).
  all: unfold cells_apart, span; cbn [fst snd shape_of extent_of sample_addresses at_initiator at_responder].
  all: change (size_of KPublicKey1024) with 3200; change (size_of KX25519Public) with 64;
    change (size_of KCiphertext1024) with 1600; change (size_of KSession) with 7040.
  all: cbn; first [apart|reflexivity|lia].
Qed.

Lemma sample_at_rest :
  at_rest sample_addresses (Unset (SHandle KSession)) (Unset (SHandle KSession)) sample_machine.
Proof.
  split; [split|done|exact sample_layout_ok].
  - repeat constructor; unfold cells_apart; cbn; apart.
  - repeat constructor; cbn; done || lia.
  - repeat constructor.
Qed.

(** A handshake after a failed one, a packet to the responder, which gets a corrupted copy
    first, and the packet again to both sides. *)
Definition sample_input : list byte := [x01; x02; x06; x08].

Lemma replay_fuzz_fails_only_on_collision_witness :
  exists w', fuzz_target 1 2 sample_addresses sample_input sample_machine = Done tt w' /\
    at_rest sample_addresses (Unset (SHandle KSession)) (Unset (SHandle KSession)) w'.
Proof.
  assert (Hdh : forall i, (i < length (take MAX_OPERATIONS sample_input))%nat ->
    Hs.honest_dh (responder_entropy sample_input (offset_of i)) (initiator_entropy sample_input (offset_of i))).
  { intros i Hi. cbn in Hi. do 4 (destruct i as [|i]; [split_and!; vm_compute; reflexivity|]). lia. }
  pose proof (replay_fuzz_fails_only_on_collision 1 2 sample_addresses sample_input sample_machine
    ltac:(discriminate) Hdh sample_at_rest) as Hrun.
  destruct (fuzz_target 1 2 sample_addresses sample_input sample_machine) as [[] w'|w'|].
  - exists w'. exact (conj eq_refl Hrun).
  - assert (Ec : cross_collision sample_input = false) by (vm_compute; reflexivity).
    rewrite Ec in Hrun. discriminate Hrun.
  - destruct Hrun.
Defined.

End ReplayLoop.
