(* ===== verification/RtosFuzz.v ===== *)
(** rtos_stateful_fuzz.rs: the program that drives the pool, the two queues and the
    life-cycle machine with bytes from a fuzzer and compares every answer with a
    reference model of its own. It is modelled as it is written, on top of the
    component models; a failed assertion or an index out of range is [halt], a bad
    dereference is [undefined]. The result is that no input makes it fail. *)

From stdpp Require Import gmap.
From S2P Require Import Prelude RtosHost Fifo Spsc RingBuffer DmaPool StateMachine RtosObjects.
Local Open Scope Z_scope.

Module Fuzz.

Definition CAPACITY : Z := 8.

(** [StaticDmaPool<[u8; 16], CAPACITY, 1>], [SpscQueue<u32, CAPACITY>] *)
#[local] Instance slot_layout : Dma.Layout := {| Dma.size_of := 16; Dma.align_of := 1 |}.
#[local] Instance u32_elem : Elem Z := {| elem_default := 0; elem_size := 4; elem_align := 4 |}.
#[export] Instance eight_capacity : Capacity CAPACITY.
Proof. by split; vm_compute. Qed.

(** * State *)

(** The objects under test, the host they share, and the locals of the target. The
    callbacks count how often they are called: a counter is the number of calls in
    the host's record less the number when the counter was cleared. The counters of
    the invalidate callbacks are never read. *)
Record state : Type := MkState {
  pool : Dma.world;
  queue : Spsc.world Z;
  ring : Spsc.world Z;
  machine : SM.StateMachine;
  host : Host;
  cleared : nat * nat;
  live : list (option (Z * Z));
  last_generation : list Z;
  queue_model : list Z;
  ring_model : list Z;
  expected_state : Z
}.

Definition set_pool (v : Dma.world) (s : state) : state :=
  MkState v (queue s) (ring s) (machine s) (Dma.host v) (cleared s) (live s) (last_generation s)
    (queue_model s) (ring_model s) (expected_state s).
Definition set_queue (v : Spsc.world Z) (s : state) : state :=
  MkState (pool s) v (ring s) (machine s) (Spsc.host v) (cleared s) (live s) (last_generation s)
    (queue_model s) (ring_model s) (expected_state s).
Definition set_ring (v : Spsc.world Z) (s : state) : state :=
  MkState (pool s) (queue s) v (machine s) (Spsc.host v) (cleared s) (live s) (last_generation s)
    (queue_model s) (ring_model s) (expected_state s).
Definition set_machine (v : SM.StateMachine) (s : state) : state :=
  MkState (pool s) (queue s) (ring s) v (host s) (cleared s) (live s) (last_generation s)
    (queue_model s) (ring_model s) (expected_state s).
Definition set_host (v : Host) (s : state) : state :=
  MkState (pool s) (queue s) (ring s) (machine s) v (cleared s) (live s) (last_generation s)
    (queue_model s) (ring_model s) (expected_state s).
Definition set_cleared (v : nat * nat) (s : state) : state :=
  MkState (pool s) (queue s) (ring s) (machine s) (host s) v (live s) (last_generation s)
    (queue_model s) (ring_model s) (expected_state s).
Definition set_live (v : list (option (Z * Z))) (s : state) : state :=
  MkState (pool s) (queue s) (ring s) (machine s) (host s) (cleared s) v (last_generation s)
    (queue_model s) (ring_model s) (expected_state s).
Definition set_last_generation (v : list Z) (s : state) : state :=
  MkState (pool s) (queue s) (ring s) (machine s) (host s) (cleared s) (live s) v
    (queue_model s) (ring_model s) (expected_state s).
Definition set_queue_model (v : list Z) (s : state) : state :=
  MkState (pool s) (queue s) (ring s) (machine s) (host s) (cleared s) (live s) (last_generation s)
    v (ring_model s) (expected_state s).
Definition set_ring_model (v : list Z) (s : state) : state :=
  MkState (pool s) (queue s) (ring s) (machine s) (host s) (cleared s) (live s) (last_generation s)
    (queue_model s) v (expected_state s).
Definition set_expected_state (v : Z) (s : state) : state :=
  MkState (pool s) (queue s) (ring s) (machine s) (host s) (cleared s) (live s) (last_generation s)
    (queue_model s) (ring_model s) v.

(** The components run against the shared host. *)
Definition on_pool {A} (m : M Dma.world A) : M state A :=
  zoom (fun s => Dma.set_host (host s) (pool s)) set_pool m.
Definition on_queue {A} (m : M (Spsc.world Z) A) : M state A :=
  zoom (fun s => Spsc.set_host (host s) (queue s)) set_queue m.
Definition on_ring {A} (m : M (Spsc.world Z) A) : M state A :=
  zoom (fun s => Spsc.set_host (host s) (ring s)) set_ring m.
Definition on_machine {A} (m : M SM.StateMachine A) : M state A := zoom machine set_machine m.

Definition assert (b : bool) : M state unit := if b then mret tt else halt.

(** [v[i]] and [v[i] = x] on an array. *)
Definition index {A} (f : state -> list A) (i : Z) : M state A :=
  s ← get; match f s !! Z.to_nat i with Some x => mret x | None => halt end.

(** * Helpers of the target *)

Definition byte_at (input : list byte) (i : Z) : byte :=
  match input !! Z.to_nat (i mod Z.max (zlen input) 1) with
  | Some b => b
  | None => byte_of_Z (wrapping_add 8 (cast 8 (cast 8 i * 29)) 0xA7)
  end.

Definition enclave_state (value : Z) : SM.EnclaveState :=
  match value mod 5 with
  | 0 => SM.Init
  | 1 => SM.Bootstrapping
  | 2 => SM.Operational
  | 3 => SM.Degraded
  | _ => SM.Terminal
  end.

Definition valid_transition (current target : Z) : bool :=
  match current, target with
  | 0, 1 | 1, 2 | 1, 4 | 2, 3 | 2, 4 | 3, 2 | 3, 4 => true
  | _, _ => false
  end.

Section target.
Variable debug : bool.
(** How the weak exchange of the n-th operation fails. *)
Variable spurious : nat -> list bool.
(** The callbacks of the target and the addresses of its three backings. *)
Variables flush_a flush_b invalidate_a invalidate_b : FnPtr.
Variables pool_backing queue_backing ring_backing : Z.

Definition install_callbacks (use_b : bool) : M state unit :=
  modify (fun s => set_host (register_cache_flush (Some (if use_b then flush_b else flush_a)) (host s)) s) ;;
  modify (fun s => set_host (register_cache_invalidate (Some (if use_b then invalidate_b else invalidate_a))
                               (host s)) s).

Definition is_flush (cb : FnPtr) (e : event) : bool :=
  match e with EvCacheFlush cb' _ _ => cb' =? cb | _ => false end.
Definition flushes (cb : FnPtr) (h : Host) : nat := length (base.filter (fun e => is_flush cb e = true) (trace h)).

(** [FLUSH_A_COUNT.load()], [FLUSH_B_COUNT.load()] *)
Definition flush_counts : M state (nat * nat) :=
  s ← get;
  mret (flushes flush_a (host s) - (cleared s).1, flushes flush_b (host s) - (cleared s).2)%nat.
Definition clear_counts : M state unit :=
  modify (fun s => set_cleared (flushes flush_a (host s), flushes flush_b (host s)) s).

Definition queue_push (value : Z) : M state unit :=
  result ← on_queue (Spsc.push CAPACITY value);
  s ← get;
  if zlen (queue_model s) =? CAPACITY
  then assert (bool_decide (result = Err IpcQueueFull))
  else assert (bool_decide (result = Ok tt)) ;;
       modify (fun s => set_queue_model (queue_model s ++ [value]) s).

Definition queue_pop : M state unit :=
  item ← on_queue (Spsc.pop CAPACITY);
  s ← get;
  assert (bool_decide (item = list.head (queue_model s))) ;;
  modify (fun s => set_queue_model (list.tail (queue_model s)) s).

Definition ring_push (value : Z) : M state unit :=
  result ← on_ring (RB.push CAPACITY value);
  s ← get;
  if zlen (ring_model s) =? CAPACITY
  then assert (bool_decide (result = Err IpcQueueFull))
  else assert (bool_decide (result = Ok tt)) ;;
       modify (fun s => set_ring_model (ring_model s ++ [value]) s).

Definition ring_pop : M state unit :=
  item ← on_ring (RB.pop CAPACITY);
  s ← get;
  assert (bool_decide (item = list.head (ring_model s))) ;;
  modify (fun s => set_ring_model (list.tail (ring_model s)) s).

(** The loops that fill a queue; each round adds one item, so the capacity bounds them. *)
Fixpoint fill_queue (fuel : nat) (value : Z) : M state unit :=
  match fuel with
  | O => halt
  | S fuel' =>
      s ← get;
      if zlen (queue_model s) <? CAPACITY
      then queue_push (wrapping_add 32 value (cast 32 (zlen (queue_model s)))) ;; fill_queue fuel' value
      else mret tt
  end.

Fixpoint fill_ring (fuel : nat) (value : Z) : M state unit :=
  match fuel with
  | O => halt
  | S fuel' =>
      s ← get;
      if zlen (ring_model s) <? CAPACITY
      then ring_push (wrapping_add 32 value (cast 32 (zlen (ring_model s)))) ;; fill_ring fuel' value
      else mret tt
  end.

(** [pointer.write(..)] and [pointer.read()] of sixteen bytes in the pool's backing. *)
Definition write_buffer (pointer : Z) (l : list byte) : M state unit :=
  s ← get;
  let i := pointer - pool_backing in
  let r := Dma.region (pool s) in
  if (0 <=? i) && (i + zlen l <=? zlen r)
  then modify (fun s => set_pool (Dma.set_host (host s)
         (Dma.set_region (take (Z.to_nat i) r ++ l ++ drop (Z.to_nat i + length l) r) (pool s))) s)
  else undefined.
Definition read_buffer (pointer : Z) : M state (list byte) :=
  s ← get;
  let i := pointer - pool_backing in
  let r := Dma.region (pool s) in
  if (0 <=? i) && (i + 16 <=? zlen r) then mret (slice (Z.to_nat i) (Z.to_nat i + 16) r) else undefined.

Definition pool_allocate (sp : list bool) (operation : byte) : M state unit :=
  r ← on_pool (Dma.allocate debug (S (length sp)) sp);
  match r with
  | Ok (slot, generation, pointer) =>
      entry ← index live slot;
      assert (bool_decide (entry = None)) ;;
      write_buffer pointer (replicate 16 operation) ;;
      modify (fun s => set_live (<[Z.to_nat slot := Some (generation, pointer)]> (live s)) s) ;;
      index last_generation slot ;;
      modify (fun s => set_last_generation (<[Z.to_nat slot := generation]> (last_generation s)) s)
  | Err error =>
      assert (bool_decide (error = AllocOutOfMemory)) ;;
      s ← get;
      assert (forallb (fun e => bool_decide (is_Some e)) (live s))
  end.

(** [pool.free(index, generation)] of a live entry, then the check that it was erased. *)
Definition free_live_entry (sp : list bool) (i generation pointer : Z) : M state unit :=
  r ← on_pool (Dma.free CAPACITY (S (length sp)) sp i generation);
  assert (bool_decide (r = Ok tt)) ;;
  content ← read_buffer pointer;
  assert (bool_decide (content = zeros 16)).

Definition pool_free (sp : list bool) (i : Z) : M state unit :=
  entry ← index live i;
  modify (fun s => set_live (<[Z.to_nat i := None]> (live s)) s) ;;
  match entry with
  | Some (generation, pointer) => free_live_entry sp i generation pointer
  | None =>
      generation ← index last_generation i;
      r ← on_pool (Dma.free CAPACITY (S (length sp)) sp i generation);
      assert (bool_decide (r = Err AllocDoubleFree))
  end.

Definition pool_free_outside (sp : list bool) (i : Z) : M state unit :=
  generation ← index last_generation i;
  r ← on_pool (Dma.free CAPACITY (S (length sp)) sp (CAPACITY + i) generation);
  assert (bool_decide (r = Err AllocAddressOutOfBounds)).

Definition advance (sp : list bool) (target : SM.EnclaveState) : M state unit :=
  s ← get;
  let expected_success := valid_transition (expected_state s) (SM.code target) in
  r ← on_machine (SM.try_advance (S (length sp)) sp target);
  assert (Bool.eqb (is_ok r) expected_success) ;;
  (if expected_success then modify (set_expected_state (SM.code target)) else mret tt) ;;
  current ← on_machine SM.get_state;
  s ← get;
  assert (current =? expected_state s).

Definition counted_push (value : Z) : M state unit :=
  before ← flush_counts;
  s ← get;
  let was_full := zlen (queue_model s) =? CAPACITY in
  queue_push value ;;
  if negb was_full
  then after ← flush_counts; assert ((before.1 <? after.1)%nat || (before.2 <? after.2)%nat)
  else mret tt.

(** One operation byte. *)
Definition operate (input : list byte) (step : nat) (operation : byte) : M state unit :=
  let op := bval operation in
  let n := Z.of_nat step in
  let i := bval (byte_at input (cast 64 (n * 7))) mod CAPACITY in
  let value := le_val [operation; byte_at input (wrapping_add 64 n 1); byte_at input (wrapping_add 64 n 2);
                       byte_at input (wrapping_add 64 n 3)] in
  match Z.land op 0x0F with
  | 0 | 1 => pool_allocate (spurious step) operation
  | 2 | 3 => pool_free (spurious step) i
  | 4 => pool_free_outside (spurious step) i
  | 5 => queue_push value
  | 6 => queue_pop
  | 7 => fill_queue 9 value ;; queue_push value
  | 8 => ring_push value
  | 9 => ring_pop
  | 10 => item ← on_ring (RB.peek CAPACITY); s ← get; assert (bool_decide (item = list.head (ring_model s)))
  | 11 => fill_ring 9 value ;; ring_push value
  | 12 => advance (spurious step) (enclave_state (bval (byte_at input (wrapping_add 64 n 11))))
  | 13 => install_callbacks (negb (Z.land op 0x10 =? 0))
  | _ => counted_push value
  end.

Fixpoint operations (input : list byte) (step : nat) (ops : list byte) : M state unit :=
  match ops with
  | [] => mret tt
  | operation :: ops' => operate input step operation ;; operations input (S step) ops'
  end.

(** The last loop: free what is still allocated. *)
Definition drain (i : nat) : M state unit :=
  entry ← index live (Z.of_nat i);
  modify (fun s => set_live (<[i := None]> (live s)) s) ;;
  match entry with
  | Some (generation, pointer) => free_live_entry (spurious (256 + i)) (Z.of_nat i) generation pointer
  | None => mret tt
  end.

(** Both calls of [init]: the first succeeds, the second is refused. *)
Definition init_twice {E} `{EqDecision E} (init : M state (result unit E)) (already : E) : M state unit :=
  r ← init; assert (bool_decide (r = Ok tt)) ;;
  r ← init; assert (bool_decide (r = Err already)).

Definition fuzz_target (input : list byte) : M state unit :=
  clear_counts ;;
  install_callbacks false ;;
  init_twice (on_pool (Dma.init CAPACITY 1 pool_backing (16 * CAPACITY))) AllocAlreadyInitialized ;;
  init_twice (on_queue (Spsc.init CAPACITY queue_backing (CAPACITY * slot_size))) IpcAlreadyInitialized ;;
  init_twice (on_ring (RB.init CAPACITY ring_backing (CAPACITY * slot_size))) IpcAlreadyInitialized ;;
  operations input 0 (take 256 input) ;;
  for_range 0 (Z.to_nat CAPACITY) drain.

(** The target on entry: new objects over backings of any content. *)
Definition start (r : list byte) (q1 q2 : list (CacheAlignedSlot Z)) (h : Host) : state :=
  MkState (Dma.MkWorld (Dma.new CAPACITY) r h) (Spsc.MkWorld Spsc.new q1 h) (Spsc.MkWorld Spsc.new q2 h)
    SM.new h (0%nat, 0%nat) (replicate 8 None) (replicate 8 0) [] [] (SM.code SM.Init).

End target.

(** * The invariant of a run *)

(** The host after some calls: same callbacks, a longer record. *)
Definition later (h h' : Host) : Prop := same_registry h h' /\ trace h `prefix_of` trace h'.

#[export] Instance later_preorder : PreOrder later.
Proof.
  split; [done|]. intros h1 h2 h3 [R1 P1] [R2 P2]. split; by etrans.
Qed.

Lemma later_log (e : event) (h : Host) : later h (log e h).
Proof. split; [apply log_same_registry|]. by exists [e]. Qed.

Lemma flushes_later (cb : FnPtr) (h h' : Host) : later h h' -> (flushes cb h <= flushes cb h')%nat.
Proof. intros [_ [k Hk]]. unfold flushes. rewrite Hk, filter_app, length_app. lia. Qed.

Lemma flushes_log (cb p n : Z) (h : Host) : flushes cb (log (EvCacheFlush cb p n) h) = S (flushes cb h).
Proof.
  unfold flushes. rewrite trace_log, filter_app, length_app, (filter_cons_True _ (EvCacheFlush cb p n) []).
  - rewrite filter_nil. cbn. lia.
  - apply Z.eqb_refl.
Qed.

Lemma queue_later (h h' : Host) (w : Spsc.world Z) (l : list Z) :
  later h h' -> spsc_repr CAPACITY (Spsc.set_host h w) l -> spsc_repr CAPACITY (Spsc.set_host h' w) l.
Proof.
  intros [R _] [Hi Hl Hits Hst Hf Hv]. unfold same_registry in R. destruct_and!.
  split; cbn in *; [done|done|done|done|congruence|congruence].
Qed.

Lemma pool_later (h h' : Host) (w : Dma.world) (sp : Dma.spec) :
  later h h' -> Dma.pool_repr CAPACITY (Dma.set_host h w) sp -> Dma.pool_repr CAPACITY (Dma.set_host h' w) sp.
Proof.
  intros [R _] [? ? ? ? ? ? ? ? Hf]. unfold same_registry in R. destruct_and!.
  split; cbn in *; try done. congruence.
Qed.

Section proofs.
Variables flush_a flush_b pool_backing : Z.

(** Slot [i] of the target's table against the abstract pool. *)
Definition entry_of (sp : Dma.spec) (i : Z) : option (Z * Z) :=
  if decide (i ∈ Dma.s_free sp) then None else Some (Dma.gen sp i, pool_backing + i * 16).

Record tracks (sp : Dma.spec) (s : state) : Prop := {
  tr_pool : Dma.pool_repr CAPACITY (Dma.set_host (host s) (pool s)) sp;
  tr_base : Dma.memory (Dma.pool (pool s)) = pool_backing;
  tr_live : live s = entry_of sp <$> seqZ 0 CAPACITY;
  tr_last : length (last_generation s) = 8%nat /\ Forall (in_width 64) (last_generation s);
  tr_queue : spsc_repr CAPACITY (Spsc.set_host (host s) (queue s)) (queue_model s);
  tr_ring : spsc_repr CAPACITY (Spsc.set_host (host s) (ring s)) (ring_model s);
  tr_machine : SM.current_state (machine s) = expected_state s;
  tr_flush : CACHE_FLUSH_CB (host s) = Some flush_a \/ CACHE_FLUSH_CB (host s) = Some flush_b;
  tr_counts : ((cleared s).1 <= flushes flush_a (host s))%nat /\ ((cleared s).2 <= flushes flush_b (host s))%nat
}.

Definition inv (s : state) : Prop := exists sp, tracks sp s.

(** [m] runs without failing and keeps the invariant. *)
Definition passes (m : M state unit) : Prop := forall s, inv s -> exists s', m s = Done tt s' /\ inv s'.

Lemma passes_bind (m k : M state unit) : passes m -> passes k -> passes (m ;; k).
Proof.
  intros Hm Hk s Hs. destruct (Hm s Hs) as (s1 & E & H1). rewrite (mbind_done _ _ _ _ _ E). by apply Hk.
Qed.

(** ** Queues *)

Lemma tracks_host (sp : Dma.spec) (s : state) (h : Host) : tracks sp s -> later (host s) h -> tracks sp (set_host h s).
Proof.
  intros [Hp Hb Hl Hg Hq Hr Hm Hf [C1 C2]] L. pose proof (flushes_later flush_a _ _ L).
  pose proof (flushes_later flush_b _ _ L). pose proof L as [R _]. unfold same_registry in R. destruct_and!.
  split; cbn; [by eapply pool_later|done|done|done|by eapply queue_later|by eapply queue_later|done| |lia].
  destruct Hf as [Hf|Hf]; [left|right]; congruence.
Qed.

Lemma tracks_queue (sp : Dma.spec) (s : state) (v : Spsc.world Z) (l : list Z) :
  tracks sp s -> later (host s) (Spsc.host v) -> spsc_repr CAPACITY v l ->
  tracks sp (set_queue_model l (set_queue v s)).
Proof.
  intros Ht L R. destruct (tracks_host sp s _ Ht L) as [Hp Hb Hl Hg Hq Hr Hm Hf HC].
  split; cbn in *; try done. by destruct v.
Qed.

Lemma tracks_ring (sp : Dma.spec) (s : state) (v : Spsc.world Z) (l : list Z) :
  tracks sp s -> later (host s) (Spsc.host v) -> spsc_repr CAPACITY v l ->
  tracks sp (set_ring_model l (set_ring v s)).
Proof.
  intros Ht L R. destruct (tracks_host sp s _ Ht L) as [Hp Hb Hl Hg Hq Hr Hm Hf HC].
  split; cbn in *; try done. by destruct v.
Qed.

Lemma model_bound (sp : Dma.spec) (s : state) : tracks sp s -> (length (queue_model s) <= 8)%nat.
Proof. intros Ht. exact (fifo_cap_bound (Fifo := spsc_fifo CAPACITY) _ _ (tr_queue _ _ Ht)). Qed.

Lemma fuzz_push_run (value : Z) (sp : Dma.spec) (s : state) :
  tracks sp s ->
  exists s', queue_push value s = Done tt s' /\ tracks sp s' /\ cleared s' = cleared s /\
    queue_model s' = (if zlen (queue_model s) =? CAPACITY then queue_model s else queue_model s ++ [value]) /\
    (zlen (queue_model s) <> CAPACITY -> exists cb p, (cb = flush_a \/ cb = flush_b) /\
       host s' = log (EvCacheFlush cb p 4) (host s)).
Proof.
  intros Ht. pose proof (tr_queue _ _ Ht) as R. unfold queue_push, on_queue, zoom. msimpl.
  destruct (decide (zlen (queue_model s) = CAPACITY)) as [E|E].
  - rewrite (spsc_push_full CAPACITY _ _ value R) by (unfold zlen, CAPACITY in *; cbn; lia).
    cbn [queue_model set_queue]. rewrite (proj2 (Z.eqb_eq _ _) E). eexists. split; [done|].
    split; [|done]. apply (tracks_queue sp s (Spsc.set_host (host s) (queue s)) (queue_model s)); done.
  - assert (Hl : (length (queue_model s) < Z.to_nat CAPACITY)%nat).
    { pose proof (model_bound _ _ Ht). unfold zlen, CAPACITY in *. lia. }
    destruct (spsc_push_logs CAPACITY _ _ value R Hl) as (v & cf & p & -> & R' & Hcf & Eh).
    cbn [queue_model set_queue]. rewrite (proj2 (Z.eqb_neq _ _) E). cbn. eexists. split; [done|].
    split; [apply tracks_queue; [done|rewrite Eh; apply later_log|done]|]. split; [done|]. split; [done|].
    intros _. exists cf, p. split; [|exact Eh]. cbn in Hcf. destruct (tr_flush _ _ Ht) as [Ef|Ef]; rewrite Ef in Hcf;
      injection Hcf; auto.
Qed.

Lemma queue_pop_run (sp : Dma.spec) (s : state) :
  tracks sp s -> exists s', queue_pop s = Done tt s' /\ tracks sp s'.
Proof.
  intros Ht. pose proof (tr_queue _ _ Ht) as R. unfold queue_pop, on_queue, zoom. msimpl.
  destruct (queue_model s) as [|x l] eqn:El.
  - rewrite (spsc_pop_empty CAPACITY _ R). cbn [queue_model set_queue]. rewrite El. cbn. eexists. split; [done|].
    apply tracks_queue; [done|done|]. cbn. by rewrite El.
  - destruct (spsc_pop_logs CAPACITY _ _ _ R) as (v & e & -> & R' & Eh). cbn [queue_model set_queue]. rewrite El. cbn.
    rewrite bool_decide_true by done. eexists. split; [done|].
    apply tracks_queue; [done|rewrite Eh; apply later_log|]. cbn. by rewrite El.
Qed.

Lemma fill_queue_run (fuel : nat) (value : Z) (sp : Dma.spec) (s : state) :
  tracks sp s -> (8 < fuel + length (queue_model s))%nat ->
  exists s', fill_queue fuel value s = Done tt s' /\ tracks sp s'.
Proof.
  revert s. induction fuel as [|fuel IH]; intros s Ht Hf; cbn [fill_queue].
  - pose proof (model_bound _ _ Ht). lia.
  - msimpl. destruct (Z.ltb_spec (zlen (queue_model s)) CAPACITY) as [Hl|]; [|by exists s].
    destruct (fuzz_push_run (wrapping_add 32 value (cast 32 (zlen (queue_model s)))) sp s Ht)
      as (s1 & -> & Ht1 & _ & Em & _).
    rewrite (proj2 (Z.eqb_neq _ _)) in Em by lia. apply IH; [done|]. rewrite Em, length_app. cbn. lia.
Qed.

(** ** The ring: the same code on the other queue *)

Definition swap (s : state) : state :=
  MkState (pool s) (ring s) (queue s) (machine s) (host s) (cleared s) (live s) (last_generation s)
    (ring_model s) (queue_model s) (expected_state s).

Definition swapped (m : M state unit) : M state unit := zoom swap (fun s' _ => swap s') m.

Lemma tracks_swap (sp : Dma.spec) (s : state) : tracks sp s -> tracks sp (swap s).
Proof. intros []. by split. Qed.

Lemma passes_swap (m : M state unit) (s : state) :
  (forall sp s, tracks sp s -> exists s', m s = Done tt s' /\ tracks sp s') -> inv s ->
  exists s', swapped m s = Done tt s' /\ inv s'.
Proof.
  intros Hm [sp Ht]. destruct (Hm sp (swap s) (tracks_swap _ _ Ht)) as (s' & E & Ht').
  exists (swap s'). unfold swapped, zoom. rewrite E. split; [done|]. exists sp. by apply tracks_swap.
Qed.

Lemma ring_push_swapped (value : Z) (s : state) : ring_push value s = swapped (queue_push value) s.
Proof.
  unfold ring_push, queue_push, swapped, on_ring, on_queue, zoom, assert. msimpl. cbn.
  change (RB.push CAPACITY value) with (Spsc.push CAPACITY value).
  destruct (Spsc.push CAPACITY value _) as [r v|v|]; [|done|done].
  cbn [queue_model ring_model set_ring set_queue swap].
  destruct (_ =? _); [by destruct (bool_decide (r = Err IpcQueueFull))|by destruct (bool_decide (r = Ok tt))].
Qed.

Lemma ring_pop_swapped (s : state) : ring_pop s = swapped queue_pop s.
Proof.
  unfold ring_pop, queue_pop, swapped, on_ring, on_queue, zoom, assert. msimpl. cbn.
  change (RB.pop CAPACITY) with (Spsc.pop (T := Z) CAPACITY).
  destruct (Spsc.pop CAPACITY _) as [r v|v|]; [|done|done].
  cbn [queue_model ring_model set_ring set_queue swap]. by destruct (bool_decide _).
Qed.

Lemma fill_ring_swapped (fuel : nat) (value : Z) (s : state) :
  fill_ring fuel value s = swapped (fill_queue fuel value) s.
Proof.
  revert s. induction fuel as [|fuel IH]; intros s; [by destruct s|]. cbn [fill_ring fill_queue].
  unfold swapped, zoom. msimpl. cbn [queue_model swap]. destruct (_ <? _); [|by destruct s].
  rewrite ring_push_swapped. unfold swapped, zoom. destruct (queue_push _ (swap s)) as [[] s1|s1|]; [|done|done].
  rewrite IH. unfold swapped, zoom. by destruct s1.
Qed.

(** ** The pool *)

Lemma live_lookup (sp : Dma.spec) (s : state) (i : Z) :
  tracks sp s -> 0 <= i < 8 -> live s !! Z.to_nat i = Some (entry_of sp i).
Proof.
  intros Ht Hi. rewrite (tr_live _ _ Ht), list_lookup_fmap.
  rewrite (proj2 (lookup_seqZ 0 CAPACITY (Z.to_nat i) i)) by (unfold CAPACITY; lia). done.
Qed.

(** Changing one entry of the table. *)
Lemma entries_insert (sp sp' : Dma.spec) (i : Z) :
  0 <= i < 8 -> (forall k, 0 <= k < 8 -> k <> i -> entry_of sp' k = entry_of sp k) ->
  <[Z.to_nat i := entry_of sp' i]> (entry_of sp <$> seqZ 0 CAPACITY) = entry_of sp' <$> seqZ 0 CAPACITY.
Proof.
  intros Hi Hk. apply list_eq. intros j. destruct (decide (j = Z.to_nat i)) as [->|Hne].
  - rewrite list_lookup_insert_eq, list_lookup_fmap by (rewrite length_fmap, length_seqZ; unfold CAPACITY; lia).
    rewrite (proj2 (lookup_seqZ 0 CAPACITY (Z.to_nat i) i)) by (unfold CAPACITY; lia). done.
  - rewrite list_lookup_insert_ne, !list_lookup_fmap by done.
    destruct (seqZ 0 CAPACITY !! j) as [k|] eqn:Ek; [|done]. apply lookup_seqZ in Ek as [-> Hj].
    cbn. f_equal. symmetry. apply Hk; unfold CAPACITY in *; lia.
Qed.

Lemma tracks_pool (sp sp' : Dma.spec) (s : state) (v : Dma.world) (lv : list (option (Z * Z))) (lg : list Z) :
  tracks sp s -> later (host s) (Dma.host v) -> Dma.pool_repr CAPACITY v sp' ->
  Dma.memory (Dma.pool v) = pool_backing -> lv = entry_of sp' <$> seqZ 0 CAPACITY ->
  length lg = 8%nat /\ Forall (in_width 64) lg ->
  tracks sp' (set_last_generation lg (set_live lv (set_pool v s))).
Proof.
  intros Ht L R Hb Hl Hg. destruct (tracks_host sp s _ Ht L) as [_ _ _ _ Hq Hr Hm Hf HC].
  split; cbn in *; try done. by destruct v.
Qed.

Lemma tracks_idle (sp : Dma.spec) (s : state) :
  tracks sp s -> tracks sp (set_pool (Dma.set_host (host s) (pool s)) s).
Proof.
  intros Ht. pose proof Ht as [Hp Hb Hl Hg _ _ _ _ _].
  by apply (tracks_pool sp sp s (Dma.set_host (host s) (pool s)) (live s) (last_generation s)).
Qed.

Lemma write_keeps_pool (sp : Dma.spec) (v : Dma.world) (i : nat) (l : list byte) :
  Dma.pool_repr CAPACITY v sp -> Z.of_nat (i + length l) <= zlen (Dma.region v) ->
  Dma.pool_repr CAPACITY (Dma.set_region (take i (Dma.region v) ++ l ++ drop (i + length l) (Dma.region v)) v) sp.
Proof.
  intros [? ? ? ? Hr ? ? ? ?] Hl. split; try done. cbn [Dma.set_region Dma.region]. rewrite <- Hr. unfold zlen in *.
  rewrite !length_app, length_take, length_drop. lia.
Qed.

Lemma slot_entry (sp : Dma.spec) (i : Z) (l : list Z) (g : Z) :
  NoDup (i :: l) -> 0 <= i < 8 -> length (Dma.s_gens sp) = 8%nat -> Dma.s_free sp = i :: l ->
  let sp' := Dma.MkSpec l (<[Z.to_nat i := g]> (Dma.s_gens sp)) in
  entry_of sp' i = Some (g, pool_backing + i * 16) /\
  forall k, 0 <= k < 8 -> k <> i -> entry_of sp' k = entry_of sp k.
Proof.
  intros [Hni _]%NoDup_cons Hi Hg Hf sp'. unfold entry_of. cbn [Dma.s_free sp'].
  assert (Hgen : forall k, 0 <= k < 8 -> Dma.gen sp' k = if decide (i = k) then g else Dma.gen sp k).
  { intros k Hk. apply (Dma.gen_insert CAPACITY); [unfold CAPACITY|..]; (done || lia). }
  split.
  - rewrite decide_False, Hgen, decide_True by done. done.
  - intros k Hk Hne. rewrite Hgen, Hf, (decide_False (P := i = k)) by (done || congruence).
    destruct (decide (k ∈ l)) as [Hin|Hin].
    + rewrite decide_True; [done|]. by apply elem_of_cons; right.
    + rewrite decide_False; [done|]. rewrite elem_of_cons. by intros [|].
Qed.

Lemma generation_width (l : list Z) (i : nat) (g : Z) :
  length l = 8%nat /\ Forall (in_width 64) l -> in_width 64 g ->
  length (<[i := g]> l) = 8%nat /\ Forall (in_width 64) (<[i := g]> l).
Proof. intros [Hl Hf] Hg. rewrite length_insert. split; [done|]. by apply Forall_insert. Qed.

Lemma assert_true (b : bool) (s : state) : b = true -> assert b s = Done tt s.
Proof. by intros ->. Qed.

Lemma all_live (a : Dma.spec) (s : state) :
  tracks a s -> Dma.s_free a = [] -> forallb (fun e => bool_decide (is_Some e)) (live s) = true.
Proof.
  intros Ht Ef. apply forallb_forall. intros e He. apply list_elem_of_In in He.
  rewrite (tr_live _ _ Ht) in He. apply list_elem_of_fmap in He as (k & -> & _).
  apply bool_decide_eq_true. unfold entry_of. rewrite Ef, decide_False by apply not_elem_of_nil. by eexists.
Qed.

Lemma write_buffer_run (i : Z) (l : list byte) (s : state) :
  0 <= i < 8 -> length l = 16%nat -> zlen (Dma.region (pool s)) = 128 ->
  let r := Dma.region (pool s) in
  write_buffer pool_backing (pool_backing + i * 16) l s =
    Done tt (set_pool (Dma.set_host (host s) (Dma.set_region
      (take (Z.to_nat (i * 16)) r ++ l ++ drop (Z.to_nat (i * 16) + length l) r) (pool s))) s).
Proof.
  intros Hi Hl Hr r. unfold write_buffer. msimpl. replace (_ + _ - _) with (i * 16) by lia.
  rewrite Hr. rewrite (proj2 (Z.leb_le 0 _)), (proj2 (Z.leb_le (_ + _) _)) by (unfold zlen; lia). done.
Qed.

Lemma fuzz_allocate_run (debug : bool) (sp : list bool) (operation : byte) :
  passes (pool_allocate debug pool_backing sp operation).
Proof.
  intros s [a Ht]. pose proof (tr_pool _ _ Ht) as R. pose proof R as [_ _ _ Hg Hreg _ [Hnd Hall] _ _].
  unfold pool_allocate, on_pool, zoom, index. msimpl. destruct (Dma.s_free a) as [|i l] eqn:Ef.
  - rewrite (Dma.allocate_empty CAPACITY debug _ sp _ a R Ef) by lia.
    rewrite assert_true by by apply bool_decide_eq_true. rewrite assert_true by exact (all_live _ _ Ht Ef).
    eexists. split; [done|].
    exists a. by apply tracks_idle.
  - apply Forall_cons in Hall as [Hi _].
    destruct (Dma.allocate_item CAPACITY ltac:(done) ltac:(done) debug (S (length sp)) sp _ a i l R Ef)
      as (v & -> & R' & Er & Eh & Em); [lia|]. cbn [set_pool live].
    rewrite (live_lookup _ _ _ Ht Hi). unfold entry_of. rewrite Ef, decide_True by left. cbn [assert].
    set (g := (Dma.gen a i + 1) mod 2 ^ 63) in *.
    cbn in Em. rewrite (tr_base _ _ Ht) in Em.
    rewrite assert_true by by apply bool_decide_eq_true. cbn [Dma.set_host Dma.pool]. rewrite (tr_base _ _ Ht).
    change Dma.size_of with 16. rewrite write_buffer_run; [|done|apply length_replicate|cbn; by rewrite Er].
    cbn -[replicate take drop Z.mul zlen].
    destruct (lookup_lt_is_Some_2 (last_generation s) (Z.to_nat i)) as [g0 ->].
    { destruct (tr_last _ _ Ht) as [-> _]. unfold CAPACITY in Hi. lia. }
    destruct (slot_entry a i l g Hnd Hi Hg Ef) as [He Hk].
    eexists. split; [done|]. eexists (Dma.MkSpec l (<[Z.to_nat i := g]> (Dma.s_gens a))).
    eapply (tracks_pool a _ s (Dma.set_host (Dma.host v) (Dma.set_region _ v))); [done|by cbn; rewrite Eh|..].
    + destruct (write_keeps_pool _ v (Z.to_nat (i * 16)) (replicate 16 operation) R') as [];
        [rewrite Er, Hreg, length_replicate; unfold CAPACITY in *; cbn; lia|]. by split.
    + done.
    + by rewrite (tr_live _ _ Ht), <- He, entries_insert.
    + apply generation_width; [exact (tr_last _ _ Ht)|]. unfold in_width.
      pose proof (Z.mod_pos_bound (Dma.gen a i + 1) (2 ^ 63)). lia.
Qed.

(** The slot of a live entry, once freed, leaves the rest of the table as it was. *)
Lemma freed_entry (a : Dma.spec) (i : Z) :
  let a' := Dma.MkSpec (i :: Dma.s_free a) (Dma.s_gens a) in
  entry_of a' i = None /\ forall k, 0 <= k < 8 -> k <> i -> entry_of a' k = entry_of a k.
Proof.
  unfold entry_of. cbn [Dma.s_free]. split; [by rewrite decide_True by left|]. intros k _ Hne.
  destruct (decide (k ∈ Dma.s_free a)) as [Hin|Hin].
  - rewrite decide_True; [done|]. by right.
  - rewrite decide_False; [done|]. rewrite elem_of_cons. by intros [|].
Qed.

Lemma read_wiped (i : Z) (r : list byte) (s : state) :
  0 <= i < 8 -> zlen r = 128 -> Dma.region (pool s) = Dma.wiped (Dma.slot_start i) 16 r ->
  read_buffer pool_backing (pool_backing + i * 16) s = Done (zeros 16) s.
Proof.
  intros Hi Hr Hw. unfold read_buffer. msimpl. replace (_ + _ - _) with (i * 16) by lia.
  assert (Hl : (Dma.slot_start i + 16 <= length r)%nat).
  { unfold zlen, Dma.slot_start in *. change Dma.size_of with 16. lia. }
  rewrite Hw. unfold zlen in *. rewrite Dma.length_wiped, Hr by done.
  rewrite (proj2 (Z.leb_le 0 _)), (proj2 (Z.leb_le (_ + _) _)) by lia. cbn [andb].
  replace (Z.to_nat (i * 16)) with (Dma.slot_start i) by done. by rewrite Dma.slice_wiped.
Qed.

Lemma free_live_entry_run (sp : list bool) (i : Z) (a : Dma.spec) (s : state) :
  tracks a s -> 0 <= i < 8 -> i ∉ Dma.s_free a ->
  exists s', free_live_entry pool_backing sp i (Dma.gen a i) (pool_backing + i * 16)
      (set_live (<[Z.to_nat i := None]> (live s)) s) = Done tt s' /\
    tracks (Dma.MkSpec (i :: Dma.s_free a) (Dma.s_gens a)) s' /\ live s' = <[Z.to_nat i := None]> (live s).
Proof.
  intros Ht Hi Hni. pose proof (tr_pool _ _ Ht) as R. pose proof (Dma.pr_region _ _ _ R) as Hreg.
  destruct (Dma.pr_flush _ _ _ R) as [cb Hcb]. unfold free_live_entry, on_pool, zoom. msimpl.
  destruct (Dma.free_live CAPACITY ltac:(done) ltac:(done) (S (length sp)) sp (Dma.set_host (host s) (pool s)) a i
    (Dma.gen a i) cb R Hi) as (v & E & R' & Er & Eh & Em); [done|lia|done|].
  cbn [set_live host pool]. rewrite E, assert_true by by apply bool_decide_eq_true.
  rewrite (read_wiped i (Dma.region (pool s))); [|done|exact Hreg|exact Er].
  rewrite assert_true by by apply bool_decide_eq_true. eexists. split; [done|].
  destruct (freed_entry a i) as [He Hk]. split; [|done].
  apply (tracks_pool a _ s v (<[Z.to_nat i := None]> (live s)) (last_generation s)); [done|..].
  - rewrite Eh. apply later_log.
  - done.
  - rewrite Em. exact (tr_base _ _ Ht).
  - by rewrite (tr_live _ _ Ht), <- He, entries_insert.
  - exact (tr_last _ _ Ht).
Qed.

Lemma last_lookup (a : Dma.spec) (s : state) (i : Z) :
  tracks a s -> 0 <= i < 8 -> exists g, last_generation s !! Z.to_nat i = Some g /\ in_width 64 g.
Proof.
  intros Ht Hi. destruct (tr_last _ _ Ht) as [Hl Hf].
  destruct (lookup_lt_is_Some_2 (last_generation s) (Z.to_nat i)) as [g Eg]; [lia|].
  exists g. split; [done|]. by eapply Forall_lookup_1.
Qed.

(** A refused [free]: its answer is the abstract pool's and nothing changes. *)
Lemma refused_free (sp : list bool) (i g : Z) (error : AllocatorError) (a : Dma.spec) (s : state) :
  tracks a s -> 0 <= i -> in_width 64 g -> (Dma.spec_free CAPACITY a i g).1 = Err error ->
  on_pool (Dma.free CAPACITY (S (length sp)) sp i g) s =
    Done (Err error) (set_pool (Dma.set_host (host s) (pool s)) s).
Proof.
  intros Ht Hi Hg E. unfold on_pool, zoom.
  destruct (Dma.free_stale CAPACITY ltac:(done) (S (length sp)) sp _ a i g (tr_pool _ _ Ht) Hi Hg) as [-> _];
    by rewrite E.
Qed.

Lemma empty_entry (a : Dma.spec) (i : Z) (s : state) :
  tracks a s -> 0 <= i < 8 -> i ∈ Dma.s_free a -> set_live (<[Z.to_nat i := None]> (live s)) s = s.
Proof.
  intros Ht Hi Hin. rewrite list_insert_id; [by destruct s|].
  rewrite (live_lookup _ _ _ Ht Hi). unfold entry_of. by rewrite decide_True.
Qed.

Lemma fuzz_free_run (sp : list bool) (i : Z) : 0 <= i < 8 -> passes (pool_free pool_backing sp i).
Proof.
  intros Hi s [a Ht]. unfold pool_free, index. msimpl. rewrite (live_lookup _ _ _ Ht Hi). cbn.
  unfold entry_of. destruct (decide (i ∈ Dma.s_free a)) as [Hin|Hni].
  - destruct (last_lookup a s i Ht Hi) as (g & Eg & Hg). rewrite (empty_entry a) by done. rewrite Eg.
    rewrite (refused_free sp i g AllocDoubleFree a) by
      (done || lia || (unfold Dma.spec_free; rewrite (proj2 (Z.leb_gt _ _)), decide_False by
        (by intros [] || (unfold CAPACITY; lia)); done)).
    rewrite assert_true by by apply bool_decide_eq_true. eexists. split; [done|]. exists a. by apply tracks_idle.
  - destruct (free_live_entry_run sp i a s Ht Hi Hni) as (s' & -> & Ht' & _). eexists. split; [done|]. by eexists.
Qed.

Lemma pool_free_outside_run (sp : list bool) (i : Z) : 0 <= i < 8 -> passes (pool_free_outside sp i).
Proof.
  intros Hi s [a Ht]. unfold pool_free_outside, index. msimpl. destruct (last_lookup a s i Ht Hi) as (g & -> & Hg).
  rewrite (refused_free sp (CAPACITY + i) g AllocAddressOutOfBounds a) by
    (done || (unfold Dma.spec_free, CAPACITY; rewrite (proj2 (Z.leb_le _ _)) by lia; done) || (unfold CAPACITY; lia)).
  rewrite assert_true by by apply bool_decide_eq_true. eexists. split; [done|]. exists a. by apply tracks_idle.
Qed.

Lemma drain_run (spurious : nat -> list bool) (i : nat) (s : state) :
  (i < 8)%nat -> inv s ->
  exists s', drain spurious pool_backing i s = Done tt s' /\ inv s' /\ live s' = <[i := None]> (live s).
Proof.
  intros Hi [a Ht]. unfold drain, index. msimpl. pose proof (live_lookup a s (Z.of_nat i) Ht ltac:(lia)) as El.
  rewrite El. cbn. unfold entry_of in *. rewrite Nat2Z.id in El.
  destruct (decide (Z.of_nat i ∈ Dma.s_free a)) as [Hin|Hni].
  - exists s. rewrite list_insert_id by done. split; [by destruct s|]. split; [by exists a|done].
  - destruct (free_live_entry_run (spurious (256 + i)%nat) (Z.of_nat i) a s Ht ltac:(lia) Hni) as (s' & E & Ht' & El').
    rewrite Nat2Z.id in E, El'. exists s'. split; [exact E|]. split; [by eexists|done].
Qed.

(** ** The machine, the counters and the callbacks *)

Lemma advance_run (sp : list bool) (target : SM.EnclaveState) : passes (advance sp target).
Proof.
  intros s [a Ht]. pose proof (tr_machine _ _ Ht) as Em.
  unfold advance, on_machine, zoom, SM.try_advance, SM.get_state. msimpl.
  rewrite SM.advance_loop_run by lia. rewrite Em.
  change (valid_transition (expected_state s)) with (SM.valid (expected_state s)).
  destruct (SM.valid (expected_state s) (SM.code target)).
  - rewrite assert_true by done. cbn. rewrite Z.eqb_refl. eexists. split; [done|]. exists a. destruct Ht. by split.
  - rewrite assert_true by done. cbn. rewrite Em, Z.eqb_refl. eexists. split; [done|]. exists a. destruct Ht.
    by split.
Qed.

Lemma counted_push_run (value : Z) : passes (counted_push flush_a flush_b value).
Proof.
  intros s [a Ht]. unfold counted_push, flush_counts. msimpl.
  destruct (fuzz_push_run value a s Ht) as (s' & -> & Ht' & Ec & _ & Hh).
  destruct (Z.eqb_spec (zlen (queue_model s)) CAPACITY) as [|Hne]; cbn [negb].
  - eexists. split; [done|]. by exists a.
  - destruct (Hh Hne) as (cb & p & Hcb & E). rewrite assert_true; [eexists; split; [done|by exists a]|].
    destruct (tr_counts _ _ Ht) as [C1 C2]. rewrite E, Ec. cbn [fst snd].
    apply orb_true_iff. destruct Hcb as [-> | ->]; [left|right]; apply Nat.ltb_lt; rewrite flushes_log; lia.
Qed.

Lemma peek_run :
  passes (item ← on_ring (RB.peek CAPACITY); s ← get; assert (bool_decide (item = list.head (ring_model s)))).
Proof.
  intros s [a Ht]. pose proof (tr_ring _ _ Ht) as R. unfold on_ring, zoom. msimpl.
  destruct (ring_model s) as [|x l] eqn:El.
  - rewrite (RB.peek_empty CAPACITY _ R). cbn [set_ring ring_model]. rewrite El.
    rewrite assert_true by by apply bool_decide_eq_true. eexists. split; [done|]. exists a.
    rewrite <- El in R. by apply (tracks_ring a s _ (ring_model s)).
  - destruct (RB.peek_item CAPACITY _ x l R) as [e ->]. cbn [set_ring ring_model]. rewrite El.
    rewrite assert_true by by apply bool_decide_eq_true. eexists. split; [done|]. exists a.
    apply (tracks_ring a s (Spsc.set_host (log e (host s)) (Spsc.set_host (host s) (ring s))) (ring_model s)); [done|apply later_log|].
    rewrite <- El in R. eapply (queue_later (host s)); [apply later_log|exact R].
Qed.

Lemma install_callbacks_run (invalidate_a invalidate_b : FnPtr) (use_b : bool) :
  passes (install_callbacks flush_a flush_b invalidate_a invalidate_b use_b).
Proof.
  intros s [a Ht]. unfold install_callbacks. msimpl. eexists. split; [done|]. exists a.
  destruct Ht as [[] ? ? ? [] [] ? ? ?]. split; cbn in *; try done; try (split; cbn in *; by eauto).
  destruct use_b; auto.
Qed.

(** ** One operation, and all of them *)

Lemma tracks_passes (m : M state unit) :
  (forall a s, tracks a s -> exists s', m s = Done tt s' /\ tracks a s') -> passes m.
Proof. intros Hm s [a Ht]. destruct (Hm a s Ht) as (s' & E & Ht'). exists s'. split; [done|]. by exists a. Qed.

Lemma swapped_passes (m k : M state unit) :
  (forall s, m s = swapped k s) -> (forall a s, tracks a s -> exists s', k s = Done tt s' /\ tracks a s') -> passes m.
Proof. intros E Hk s Hs. rewrite E. by apply passes_swap. Qed.

Lemma queue_push_tracks (value : Z) (a : Dma.spec) (s : state) :
  tracks a s -> exists s', queue_push value s = Done tt s' /\ tracks a s'.
Proof. intros Ht. destruct (fuzz_push_run value a s Ht) as (s' & E & Ht' & _). eauto. Qed.

Lemma fill_queue_tracks (value : Z) (a : Dma.spec) (s : state) :
  tracks a s -> exists s', fill_queue 9 value s = Done tt s' /\ tracks a s'.
Proof. intros Ht. apply fill_queue_run; [done|lia]. Qed.

Variables (debug : bool) (spurious : nat -> list bool) (invalidate_a invalidate_b : FnPtr).

Lemma operate_run (input : list byte) (step : nat) (operation : byte) :
  passes (operate debug spurious flush_a flush_b invalidate_a invalidate_b pool_backing input step operation).
Proof.
  unfold operate. set (i := bval _ mod CAPACITY). set (value := le_val _).
  assert (Hi : 0 <= i < 8) by by apply Z.mod_pos_bound.
  assert (Hq : passes (queue_push value)) by (apply tracks_passes; apply queue_push_tracks).
  assert (Hr : passes (ring_push value)) by (eapply swapped_passes; [apply ring_push_swapped|apply queue_push_tracks]).
  repeat case_match; first
    [ apply fuzz_allocate_run | by apply fuzz_free_run | by apply pool_free_outside_run | apply counted_push_run
    | done | apply tracks_passes; apply queue_pop_run
    | eapply swapped_passes; [apply ring_pop_swapped|apply queue_pop_run]
    | apply passes_bind; [apply tracks_passes; apply fill_queue_tracks|done]
    | apply passes_bind; [eapply swapped_passes; [apply fill_ring_swapped|apply fill_queue_tracks]|done]
    | apply peek_run | apply advance_run | apply install_callbacks_run ].
Qed.

Lemma operations_run (input : list byte) (step : nat) (ops : list byte) :
  passes (operations debug spurious flush_a flush_b invalidate_a invalidate_b pool_backing input step ops).
Proof.
  revert step. induction ops as [|operation ops IH]; intros step; cbn [operations].
  - intros s Hs. by exists s.
  - apply passes_bind; [apply operate_run|apply IH].
Qed.

Lemma drain_all_run (s : state) :
  inv s ->
  exists s', for_range 0 (Z.to_nat CAPACITY) (drain spurious pool_backing) s = Done tt s' /\ inv s' /\
    live s' = replicate 8 None.
Proof.
  intros Hs. change (Z.to_nat CAPACITY) with 8%nat. destruct (for_range_inv (fun i s => inv s /\ forall k, (k < i)%nat -> live s !! k = Some None)
    (drain spurious pool_backing) 0 8 s) as (s' & E & Hi & Hl).
  - intros i s0 Hi [H0 Hk]. destruct (drain_run spurious i s0) as (s1 & E & H1 & El); [lia|done|].
    exists s1. split; [done|]. split; [done|]. intros k Hlt. rewrite El. destruct (decide (k = i)) as [->|].
    + destruct H0 as [a Ht]. rewrite list_lookup_insert_eq; [done|].
      rewrite (tr_live _ _ Ht), length_fmap, length_seqZ. unfold CAPACITY. lia.
    + rewrite list_lookup_insert_ne by done. apply Hk. lia.
  - split; [done|]. intros k Hk. lia.
  - exists s'. split; [done|]. split; [done|]. destruct Hi as [a Ht]. apply list_eq. intros k.
    destruct (decide (k < 8)%nat) as [Hlt|Hge].
    + rewrite Hl, lookup_replicate_2 by (cbn; lia). done.
    + rewrite !lookup_ge_None_2; [done|rewrite length_replicate; lia|].
      rewrite (tr_live _ _ Ht), length_fmap, length_seqZ. unfold CAPACITY. lia.
Qed.

End proofs.

(** * Start of a run *)

(** A page-aligned box that does not wrap around the address space. *)
Definition boxed (backing : Z) : Prop :=
  backing <> 0 /\ backing mod 4096 = 0 /\ backing + CAPACITY * slot_size < 2 ^ 64.

Lemma init_twice_run {E} `{EqDecision E} (init : M state (result unit E)) (already : E) (s s1 s2 : state) :
  init s = Done (Ok tt) s1 -> init s1 = Done (Err already) s2 -> init_twice init already s = Done tt s2.
Proof.
  intros E1 E2. unfold init_twice. rewrite (mbind_done _ _ _ _ _ E1). msimpl.
  rewrite assert_true by by apply bool_decide_eq_true. rewrite E2. apply assert_true. by apply bool_decide_eq_true.
Qed.

Lemma queue_init (backing : Z) (w : Spsc.world Z) :
  boxed backing -> Spsc.queue w = Spsc.new -> length (Spsc.slots w) = 8%nat ->
  is_Some (CACHE_FLUSH_CB (Spsc.host w)) -> is_Some (CACHE_INVALIDATE_CB (Spsc.host w)) ->
  exists v, Spsc.init CAPACITY backing (CAPACITY * slot_size) w = Done (Ok tt) v /\
    Spsc.init CAPACITY backing (CAPACITY * slot_size) v = Done (Err IpcAlreadyInitialized) v /\
    spsc_repr CAPACITY v [] /\ Spsc.host v = Spsc.host w.
Proof.
  intros (H1 & H2 & H3) Hq Hl Hf Hi.
  assert (Hr : region_ok (T := Z) CAPACITY backing (CAPACITY * slot_size)).
  { split_and!; try done. change slot_align with 64. apply Z.mod_divide; [done|].
    apply Z.mod_divide in H2 as [k ->]; [|done]. exists (k * 64). lia. }
  destruct (spsc_init_exact CAPACITY backing (CAPACITY * slot_size) w) as (_ & _ & Hok); try done; [by rewrite Hq..|].
  destruct (Hok Hr) as (v & E & R & _ & _ & Eh); [by rewrite Hq|].
  exists v. split_and!; [done| |done|done]. rewrite init_run, (repr_init _ _ _ R) by done. done.
Qed.

Lemma pool_init (backing : Z) (w : Dma.world) :
  boxed backing -> Dma.pool w = Dma.new CAPACITY -> length (Dma.region w) = 128%nat ->
  is_Some (CACHE_FLUSH_CB (Dma.host w)) ->
  exists v, Dma.init CAPACITY 1 backing (16 * CAPACITY) w = Done (Ok tt) v /\
    Dma.init CAPACITY 1 backing (16 * CAPACITY) v = Done (Err AllocAlreadyInitialized) v /\
    Dma.pool_repr CAPACITY v (Dma.fresh CAPACITY) /\ Dma.memory (Dma.pool v) = backing /\
    Dma.host v = Dma.host w.
Proof.
  intros (H1 & H2 & H3) Hp Hl Hf.
  assert (Hfit : Dma.region_fits CAPACITY backing (16 * CAPACITY)).
  { split_and!; try done. change (CAPACITY * slot_size (T := Z)) with 512 in H3.
    change (CAPACITY * Dma.size_of) with 128. lia. }
  assert (Hal : Dma.region_aligned backing) by (split; [done|apply Z.mod_1_r]).
  assert (Hreg : zlen (Dma.region w) = CAPACITY * Dma.size_of) by (unfold zlen; by rewrite Hl).
  destruct (Dma.init_ready CAPACITY ltac:(done) ltac:(done) 1 backing (16 * CAPACITY) w)
    as (v & E & R & Em & _ & Eh); try done; [by rewrite Hp..|].
  exists v. split_and!; try done. pose proof R as [Hi Hn Ho _ Hr _ _ _ Hc].
  destruct (Dma.dma_init_exact CAPACITY 1 backing (16 * CAPACITY) v) as (_ & _ & Hagain & _); try done.
  apply Hagain; [done..|]. by rewrite Hi.
Qed.

Lemma pool_twice (backing : Z) (s : state) :
  boxed backing -> Dma.pool (pool s) = Dma.new CAPACITY -> length (Dma.region (pool s)) = 128%nat ->
  is_Some (CACHE_FLUSH_CB (host s)) ->
  exists v, init_twice (on_pool (Dma.init CAPACITY 1 backing (16 * CAPACITY))) AllocAlreadyInitialized s =
      Done tt (set_pool v s) /\
    Dma.pool_repr CAPACITY v (Dma.fresh CAPACITY) /\ Dma.memory (Dma.pool v) = backing /\ Dma.host v = host s.
Proof.
  intros Hb Hp Hl Hf.
  destruct (pool_init backing (Dma.set_host (host s) (pool s))) as (v & E1 & E2 & R & Hm & Hh); try done.
  exists v. split_and!; try done. apply (init_twice_run _ _ s (set_pool v s)); unfold on_pool, zoom; [by rewrite E1|].
  cbn [set_pool pool host]. replace (Dma.set_host (Dma.host v) v) with v by by destruct v. by rewrite E2.
Qed.

Lemma queue_twice (backing : Z) (s : state) :
  boxed backing -> Spsc.queue (queue s) = Spsc.new -> length (Spsc.slots (queue s)) = 8%nat ->
  is_Some (CACHE_FLUSH_CB (host s)) -> is_Some (CACHE_INVALIDATE_CB (host s)) ->
  exists v, init_twice (on_queue (Spsc.init CAPACITY backing (CAPACITY * slot_size))) IpcAlreadyInitialized s =
      Done tt (set_queue v s) /\ spsc_repr CAPACITY v [] /\ Spsc.host v = host s.
Proof.
  intros Hb Hq Hl Hf Hi.
  destruct (queue_init backing (Spsc.set_host (host s) (queue s))) as (v & E1 & E2 & R & Hh); try done.
  exists v. split_and!; try done. apply (init_twice_run _ _ s (set_queue v s)); unfold on_queue, zoom; [by rewrite E1|].
  cbn [set_queue queue host]. replace (Spsc.set_host (Spsc.host v) v) with v by by destruct v. by rewrite E2.
Qed.

Lemma ring_twice (backing : Z) (s : state) :
  boxed backing -> Spsc.queue (ring s) = Spsc.new -> length (Spsc.slots (ring s)) = 8%nat ->
  is_Some (CACHE_FLUSH_CB (host s)) -> is_Some (CACHE_INVALIDATE_CB (host s)) ->
  exists v, init_twice (on_ring (RB.init CAPACITY backing (CAPACITY * slot_size))) IpcAlreadyInitialized s =
      Done tt (set_ring v s) /\ spsc_repr CAPACITY v [] /\ Spsc.host v = host s.
Proof.
  intros Hb Hq Hl Hf Hi.
  destruct (queue_init backing (Spsc.set_host (host s) (ring s))) as (v & E1 & E2 & R & Hh); try done.
  exists v. split_and!; try done. apply (init_twice_run _ _ s (set_ring v s)); unfold on_ring, zoom;
    rewrite RB.init_same; [by rewrite E1|].
  cbn [set_ring ring host]. replace (Spsc.set_host (Spsc.host v) v) with v by by destruct v. by rewrite E2.
Qed.

(** C19: no input makes the stateful fuzz target fail. Whatever the bytes, however the
    weak exchanges fail, and whatever the three backings hold at first, every answer of
    the pool, the two queues and the machine is the one the target's own reference
    model predicts, no table index and no buffer access is out of range, both loops that
    fill a queue end, and the target returns with every slot of the pool freed. *)
Theorem rtos_fuzz_never_fails (debug : bool) (spurious : nat -> list bool)
    (flush_a flush_b invalidate_a invalidate_b : FnPtr) (pool_backing queue_backing ring_backing : Z)
    (r : list byte) (q1 q2 : list (CacheAlignedSlot Z)) (h : Host) (input : list byte) :
  boxed pool_backing -> boxed queue_backing -> boxed ring_backing ->
  length r = 128%nat -> length q1 = 8%nat -> length q2 = 8%nat ->
  exists s, fuzz_target debug spurious flush_a flush_b invalidate_a invalidate_b
      pool_backing queue_backing ring_backing input (start r q1 q2 h) = Done tt s /\
    live s = replicate 8 None.
Proof.
  intros Hp Hq Hr Lr L1 L2. unfold fuzz_target, clear_counts, install_callbacks. msimpl.
  set (s1 := set_host _ _). destruct (pool_twice pool_backing s1) as (v1 & -> & R1 & M1 & H1); try done.
  set (s2 := set_pool v1 s1). assert (Eh : host s2 = host s1) by done.
  destruct (queue_twice queue_backing s2) as (v2 & -> & R2 & H2); try done; [by rewrite Eh..|].
  set (s3 := set_queue v2 s2). assert (Eh3 : host s3 = host s1) by by rewrite <- Eh.
  destruct (ring_twice ring_backing s3) as (v3 & -> & R3 & H3); try done; [by rewrite Eh3..|].
  assert (Hs : inv flush_a flush_b pool_backing (set_ring v3 s3)).
  { exists (Dma.fresh CAPACITY). rewrite Eh3 in H3. rewrite Eh in H2. split; cbn; rewrite ?H3.
    - rewrite <- H1. by destruct v1.
    - done.
    - by vm_compute.
    - by repeat constructor.
    - rewrite <- H2. by destruct v2.
    - rewrite <- H3. by destruct v3.
    - done.
    - by left.
    - done. }
  destruct (operations_run flush_a flush_b pool_backing debug spurious invalidate_a invalidate_b input 0 (take 256 input)
    _ Hs) as (s4 & -> & H4).
  destruct (drain_all_run flush_a flush_b pool_backing spurious s4 H4) as (s5 & E5 & _ & El). by exists s5.
Qed.

(** Sixteen bytes that reach every arm of the target, over three pages. *)
Definition sample_input : list byte :=
  [x00; x01; x02; x03; x04; x05; x06; x07; x08; x09; x0a; x0b; x0c; x0d; x1d; x0e].
Definition sample_slots : list (CacheAlignedSlot Z) := replicate 8 (MkSlot Uninit 0).

Lemma rtos_fuzz_never_fails_witness :
  exists s, fuzz_target true (fun n => replicate (n mod 3) true) 1 2 3 4 4096 8192 12288 sample_input
      (start (replicate 128 xff) sample_slots sample_slots host_boot) = Done tt s /\
    live s = replicate 8 None.
Proof.
  apply (rtos_fuzz_never_fails true (fun n => replicate (n mod 3) true) 1 2 3 4 4096 8192 12288
    (replicate 128 xff) sample_slots sample_slots host_boot sample_input); by vm_compute.
Defined.

End Fuzz.
