(* ===== verification/RtosTests.v ===== *)
(** The unit tests of the rtos crate, as programs over the models: the test modules of
    spsc_queue.rs, ring_buffer.rs, static_dma_pool.rs, bitmap_scheduler.rs,
    latency_tracker.rs and lib.rs. A failed assertion, or [unwrap] of an error, is
    [halt]; a test passes when it is [Done]. Left out are the queue test whose callback
    changes the queue's memory in the middle of a pop, and the tests of ffi.rs. *)

From stdpp Require Import gmap.
From S2P Require Import Prelude RtosHost Fifo Spsc RingBuffer Scheduler DmaPool StateMachine Latency RtosTypes Testing.
Local Open Scope Z_scope.

Module RtosTests.

(** * spsc_queue.rs *)

Module Queue.

#[local] Instance u32_elem : Elem Z := {| elem_default := 0; elem_size := 4; elem_align := 4 |}.

Abbreviation world := (Spsc.world Z).

Definition assert_init (base size : Z) (expected : result unit IpcError) : M world unit :=
  r ← Spsc.init 4 base size; assert (bool_decide (r = expected)).
Definition assert_push (v : Z) (expected : result unit IpcError) : M world unit :=
  r ← Spsc.push 4 v; assert (bool_decide (r = expected)).
Definition assert_pop (expected : option Z) : M world unit :=
  r ← Spsc.pop 4; assert (bool_decide (r = expected)).
Definition assert_uninitialized : M world unit := w ← get; assert (negb (is_initialized (queue w))).

Definition storage_ptr : Z := 4096.
Definition storage_size : Z := 4 * slot_size.
Definition init_queue : M world unit := unwrap (Spsc.init 4 storage_ptr storage_size).

(** [test_cache_callback] is registered for both operations. *)
Definition install_test_callbacks (test_cache_callback : FnPtr) : M world unit :=
  modify (fun w => set_host (register_cache_invalidate (Some test_cache_callback)
    (register_cache_flush (Some test_cache_callback) (host w))) w).

Definition push_all (first count : nat) : M world unit :=
  for_range first count (fun value => unwrap (Spsc.push 4 (Z.of_nat value)) ;; mret tt).
Definition pop_all (first count : nat) : M world unit :=
  for_range first count (fun value => assert_pop (Some (Z.of_nat value))).

Definition init_rejects_invalid_memory_without_initializing : M world unit :=
  assert_init 0 0 (Err IpcInvalidMemory) ;; assert_uninitialized.

Definition init_rejects_insufficient_or_unaligned_memory_without_initializing : M world unit :=
  assert_init storage_ptr (storage_size - 1) (Err IpcInvalidMemory) ;;
  assert_init (storage_ptr + 1) storage_size (Err IpcInvalidMemory) ;;
  assert_uninitialized.

Definition init_is_one_shot_and_queue_preserves_fifo_order (cb : FnPtr) : M world unit :=
  install_test_callbacks cb ;;
  init_queue ;;
  assert_init storage_ptr storage_size (Err IpcAlreadyInitialized) ;;
  push_all 1 4 ;;
  assert_push 5 (Err IpcQueueFull) ;;
  pop_all 1 4 ;;
  assert_pop None.

Definition queue_reuses_slots_after_wraparound (cb : FnPtr) : M world unit :=
  install_test_callbacks cb ;;
  init_queue ;;
  for_range 0 128 (fun value =>
    unwrap (Spsc.push 4 (Z.of_nat value)) ;; assert_pop (Some (Z.of_nat value))).

Definition odd_slot_sequence_aborts_pop_without_consuming_data (cb : FnPtr) : M world unit :=
  install_test_callbacks cb ;;
  init_queue ;;
  unwrap (Spsc.push 4 42) ;;
  store_sequence 0 1 ;;
  assert_pop None ;;
  store_sequence 0 2 ;;
  assert_pop (Some 42).

Definition indices_wrap_past_usize_max_without_losing_order_or_capacity (cb : FnPtr) : M world unit :=
  install_test_callbacks cb ;;
  init_queue ;;
  let start := usize_max - 2 in
  modify (fun w => set_queue (store_head start (queue w)) w) ;;
  modify (fun w => set_queue (store_tail start (queue w)) w) ;;
  push_all 10 4 ;;
  w ← get;
  assert (head (queue w) =? wrapping_add 64 start 4) ;;
  assert_push 99 (Err IpcQueueFull) ;;
  pop_all 10 4 ;;
  assert_pop None ;;
  unwrap (Spsc.push 4 7) ;;
  assert_pop (Some 7).

Definition uninitialized_queue_fails_closed : M world unit :=
  assert_push 1 (Err IpcNotInitialized) ;; assert_pop None.

Definition full_queue_rejects_push_without_overwriting_the_oldest_item (cb : FnPtr) : M world unit :=
  install_test_callbacks cb ;;
  init_queue ;;
  push_all 1 4 ;;
  for_range 0 8 (fun _ => assert_push 0xDEAD (Err IpcQueueFull)) ;;
  pop_all 1 4.

Definition tests (cb : FnPtr) : list (M world unit) :=
  [init_rejects_invalid_memory_without_initializing;
   init_rejects_insufficient_or_unaligned_memory_without_initializing;
   init_is_one_shot_and_queue_preserves_fifo_order cb;
   queue_reuses_slots_after_wraparound cb;
   odd_slot_sequence_aborts_pop_without_consuming_data cb;
   indices_wrap_past_usize_max_without_losing_order_or_capacity cb;
   uninitialized_queue_fails_closed;
   full_queue_rejects_push_without_overwriting_the_oldest_item cb].

End Queue.

(** * ring_buffer.rs *)

Module Ring.

#[local] Instance u32_elem : Elem Z := {| elem_default := 0; elem_size := 4; elem_align := 4 |}.

Abbreviation world := (Spsc.world Z).

Definition assert_init (base size : Z) (expected : result unit IpcError) : M world unit :=
  r ← RB.init 4 base size; assert (bool_decide (r = expected)).
Definition assert_push (v : Z) (expected : result unit IpcError) : M world unit :=
  r ← RB.push 4 v; assert (bool_decide (r = expected)).
Definition assert_pop (expected : option Z) : M world unit :=
  r ← RB.pop 4; assert (bool_decide (r = expected)).
Definition assert_peek (expected : option Z) : M world unit :=
  r ← RB.peek 4; assert (bool_decide (r = expected)).

Definition storage_ptr : Z := 4096.
Definition storage_size : Z := 4 * slot_size.
Definition init_buffer : M world unit := unwrap (RB.init 4 storage_ptr storage_size).

Definition install_test_callbacks (count_flush count_invalidate : FnPtr) : M world unit :=
  modify (fun w => set_host (register_cache_invalidate (Some count_invalidate)
    (register_cache_flush (Some count_flush) (host w))) w).

(** The counters: calls of the callbacks. *)
Definition flush_count (cb : FnPtr) (w : world) : nat :=
  length (List.filter (fun e => match e with EvCacheFlush cb' _ _ => cb' =? cb | _ => false end) (trace (host w))).
Definition invalidate_count (cb : FnPtr) (w : world) : nat :=
  length (List.filter (fun e => match e with EvCacheInvalidate cb' _ _ => cb' =? cb | _ => false end) (trace (host w))).

Definition push_all (first count : nat) : M world unit :=
  for_range first count (fun value => unwrap (RB.push 4 (Z.of_nat value)) ;; mret tt).
Definition pop_all (first count : nat) : M world unit :=
  for_range first count (fun value => assert_pop (Some (Z.of_nat value))).

Definition init_rejects_invalid_memory_without_initializing : M world unit :=
  assert_init 0 0 (Err IpcInvalidMemory) ;;
  w ← get; assert (negb (is_initialized (queue w))).

Definition init_is_one_shot_and_peek_does_not_remove_items (cf ci : FnPtr) : M world unit :=
  install_test_callbacks cf ci ;;
  cleared_flush ← gets (flush_count cf);
  cleared_invalidate ← gets (invalidate_count ci);
  init_buffer ;;
  assert_init storage_ptr storage_size (Err IpcAlreadyInitialized) ;;
  unwrap (RB.push 4 7) ;;
  assert_peek (Some 7) ;;
  assert_pop (Some 7) ;;
  assert_pop None ;;
  flushes ← gets (flush_count cf);
  assert (flushes - cleared_flush =? 1)%nat ;;
  invalidates ← gets (invalidate_count ci);
  assert (invalidates - cleared_invalidate =? 2)%nat.

Definition full_and_empty_boundaries_are_exact (cf ci : FnPtr) : M world unit :=
  install_test_callbacks cf ci ;;
  init_buffer ;;
  assert_pop None ;;
  assert_peek None ;;
  push_all 1 4 ;;
  for_range 0 8 (fun _ => assert_push 0xDEAD (Err IpcQueueFull)) ;;
  assert_peek (Some 1) ;;
  pop_all 1 4 ;;
  assert_pop None ;;
  unwrap (RB.push 4 5) ;;
  assert_pop (Some 5).

Definition indices_wrap_past_usize_max_without_losing_order_or_capacity (cf ci : FnPtr) : M world unit :=
  install_test_callbacks cf ci ;;
  init_buffer ;;
  let start := usize_max - 1 in
  modify (fun w => set_queue (store_head start (queue w)) w) ;;
  modify (fun w => set_queue (store_tail start (queue w)) w) ;;
  push_all 20 4 ;;
  assert_push 99 (Err IpcQueueFull) ;;
  assert_peek (Some 20) ;;
  pop_all 20 4 ;;
  assert_pop None.

Definition uninitialized_buffer_fails_closed : M world unit :=
  assert_push 1 (Err IpcNotInitialized) ;; assert_pop None ;; assert_peek None.

Definition tests (cf ci : FnPtr) : list (M world unit) :=
  [init_rejects_invalid_memory_without_initializing;
   init_is_one_shot_and_peek_does_not_remove_items cf ci;
   full_and_empty_boundaries_are_exact cf ci;
   indices_wrap_past_usize_max_without_losing_order_or_capacity cf ci;
   uninitialized_buffer_fails_closed].

End Ring.

(** * static_dma_pool.rs *)

Module Dmas.
Import Dma.

(** The element types [u32], [[u8; 8]] and [()]. *)
Definition u32_layout : Layout := {| size_of := 4; align_of := 4 |}.
Definition bytes8_layout : Layout := {| size_of := 8; align_of := 1 |}.
Definition unit_layout : Layout := {| size_of := 0; align_of := 1 |}.

Section tests.
Context `{Layout}.
Variables N BITMAP_WORDS : Z.

(** Debug assertions are on in tests; no other thread and no spurious failure. *)
Definition try_allocate : M world (result (Z * Z * Z) AllocatorError) := allocate true 1 [].
Definition allocate_one : M world (Z * Z * Z) := unwrap try_allocate.
Definition try_free (index token : Z) : M world (result unit AllocatorError) := Dma.free N 1 [] index token.
Definition free_one (index token : Z) : M world unit := unwrap (try_free index token).
Definition assert_free (index token : Z) (expected : result unit AllocatorError) : M world unit :=
  r ← try_free index token; assert (bool_decide (r = expected)).
Definition assert_full : M world unit :=
  r ← try_allocate; assert (bool_decide (r = Err AllocOutOfMemory)).

Definition pointer : Z := 4096.
Definition init_pool : M world unit := unwrap (Dma.init N BITMAP_WORDS pointer (N * size_of)).

Definition install_test_callback (test_cache_flush : FnPtr) : M world unit :=
  modify (fun w => set_host (register_cache_flush (Some test_cache_flush) (host w)) w).

(** [pointer.write(v)] and [pointer.read()], byte by byte, little-endian. *)
Definition write_bytes (p : Z) (v : list byte) : M world unit :=
  for_range 0 (length v) (fun i => write_byte (p + Z.of_nat i) (default x00 (v !! i))).
Definition read_bytes (p : Z) (n : nat) : M world (list byte) :=
  w ← get; mret (take n (drop (Z.to_nat (p - memory (pool w))) (region w))).
Definition u32_bytes (v : Z) : list byte := le_bytes 4 v.

Definition free_list_allocates_every_slot_once : M world unit :=
  init_pool ;;
  for_range 0 (Z.to_nat N) (fun expected =>
    r ← allocate_one; let '(index, _, _) := r in assert (index =? Z.of_nat expected)) ;;
  assert_full.

(** The two tests of stale tokens; the second also compares the tokens. *)
Definition stale_token (compare : bool) (cb : FnPtr) (first second : Z) : M world unit :=
  install_test_callback cb ;;
  init_pool ;;
  r ← allocate_one;
  let '(index, first_generation, first_pointer) := r in
  write_bytes first_pointer (u32_bytes first) ;;
  free_one index first_generation ;;
  r ← allocate_one;
  let '(index, second_generation, second_pointer) := r in
  (if compare then assert (negb (first_generation =? second_generation)) else mret tt) ;;
  write_bytes second_pointer (u32_bytes second) ;;
  assert_free index first_generation (Err AllocDoubleFree) ;;
  v ← read_bytes second_pointer 4;
  assert (bool_decide (v = u32_bytes second)) ;;
  free_one index second_generation.
Definition stale_generation_cannot_free_reused_slot (cb : FnPtr) : M world unit :=
  stale_token false cb 0xA5A5A5A5 0x5A5A5A5A.
Definition stale_free_never_clears_a_newer_atomic_ownership_state (cb : FnPtr) : M world unit :=
  stale_token true cb 0x11112222 0x33334444.

(** The loop of the reuse test, from [expected_generation] on. *)
Fixpoint reuse (count : nat) (expected_generation index stale_generation allocation : Z) : M world Z :=
  match count with
  | O => mret stale_generation
  | S count =>
      write_bytes allocation (u32_bytes (cast 32 expected_generation)) ;;
      free_one index stale_generation ;;
      r ← allocate_one;
      let '(next_index, next_generation, next_allocation) := r in
      assert (next_index =? index) ;;
      assert (negb (next_generation =? stale_generation)) ;;
      assert_free index stale_generation (Err AllocDoubleFree) ;;
      reuse count (expected_generation + 1) index next_generation next_allocation
  end.

Definition rapid_reuse_rejects_every_stale_generation (cb : FnPtr) : M world unit :=
  install_test_callback cb ;;
  init_pool ;;
  r ← allocate_one;
  let '(index, stale_generation, allocation) := r in
  stale_generation ← reuse 64 1 index stale_generation allocation;
  free_one index stale_generation.

Definition free_zeroizes_raw_storage_before_reuse (cb : FnPtr) : M world unit :=
  install_test_callback cb ;;
  init_pool ;;
  r ← allocate_one;
  let '(index, generation, allocation) := r in
  write_bytes allocation (replicate 8 xa5) ;;
  free_one index generation ;;
  v ← read_bytes allocation 8;
  assert (bool_decide (v = zeros 8)).

Definition init_rejects_zero_sized_storage_descriptors : M world unit :=
  r ← Dma.init N BITMAP_WORDS 1 0;
  assert (bool_decide (r = Err AllocAddressOutOfBounds)).

(** Allocates [count] slots and keeps their indices and tokens. *)
Fixpoint hold (count : nat) : M world (list (Z * Z)) :=
  match count with
  | O => mret []
  | S count =>
      r ← allocate_one;
      let '(index, token, _) := r in
      held ← hold count; mret ((index, token) :: held)
  end.
Fixpoint free_held (held : list (Z * Z)) : M world unit :=
  match held with [] => mret tt | (index, token) :: held => free_one index token ;; free_held held end.

Definition free_list_aba_generation_wraps_without_corrupting_the_list (cb : FnPtr) : M world unit :=
  install_test_callback cb ;;
  init_pool ;;
  on_pool (store_head (pack_head 0 (u32_max - 1))) ;;
  held ← hold 3;
  assert_full ;;
  free_held held ;;
  again ← hold 3;
  assert (bool_decide (NoDup (map fst again))) ;;
  assert_full.

Definition ownership_token_wraps_and_stale_tokens_remain_rejected (cb : FnPtr) : M world unit :=
  install_test_callback cb ;;
  init_pool ;;
  let last := OWNERSHIP_GENERATION_MASK in
  write_ownership 0 last ;;
  r ← allocate_one;
  let '(index, wrapped, _) := r in
  assert (wrapped =? 0) ;;
  assert_free index last (Err AllocDoubleFree) ;;
  free_one index wrapped ;;
  assert_free index wrapped (Err AllocDoubleFree) ;;
  r ← allocate_one;
  let '(_, next, _) := r in
  assert (next =? 1) ;;
  assert_free index (2 ^ 64 - 1) (Err AllocDoubleFree).

End tests.

(** The tests with the pool each of them makes; the storage held [fill]. *)
Definition start (l : Layout) (N : Z) (fill : byte) : world :=
  MkWorld (Dma.new N) (replicate (Z.to_nat (N * @size_of l)) fill) host_boot.

Definition tests (fill : byte) (cb : FnPtr) : list bool :=
  let one := start u32_layout 1 fill in
  [passes (@free_list_allocates_every_slot_once u32_layout 65 2) (start u32_layout 65 fill);
   passes (@stale_generation_cannot_free_reused_slot u32_layout 1 1 cb) one;
   passes (@stale_free_never_clears_a_newer_atomic_ownership_state u32_layout 1 1 cb) one;
   passes (@rapid_reuse_rejects_every_stale_generation u32_layout 1 1 cb) one;
   passes (@free_zeroizes_raw_storage_before_reuse bytes8_layout 1 1 cb) (start bytes8_layout 1 fill);
   passes (@init_rejects_zero_sized_storage_descriptors unit_layout 1 1) (start unit_layout 1 fill);
   passes (@free_list_aba_generation_wraps_without_corrupting_the_list u32_layout 3 1 cb) (start u32_layout 3 fill);
   passes (@ownership_token_wraps_and_stale_tokens_remain_rejected u32_layout 1 1 cb) one].

End Dmas.

(** * bitmap_scheduler.rs, and the scheduler tests of lib.rs *)

Module Scheds.
Import Sched.

(** [let mut stack = [0u64; 2]] and its size; two of them in the last test. *)
Definition base : Z := 8192.
Definition size : Z := 16.
Definition start : world := MkWorld Sched.new {[base := 0; base + 8 := 0; base + 16 := 0; base + 24 := 0]} host_boot.

Definition register_watchdog (count_watchdog_pet : FnPtr) : M world unit :=
  modify (fun w => set_host (register_pet_watchdog (Some count_watchdog_pet) (host w)) w).
Definition pets (cb : FnPtr) (w : world) : nat :=
  length (List.filter (fun e => match e with EvPetWatchdog cb' => cb' =? cb | _ => false end) (trace (host w))).
Definition assert_pets (cb : FnPtr) (cleared expected : nat) : M world unit :=
  n ← gets (pets cb); assert (n - cleared =? expected)%nat.
Definition assert_tick (current_rsp expected : Z) : M world unit :=
  r ← schedule_tick current_rsp; assert (r =? expected).
Definition assert_current (expected : Z) : M world unit := w ← get; assert (current_task (sched w) =? expected).

(** [scheduler.tasks[i].stack_base = 1] *)
Definition mark_registered (i : Z) : M world unit :=
  t ← index_task i; store_task i (MkTcb (entry_point t) 1 (stack_size t) (rsp t) (priority t) (stack_canary t)).

Definition watchdog_pets_only_after_all_critical_tasks_check_in (cb : FnPtr) : M world unit :=
  register_watchdog cb ;;
  cleared ← gets (pets cb);
  mark_registered 2 ;;
  mark_registered 5 ;;
  set_critical_task_mask (Z.lor (shl 16 1 2) (shl 16 1 5)) ;;
  task_check_in 2 ;;
  schedule_tick 0 ;;
  assert_pets cb cleared 0 ;;
  task_check_in 5 ;;
  schedule_tick 0 ;;
  assert_pets cb cleared 1 ;;
  w ← get;
  assert (watchdog_matrix (sched w) =? 0).

Definition watchdog_ignores_unregistered_critical_slots_and_checkins : M world unit :=
  set_critical_task_mask (shl 16 1 3) ;;
  w ← get;
  assert (critical_task_mask (sched w) =? 0) ;;
  task_check_in 3 ;;
  w ← get;
  assert (watchdog_matrix (sched w) =? 0).

Definition watchdog_does_not_pet_after_current_task_canary_failure (cb : FnPtr) : M world unit :=
  register_watchdog cb ;;
  cleared ← gets (pets cb);
  unwrap (create_task (new_task 1 base size (base + 8) 1) 0xA5A5) ;;
  modify_sched (set_current 1) ;;
  set_critical_task_mask (shl 16 1 1) ;;
  task_check_in 1 ;;
  write_volatile base 0xDEADBEEF ;;
  assert_tick (base + 8) 0 ;;
  assert_pets cb cleared 0.

Definition idle_fallback_does_not_run_unregistered_priority_15 : M world unit :=
  assert_tick 0 0 ;;
  assert_current 15 ;;
  modify_sched (set_bitmap (shl 16 1 15)) ;;
  assert_tick 0 0 ;;
  assert_current 15.

Definition zero_entry_point_is_rejected : M world unit :=
  assert_err (create_task (new_task 0 base size base 1) 0xA5A5).

Definition rsp_cannot_overlap_stack_canary : M world unit :=
  assert_err (create_task (new_task 1 base size base 1) 0xAA55) ;;
  unwrap (create_task (new_task 2 base size (base + 8) 2) 0xAA55).

Definition duplicate_priority_and_zero_stack_base_are_rejected : M world unit :=
  assert_err (create_task (new_task 1 0 size base 1) 0xAA55) ;;
  unwrap (create_task (new_task 1 base size (base + 8) 1) 0xAA55) ;;
  assert_err (create_task (new_task 2 base size (base + 8) 1) 0x55AA).

Definition corrupted_current_task_index_fails_closed_without_watchdog_pet (cb : FnPtr) : M world unit :=
  register_watchdog cb ;;
  cleared ← gets (pets cb);
  modify_sched (set_current 16) ;;
  modify_sched (set_mask 0) ;;
  assert_tick 0 0 ;;
  assert_current 16 ;;
  assert_pets cb cleared 0.

Definition stack_lower_bound_overflow_is_rejected : M world unit :=
  let bogus_base := 2 ^ 64 - 1 - 3 in
  assert_err (create_task (new_task 1 bogus_base (2 ^ 64 - 1) bogus_base 1) 0xA5A5).

Definition scheduler_selects_highest_priority_ready_task : M world unit :=
  let first_stack_base := base in
  let second_stack_base := base + 16 in
  let first_rsp := first_stack_base + 8 in
  let second_rsp := second_stack_base + 8 in
  unwrap (create_task (new_task 1 first_stack_base size first_rsp 5) 0xAA55) ;;
  unwrap (create_task (new_task 2 second_stack_base size second_rsp 2) 0x55AA) ;;
  assert_tick 0 second_rsp ;;
  clear_ready 2 ;;
  assert_tick second_rsp first_rsp ;;
  clear_ready 5 ;;
  assert_tick first_rsp 0.

Definition scheduler_rejects_invalid_priority : M world unit :=
  assert_err (create_task (new_task 0 0 0 0 16) 0).

Definition scheduler_rejects_invalid_stack_descriptor : M world unit :=
  assert_err (create_task (new_task 0 3 8 0 1) 0) ;;
  assert_err (create_task (new_task 0 8 7 0 1) 0) ;;
  assert_err (create_task (new_task 0 0x1000 0x100 0x2000 1) 0) ;;
  assert_err (create_task (new_task 0 (2 ^ 64 - 1 - 3) 8 (2 ^ 64 - 1 - 3) 1) 0).

Definition tests (cb : FnPtr) : list (M world unit) :=
  [watchdog_pets_only_after_all_critical_tasks_check_in cb;
   watchdog_ignores_unregistered_critical_slots_and_checkins;
   watchdog_does_not_pet_after_current_task_canary_failure cb;
   idle_fallback_does_not_run_unregistered_priority_15;
   zero_entry_point_is_rejected;
   rsp_cannot_overlap_stack_canary;
   duplicate_priority_and_zero_stack_base_are_rejected;
   corrupted_current_task_index_fails_closed_without_watchdog_pet cb;
   stack_lower_bound_overflow_is_rejected;
   scheduler_selects_highest_priority_ready_task;
   scheduler_rejects_invalid_priority;
   scheduler_rejects_invalid_stack_descriptor].

End Scheds.

(** * latency_tracker.rs, and the life-cycle test of lib.rs *)

Module Small.

Definition mark_end (t : Z) : M Lat.LatencyTracker unit := Lat.mark_end 2 [] [] t.
Definition assert_total (v : Z) : M Lat.LatencyTracker unit := t ← get; assert (Lat.total_latency t =? v).
Definition assert_samples (v : Z) : M Lat.LatencyTracker unit := t ← get; assert (Lat.samples t =? v).

Definition timestamp_zero_is_a_valid_start_and_end_is_single_use : M Lat.LatencyTracker unit :=
  Lat.mark_start 0 ;;
  mark_end 5 ;;
  assert_total 5 ;;
  assert_samples 1 ;;
  mark_end 10 ;;
  assert_samples 1.

Definition backwards_timestamp_does_not_consume_active_measurement : M Lat.LatencyTracker unit :=
  Lat.mark_start 100 ;;
  mark_end 90 ;;
  assert_samples 0 ;;
  mark_end 110 ;;
  assert_samples 1 ;;
  assert_total 10.

Definition total_latency_saturates : M Lat.LatencyTracker unit :=
  modify (Lat.set_total (2 ^ 64 - 1 - 1)) ;;
  Lat.mark_start 1 ;;
  mark_end 5 ;;
  assert_total (2 ^ 64 - 1).

Definition advance (s : SM.EnclaveState) : M SM.StateMachine (result unit unit) := SM.try_advance 1 [] s.
Definition assert_state (s : SM.EnclaveState) : M SM.StateMachine unit :=
  v ← SM.get_state; assert (v =? SM.code s).

Definition state_machine_accepts_only_valid_transitions : M SM.StateMachine unit :=
  assert_state SM.Init ;;
  assert_err (advance SM.Operational) ;;
  unwrap (advance SM.Bootstrapping) ;;
  unwrap (advance SM.Operational) ;;
  unwrap (advance SM.Degraded) ;;
  unwrap (advance SM.Operational) ;;
  assert_err (advance SM.Init) ;;
  assert_state SM.Operational.

Definition fft_result_has_one_cache_line_layout : bool :=
  (@elem_size FftResult _ =? 64) && (@elem_align FftResult _ =? 64).

Definition tests : list bool :=
  [passes timestamp_zero_is_a_valid_start_and_end_is_single_use Lat.new;
   passes backwards_timestamp_does_not_consume_active_measurement Lat.new;
   passes total_latency_saturates Lat.new;
   passes state_machine_accepts_only_valid_transitions SM.new;
   fft_result_has_one_cache_line_layout].

End Small.

(** * Evaluation *)

(** Whatever the storage holds and wherever the host's callbacks are. *)
Lemma rtos_tests_pass (s0 s1 s2 s3 : CacheAlignedSlot Z) (fill : byte) (cb : FnPtr) :
  pass_from (MkWorld Spsc.new [s0; s1; s2; s3] host_boot) (Queue.tests cb) = true /\
  pass_from (MkWorld RB.new [s0; s1; s2; s3] host_boot) (Ring.tests 1 2) = true /\
  forallb id (Dmas.tests fill cb) = true /\
  pass_from Scheds.start (Scheds.tests 1) = true /\
  forallb id Small.tests = true.
Proof.
  destruct s0, s1, s2, s3. split_and!; vm_compute; reflexivity.
Qed.

End RtosTests.
