(* ===== verification/RtosFfiTests.v ===== *)
(** The unit tests of the rtos crate's C interface, the two test modules of ffi.rs, as
    programs over its model. The variables of a test lie 1 MiB apart in one block of
    storage; [new_uninit] and [MaybeUninit] leave raw storage, and a block handed to a pool
    is a region object. *)

From stdpp Require Import gmap.
From S2P Require Import Prelude CMemory RtosHost Spsc RingBuffer Scheduler DmaPool StateMachine Latency.
From S2P Require Import RtosTypes RtosFfi Testing.
Local Open Scope Z_scope.

Module RtosFfiTests.
Import RtosC.

Definition var (i : Z) : Z := 0x1000000 + i * 0x100000.
Abbreviation null := 0%Z.
Definition usize_max : Z := 2 ^ 64 - 1.
Definition start : machine := MkMachine (MkMem [(0x1000000, 16 * 0x100000)] ∅ ∅) ∅ host_boot.

Definition write {T} `{CType object T} (p : Z) (x : T) : M machine unit := on_mem (ptr_write p x).

(** [DmaBacking([b; 256 * 2048])] and its first byte *)
Definition DMA_BYTES : Z := 256 * 2048.
Definition backing (p : Z) (b : byte) : M machine unit := write p (MkRegion (replicate (Z.to_nat DMA_BYTES) b)).
Definition assert_first (p : Z) (b : byte) : M machine unit :=
  w ← get; assert (bool_decide (list.head (region_at p (mem w)) = Some b)).
(** A byte outside any object. *)
Definition assert_byte (p : Z) (b : byte) : M machine unit :=
  r ← on_mem (read_bytes p 1); assert (bool_decide (r = [b])).

Definition install_cache_callbacks (test_cache_operation : FnPtr) : M machine unit :=
  modify (fun w => set_platform (register_cache_invalidate (Some test_cache_operation)
    (register_cache_flush (Some test_cache_operation) (platform w))) w).

Definition pool_size : Z := shawncore_rtos_dmapool2k_sizeof.
(** One attempt per weak exchange: none of them fails. *)
Definition allocate (pool idx generation ptr : Z) : M machine ShawncoreRtosErr :=
  shawncore_rtos_dmapool2k_allocate true 1 [] pool idx generation ptr.
Definition free (pool idx generation : Z) : M machine ShawncoreRtosErr :=
  shawncore_rtos_dmapool2k_free 1 [] pool idx generation.

(** * ffi_security_tests *)

Definition dmapool_init_rejects_control_object_inside_backing_storage : M machine unit :=
  let base := var 0 in
  backing base xa5 ;;
  assert_eq (shawncore_rtos_dmapool2k_init base base DMA_BYTES) RtosInvalidMemory ;;
  assert_first base xa5.

Definition dmapool_init_rejects_control_object_in_excess_backing_capacity : M machine unit :=
  let base := var 0 in
  backing base xa5 ;;
  on_mem (write_bytes (base + DMA_BYTES) (replicate (Z.to_nat pool_size) xa5)) ;;
  let pool := base + DMA_BYTES in
  assert_eq (shawncore_rtos_dmapool2k_init pool base (DMA_BYTES + pool_size)) RtosInvalidMemory ;;
  assert_byte pool xa5.

Definition TELEMETRY_BYTES : Z := 64 * shawncore_rtos_spsc_telemetry_slot_sizeof.
Definition RING_BYTES : Z := 1024 * shawncore_rtos_ringbuffer_ew_slot_sizeof.
Definition FFT_BYTES : Z := 256 * shawncore_rtos_spsc_fft_slot_sizeof.

Definition queue_initializers_reject_control_object_inside_backing_storage : M machine unit :=
  let telemetry_base := var 0 in let ring_base := var 1 in let fft_base := var 2 in
  assert_eq (shawncore_rtos_spsc_telemetry_init telemetry_base telemetry_base TELEMETRY_BYTES) RtosInvalidMemory ;;
  assert_eq (shawncore_rtos_ringbuffer_ew_init ring_base ring_base RING_BYTES) RtosInvalidMemory ;;
  assert_eq (shawncore_rtos_spsc_fft_init fft_base fft_base FFT_BYTES) RtosInvalidMemory.

Definition dmapool_allocate_rejects_result_pointer_overlapping_pool (cb : FnPtr) : M machine unit :=
  let pool := var 0 in let base := var 1 in let generation := var 2 in let buffer := var 3 in let index := var 4 in
  install_cache_callbacks cb ;;
  backing base x00 ;;
  assert_eq (shawncore_rtos_dmapool2k_init pool base DMA_BYTES) RtosSuccess ;;
  write generation (MkWord 0) ;;
  write buffer (MkWord 0) ;;
  assert_eq (allocate pool pool generation buffer) RtosInvalidMemory ;;
  write index (MkWord 0) ;;
  assert_eq (allocate pool index generation buffer) RtosSuccess ;;
  i ← on_mem (ptr_read index);
  g ← on_mem (ptr_read generation);
  assert_eq (free pool (word_val i) (word_val g)) RtosSuccess ;;
  assert_eq (shawncore_rtos_dmapool2k_destroy pool) RtosSuccess.

Definition telemetry_results (telemetry telemetry_backing event popped : Z) : M machine unit :=
  assert_eq (shawncore_rtos_spsc_telemetry_init telemetry telemetry_backing TELEMETRY_BYTES) RtosSuccess ;;
  write event telemetry_default ;;
  assert_eq (shawncore_rtos_spsc_telemetry_push telemetry event) RtosSuccess ;;
  assert_eq (shawncore_rtos_spsc_telemetry_pop telemetry telemetry) RtosInvalidMemory ;;
  assert_eq (shawncore_rtos_spsc_telemetry_pop telemetry popped) RtosSuccess ;;
  assert_eq (shawncore_rtos_spsc_telemetry_destroy telemetry) RtosSuccess.

Definition ring_results (ring ring_backing command popped : Z) : M machine unit :=
  assert_eq (shawncore_rtos_ringbuffer_ew_init ring ring_backing RING_BYTES) RtosSuccess ;;
  write command ew_default ;;
  assert_eq (shawncore_rtos_ringbuffer_ew_push ring command) RtosSuccess ;;
  assert_eq (shawncore_rtos_ringbuffer_ew_peek ring ring) RtosInvalidMemory ;;
  assert_eq (shawncore_rtos_ringbuffer_ew_pop ring ring) RtosInvalidMemory ;;
  assert_eq (shawncore_rtos_ringbuffer_ew_pop ring popped) RtosSuccess ;;
  assert_eq (shawncore_rtos_ringbuffer_ew_destroy ring) RtosSuccess.

Definition fft_results (fft fft_backing result popped : Z) : M machine unit :=
  assert_eq (shawncore_rtos_spsc_fft_init fft fft_backing FFT_BYTES) RtosSuccess ;;
  write result fft_default ;;
  assert_eq (shawncore_rtos_spsc_fft_push fft result) RtosSuccess ;;
  assert_eq (shawncore_rtos_spsc_fft_pop fft fft) RtosInvalidMemory ;;
  assert_eq (shawncore_rtos_spsc_fft_pop fft popped) RtosSuccess ;;
  assert_eq (shawncore_rtos_spsc_fft_destroy fft) RtosSuccess.

Definition queue_results_reject_control_object_overlap_without_consuming_items (cb : FnPtr) : M machine unit :=
  install_cache_callbacks cb ;;
  telemetry_results (var 0) (var 1) (var 2) (var 3) ;;
  ring_results (var 4) (var 5) (var 6) (var 7) ;;
  fft_results (var 8) (var 9) (var 10) (var 11).

(** * boundary_contract_tests *)

Definition null_and_misaligned_arguments_are_rejected_with_the_documented_codes : M machine unit :=
  let odd := var 0 + 1 in
  let invalid := RtosInvalidMemory in
  on_mem (write_bytes (var 0) (zeros 8)) ;;
  assert_eq (shawncore_rtos_scheduler_init null) invalid ;;
  assert_eq (shawncore_rtos_scheduler_init odd) invalid ;;
  assert_eq (shawncore_rtos_state_machine_init null) invalid ;;
  assert_eq (shawncore_rtos_latency_tracker_mark_start null 1) invalid ;;
  assert_eq (shawncore_rtos_state_machine_try_advance 1 [] null 0) invalid ;;
  assert_eq (allocate null null null null) invalid ;;
  assert_eq (shawncore_rtos_tcb_get_rsp null) 0 ;;
  assert_eq (shawncore_rtos_tcb_get_rsp odd) 0 ;;
  assert_eq (shawncore_rtos_scheduler_tick null 0x1234) 0x1234 ;;
  assert_eq (shawncore_rtos_scheduler_tick odd 0x1234) 0x1234.

Definition invalid_values_are_rejected_without_changing_a_live_object : M machine unit :=
  let scheduler := var 0 in let machine_ := var 1 in let tcb := var 2 in
  assert_eq (shawncore_rtos_scheduler_init scheduler) RtosSuccess ;;
  assert_eq (shawncore_rtos_scheduler_task_check_in scheduler 16) RtosInvalidMemory ;;
  assert_eq (shawncore_rtos_state_machine_init machine_) RtosSuccess ;;
  assert_eq (shawncore_rtos_state_machine_try_advance 1 [] machine_ 5) RtosInvalidState ;;
  assert_eq (shawncore_rtos_tcb_new 0 0 0 0 0 tcb) RtosTaskFault.

Definition an_absurd_backing_size_is_rejected_and_the_control_object_is_untouched : M machine unit :=
  let base := var 0 in let control := var 1 in
  let pattern := replicate (Z.to_nat pool_size) xa5 in
  backing base x00 ;;
  on_mem (write_bytes control pattern) ;;
  assert_eq (shawncore_rtos_dmapool2k_init control base usize_max) RtosInvalidMemory ;;
  assert_eq (shawncore_rtos_dmapool2k_init control base (DMA_BYTES - 1)) RtosInvalidMemory ;;
  assert_eq (shawncore_rtos_dmapool2k_init control base 0) RtosInvalidMemory ;;
  after ← on_mem (read_bytes control (Z.to_nat pool_size));
  assert (bool_decide (after = pattern)).

(** 256 allocations, then one that fails. *)
Definition exhausted_allocation (base pool index generation buffer i g b : Z) : M machine unit :=
  backing base x00 ;;
  assert_eq (shawncore_rtos_dmapool2k_init pool base DMA_BYTES) RtosSuccess ;;
  write index (MkWord 0) ;;
  write generation (MkWord 0) ;;
  write buffer (MkWord 0) ;;
  for_range 0 256 (fun _ => assert_eq (allocate pool index generation buffer) RtosSuccess) ;;
  write i (MkWord 0xDEAD) ;;
  write g (MkWord 0xBEEF) ;;
  write b (MkWord 0x10) ;;
  assert_ne (allocate pool i g b) RtosSuccess ;;
  vi ← on_mem (ptr_read i);
  vg ← on_mem (ptr_read g);
  vb ← on_mem (ptr_read b);
  assert (bool_decide ((word_val vi, word_val vg, word_val vb) = (0xDEAD, 0xBEEF, 0x10))).

Definition empty_pop (slots queue event : Z) : M machine unit :=
  let slot_bytes := TELEMETRY_BYTES in
  assert (slot_bytes <=? 16384) ;;
  assert_eq (shawncore_rtos_spsc_telemetry_init queue slots slot_bytes) RtosSuccess ;;
  let value := MkTelemetry 0xA5A5 (te_padding_1 telemetry_default) (te_timestamp telemetry_default) (te_payload telemetry_default) in
  write event value ;;
  assert_eq (shawncore_rtos_spsc_telemetry_pop queue event) RtosQueueEmpty ;;
  e ← on_mem (ptr_read event);
  assert (event_id e =? 0xA5A5).

Definition exhausted_allocation_and_empty_pop_leave_their_outputs_unchanged (no_op : FnPtr) : M machine unit :=
  install_cache_callbacks no_op ;;
  exhausted_allocation (var 0) (var 1) (var 2) (var 3) (var 4) (var 5) (var 6) (var 7) ;;
  empty_pop (var 8) (var 9) (var 10).

Definition tests (cb : FnPtr) : list (M machine unit) :=
  [dmapool_init_rejects_control_object_inside_backing_storage;
   dmapool_init_rejects_control_object_in_excess_backing_capacity;
   queue_initializers_reject_control_object_inside_backing_storage;
   dmapool_allocate_rejects_result_pointer_overlapping_pool cb;
   queue_results_reject_control_object_overlap_without_consuming_items cb;
   null_and_misaligned_arguments_are_rejected_with_the_documented_codes;
   invalid_values_are_rejected_without_changing_a_live_object;
   an_absurd_backing_size_is_rejected_and_the_control_object_is_untouched;
   exhausted_allocation_and_empty_pop_leave_their_outputs_unchanged cb].

Lemma rtos_ffi_tests_pass (cb : FnPtr) : pass_from start (tests cb) = true.
Proof. vm_compute. reflexivity. Qed.

End RtosFfiTests.
