(* ===== verification/CryptoTests.v ===== *)
(** The unit tests of the crypto crate that use the Rust interface, as programs over the
    models: those of lib.rs, session_manager.rs, hybrid_kdf.rs, entropy_queue.rs and
    entropy_pool.rs. The tests are written for any primitives. The ones that call none
    are evaluated as they stand; the others run on the instance of MixCrypto.v, where a
    changed input shows. Left out are the test whose cache-flush hook tells the
    confirmation key from other flushes by its address, since a flush is recorded with its
    bytes only, and the one whose hook calls back into the pool: EntropyConc.v covers
    callers that come in at any point. *)

From S2P Require Import Prelude CryptoHost Primitives MixCrypto Aead Kdf Session Handshake EntropyQueue EntropyPool Testing.
Local Open Scope Z_scope.

Module CryptoTests.

(** The dispatcher that [test_support] registers: three callbacks that do nothing. *)
Definition cache_flush : CFnPtr := 1.
Definition disable_interrupts : CFnPtr := 2.
Definition restore_interrupts : CFnPtr := 3.
Definition install (h : CHost) : CHost :=
  crypto_register_restore_interrupts (Some restore_interrupts)
    (crypto_register_disable_interrupts (Some disable_interrupts)
      (crypto_register_cache_flush (Some cache_flush) h)).
Definition install_callbacks : M CHost unit := modify install.

(** [disable_interrupts] answers 0. *)
#[local] Instance flags_zero : InterruptAnswers := fun _ _ => 0.

(** [a[i] ^= 1] *)
Definition flip_bit (i : nat) (a : list byte) : list byte := alter (fun b => byte_of_Z (Z.lxor (bval b) 1)) i a.
(** [[b; n]] *)
Abbreviation fill n b := (replicate n b).

(** * lib.rs: primitives *)

Section primitives.
Context `{CryptoOps}.

Definition aead_round_trip_rejects_tampering : M CHost unit :=
  install_callbacks ;;
  let enc_key := fill 32 x11 in
  let mac_key := fill 32 x22 in
  let nonce := fill 12 x33 in
  let aad := bstr "shawncore-aad" in
  let plaintext := bstr "authenticated payload" in
  r ← aead_encrypt enc_key mac_key nonce aad plaintext (zeros 21) (zeros AEAD_TAG_SIZE);
  let '(r, ciphertext, tag) := r in
  unwrap (mret r) ;;
  r ← aead_decrypt enc_key mac_key nonce aad ciphertext tag (zeros 21);
  let '(r, recovered) := r in
  unwrap (mret r) ;;
  assert (bool_decide (recovered = plaintext)) ;;
  r ← aead_decrypt enc_key mac_key nonce aad (flip_bit 0 ciphertext) tag recovered;
  let '(r, recovered) := r in
  assert_err (mret r) ;;
  assert (bool_decide (recovered = zeros 21)).

Definition chacha20_length_limit_matches_rfc8439_block_boundary : M CHost unit :=
  assert (CHACHA20_MAX_BYTES =? u32_max * 64) ;;
  assert (CHACHA20_MAX_BYTES =? 274877906880) ;;
  assert (CHACHA20_MAX_BYTES =? (u32_max - 1) * 64 + 64).

Definition aead_in_place_round_trip_rejects_tampering : M CHost unit :=
  install_callbacks ;;
  let enc_key := fill 32 x11 in
  let mac_key := fill 32 x22 in
  let nonce := fill 12 x33 in
  let aad := bstr "shawncore-aad" in
  let original := bstr "in-place payload" in
  r ← aead_encrypt_in_place enc_key mac_key nonce aad original (zeros AEAD_TAG_SIZE);
  let '(r, buffer, tag) := r in
  unwrap (mret r) ;;
  r ← aead_decrypt_in_place enc_key mac_key nonce aad buffer tag;
  let '(r, buffer) := r in
  unwrap (mret r) ;;
  assert (bool_decide (buffer = original)) ;;
  r ← aead_decrypt_in_place enc_key mac_key nonce aad buffer (flip_bit 0 tag);
  let '(r, buffer) := r in
  assert_err (mret r) ;;
  assert (bool_decide (buffer = zeros 16)).

Definition key_derivation_is_deterministic_and_wipes_inputs : M CHost unit :=
  install_callbacks ;;
  r ← derive_hybrid_key (fill 32 x44) (fill 32 x55) (bstr "salt") (bstr "context");
  let '(r, pq, classical) := r in
  expected ← unwrap (mret r);
  assert (bool_decide (pq = zeros 32)) ;;
  assert (bool_decide (classical = zeros 32)) ;;
  r ← derive_hybrid_key (fill 32 x44) (fill 32 x55) (bstr "salt") (bstr "context");
  again ← unwrap (mret r.1.1);
  assert (bool_decide (expected = again)) ;;
  r ← hkdf_expand_sha384 (fill 48 x66) (bstr "context") (zeros 64);
  let '(r, expanded) := r in
  unwrap (mret r) ;;
  assert (negb (bool_decide (expanded = zeros 64))).

Definition x25519_peers_derive_the_same_secret : M CHost unit :=
  install_callbacks ;;
  let '(alice_public, alice_secret) := x25519_keygen (fill 32 x61) in
  let '(bob_public, bob_secret) := x25519_keygen (fill 32 x62) in
  alice_shared ← unwrap (x25519_diffie_hellman alice_secret bob_public);
  bob_shared ← unwrap (x25519_diffie_hellman bob_secret alice_public);
  assert (bool_decide (alice_shared = bob_shared)).

Definition x25519_rejects_all_zero_peer_key : M CHost unit :=
  install_callbacks ;;
  let '(_, secret) := x25519_keygen (fill 32 x61) in
  assert_err (x25519_diffie_hellman secret (zeros 32)).

Definition ml_kem_peers_derive_the_same_secret : M CHost unit :=
  install_callbacks ;;
  keys ← unwrap (mret (ml_kem_keygen (fill 64 x71)));
  let '(public_key, secret_key) := keys in
  r ← unwrap (ml_kem_encapsulate public_key (fill 32 x72));
  let '(encapsulated, ciphertext) := r in
  decapsulated ← unwrap (ml_kem_decapsulate secret_key ciphertext);
  assert (bool_decide (encapsulated = decapsulated)).

Definition ml_dsa_verifies_and_rejects_modified_messages : M CHost unit :=
  install_callbacks ;;
  keys ← unwrap (mret (ml_dsa_keygen (fill 32 x81)));
  let '(public_key, signing_key) := keys in
  signature ← unwrap (ml_dsa_sign signing_key (bstr "signed message"));
  unwrap (mret (ml_dsa_verify public_key (bstr "signed message") signature)) ;;
  assert_err (mret (ml_dsa_verify public_key (bstr "modified message") signature)).

(** * hybrid_kdf.rs *)

Definition secrets : list byte * list byte := (fill 32 x11, fill 32 x22).

Definition derive (salt info : list byte) : M CHost (list byte * list byte) :=
  install_callbacks ;;
  let '(pq, classical) := secrets in
  r ← derive_hybrid_key_with_confirmation pq classical salt info (confirmation_info (fill 48 x33));
  unwrap (mret r.1.1).

Definition session_keys_are_identical_to_the_legacy_derivation : M CHost unit :=
  install_callbacks ;;
  let '(pq, classical) := secrets in
  r ← derive_hybrid_key pq classical (bstr "salt") (fill 48 x33);
  legacy ← unwrap (mret r.1.1);
  r ← derive (bstr "salt") (fill 48 x33);
  assert (bool_decide (r.1 = legacy)).

(** [slice::windows] *)
Definition windows (n : nat) (l : list byte) : list (list byte) :=
  map (fun i => slice i (i + n) l) (seq 0 (length l + 1 - n)).

Definition confirmation_keys_are_distinct_and_independent_of_the_session_keys : M CHost unit :=
  r ← derive (bstr "salt") (fill 48 x33);
  let '(session, confirmation) := r in
  let encapsulator := take 48 confirmation in
  let keygen := drop 48 confirmation in
  assert (negb (bool_decide (encapsulator = keygen))) ;;
  assert (forallb (fun w => negb (bool_decide (w = encapsulator)) && negb (bool_decide (w = keygen)))
            (windows 48 session)).

Definition a_different_salt_changes_every_confirmation_key : M CHost unit :=
  r ← derive (bstr "salt A") (fill 48 x33);
  let a := r.2 in
  r ← derive (bstr "salt B") (fill 48 x33);
  let b := r.2 in
  assert (negb (bool_decide (take 48 a = take 48 b))) ;;
  assert (negb (bool_decide (drop 48 a = drop 48 b))).

Definition confirmation_info_has_a_distinct_label_and_a_separator : M CHost unit :=
  let info := confirmation_info (fill 48 x44) in
  let n := length KEY_CONFIRMATION_INFO_LABEL in
  assert (bool_decide (take n info = KEY_CONFIRMATION_INFO_LABEL)) ;;
  assert (bool_decide (info !! n = Some x00)) ;;
  assert (bool_decide (drop (n + 1) info = fill 48 x44)) ;;
  assert (length info =? CONFIRMATION_INFO_LEN)%nat.

Definition inputs_are_zeroized : M CHost unit :=
  install_callbacks ;;
  let '(pq, classical) := secrets in
  r ← derive_hybrid_key_with_confirmation pq classical (bstr "salt") (fill 48 x33) (confirmation_info (fill 48 x33));
  let '(r, pq, classical) := r in
  unwrap (mret r) ;;
  assert (bool_decide ((pq, classical) = (zeros 32, zeros 32))).

End primitives.

(** * session_manager.rs *)

Section session.
Context `{CryptoOps}.
Import Sess Hs.

Definition install_session : M world unit := on_host install_callbacks.

Definition with_counter (tx_counter : Z) : SessionManager :=
  MkSession None None (Some (fill 64 x11)) (Some (fill 64 x22)) (key_checksum (fill 64 x11))
    (key_checksum (fill 64 x22)) true tx_counter 0 0 None.
Definition make_manager (s : SessionManager) : M world unit := on_sm (fun _ => s).

Definition key_integrity_detects_single_bit_corruption : M world unit :=
  install_session ;;
  make_manager (with_counter 0) ;;
  assert_eq verify_key_integrity (Ok tt) ;;
  on_sm (fun s => set_tx (flip_bit 0 <$> tx_key s) s) ;;
  assert_eq verify_key_integrity (Err InvalidState).

Definition failed_encryption_does_not_consume_a_nonce : M world unit :=
  install_session ;;
  make_manager (with_counter 7) ;;
  r ← encrypt_packet [] (bstr "too long") (zeros 1) (zeros 12) (zeros 48);
  assert (bool_decide (r.1.1.1 = Err InvalidState)) ;;
  w ← get;
  assert (tx_counter (sm w) =? 7).

Definition exhausted_nonce_does_not_modify_output : M world unit :=
  make_manager (set_tx_counter u64_max new) ;;
  assert_eq (get_next_tx_nonce (fill 12 xa5)) (Err InvalidState, fill 12 xa5).

Definition last_usable_counter_encrypts_once_then_refuses_without_wrapping : M world unit :=
  install_session ;;
  make_manager (with_counter (u64_max - 1)) ;;
  r ← encrypt_packet [] (bstr "ok") (zeros 2) (zeros 12) (zeros 48);
  let '(r, ciphertext, nonce, tag) := r in
  unwrap (mret r) ;;
  assert (bool_decide (take 8 nonce = le_bytes 8 (u64_max - 1))) ;;
  w ← get;
  assert (tx_counter (sm w) =? u64_max) ;;
  assert_eq (encrypt_packet [] (bstr "no") ciphertext nonce tag) (Err InvalidState, ciphertext, nonce, tag) ;;
  w ← get;
  assert (tx_counter (sm w) =? u64_max).

(** The closure of the replay-window test. *)
Definition nonce_for (sequence : Z) : list byte := le_bytes 8 sequence ++ zeros 4.

Definition replay_window_handles_extreme_sequence_numbers : M world unit :=
  make_manager new ;;
  commit_rx_nonce (nonce_for u64_max) ;;
  w ← get;
  assert (rx_counter (sm w) =? u64_max) ;;
  assert (rx_window (sm w) =? 1) ;;
  assert_eq (check_rx_nonce (nonce_for u64_max)) (Err InvalidState) ;;
  assert_eq (check_rx_nonce (nonce_for (u64_max - 1))) (Ok tt) ;;
  assert_eq (check_rx_nonce (nonce_for (u64_max - 63))) (Ok tt) ;;
  assert_eq (check_rx_nonce (nonce_for (u64_max - 64))) (Err InvalidState) ;;
  assert_eq (check_rx_nonce (nonce_for 0)) (Err InvalidState) ;;
  commit_rx_nonce (nonce_for (u64_max - 63)) ;;
  w ← get;
  assert (rx_window (sm w) =? Z.lor 1 (shl 64 1 63)) ;;
  assert_eq (check_rx_nonce (nonce_for (u64_max - 63))) (Err InvalidState).

(** The hook knows the two keys by their addresses. The record has only the bytes, but the
    keys are all that this call flushes. *)
Definition zeroize_session_wipes_each_key_before_it_is_flushed : M world unit :=
  install_session ;;
  make_manager (MkSession None None (Some (fill 64 xc3)) (Some (fill 64 x3c)) (key_checksum (fill 64 xc3))
    (key_checksum (fill 64 x3c)) true 5 9 3 None) ;;
  w ← get;
  let before := length (c_trace (ch w)) in
  zeroize_session ;;
  w ← get;
  assert (match drop before (c_trace (ch w)) with
          | [CEvFlush _ tx; CEvFlush _ rx] => bool_decide (tx = zeros 64) && bool_decide (rx = zeros 64)
          | _ => false
          end) ;;
  assert (negb (is_established (sm w))) ;;
  assert (bool_decide ((tx_counter (sm w), rx_counter (sm w), rx_window (sm w)) = (0, 0, 0))).

Definition commit_leaves_replay_state_intact_for_sequences_below_the_window : M world unit :=
  make_manager (set_rx_window 1 (set_rx_counter 100 new)) ;;
  let stale_nonce := le_bytes 8 1 ++ zeros 4 in
  assert_eq (check_rx_nonce stale_nonce) (Err InvalidState) ;;
  commit_rx_nonce stale_nonce ;;
  w ← get;
  assert (rx_counter (sm w) =? 100) ;;
  assert (rx_window (sm w) =? 1) ;;
  let in_window_nonce := le_bytes 8 99 ++ zeros 4 in
  assert_eq (check_rx_nonce in_window_nonce) (Ok tt) ;;
  commit_rx_nonce in_window_nonce ;;
  w ← get;
  assert (rx_window (sm w) =? 3) ;;
  assert_eq (check_rx_nonce in_window_nonce) (Err InvalidState).

(** * Two parties *)

Record pair : Type := MkPair {
  receiver : SessionManager;
  sender : SessionManager;
  host : CHost
}.

Definition at_receiver {A} (m : M world A) : M pair A :=
  zoom (fun p => MkWorld (receiver p) (host p)) (fun w p => MkPair (sm w) (sender p) (ch w)) m.
Definition at_sender {A} (m : M world A) : M pair A :=
  zoom (fun p => MkWorld (sender p) (host p)) (fun w p => MkPair (receiver p) (sm w) (ch w)) m.

Definition fresh_pair : M pair unit := modify (fun p => MkPair new new (install (host p))).

(** The three calls of the unauthenticated handshake; [change_ct] is what happens to the
    ciphertext on the way. *)
Definition handshake (receiver_entropy sender_entropy salt info : list byte) (change_ct : list byte -> list byte)
    (receiver_info : list byte) : M pair unit :=
  keys ← unwrap (at_receiver (initiate_handshake receiver_entropy));
  let '(kem_pk, x25519_pk) := keys in
  r ← at_sender (encapsulate_for_peer kem_pk x25519_pk sender_entropy salt info (zeros 1568) (zeros 32));
  let '(r, ciphertext, sender_pk) := r in
  unwrap (mret r) ;;
  unwrap (at_receiver (finalize_handshake sender_pk (change_ct ciphertext) salt receiver_info)).

Definition buffers_of (n : nat) : list byte * list byte * list byte := (zeros n, zeros 12, zeros AEAD_TAG_SIZE).

(** The three output buffers before and after. *)
Definition seal (aad message : list byte) (buffers : list byte * list byte * list byte)
  : M pair (list byte * list byte * list byte) :=
  let '(ciphertext, nonce, tag) := buffers in
  r ← at_sender (encrypt_packet aad message ciphertext nonce tag);
  let '(r, ciphertext, nonce, tag) := r in
  unwrap (mret r) ;;
  mret (ciphertext, nonce, tag).

(** [plaintext] is the caller's buffer. *)
Definition deliver (aad ciphertext nonce tag plaintext : list byte) : M pair (list byte) :=
  r ← at_receiver (decrypt_packet aad ciphertext nonce tag plaintext);
  unwrap (mret r.1) ;; mret r.2.
Definition refuse (aad ciphertext nonce tag plaintext : list byte) : M pair (list byte) :=
  r ← at_receiver (decrypt_packet aad ciphertext nonce tag plaintext);
  assert_err (mret r.1) ;; mret r.2.

(** The closure of the test below. *)
Definition run (tamper_ct : bool) (responder_info : list byte) : M pair bool :=
  fresh_pair ;;
  handshake (fill 96 x31) (fill 64 x42) (bstr "salt") (bstr "info")
    (fun ct => if tamper_ct then flip_bit 0 ct else ct) responder_info ;;
  packet ← seal (bstr "aad") (bstr "hello") (buffers_of 5);
  let '(wire, nonce, tag) := packet in
  r ← at_receiver (decrypt_packet (bstr "aad") wire nonce tag (zeros 5));
  let '(r, plain) := r in
  let accepted := is_ok r in
  assert (negb accepted || bool_decide (plain = bstr "hello")) ;;
  mret accepted.

Definition tampered_or_mismatched_handshake_inputs_fail_the_first_packet : M pair unit :=
  assert_eq (run false (bstr "info")) true ;;
  assert_eq (run true (bstr "info")) false ;;
  assert_eq (run false (bstr "other")) false.

(** * lib.rs: sessions *)

Definition hybrid_session_handshake_derives_matching_keys : M pair unit :=
  fresh_pair ;;
  let aad := bstr "Target session" in
  handshake (fill 96 x91) (fill 64 x92) (bstr "salt") aad id aad ;;
  packet ← seal aad (bstr "telemetry data") (buffers_of 14);
  let '(ciphertext_payload, nonce, tag) := packet in
  plaintext ← deliver aad ciphertext_payload nonce tag (zeros 14);
  assert (bool_decide (plaintext = bstr "telemetry data")) ;;
  plaintext ← refuse aad ciphertext_payload nonce tag plaintext;
  packet ← seal aad (bstr "next packet 00") packet;
  let '(ciphertext_payload, nonce, tag) := packet in
  plaintext ← deliver aad ciphertext_payload nonce tag plaintext;
  assert (bool_decide (plaintext = bstr "next packet 00")) ;;
  unwrap (at_receiver verify_key_integrity) ;;
  unwrap (at_sender verify_key_integrity).

Definition reestablishment_resets_directional_sequence_and_replay_state : M pair unit :=
  fresh_pair ;;
  let aad := bstr "rekey" in
  handshake (fill 96 x91) (fill 64 x92) (bstr "salt") aad id aad ;;
  packet ← seal aad (bstr "first key") (buffers_of 9);
  let '(ciphertext_payload, nonce, tag) := packet in
  plaintext ← deliver aad ciphertext_payload nonce tag (zeros 9);
  handshake (fill 96 x93) (fill 64 x94) (bstr "salt") aad id aad ;;
  packet ← seal aad (bstr "fresh key") packet;
  let '(ciphertext_payload, nonce, tag) := packet in
  assert (bool_decide (nonce = zeros 12)) ;;
  plaintext ← deliver aad ciphertext_payload nonce tag plaintext;
  assert (bool_decide (plaintext = bstr "fresh key")).

(** The packets of one session, each refused first with one part changed. *)
Definition tampered_packets (message second_message third_message : list byte) : M pair (list byte) :=
  let aad := bstr "replay" in
  packet ← seal aad message (buffers_of 12);
  let '(ciphertext, nonce, tag) := packet in
  plaintext ← refuse aad (flip_bit 0 ciphertext) nonce tag (zeros 12);
  plaintext ← deliver aad ciphertext nonce tag plaintext;
  assert (bool_decide (plaintext = message)) ;;
  plaintext ← refuse aad ciphertext nonce tag plaintext;
  packet ← seal aad second_message packet;
  let '(ciphertext, nonce, tag) := packet in
  plaintext ← refuse (bstr "wrong") ciphertext nonce tag plaintext;
  plaintext ← deliver aad ciphertext nonce tag plaintext;
  assert (bool_decide (plaintext = second_message)) ;;
  packet ← seal aad third_message packet;
  let '(ciphertext, nonce, tag) := packet in
  plaintext ← refuse aad ciphertext nonce (flip_bit 0 tag) plaintext;
  plaintext ← deliver aad ciphertext nonce tag plaintext;
  assert (bool_decide (plaintext = third_message)) ;;
  p ← get;
  (** [SessionManager::new().decrypt_packet] *)
  match decrypt_packet aad ciphertext nonce tag plaintext (MkWorld new (host p)) with
  | Done (r, plaintext) w => put (MkPair (receiver p) (sender p) (ch w)) ;; assert_err (mret r) ;; mret plaintext
  | _ => halt
  end.

(** Two packets of a new session, delivered in the other order. *)
Definition reordered_packets (message second_message plaintext : list byte) : M pair unit :=
  let aad := bstr "replay" in
  first ← seal aad message (buffers_of 12);
  let '(first_ciphertext, first_nonce, first_tag) := first in
  second ← seal aad second_message (buffers_of 12);
  let '(second_ciphertext, second_nonce, second_tag) := second in
  plaintext ← deliver aad second_ciphertext second_nonce second_tag plaintext;
  plaintext ← deliver aad first_ciphertext first_nonce first_tag plaintext;
  refuse aad first_ciphertext first_nonce first_tag plaintext ;;
  mret tt.

Definition session_rejects_tampering_without_committing_replay_state : M pair unit :=
  fresh_pair ;;
  let aad := bstr "replay" in
  handshake (fill 96 x91) (fill 64 x92) (bstr "salt") aad id aad ;;
  plaintext ← tampered_packets (bstr "first packet") (bstr "secondpacket") (bstr "third packet");
  modify (fun p => MkPair new new (host p)) ;;
  handshake (fill 96 x93) (fill 64 x94) (bstr "salt") aad id aad ;;
  reordered_packets (bstr "first packet") (bstr "secondpacket") plaintext.

End session.

(** * entropy_queue.rs *)

Section entropy_queue.
Import EQ.

Definition assert_pop (output expected : list byte) : M EntropyQueue (list byte) :=
  r ← pop output;
  assert r.1 ;;
  assert (bool_decide (r.2 = expected)) ;;
  mret r.2.
Definition assert_wiped (i : nat) : M EntropyQueue unit :=
  q ← get; assert (bool_decide (buffer q !! i = Some (zeros 32))).

Fixpoint drain (value count : nat) (output : list byte) : M EntropyQueue (list byte) :=
  match count with
  | O => mret output
  | S count => output ← assert_pop output (fill 32 (byte_of_Z (Z.of_nat value))); drain (S value) count output
  end.

Definition queue_preserves_fifo_order_reuses_slots_and_zeroizes_consumed_data : M EntropyQueue unit :=
  for_range 0 64 (fun value => unwrap (push (fill 32 (byte_of_Z (Z.of_nat value))))) ;;
  assert_eq (push (fill 32 xff)) (Err InvalidState) ;;
  output ← drain 0 64 (zeros 32);
  r ← pop output;
  assert (negb r.1) ;;
  assert_wiped 0 ;;
  unwrap (push (fill 32 xa5)) ;;
  assert_pop r.2 (fill 32 xa5) ;;
  mret tt.

Definition entropy_queue_fifo_and_slot_scrub_survive_ordinary_payload_access : M EntropyQueue unit :=
  let first := fill ENTROPY_CHUNK_SIZE x11 in
  let second := fill ENTROPY_CHUNK_SIZE x22 in
  unwrap (push first) ;;
  unwrap (push second) ;;
  out ← assert_pop (zeros 32) first;
  assert_wiped 0 ;;
  assert_pop out second ;;
  mret tt.

End entropy_queue.

(** * entropy_pool.rs *)

Section entropy_pool.
Context `{CryptoOps}.
Import Pool.

(** [EntropyPool::new()] becomes the pool the next calls are made on. *)
Definition new_pool : M world unit := modify (set_pool new).
Definition set_consumer_gate (b : bool) : M world unit := modify (set_gate b).
(** [compare_exchange(false, true).is_ok()] *)
Definition take_gate : M world unit := w ← get; assert (negb (consumer_gate w)) ;; set_consumer_gate true.
Definition assert_gate : M world unit := w ← get; assert (consumer_gate w).

Definition concurrent_mixer_is_rejected_while_another_mixer_owns_the_queue : M world unit :=
  take_gate ;;
  mix_entropy ;;
  assert_gate ;;
  set_consumer_gate false.

Definition independent_pools_share_one_global_queue_consumer_gate : M world unit :=
  take_gate ;;
  new_pool ;; mix_entropy ;;
  new_pool ;; mix_entropy ;;
  assert_gate ;;
  set_consumer_gate false.

Definition extract_does_not_bypass_pool_gate_or_consume_queue : M world unit :=
  new_pool ;;
  on_pool (set_mixing true) ;;
  pushed ← on_queue (EQ.push (fill EQ.ENTROPY_CHUNK_SIZE x5a));
  assert_eq (extract_entropy (zeros 1)) (Err EntropyBusy, zeros 1) ;;
  (if is_ok pushed then r ← on_queue (EQ.pop (zeros 32)); assert r.1 else mret tt) ;;
  on_pool (set_mixing false).

Definition extract_reports_busy_without_waiting_for_an_active_mixer : M world unit :=
  new_pool ;;
  on_pool (set_count 1) ;;
  on_pool (set_mixing true) ;;
  assert_eq (extract_entropy (zeros 1)) (Err EntropyBusy, zeros 1) ;;
  on_pool (set_mixing false).

Fixpoint push_values (value count : nat) : M world nat :=
  match count with
  | O => mret 0%nat
  | S count =>
      r ← on_queue (EQ.push (fill EQ.ENTROPY_CHUNK_SIZE (byte_of_Z (Z.of_nat value))));
      pushed ← push_values (S value) count;
      mret (if is_ok r then S pushed else pushed)
  end.

Definition mix_entropy_is_bounded_per_invocation : M world unit :=
  on_host install_callbacks ;;
  new_pool ;;
  pushed ← push_values 0 9;
  assert (MAX_MIX_CHUNKS_PER_CALL <? pushed)%nat ;;
  mix_entropy ;;
  w ← get;
  assert (reseed_count (pool w) =? 1) ;;
  mix_entropy ;;
  w ← get;
  assert (reseed_count (pool w) =? 2).

End entropy_pool.

(** * The tests *)

(** Those that hold whatever the primitives answer. *)
Definition session_tests `{CryptoOps} : list (M Sess.world unit) :=
  [key_integrity_detects_single_bit_corruption;
   failed_encryption_does_not_consume_a_nonce;
   exhausted_nonce_does_not_modify_output;
   replay_window_handles_extreme_sequence_numbers;
   zeroize_session_wipes_each_key_before_it_is_flushed;
   commit_leaves_replay_state_intact_for_sequences_below_the_window].
Definition constant_tests `{CryptoOps} : list (M CHost unit) :=
  [chacha20_length_limit_matches_rfc8439_block_boundary;
   x25519_rejects_all_zero_peer_key;
   confirmation_info_has_a_distinct_label_and_a_separator].
Definition queue_tests : list (M EQ.EntropyQueue unit) :=
  [queue_preserves_fifo_order_reuses_slots_and_zeroizes_consumed_data;
   entropy_queue_fifo_and_slot_scrub_survive_ordinary_payload_access].
Definition pool_tests `{CryptoOps} : list (M Pool.world unit) :=
  [concurrent_mixer_is_rejected_while_another_mixer_owns_the_queue;
   independent_pools_share_one_global_queue_consumer_gate;
   extract_does_not_bypass_pool_gate_or_consume_queue;
   extract_reports_busy_without_waiting_for_an_active_mixer].

(** Those that need working primitives. *)
Definition primitive_tests `{CryptoOps} : list (M CHost unit) :=
  [aead_round_trip_rejects_tampering;
   aead_in_place_round_trip_rejects_tampering;
   key_derivation_is_deterministic_and_wipes_inputs;
   x25519_peers_derive_the_same_secret;
   ml_kem_peers_derive_the_same_secret;
   ml_dsa_verifies_and_rejects_modified_messages;
   session_keys_are_identical_to_the_legacy_derivation;
   confirmation_keys_are_distinct_and_independent_of_the_session_keys;
   a_different_salt_changes_every_confirmation_key;
   inputs_are_zeroized].
Definition keyed_tests `{CryptoOps} : list (M Sess.world unit) :=
  [last_usable_counter_encrypts_once_then_refuses_without_wrapping].
Definition mixing_tests `{CryptoOps} : list (M Pool.world unit) := [mix_entropy_is_bounded_per_invocation].
Definition pair_tests `{CryptoOps} : list (M pair unit) :=
  [tampered_or_mismatched_handshake_inputs_fail_the_first_packet;
   hybrid_session_handshake_derives_matching_keys;
   reestablishment_resets_directional_sequence_and_replay_state;
   session_rejects_tampering_without_committing_replay_state].

(** * Evaluation *)

Lemma crypto_tests_pass_any (ops : CryptoOps) :
  pass_from (Sess.MkWorld Sess.new chost_boot) session_tests = true /\
  pass_from chost_boot constant_tests = true /\
  pass_from EQ.new queue_tests = true /\
  pass_from (Pool.MkWorld Pool.new EQ.new false chost_boot) pool_tests = true.
Proof. split_and!; [lazy; reflexivity|vm_compute; reflexivity..]. Qed.

Lemma crypto_tests_pass_mix :
  pass_from chost_boot (@primitive_tests mix_ops) = true /\
  pass_from (Sess.MkWorld Sess.new chost_boot) (@keyed_tests mix_ops) = true /\
  pass_from (Pool.MkWorld Pool.new EQ.new false chost_boot) (@mixing_tests mix_ops) = true /\
  pass_from (MkPair Sess.new Sess.new chost_boot) (@pair_tests mix_ops) = true.
Proof. split_and!; vm_compute; reflexivity. Qed.

End CryptoTests.
