(* ===== verification/CryptoFfiTests.v ===== *)
(** The unit tests of the crypto crate that use the C interface, as programs over its
    model: the test modules of ffi.rs and the C tests of lib.rs. The variables of a test
    lie 16 KiB apart in one block of storage; [MaybeUninit] leaves raw storage. The tests
    of refused calls are evaluated for any primitives; the two that ask HKDF for its
    largest output are proved for all primitives that satisfy their laws; the others are
    evaluated on the instance of MixCrypto.v. Left out are the self-test, whose expected values are those of the real
    primitives, and the test that uses a session after destroying it, which SECURITY.md
    keeps outside the contract and the model counts as undefined. *)

From stdpp Require Import gmap.
From S2P Require Import Prelude CMemory CryptoHost Primitives MixCrypto Aead Session Handshake EntropyQueue EntropyPool.
From S2P Require Import CryptoTypes CryptoFfi CryptoObjects Testing CryptoTests.
Local Open Scope Z_scope.

Module CryptoFfiTests.
Import CryptoC CryptoObj.

#[local] Instance flags_zero : InterruptAnswers := fun _ _ => 0.

(** The [i]th variable, and [core::ptr::null()]. *)
Definition var (i : Z) : Z := 0x100000 + i * 0x4000.
Abbreviation null := 0%Z.
Definition usize_max : Z := 2 ^ 64 - 1.

Definition flip_first (l : list byte) : list byte := CryptoTests.flip_bit 0 l.

Section tests.
Context `{CryptoOps}.

Definition start : machine :=
  MkMachine (MkMem [(0x100000, 64 * 0x4000)] ∅ ∅) (Pool.MkWorld Pool.new EQ.new false chost_boot).

Definition install_callbacks : M machine unit := on_platform CryptoTests.install_callbacks.

(** [let x = [..]], [let x = T(..)] *)
Definition bytes_var (p : Z) (l : list byte) : M machine unit := copy_out p l.
Definition assert_bytes (p : Z) (l : list byte) : M machine unit := assert_eq (array p (length l)) l.

(** * lib.rs *)

Definition aead_ffi_rejects_overlapping_buffers_and_round_trips : M machine unit :=
  let enc_key := var 0 in let mac_key := var 1 in let nonce := var 2 in let aad := var 3 in
  let plaintext := var 4 in let ciphertext := var 5 in let tag := var 6 in let recovered := var 7 in
  install_callbacks ;;
  bytes_var enc_key (replicate 32 x11) ;;
  bytes_var mac_key (replicate 32 x22) ;;
  bytes_var nonce (replicate 12 x33) ;;
  bytes_var aad (bstr "ffi-aad") ;;
  bytes_var plaintext (bstr "ffi payload") ;;
  bytes_var ciphertext (zeros 11) ;;
  bytes_var tag (zeros AEAD_TAG_SIZE) ;;
  assert_eq (shawncore_crypto_aead_encrypt enc_key mac_key nonce aad 7 plaintext ciphertext 11 tag) CSuccess ;;
  bytes_var recovered (zeros 11) ;;
  assert_eq (shawncore_crypto_aead_decrypt enc_key mac_key nonce aad 7 ciphertext tag recovered 11) CSuccess ;;
  assert_bytes recovered (bstr "ffi payload") ;;
  assert_eq (shawncore_crypto_aead_encrypt enc_key mac_key nonce aad 7 plaintext plaintext 11 tag) CInvalidLength.

Definition session_ffi_rejects_overlapping_output_buffers : M machine unit :=
  let manager := var 0 in let aad := var 1 in let plaintext := var 2 in
  let ciphertext_and_tag := var 3 in let nonce := var 4 in
  store KSession manager Sess.new ;;
  bytes_var aad (zeros 1) ;;
  bytes_var plaintext (zeros 48) ;;
  bytes_var ciphertext_and_tag (zeros 48) ;;
  bytes_var nonce (zeros 12) ;;
  assert_eq (shawncore_crypto_session_manager_encrypt_packet manager aad 0 plaintext ciphertext_and_tag 48 nonce
               ciphertext_and_tag) CInvalidLength.

Definition session_handshake_ffi_rejects_manager_input_overlap : M machine unit :=
  let manager_ptr := var 0 in let manager_bytes := var 0 in
  let ml_kem_pk := var 1 in let x25519_pk := var 2 in let ciphertext := var 3 in
  store KSession manager_ptr Sess.new ;;
  assert_eq (shawncore_crypto_session_manager_initiate_handshake manager_ptr manager_bytes ml_kem_pk x25519_pk)
    CInvalidLength ;;
  assert_eq (shawncore_crypto_session_manager_finalize_handshake manager_ptr x25519_pk ciphertext manager_bytes 1
               null 0) CInvalidLength ;;
  assert_eq (shawncore_crypto_session_manager_encapsulate_for_peer manager_ptr ml_kem_pk x25519_pk manager_bytes
               null 0 null 0 ciphertext x25519_pk) CInvalidLength.

Definition keygen_ffi_rejects_overlapping_outputs : M machine unit :=
  let entropy := var 0 in let base := var 1 in
  bytes_var entropy (replicate 32 x42) ;;
  bytes_var base (zeros 64) ;;
  assert_eq (shawncore_crypto_x25519_keygen entropy base base) CInvalidLength.

Definition entropy_ffi_rejects_uniform_chunks : M machine unit :=
  let zero := var 0 in let ones := var 1 in
  bytes_var zero (zeros 32) ;;
  bytes_var ones (replicate 32 xff) ;;
  assert_eq (shawncore_crypto_entropy_push zero) CInvalidState ;;
  assert_eq (shawncore_crypto_entropy_push ones) CInvalidState.

Definition hmac_ffi_accepts_null_for_zero_length_data : M machine unit :=
  let key := var 0 in let mac := var 1 in
  install_callbacks ;;
  bytes_var key (replicate 32 x11) ;;
  bytes_var mac (zeros AEAD_TAG_SIZE) ;;
  assert_eq (shawncore_crypto_hmac_sha384 key null 0 mac) CSuccess.

Definition kdf_and_aead_ffi_accept_null_for_zero_length_buffers : M machine unit :=
  let enc_key := var 0 in let mac_key := var 1 in let nonce := var 2 in let tag := var 3 in let prk := var 4 in
  install_callbacks ;;
  bytes_var enc_key (replicate 32 x11) ;;
  bytes_var mac_key (replicate 32 x22) ;;
  bytes_var nonce (replicate 12 x33) ;;
  bytes_var tag (zeros AEAD_TAG_SIZE) ;;
  assert_eq (shawncore_crypto_aead_encrypt enc_key mac_key nonce null 0 null null 0 tag) CSuccess ;;
  assert_eq (shawncore_crypto_aead_decrypt enc_key mac_key nonce null 0 null tag null 0) CSuccess ;;
  bytes_var prk (replicate 48 x44) ;;
  assert_eq (shawncore_crypto_hkdf_expand_sha384 prk null 0 null 0) CSuccess.

(** [ml_dsa_keygen] into two variables. *)
Definition dsa_keys (seed : byte) (public_key signing_key : Z) : M machine unit :=
  keys ← unwrap (mret (ml_dsa_keygen (replicate 32 seed)));
  store KPublicKey87 public_key keys.1 ;;
  store KSigningKey87 signing_key keys.2.

Definition ml_dsa_ffi_accepts_null_for_zero_length_message : M machine unit :=
  let public_key := var 0 in let signing_key := var 1 in let signature := var 2 in
  install_callbacks ;;
  dsa_keys x81 public_key signing_key ;;
  assert_eq (shawncore_crypto_ml_dsa_sign signing_key null 0 signature) CSuccess ;;
  assert_eq (shawncore_crypto_ml_dsa_verify public_key null 0 signature) CSuccess.

(** * ffi.rs: wire_codec_tests *)

(** [ml_kem_keygen] into one variable; the other key stays with the test. *)
Definition kem_keys (seed : byte) (pk : Z) : M machine DecapsKey1024 :=
  keys ← unwrap (mret (ml_kem_keygen (replicate 64 seed)));
  store KPublicKey1024 pk keys.1 ;;
  mret keys.2.

Definition ml_kem_publickey_survives_a_wire_round_trip : M machine unit :=
  let pk := var 0 in let encoded := var 1 in let decoded := var 2 in
  install_callbacks ;;
  dk ← kem_keys x07 pk;
  bytes_var encoded (zeros ML_KEM_PUBLICKEY_BYTES) ;;
  assert_eq (shawncore_crypto_ml_kem_publickey_to_bytes pk encoded 1568) CSuccess ;;
  assert_eq (shawncore_crypto_ml_kem_publickey_from_bytes encoded 1568 decoded) CSuccess ;;
  key ← load KPublicKey1024 decoded;
  assert_bytes encoded (PublicKey1024_to_bytes key) ;;
  r ← unwrap (on_platform (ml_kem_encapsulate key (replicate 32 x03)));
  let '(shared, ciphertext) := r in
  recovered ← unwrap (on_platform (ml_kem_decapsulate dk ciphertext));
  assert (bool_decide (shared = recovered)).

Definition ml_kem_ciphertext_survives_a_wire_round_trip : M machine unit :=
  let pk := var 0 in let ciphertext := var 1 in let encoded := var 2 in let decoded := var 3 in
  install_callbacks ;;
  dk ← kem_keys x09 pk;
  key ← load KPublicKey1024 pk;
  r ← unwrap (on_platform (ml_kem_encapsulate key (replicate 32 x05)));
  store KCiphertext1024 ciphertext r.2 ;;
  bytes_var encoded (zeros ML_KEM_CIPHERTEXT_BYTES) ;;
  assert_eq (shawncore_crypto_ml_kem_ciphertext_to_bytes ciphertext encoded 1568) CSuccess ;;
  assert_eq (shawncore_crypto_ml_kem_ciphertext_from_bytes encoded 1568 decoded) CSuccess ;;
  ct ← load KCiphertext1024 decoded;
  recovered ← unwrap (on_platform (ml_kem_decapsulate dk ct));
  assert (bool_decide (r.1 = recovered)).

Definition x25519_publickey_survives_a_wire_round_trip : M machine unit :=
  let bob_pk := var 0 in let encoded := var 1 in let decoded := var 2 in
  install_callbacks ;;
  let '(alice_pk, alice_sk) := x25519_keygen (replicate 32 x11) in
  let '(bob_public, bob_sk) := x25519_keygen (replicate 32 x22) in
  store KX25519Public bob_pk bob_public ;;
  bytes_var encoded (zeros X25519_PUBLICKEY_BYTES) ;;
  assert_eq (shawncore_crypto_x25519_publickey_to_bytes bob_pk encoded 32) CSuccess ;;
  assert_eq (shawncore_crypto_x25519_publickey_from_bytes encoded 32 decoded) CSuccess ;;
  pk ← load KX25519Public decoded;
  from_decoded ← unwrap (on_platform (x25519_diffie_hellman alice_sk pk));
  from_peer ← unwrap (on_platform (x25519_diffie_hellman bob_sk alice_pk));
  assert (bool_decide (from_decoded = from_peer)).

Definition ml_dsa_wire_round_trip : M machine unit :=
  let pk := var 0 in let sk := var 1 in let signature := var 2 in let encoded_pk := var 3 in
  let decoded_pk := var 4 in let encoded_sig := var 5 in let decoded_sig := var 6 in
  let message := bstr "telemetry frame" in
  install_callbacks ;;
  dsa_keys x3c pk sk ;;
  signing_key ← load KSigningKey87 sk;
  sig ← unwrap (on_platform (ml_dsa_sign signing_key message));
  store KSignature87 signature sig ;;
  bytes_var encoded_pk (zeros ML_DSA_PUBLICKEY_BYTES) ;;
  assert_eq (shawncore_crypto_ml_dsa_publickey_to_bytes pk encoded_pk 2592) CSuccess ;;
  assert_eq (shawncore_crypto_ml_dsa_publickey_from_bytes encoded_pk 2592 decoded_pk) CSuccess ;;
  bytes_var encoded_sig (zeros ML_DSA_SIGNATURE_BYTES) ;;
  assert_eq (shawncore_crypto_ml_dsa_signature_to_bytes signature encoded_sig 4627) CSuccess ;;
  assert_eq (shawncore_crypto_ml_dsa_signature_from_bytes encoded_sig 4627 decoded_sig) CSuccess ;;
  key ← load KPublicKey87 decoded_pk;
  sig ← load KSignature87 decoded_sig;
  unwrap (mret (ml_dsa_verify key message sig)) ;;
  assert_err (mret (ml_dsa_verify key message (flip_first sig))).

Definition encoded_lengths_match_the_published_wire_sizes : M machine unit :=
  assert (shawncore_crypto_ml_kem_publickey_encoded_len =? 1568)%nat ;;
  assert (shawncore_crypto_ml_kem_ciphertext_encoded_len =? 1568)%nat ;;
  assert (shawncore_crypto_x25519_publickey_encoded_len =? 32)%nat ;;
  assert (shawncore_crypto_ml_dsa_publickey_encoded_len =? 2592)%nat ;;
  assert (shawncore_crypto_ml_dsa_signature_encoded_len =? 4627)%nat.

Definition wire_codec_rejects_misaligned_typed_outputs : M machine unit :=
  let raw := var 0 in let encoded := var 1 in
  install_callbacks ;;
  bytes_var raw (zeros (Z.to_nat (size_of KPublicKey1024) + 64)) ;;
  bytes_var encoded (zeros ML_KEM_PUBLICKEY_BYTES) ;;
  assert_eq (shawncore_crypto_ml_kem_publickey_from_bytes encoded 1568 (raw + 1)) CInvalidState.

Definition wire_codec_rejects_null_wrong_length_and_overlap : M machine unit :=
  let pk := var 0 in let buffer := var 1 in let out := var 2 in
  install_callbacks ;;
  kem_keys x01 pk ;;
  bytes_var buffer (zeros ML_KEM_PUBLICKEY_BYTES) ;;
  assert_eq (shawncore_crypto_ml_kem_publickey_to_bytes null buffer 1568) CInvalidState ;;
  assert_eq (shawncore_crypto_ml_kem_publickey_to_bytes pk null 1568) CInvalidState ;;
  assert_eq (shawncore_crypto_ml_kem_publickey_to_bytes pk buffer 1567) CInvalidLength ;;
  assert_eq (shawncore_crypto_ml_kem_publickey_to_bytes pk pk 1568) CInvalidLength ;;
  assert_eq (shawncore_crypto_ml_kem_publickey_from_bytes null 1568 out) CInvalidState ;;
  assert_eq (shawncore_crypto_ml_kem_publickey_from_bytes buffer (1568 + 1) out) CInvalidLength.

Definition session_manager_init_rejects_misaligned_storage : M machine unit :=
  let raw := var 0 in
  bytes_var raw (zeros (Z.to_nat (size_of KSession) + 64)) ;;
  assert_eq (shawncore_crypto_session_manager_init (raw + 1)) CInvalidState.

Definition encapsulate_for_peer_rejects_misaligned_typed_pointers : M machine unit :=
  let manager_raw := var 0 in let pk_raw := var 1 in let manager := var 2 in let pk := var 3 in
  let x25519_pk := var 4 in let entropy := var 5 in let out_ct := var 6 in let out_pk := var 7 in
  assert (1 <? align_of KSession) ;;
  assert (1 <? align_of KPublicKey1024) ;;
  bytes_var manager_raw (zeros (Z.to_nat (size_of KSession) + 64)) ;;
  bytes_var pk_raw (zeros (Z.to_nat (size_of KPublicKey1024) + 64)) ;;
  store KX25519Public x25519_pk (replicate 32 x11) ;;
  bytes_var entropy (replicate 64 x22) ;;
  store KCiphertext1024 out_ct (zeros 1568) ;;
  store KX25519Public out_pk (zeros 32) ;;
  let call manager peer_pk :=
    shawncore_crypto_session_manager_encapsulate_for_peer manager peer_pk x25519_pk entropy null 0 null 0 out_ct
      out_pk in
  assert_eq (call (manager_raw + 1) pk) CInvalidState ;;
  assert_eq (call manager (pk_raw + 1)) CInvalidState ;;
  ct ← load KCiphertext1024 out_ct;
  assert (bool_decide (ct = zeros 1568)).

Definition aead_overlap_matrix_rejects_all_output_aliases : M machine unit :=
  let base := var 0 in
  let enc_key := base in
  let mac_key := base + 32 in
  let nonce := base + 64 in
  let aad := base + 80 in
  let plaintext := base + 96 in
  let ciphertext := plaintext in
  let out_mac := base + 16 in
  assert (aead_encrypt_buffers_overlap enc_key mac_key nonce aad 4 plaintext ciphertext out_mac 16) ;;
  assert (aead_decrypt_buffers_overlap enc_key mac_key nonce aad 4 plaintext ciphertext plaintext 16).

Definition ranges_overlap_zero_length_cases : M machine unit :=
  let p := var 0 in
  assert (negb (ranges_overlap p 0 p 32)) ;;
  assert (negb (ranges_overlap p 32 p 0)) ;;
  assert (negb (ranges_overlap p 0 (p + 16) 0)) ;;
  assert (ranges_overlap p 32 (p + 31) 1) ;;
  assert (negb (ranges_overlap p 16 (p + 16) 16)).

Definition ml_kem_encapsulation_rejects_output_overlapping_public_key : M machine unit :=
  let pk_ptr := var 0 in let entropy := var 1 in let ciphertext := var 2 in let shared := var 3 in
  install_callbacks ;;
  kem_keys x6a pk_ptr ;;
  pk ← load KPublicKey1024 pk_ptr;
  let expected_pk := PublicKey1024_to_bytes pk in
  bytes_var entropy (replicate 32 x3d) ;;
  assert_eq (shawncore_crypto_ml_kem_encapsulate pk_ptr entropy pk_ptr ciphertext) CInvalidLength ;;
  pk ← load KPublicKey1024 pk_ptr;
  assert (bool_decide (PublicKey1024_to_bytes pk = expected_pk)) ;;
  assert_eq (shawncore_crypto_ml_kem_encapsulate pk_ptr entropy shared pk_ptr) CInvalidLength ;;
  pk ← load KPublicKey1024 pk_ptr;
  assert (bool_decide (PublicKey1024_to_bytes pk = expected_pk)).

(** * ffi.rs: adversarial_ffi_tests *)

(** An aligned address of nothing. *)
Definition BOGUS : Z := 8.

Definition absurd_lengths_are_rejected_before_any_dereference : M machine unit :=
  let key := var 0 in let mac_key := var 1 in let nonce := var 2 in let tag := var 3 in let manager := var 4 in
  let prk := var 5 in let nonce_out := var 6 in
  install_callbacks ;;
  bytes_var key (replicate 32 x01) ;;
  bytes_var mac_key (replicate 32 x02) ;;
  bytes_var nonce (replicate 12 x03) ;;
  bytes_var tag (zeros 48) ;;
  assert_eq (shawncore_crypto_aead_encrypt key mac_key nonce BOGUS usize_max BOGUS BOGUS usize_max tag)
    CInvalidLength ;;
  assert_eq (shawncore_crypto_aead_decrypt key mac_key nonce BOGUS usize_max BOGUS tag BOGUS usize_max)
    CInvalidLength ;;
  assert_eq (shawncore_crypto_hmac_sha384 key BOGUS usize_max tag) CInvalidLength ;;
  bytes_var prk (zeros 48) ;;
  assert_eq (shawncore_crypto_hkdf_expand_sha384 prk BOGUS usize_max BOGUS usize_max) CInvalidLength ;;
  bytes_var nonce_out (zeros 12) ;;
  assert_eq (shawncore_crypto_session_manager_encrypt_packet manager BOGUS usize_max BOGUS BOGUS usize_max nonce_out
               tag) CInvalidLength ;;
  assert_eq (shawncore_crypto_session_manager_decrypt_packet manager BOGUS usize_max BOGUS usize_max nonce tag BOGUS)
    CInvalidLength.

(** [255 * 48], one more, and the length of the vector in [out_len]. *)
Definition at_limit : nat := 255 * 48.
Definition over_limit : nat := 255 * 48 + 1.

Definition hkdf_key : M machine unit := install_callbacks ;; bytes_var (var 0) (replicate 48 x42).

Definition oversized_hkdf_request_fails_and_releases_no_key_material : M machine unit :=
  let prk := var 0 in let out := var 1 in let max := var 2 in
  hkdf_key ;;
  bytes_var out (replicate over_limit xaa) ;;
  assert_ne (shawncore_crypto_hkdf_expand_sha384 prk null 0 out (Z.of_nat over_limit)) CSuccess ;;
  assert_bytes out (zeros over_limit) ;;
  bytes_var max (zeros at_limit) ;;
  assert_eq (shawncore_crypto_hkdf_expand_sha384 prk null 0 max (Z.of_nat at_limit)) CSuccess.

Definition null_pointers_are_rejected_by_every_session_entry_point : M machine unit :=
  let m := var 0 in let entropy96 := var 1 in let ml_kem_pk := var 2 in let x_pk := var 3 in let ct := var 4 in
  let nonce := var 5 in let tag := var 6 in let buf := var 7 in
  install_callbacks ;;
  assert_eq (shawncore_crypto_session_manager_init m) CSuccess ;;
  bytes_var entropy96 (replicate 96 x11) ;;
  bytes_var nonce (zeros 12) ;;
  bytes_var tag (zeros 48) ;;
  bytes_var buf (zeros 4) ;;
  let null_err := CInvalidState in
  assert_eq (shawncore_crypto_session_manager_init null) null_err ;;
  assert_eq (shawncore_crypto_session_manager_destroy null) null_err ;;
  assert_eq (shawncore_crypto_session_manager_zeroize null) null_err ;;
  assert_eq (shawncore_crypto_session_manager_initiate_handshake null entropy96 ml_kem_pk x_pk) null_err ;;
  assert_eq (shawncore_crypto_session_manager_initiate_handshake m null ml_kem_pk x_pk) null_err ;;
  assert_eq (shawncore_crypto_session_manager_initiate_handshake m entropy96 null x_pk) null_err ;;
  assert_eq (shawncore_crypto_session_manager_initiate_handshake m entropy96 ml_kem_pk null) null_err ;;
  assert_eq (shawncore_crypto_session_manager_finalize_handshake m null ct null 0 null 0) null_err ;;
  assert_eq (shawncore_crypto_session_manager_finalize_handshake m x_pk null null 0 null 0) null_err ;;
  assert_eq (shawncore_crypto_session_manager_finalize_handshake m x_pk ct null 1 null 0) CInvalidLength ;;
  assert_eq (shawncore_crypto_session_manager_encapsulate_for_peer m ml_kem_pk x_pk null null 0 null 0 ct x_pk)
    null_err ;;
  assert_eq (shawncore_crypto_session_manager_encrypt_packet m null 1 buf buf 0 nonce tag) CInvalidLength ;;
  assert_eq (shawncore_crypto_session_manager_decrypt_packet m null 0 null 1 nonce tag buf) CInvalidLength ;;
  assert_ne (shawncore_crypto_session_manager_encrypt_packet m null 0 buf buf 0 nonce tag) CSuccess ;;
  assert_eq (shawncore_crypto_session_manager_destroy m) CSuccess.

Definition entropy_push_rejects_null_and_degenerate_chunks : M machine unit :=
  bytes_var (var 0) (zeros 32) ;;
  bytes_var (var 1) (replicate 32 xff) ;;
  assert_eq (shawncore_crypto_entropy_push null) CInvalidState ;;
  assert_eq (shawncore_crypto_entropy_push (var 0)) CInvalidState ;;
  assert_eq (shawncore_crypto_entropy_push (var 1)) CInvalidState.

End tests.

(** * ffi.rs: authenticated_ffi_tests *)

Section authenticated.
Context `{CryptoOps}.

Definition encrypt_status (manager : Z) : M machine ShawncoreCryptoErr :=
  let nonce := var 40 in let tag := var 41 in let wire := var 42 in let hello := var 43 in
  bytes_var nonce (zeros 12) ;;
  bytes_var tag (zeros 48) ;;
  bytes_var wire (zeros 5) ;;
  bytes_var hello (bstr "hello") ;;
  shawncore_crypto_session_manager_encrypt_packet manager null 0 hello wire 5 nonce tag.

(** The keys and salts of the handshake test. *)
Definition k_vk : Z := var 0.
Definition k_sk : Z := var 1.
Definition e_vk : Z := var 2.
Definition e_sk : Z := var 3.
Definition m_vk : Z := var 4.
Definition m_sk : Z := var 5.
Definition entropy64 : Z := var 6.
Definition app : Z := var 7.
Definition salt : Z := var 8.
Definition other : Z := var 9.

(** Where a reply is kept, and the tuple of its parts. *)
Record reply_at : Type := MkReply { r_ct : Z; r_xe : Z; r_sig : Z; r_tag : Z }.
Definition reply_in (i : Z) : reply_at := MkReply (var i) (var (i + 1)) (var (i + 2)) (var (i + 3)).

Definition reply (manager signer ek xk : Z) (salt salt_len : Z) (r : reply_at) : M machine unit :=
  bytes_var (r_tag r) (zeros 48) ;;
  assert_eq (shawncore_crypto_session_manager_encapsulate_authenticated_v2 manager signer k_vk ek xk entropy64 salt
               salt_len app 3 (r_ct r) (r_xe r) (r_sig r) (r_tag r)) CSuccess.

Definition finalize (keygen : Z) (r : reply_at) (salt salt_len out out_tag : Z) : M machine ShawncoreCryptoErr :=
  bytes_var out_tag (zeros 48) ;;
  shawncore_crypto_session_manager_finalize_authenticated_v2 keygen k_sk e_vk (r_xe r) (r_ct r) (r_sig r) (r_tag r)
    salt salt_len app 3 out out_tag.

(** An intermediary with an identity of its own is refused, and so is an authentic peer
    that used another salt, which costs the pending handshake. *)
Definition distinct_failures (keygen encap mitm ek xk entropy96 out out_tag : Z) : M machine unit :=
  store KSession keygen Sess.new ;;
  store KSession encap Sess.new ;;
  store KSession mitm Sess.new ;;
  bytes_var entropy96 (replicate 96 x11) ;;
  assert_eq (shawncore_crypto_session_manager_initiate_handshake keygen entropy96 ek xk) CSuccess ;;
  let forged := reply_in 20 in
  reply mitm m_sk ek xk salt 4 forged ;;
  assert_eq (finalize keygen forged salt 4 out out_tag) CVerificationFailed ;;
  let genuine := reply_in 24 in
  reply encap e_sk ek xk salt 4 genuine ;;
  assert_eq (finalize keygen genuine other 5 out out_tag) CKeyConfirmationFailed ;;
  assert_eq (encrypt_status keygen) CInvalidState ;;
  assert_eq (finalize keygen genuine salt 4 out out_tag) CInvalidState.

Definition recovery (keygen encap ek2 xk2 entropy96 out out_tag bad_tag : Z) : M machine unit :=
  store KSession keygen Sess.new ;;
  store KSession encap Sess.new ;;
  bytes_var entropy96 (replicate 96 x12) ;;
  assert_eq (shawncore_crypto_session_manager_initiate_handshake keygen entropy96 ek2 xk2) CSuccess ;;
  let genuine := reply_in 28 in
  reply encap e_sk ek2 xk2 salt 4 genuine ;;
  assert_eq (finalize keygen genuine salt 4 out out_tag) CSuccess ;;
  assert_eq (encrypt_status encap) CInvalidState ;;
  tag ← array out_tag 48;
  bytes_var bad_tag (flip_first tag) ;;
  assert_eq (shawncore_crypto_session_manager_confirm_peer_v2 encap k_vk out bad_tag) CVerificationFailed ;;
  assert_eq (shawncore_crypto_session_manager_confirm_peer_v2 encap k_vk out out_tag) CSuccess ;;
  assert_eq (encrypt_status encap) CSuccess.

Definition c_abi_authenticated_handshake_round_trips_and_reports_distinct_failures : M machine unit :=
  install_callbacks ;;
  dsa_keys x41 k_vk k_sk ;;
  dsa_keys x42 e_vk e_sk ;;
  dsa_keys x4d m_vk m_sk ;;
  bytes_var entropy64 (replicate 64 x22) ;;
  bytes_var app (bstr "app") ;;
  bytes_var salt (bstr "salt") ;;
  bytes_var other (bstr "other") ;;
  distinct_failures (var 10) (var 11) (var 12) (var 13) (var 14) (var 15) (var 16) (var 17) ;;
  recovery (var 33) (var 34) (var 35) (var 36) (var 37) (var 38) (var 39) (var 44).

Definition authenticated_entry_points_reject_null_misaligned_and_overlapping_arguments : M machine unit :=
  let vk := var 0 in let sk := var 1 in let manager := var 2 in let sig := var 3 in let x := var 4 in
  let ct := var 5 in let tag := var 6 in let out := var 7 in let otag := var 8 in let raw := var 9 in
  install_callbacks ;;
  dsa_keys x41 vk sk ;;
  store KSession manager Sess.new ;;
  store KSignature87 sig (zeros 4627) ;;
  store KX25519Public x (replicate 32 x01) ;;
  store KCiphertext1024 ct (replicate 1568 x02) ;;
  bytes_var tag (zeros 48) ;;
  store KSignature87 out (zeros 4627) ;;
  bytes_var otag (zeros 48) ;;
  bytes_var raw (zeros (Z.to_nat (size_of KSession) + 64)) ;;
  let misaligned := raw + 1 in
  let null_state := CInvalidState in
  let bad_len := CInvalidLength in
  let finalize m peer_sig peer_tag salt salt_len out out_tag :=
    shawncore_crypto_session_manager_finalize_authenticated_v2 m sk vk x ct peer_sig peer_tag salt salt_len null 0 out
      out_tag in
  assert_eq (finalize null sig tag null 0 out otag) null_state ;;
  assert_eq (finalize manager null tag null 0 out otag) null_state ;;
  assert_eq (finalize manager sig null null 0 out otag) null_state ;;
  assert_eq (finalize manager sig tag null 0 null otag) null_state ;;
  assert_eq (finalize manager sig tag null 0 out null) null_state ;;
  assert_eq (finalize misaligned sig tag null 0 out otag) null_state ;;
  assert_eq (finalize manager sig tag null 1 out otag) bad_len ;;
  assert_eq (finalize manager out tag null 0 out otag) bad_len ;;
  assert_eq (finalize manager sig otag null 0 out otag) bad_len ;;
  assert_eq (finalize manager sig tag null 0 out otag) CInvalidState ;;
  let confirm m s t := shawncore_crypto_session_manager_confirm_peer_v2 m vk s t in
  assert_eq (confirm null sig tag) null_state ;;
  assert_eq (confirm manager sig null) null_state ;;
  assert_eq (confirm manager sig tag) CInvalidState ;;
  assert_eq (confirm manager manager tag) bad_len.

End authenticated.

(** * ffi.rs: boundary_tests *)

Section boundary.
Context `{CryptoOps}.

Definition OVER_SLICE_LIMIT : Z := 2 ^ 63 - 1 + 1.
Definition HIGH : Z := 0x7ffffffffffff000.

Definition length_bounds_are_exact : M machine unit :=
  assert (slice_len_valid 0) ;;
  assert (slice_len_valid (2 ^ 63 - 1)) ;;
  assert (negb (slice_len_valid (2 ^ 63 - 1 + 1))) ;;
  assert (negb (slice_len_valid usize_max)) ;;
  assert (packet_len_valid CHACHA20_MAX_BYTES) ;;
  assert (negb (packet_len_valid (CHACHA20_MAX_BYTES + 1))) ;;
  assert (MAX_APP_INFO_LEN =? u32_max).

Definition lengths_beyond_the_slice_limit_are_rejected_before_any_slice_is_formed : M machine unit :=
  let key := var 0 in let mac := var 1 in let m := var 2 in let enc := var 3 in let macky := var 4 in
  let nonce := var 5 in let ct := var 6 in let pt := var 7 in let out_nonce := var 8 in let x := var 9 in
  let kem_ct := var 10 in
  let invalid := CInvalidLength in
  install_callbacks ;;
  bytes_var key (replicate 48 x11) ;;
  bytes_var mac (zeros 48) ;;
  assert_eq (shawncore_crypto_session_manager_init m) CSuccess ;;
  assert_eq (shawncore_crypto_hmac_sha384 key HIGH OVER_SLICE_LIMIT mac) invalid ;;
  assert_eq (shawncore_crypto_hkdf_expand_sha384 key HIGH OVER_SLICE_LIMIT mac 48) invalid ;;
  assert_eq (shawncore_crypto_hkdf_expand_sha384 key null 0 HIGH OVER_SLICE_LIMIT) invalid ;;
  bytes_var enc (replicate 32 x01) ;;
  bytes_var macky (replicate 32 x02) ;;
  bytes_var nonce (replicate 12 x03) ;;
  bytes_var ct (zeros 4) ;;
  bytes_var pt (zeros 4) ;;
  assert_eq (shawncore_crypto_aead_encrypt enc macky nonce HIGH OVER_SLICE_LIMIT pt ct 4 mac) invalid ;;
  assert_eq (shawncore_crypto_aead_decrypt enc macky nonce HIGH OVER_SLICE_LIMIT pt mac ct 4) invalid ;;
  bytes_var out_nonce (zeros 12) ;;
  assert_eq (shawncore_crypto_session_manager_encrypt_packet m HIGH OVER_SLICE_LIMIT pt ct 4 out_nonce mac) invalid ;;
  assert_eq (shawncore_crypto_session_manager_decrypt_packet m HIGH OVER_SLICE_LIMIT pt 4 nonce mac ct) invalid ;;
  store KX25519Public x (replicate 32 x01) ;;
  store KCiphertext1024 kem_ct (replicate 1568 x02) ;;
  assert_eq (shawncore_crypto_session_manager_finalize_handshake m x kem_ct HIGH OVER_SLICE_LIMIT null 0) invalid ;;
  assert_eq (shawncore_crypto_session_manager_finalize_handshake m x kem_ct null 0 HIGH OVER_SLICE_LIMIT) invalid.

Definition signature_and_authenticated_entry_points_reject_oversized_lengths : M machine unit :=
  let vk := var 0 in let sk := var 1 in let sig := var 2 in let out_sig := var 3 in let manager := var 4 in
  let ek := var 5 in let x := var 6 in let entropy := var 7 in let ct := var 8 in let xe := var 9 in
  let tag := var 10 in let out_tag := var 11 in
  let invalid := CInvalidLength in
  install_callbacks ;;
  dsa_keys x41 vk sk ;;
  store KSignature87 sig (zeros 4627) ;;
  assert_eq (shawncore_crypto_ml_dsa_sign sk HIGH OVER_SLICE_LIMIT out_sig) invalid ;;
  assert_eq (shawncore_crypto_ml_dsa_verify vk HIGH OVER_SLICE_LIMIT sig) invalid ;;
  assert_eq (shawncore_crypto_session_manager_init manager) CSuccess ;;
  kem_keys x03 ek ;;
  store KX25519Public x (replicate 32 x09) ;;
  bytes_var entropy (replicate 64 x22) ;;
  bytes_var tag (zeros 48) ;;
  bytes_var out_tag (zeros 48) ;;
  let body salt salt_len app app_len :=
    assert_eq (shawncore_crypto_session_manager_encapsulate_authenticated_v2 manager sk vk ek x entropy salt salt_len
                 app app_len ct xe out_sig tag) invalid ;;
    assert_eq (shawncore_crypto_session_manager_finalize_authenticated_v2 manager sk vk x ct sig tag salt salt_len app
                 app_len out_sig out_tag) invalid in
  body HIGH OVER_SLICE_LIMIT null 0 ;;
  body null 0 HIGH (u32_max + 1).

Definition a_range_that_wraps_the_address_space_is_rejected_where_no_overlap_check_exists : M machine unit :=
  let vk := var 0 in let sk := var 1 in let sig := var 2 in
  install_callbacks ;;
  dsa_keys x41 vk sk ;;
  store KSignature87 sig (zeros 4627) ;;
  assert_eq (shawncore_crypto_ml_dsa_verify vk (usize_max - 15) 32 sig) CInvalidLength.

Definition a_zero_length_range_never_overlaps_anything : M machine unit :=
  let p := var 0 in
  assert (negb (ranges_overlap (p + 16) 0 p 32)) ;;
  assert (negb (ranges_overlap p 32 (p + 16) 0)) ;;
  assert (negb (ranges_overlap (p + 8) 0 (p + 8) 0)) ;;
  assert (ranges_overlap p 32 (p + 31) 1).

Definition a_zero_length_input_may_point_inside_an_output_buffer : M machine unit :=
  let key := var 0 in let out := var 0 + 32 in
  install_callbacks ;;
  bytes_var key (zeros 80) ;;
  assert_eq (shawncore_crypto_hmac_sha384 key (out + 8) 0 out) CSuccess.

(** What the hook looks for, in the record of the callback. *)
Definition saw_empty (h : CHost) : bool :=
  existsb (fun e => match e with CEvFlush _ l => (length l =? 0)%nat | _ => false end) (c_trace h).

Definition the_cache_flush_callback_is_never_called_for_an_empty_range : M machine unit :=
  install_callbacks ;;
  let enc := replicate 32 x01 in let mac_key := replicate 32 x02 in let nonce := replicate 12 x03 in
  r ← on_platform (aead_encrypt enc mac_key nonce [] [] [] (zeros 48));
  let '(r, _, tag) := r in
  unwrap (mret r) ;;
  r ← on_platform (aead_decrypt enc mac_key nonce [] [] tag []);
  unwrap (mret r.1) ;;
  w ← get;
  assert (negb (saw_empty (platform w))).

Definition failed_packet_calls_leave_outputs_as_documented : M machine unit :=
  let m := var 0 in let ct := var 1 in let nonce := var 2 in let tag := var 3 in let pt := var 4 in
  let plain := var 5 in let enc := var 6 in let mac_key := var 7 in let aead_nonce := var 8 in
  install_callbacks ;;
  assert_eq (shawncore_crypto_session_manager_init m) CSuccess ;;
  bytes_var ct (replicate 8 xa5) ;;
  bytes_var nonce (replicate 12 xa5) ;;
  bytes_var tag (replicate 48 xa5) ;;
  bytes_var pt (replicate 8 x07) ;;
  assert_eq (shawncore_crypto_session_manager_encrypt_packet m null 0 pt ct 8 nonce tag) CInvalidState ;;
  assert_bytes ct (replicate 8 xa5) ;;
  assert_bytes nonce (replicate 12 xa5) ;;
  assert_bytes tag (replicate 48 xa5) ;;
  bytes_var plain (replicate 8 xa5) ;;
  assert_eq (shawncore_crypto_session_manager_decrypt_packet m null 0 pt 8 nonce tag plain) CInvalidState ;;
  assert_bytes plain (replicate 8 xa5) ;;
  bytes_var enc (replicate 32 x01) ;;
  bytes_var mac_key (replicate 32 x02) ;;
  bytes_var aead_nonce (replicate 12 x03) ;;
  assert_eq (shawncore_crypto_aead_decrypt enc mac_key aead_nonce null 0 pt tag plain 8) CVerificationFailed ;;
  assert_bytes plain (zeros 8).

(** The test up to its last request. *)
Definition rejected_arguments : M machine unit :=
  let key := var 0 in let out := var 1 in let enc := var 2 in let mac_key := var 3 in let nonce := var 4 in
  let buf := var 5 in let data := var 6 in let manager := var 7 in let x := var 8 in let kem_ct := var 9 in
  let nonce_out := var 10 in
  install_callbacks ;;
  bytes_var key (replicate 48 x01) ;;
  bytes_var out (zeros 48) ;;
  bytes_var enc (replicate 32 x01) ;;
  bytes_var mac_key (replicate 32 x02) ;;
  bytes_var nonce (replicate 12 x03) ;;
  bytes_var buf (zeros 4) ;;
  bytes_var data (zeros 4) ;;
  assert_eq (shawncore_crypto_session_manager_init manager) CSuccess ;;
  store KX25519Public x (replicate 32 x01) ;;
  store KCiphertext1024 kem_ct (replicate 1568 x02) ;;
  assert_eq (shawncore_crypto_hmac_sha384 key null 1 out) CInvalidState ;;
  assert_eq (shawncore_crypto_hkdf_expand_sha384 key null 1 out 8) CInvalidState ;;
  assert_eq (shawncore_crypto_aead_encrypt enc mac_key nonce null 0 null buf 4 out) CInvalidState ;;
  assert_eq (shawncore_crypto_aead_encrypt enc mac_key nonce null 1 data buf 4 out) CInvalidLength ;;
  assert_eq (shawncore_crypto_session_manager_finalize_handshake manager x kem_ct null 1 null 0) CInvalidLength ;;
  assert_eq (shawncore_crypto_session_manager_finalize_handshake null x kem_ct null 0 null 0) CInvalidState ;;
  bytes_var nonce_out (zeros 12) ;;
  let misaligned := 1 in
  assert_eq (shawncore_crypto_session_manager_encrypt_packet null null 0 data buf 4 nonce_out out) CInvalidLength ;;
  assert_eq (shawncore_crypto_session_manager_encrypt_packet misaligned null 0 data buf 4 nonce_out out)
    CInvalidLength.

Definition rejected_arguments_return_the_codes_the_header_documents : M machine unit :=
  let key := var 0 in let long := var 11 in
  rejected_arguments ;;
  bytes_var long (replicate over_limit xaa) ;;
  assert_eq (shawncore_crypto_hkdf_expand_sha384 key null 0 long (Z.of_nat over_limit)) CHkdfError ;;
  assert_bytes long (zeros over_limit).

End boundary.

(** * The tests *)

(** Every call is refused, or is answered before a primitive is used. *)
Definition refusals `{CryptoOps} : list (M machine unit) :=
  [session_ffi_rejects_overlapping_output_buffers;
   session_handshake_ffi_rejects_manager_input_overlap;
   keygen_ffi_rejects_overlapping_outputs;
   entropy_ffi_rejects_uniform_chunks;
   encoded_lengths_match_the_published_wire_sizes;
   wire_codec_rejects_misaligned_typed_outputs;
   wire_codec_rejects_null_wrong_length_and_overlap;
   session_manager_init_rejects_misaligned_storage;
   encapsulate_for_peer_rejects_misaligned_typed_pointers;
   aead_overlap_matrix_rejects_all_output_aliases;
   ranges_overlap_zero_length_cases;
   absurd_lengths_are_rejected_before_any_dereference;
   null_pointers_are_rejected_by_every_session_entry_point;
   entropy_push_rejects_null_and_degenerate_chunks;
   authenticated_entry_points_reject_null_misaligned_and_overlapping_arguments;
   length_bounds_are_exact;
   lengths_beyond_the_slice_limit_are_rejected_before_any_slice_is_formed;
   signature_and_authenticated_entry_points_reject_oversized_lengths;
   a_range_that_wraps_the_address_space_is_rejected_where_no_overlap_check_exists;
   a_zero_length_range_never_overlaps_anything].

Definition runs `{CryptoOps} : list (M machine unit) :=
  [aead_ffi_rejects_overlapping_buffers_and_round_trips;
   hmac_ffi_accepts_null_for_zero_length_data;
   kdf_and_aead_ffi_accept_null_for_zero_length_buffers;
   ml_dsa_ffi_accepts_null_for_zero_length_message;
   ml_kem_publickey_survives_a_wire_round_trip;
   ml_kem_ciphertext_survives_a_wire_round_trip;
   x25519_publickey_survives_a_wire_round_trip;
   ml_dsa_wire_round_trip;
   ml_kem_encapsulation_rejects_output_overlapping_public_key;
   c_abi_authenticated_handshake_round_trips_and_reports_distinct_failures;
   a_zero_length_input_may_point_inside_an_output_buffer;
   the_cache_flush_callback_is_never_called_for_an_empty_range;
   failed_packet_calls_leave_outputs_as_documented].

(** The two that fill a buffer of the largest size; proved by the lemmas below. *)
Definition limits `{CryptoOps} : list (M machine unit) :=
  [oversized_hkdf_request_fails_and_releases_no_key_material;
   rejected_arguments_return_the_codes_the_header_documents].

(** * Requests at the limit of HKDF *)

Section limit.
Context `{CryptoLaws}.

(** The machine a request finds: the test's storage, the key and the callback. *)
Definition ready (key : list byte) (w : machine) : bool :=
  bool_decide (storage (mem w) = storage (mem start)) && bool_decide (bytes_at (var 0) 48 (mem w) = Some key)
  && bool_decide (c_cache_flush (platform w) = Some CryptoTests.cache_flush).

Lemma ready_iff (key : list byte) (w : machine) :
  ready key w = true <-> storage (mem w) = storage (mem start) /\ bytes_at (var 0) 48 (mem w) = Some key /\
    c_cache_flush (platform w) = Some CryptoTests.cache_flush.
Proof. unfold ready. rewrite !andb_true_iff, !bool_decide_eq_true. tauto. Qed.

Lemma bytes_at_kept (p q n : Z) (k : nat) (m m' : cmem value) :
  untouched [(p, n)] m m' -> q + Z.of_nat k <= p -> bytes_at q k m' = bytes_at q k m.
Proof.
  intros U Hq. apply bytes_at_ext. intros a Ha. apply (un_bytes _ _ _ U).
  constructor; [|done]. unfold within in *. cbn. lia.
Qed.

(** A variable above the key is filled. *)
Lemma bytes_var_ready (key l : list byte) (p : Z) (w : machine) :
  ready key w = true -> var 1 <= p -> mapped p (zlen l) (mem start) = true ->
  exists w', bytes_var p l w = Done tt w' /\ ready key w' = true /\ bytes_at p (length l) (mem w') = Some l.
Proof.
  rewrite ready_iff. intros (Hs & Hk & Hf) Hp Hm. eexists. split; [apply copy_out_run|].
  - unfold mapped in *. by rewrite Hs.
  - split; [|apply bytes_at_put]. apply ready_iff. split_and!; [done| |done]. cbn [mem set_mem].
    rewrite <- Hk. eapply (bytes_at_kept p); [apply untouched_place_bytes|]. unfold var in *. lia.
Qed.

(** The expansion on its own. *)
Lemma hkdf_run (key l : list byte) (prk : Prk) (cb : CFnPtr) (h : CHost) :
  hkdf_from_prk key = Some prk -> c_cache_flush h = Some cb ->
  exists o h', hkdf_expand_sha384 key [] l h =
      Done (if decide (length l <= hkdf_max)%nat then Ok tt else Err HkdfError, o) h' /\
    c_cache_flush h' = Some cb /\ length o = length l /\ ((hkdf_max < length l)%nat -> o = zeros (length l)).
Proof.
  intros E Hf. unfold hkdf_expand_sha384. rewrite E. pose proof (hkdf_expand_ok prk [] (length l)) as Ok.
  destruct (hkdf_expand prk [] (length l)) as [o|] eqn:Eo.
  - apply hkdf_expand_len in Eo as Ho. assert (length l <= hkdf_max)%nat by (apply Ok; eauto).
    rewrite decide_True by done. exists o. eexists.
    erewrite mbind_done by (by apply secure_cache_flush_ok). split_and!; [done|done|done|lia].
  - rewrite decide_False by (intros Hx%Ok; by destruct Hx). exists (secure_zeroize l), h.
    unfold secure_zeroize. rewrite length_zeros. done.
Qed.

(** A request for [n] bytes: within the limit it succeeds, beyond it the buffer is zeroed. *)
Lemma hkdf_ready (key l : list byte) (p : Z) (n : nat) (w : machine) :
  ready key w = true -> var 1 <= p -> bytes_at p n (mem w) = Some l -> (0 < n)%nat ->
  range_ok p (Z.of_nat n) = true -> ranges_overlap p (Z.of_nat n) (var 0) 48 = false ->
  exists w' o, shawncore_crypto_hkdf_expand_sha384 (var 0) null 0 p (Z.of_nat n) w =
      Done (if decide (n <= hkdf_max)%nat then CSuccess else CHkdfError) w' /\
    ready key w' = true /\ bytes_at p n (mem w') = Some o /\ ((hkdf_max < n)%nat -> o = zeros n).
Proof.
  intros R Hp Hl Hn Hr Ho. pose proof R as (Hs & Hk & Hf)%ready_iff.
  assert (Hkey : length key = 48%nat) by (by apply bytes_at_Some in Hk as [? _]).
  assert (Hlen : length l = n) by (by apply bytes_at_Some in Hl as [? _]).
  destruct (proj2 (hkdf_prk_len key)) as [prk Eprk]; [lia|].
  unfold shawncore_crypto_hkdf_expand_sha384.
  assert (Hnull : is_null p = false) by (unfold is_null, var in *; lia).
  rewrite Hnull, Hr, Ho.
  replace (ranges_overlap p (Z.of_nat n) null 0) with false by (unfold ranges_overlap; by rewrite orb_true_r).
  change (is_null (var 0)) with false. change (range_ok null 0) with true.
  change (is_null null && (0 <? 0)) with false. cbn [orb andb negb].
  erewrite mbind_done by (by apply array_run).
  erewrite (mbind_done (slice_at null 0)) by done.
  unfold slice_at. rewrite (proj2 (Z.ltb_lt 0 (Z.of_nat n))), Nat2Z.id by lia.
  erewrite mbind_done by (by apply array_run).
  destruct (hkdf_run key l prk CryptoTests.cache_flush (platform w) Eprk Hf) as (o & h' & E & Hf' & Ho' & Hz).
  erewrite mbind_done by (unfold on_platform, zoom; rewrite E; reflexivity).
  rewrite Hlen in *. exists (set_mem (put_bytes p o (mem w)) (set_platform h' w)), o. split_and!; [by destruct decide| |by rewrite <- Ho'; apply bytes_at_put|done].
  apply ready_iff. split_and!; [done| |done]. cbn [mem set_mem]. rewrite <- Hk.
  eapply (bytes_at_kept p); [apply untouched_put_bytes|]. unfold var in *. lia.
Qed.

(** A test whose first part is evaluated and whose rest is not. *)
Lemma passes_after (prefix rest : M machine unit) (key : list byte) :
  match prefix start with Done _ w => ready key w | _ => false end = true ->
  (forall w, ready key w = true -> passes rest w = true) ->
  passes (prefix ;; rest) start = true.
Proof.
  intros E Hrest. destruct (prefix start) as [[] w| |] eqn:Ep; [|done|done].
  unfold passes. erewrite mbind_done by exact Ep. by apply Hrest.
Qed.

(** One variable filled and handed to a request beyond the limit. *)
Lemma over_limit_run (key : list byte) (p : Z) (w : machine) :
  ready key w = true -> p = var 1 \/ p = var 11 ->
  exists w1 w2, bytes_var p (replicate over_limit xaa) w = Done tt w1 /\
    shawncore_crypto_hkdf_expand_sha384 (var 0) null 0 p (Z.of_nat over_limit) w1 = Done CHkdfError w2 /\
    ready key w2 = true /\ array p (length (zeros over_limit)) w2 = Done (zeros over_limit) w2.
Proof.
  intros R Hp.
  destruct (bytes_var_ready key (replicate over_limit xaa) p w) as (w1 & E1 & R1 & B1); [done|..].
  { destruct Hp as [->| ->]; discriminate. }
  { unfold zlen. rewrite length_replicate. by destruct Hp as [->| ->]; vm_compute. }
  rewrite length_replicate in B1.
  destruct (hkdf_ready key (replicate over_limit xaa) p over_limit w1) as (w2 & o & E2 & R2 & B2 & Ho); [done|..].
  { destruct Hp as [->| ->]; discriminate. }
  { done. }
  { unfold over_limit. lia. }
  { by destruct Hp as [->| ->]; vm_compute. }
  { by destruct Hp as [->| ->]; vm_compute. }
  exists w1, w2. rewrite decide_False in E2 by (unfold over_limit, hkdf_max; lia). split_and!; try done.
  rewrite length_zeros. apply array_run. rewrite B2, Ho; [done|]. unfold over_limit, hkdf_max. lia.
Qed.

Lemma oversized_passes : passes oversized_hkdf_request_fails_and_releases_no_key_material start = true.
Proof.
  apply (passes_after _ _ (replicate 48 x42)); [by vm_compute|]. intros w R.
  destruct (over_limit_run _ (var 1) w R (or_introl eq_refl)) as (w1 & w2 & E1 & E2 & R2 & A2).
  destruct (bytes_var_ready (replicate 48 x42) (zeros at_limit) (var 2) w2) as (w3 & E3 & R3 & B3); [done|discriminate|by vm_compute|].
  rewrite length_zeros in B3.
  destruct (hkdf_ready (replicate 48 x42) (zeros at_limit) (var 2) at_limit w3) as (w4 & o & E4 & _ & _ & _);
    [done|discriminate|done|unfold at_limit; lia|by vm_compute|by vm_compute|].
  rewrite decide_True in E4 by (unfold at_limit, hkdf_max; lia).
  unfold passes. erewrite mbind_done by exact E1.
  erewrite mbind_done by (by eapply assert_ne_done). erewrite mbind_done by (by apply assert_eq_done).
  erewrite mbind_done by exact E3. cbv beta. by erewrite assert_eq_done by exact E4.
Qed.

Lemma rejected_arguments_pass : passes rejected_arguments_return_the_codes_the_header_documents start = true.
Proof.
  apply (passes_after _ _ (replicate 48 x01)); [by vm_compute|]. intros w R.
  destruct (over_limit_run _ (var 11) w R (or_intror eq_refl)) as (w1 & w2 & E1 & E2 & R2 & A2).
  unfold passes. erewrite mbind_done by exact E1.
  erewrite mbind_done by (by apply assert_eq_done). unfold assert_bytes. by erewrite assert_eq_done by exact A2.
Qed.

End limit.

(** * Evaluation *)

Lemma crypto_ffi_tests_pass_any (ops : CryptoOps) : pass_from start refusals = true.
Proof. vm_compute. reflexivity. Qed.

Lemma crypto_ffi_limits_pass `{CryptoLaws} : pass_from start limits = true.
Proof.
  exact (andb_true_intro (conj oversized_passes (andb_true_intro (conj rejected_arguments_pass eq_refl)))).
Qed.

Lemma crypto_ffi_tests_pass_mix : pass_from start (@runs mix_ops) = true.
Proof. vm_compute. reflexivity. Qed.

End CryptoFfiTests.
