(* ===== verification/UnitTests.v ===== *)
(** The repository's own unit tests, over the models: what the four test files evaluate,
    in one statement. *)

From S2P Require Import Prelude RtosHost Spsc RingBuffer Testing RtosTests RtosFfiTests.
From S2P Require Import CryptoHost Primitives MixCrypto Session EntropyQueue EntropyPool CryptoTests CryptoFfiTests.
Local Open Scope Z_scope.

Module UnitTests.

(** The tests of the rtos crate, and those of the crypto crate for given primitives. *)
Definition rtos_tests (slots : list (CacheAlignedSlot Z)) (fill : byte) (cb : FnPtr) : bool :=
  pass_from (Spsc.MkWorld Spsc.new slots host_boot) (RtosTests.Queue.tests cb) &&
  pass_from (Spsc.MkWorld RB.new slots host_boot) (RtosTests.Ring.tests 1 2) &&
  forallb id (RtosTests.Dmas.tests fill cb) &&
  pass_from RtosTests.Scheds.start (RtosTests.Scheds.tests 1) &&
  forallb id RtosTests.Small.tests &&
  pass_from RtosFfiTests.start (RtosFfiTests.tests cb).

Section crypto.
Context `{CryptoOps}.
Import CryptoTests CryptoFfiTests.

(** Tests that hold whatever the primitives answer. *)
Definition crypto_tests : bool :=
  pass_from (Sess.MkWorld Sess.new chost_boot) session_tests &&
  pass_from chost_boot constant_tests &&
  pass_from EQ.new queue_tests &&
  pass_from (Pool.MkWorld Pool.new EQ.new false chost_boot) pool_tests &&
  pass_from CryptoFfiTests.start refusals.

(** Tests in which the primitives work and a changed input shows. *)
Definition working_tests : bool :=
  pass_from chost_boot primitive_tests &&
  pass_from (Sess.MkWorld Sess.new chost_boot) keyed_tests &&
  pass_from (Pool.MkWorld Pool.new EQ.new false chost_boot) mixing_tests &&
  pass_from (MkPair Sess.new Sess.new chost_boot) pair_tests &&
  pass_from CryptoFfiTests.start runs.

End crypto.

(** The unit tests of both crates hold of the models: every one of the 113 translated
    tests ends with all its assertions true. Those of the rtos crate do so whatever the
    queues' storage holds, whatever fills the pool's region and wherever the host's
    callbacks are; those of the crypto crate that refuse a call or move counters, gates
    and queues do so for every choice of primitives; the others do so on an instance of
    the primitives that satisfies their laws. *)
Theorem unit_tests_pass :
  (forall s0 s1 s2 s3 fill cb, rtos_tests [s0; s1; s2; s3] fill cb = true) /\
  (forall ops : CryptoOps, crypto_tests = true) /\
  (exists ops : CryptoOps, CryptoLaws /\ working_tests = true).
Proof.
  split_and!.
  - intros s0 s1 s2 s3 fill cb. unfold rtos_tests.
    destruct (RtosTests.rtos_tests_pass s0 s1 s2 s3 fill cb) as (-> & -> & -> & -> & ->).
    rewrite (RtosFfiTests.rtos_ffi_tests_pass cb). reflexivity.
  - intros ops. unfold crypto_tests.
    destruct (CryptoTests.crypto_tests_pass_any ops) as (-> & -> & -> & ->).
    rewrite (CryptoFfiTests.crypto_ffi_tests_pass_any ops). reflexivity.
  - exists mix_ops. split; [exact mix_laws|]. unfold working_tests.
    destruct CryptoTests.crypto_tests_pass_mix as (-> & -> & -> & ->).
    rewrite CryptoFfiTests.crypto_ffi_tests_pass_mix. reflexivity.
Qed.

End UnitTests.
